(* ===== verification/_CoqProject ===== *)
-Q . S2P
Prelude.v
Utf8.v
Bufio.v
Float64.v
HessianConst.v
HessianPack.v
HessianValue.v
HessianEncode.v
HessianDecode.v
HessianScalar.v
Pojo.v
HessianEncoder.v
HessianDecoder.v
HessianTree.v
HessianObject.v
HessianTotal.v
HessianRequest.v
HessianResponse.v
HessianCodec.v
HessianFrame.v
Pool.v
Registry.v
Url.v
Common.v
Zookeeper.v
ZkRegistry.v
ZkAgree.v
ZkRestart.v
Selector.v
Cache.v
Watch.v
Rpc.v
RpcFrame.v
Client.v
Server.v
ServerSafe.v
Serve.v
ServeSafe.v
Publish.v
Json.v
JsonText.v
JsonCodec.v
JsonCall.v
Errors.v
Http.v
HttpText.v
HttpEnds.v
Net.v
Transport.v
TransportSafe.v
TcpCall.v
JsonClient.v
HttpCall.v
Listen.v
ServerOptions.v
ClientOptions.v
Gc.v
Calls.v
Deployed.v
Refused.v
