(* ===== verification/Prelude.v ===== *)
(** * dubbogo: a verification library

    A model in Rocq of dubbogo, a Go implementation of the dubbo RPC protocol,
    and theorems about it.  The program's parts and how they meet:

    - a server ([server/]) has a table of the methods that handlers registered;
      [Handle] announces them to the registry, and [handlePkg] serves the
      requests of a connection, one after the other;
    - the zookeeper registry ([registry/zk/]) keeps, for each service, a node per
      provider whose name is a URL; a consumer lists the nodes and watches them;
    - the selector ([selector/]) caches the providers that the registry gives,
      follows what the watchers send, and picks a provider per attempt;
    - the client ([client/]) takes a connection from the pool, and sends the
      request and reads the response on it;
    - the codec ([codec/hessian/]) turns the request into a dubbo package, whose
      body is a sequence of Hessian 2.0 values, and takes a response off the
      byte stream; another one ([codec/jsonrpc/]) does it with JSON texts;
    - the transports ([transport/]) carry the codecs' bytes as packages with a
      header, in HTTP messages or as they are, and accept the connections that
      the server serves.

    ** How it is modelled

    Go functions are functions on explicit state, [ST S A := S -> outcome A * S],
    whose outcome is a value, an error, a panic, or [NoFuel] where a step budget
    ran out.  Integers are [Z], wrapped at their width with [u8] ... [i64];
    strings and byte slices are lists of [Z] between 0 and 255.  Shared memory
    that the code writes to in place is a store of its own: the decoder's
    references ([HessianDecoder]), the pool's connections ([Pool]), the arrays
    of the cache's slices ([Cache]).  Variables that goroutines share are effects
    in the order of the code ([Watch], [Serve]).  Operations that hold a lock for
    their whole length are single steps; runs of them are [step] relations, as is
    a listener with the sockets beside it ([Listen]).
    Time, [rand.Int()], the order of a map's range, the growth of a slice, and
    what the network, zookeeper, reflection and the application answer are
    arguments, in classes with the laws that the theorems need.

    ** The files

    This file has the errors, outcomes, the state monad, the machine integers
    and the tactics that the others use.

    Values and bytes:
    - [Utf8], [Bufio], [Float64]: the parts of Go's library that the codec
      reads and writes with: runes, [bufio.Reader] with its 4096-byte buffer,
      the IEEE bits of doubles.
    - [HessianConst], [HessianPack]: [const.go] and the integers of [codec.go].
    - [HessianValue]: Go values with their types, as [reflect] shows them.
    - [HessianEncode], [HessianDecode]: the scalars of [encode.go] and
      [decode.go]; [HessianScalar] has their round trips.

    Composite values:
    - [Pojo]: the registry of classes of [pojo.go], as a state.
    - [HessianEncoder], [HessianDecoder]: [Encoder] and [Decoder] with lists,
      maps, classes, objects, enums and references.
    - [HessianTree], [HessianObject]: the round trips of trees of values and of
      objects; [HessianTotal]: that decoding ends.

    Packages:
    - [HessianRequest], [HessianResponse], [HessianCodec]: [request.go],
      [response.go] and [hessian.go]; [HessianFrame] has their theorems.

    The registry:
    - [Registry]: [registry/config.go] and the types of
      [registry/service_url.go]; [Url]: [NewServiceURL], with the parts of
      [net/url] that it and the registry use; [Common]: [common/misc.go],
      [version/], and Go's paths and decimal numbers.
    - [Zookeeper]: [zk_client.go] over the class [Zookeeper] of the library, the
      laws [ZkTree] of its tree, and a server that has them.
    - [ZkRegistry]: [registry.go], [provider.go] and [consumer.go]; [ZkAgree] and
      [ZkRestart] have their theorems.
    - [Watch]: [watch.go] and the consumer's [Watch].

    The client:
    - [Pool]: [client/rpc_pool.go].
    - [Selector]: [selector/mode.go]; [Cache]: [selector/cache/cache.go].
    - [Rpc]: [client/rpc_codec.go] and [client/rpc_stream.go] over the interfaces
      [Codec] and [TransportClient], as in the source, of which a codec keeps what
      it has read and a transport its connection; [RpcFrame] states what the stream
      needs of a codec as the class [CodecReads], and shows that the hessian codec has
      it.
    - [Client]: [call] of [client/rpc_client.go] with the pool, the header and the time
      limit, its loop of attempts, and the tables of [codec/const.go];
      [ClientOptions]: [client/options.go], [client/client.go], how a client is made
      and closed.
    - [Gc]: the goroutine [gc] and its channel beside the calls, a step relation.
    - [Calls]: [Call] as a whole, with the selector that it asks.

    The server:
    - [Server]: [server/rpc_server.go], [server/rpc_codec.go] and
      [server/rpc_stream.go] over a codec interface [ServerCodec]; a handler is
      its methods with their types and functions, and a connection is an instance
      of the class [Socket].  [ServerSafe] has its theorems.
    - [Serve]: [server/server.go] and [server/options.go] over the classes
      [ProviderRegistry] and [ServerTransport]; [ServeSafe] has its theorems, those
      on the loop over a connection for any socket with the laws [SocketEnds].
      The default codec, [jsonrpc.NewCodec], is an argument of both.
    - [ServerOptions]: [server/options.go] with the addresses of [GetLocalIP].
    - [Publish]: the zookeeper registry as the server's, and a consumer of it.

    JSON-RPC:
    - [Json]: Go's [encoding/json] as far as the codec uses it: the scanner,
      strings, members, structs, [Compact] and the [Decoder] over a buffer;
      [JsonText]: what was written is read back.
    - [JsonCodec]: [codec/jsonrpc/], an instance of [ServerCodec], with
      [json.Marshal] and [json.Unmarshal] of the application's values as the class
      [JsonValues]; [JsonCall]: its theorems, with the server of [Serve] at the
      other end.

    Errors:
    - [Errors]: [common/errors.go], whose texts are JSON.

    The transports:
    - [Http]: what Go's [net/http] writes and reads: headers, requests and responses,
      bodies of known length, in chunks, or to the end of the connection.
      [HttpText]: what was written is read back; [HttpEnds]: reading ends.
    - [Net]: connections as bytes in and out, and [common/net.go].
    - [Transport]: [transport/]: the clients, sockets, [Dial], [Listen] and [Accept] of
      HTTP and TCP, and the instances [HttpSocket] and [TcpSocket] of [Socket].
      [TransportSafe] and [Listen] have their theorems.
    - [TcpCall], [JsonClient], [HttpCall]: the two ways to call, put together from
      the parts: the hessian codec as it is over TCP, and the JSON-RPC codec, which
      [JsonClient] shows to be a client's [Codec], over HTTP.
    - [Deployed]: a server, the registry, the selector and a client over JSON-RPC;
      [Refused]: what becomes of them when a service is registered again.

    ** What is shown

    - The whole program: a handler that a server handles is found, chosen and called
      by the clients that ask for its service ([handled_is_called]), and after it was
      registered again it is found and refused ([registered_again_refused]); a call over
      JSON-RPC and HTTP ([json_over_http]) and one over hessian and TCP
      ([dubbo_over_tcp]), from the caller's argument to the caller's variable, with the
      bytes on the connection between.
    - Round trips: each scalar, with the inputs that do not come back (negative
      compact integers, some doubles); trees of lists and maps
      ([decode_encode]); objects of registered classes ([objects_roundtrip]);
      the arguments of a request ([request_body_decodes]); the value of a
      response, from the bytes to the caller's variable ([response_delivers]);
      and a whole call ([exchange_delivers]); queries of URLs
      ([ParseQuery_Encode]); a time limit in a header ([deadline_agrees]).
    - Framing: what a package consists of, and that exactly one response is
      taken off the stream; what happens to responses that come in pieces or
      are too long ([split_response_fails], [big_response_waits]).
    - Termination: the decoder ([Decode_terminates]) and the server's loop over a
      connection ([handlePkg_ends]).  Every loop with fuel is called with a fuel
      that these lemmas show to be enough: the number of bytes left for the
      scalars' loops, a linear function of it for [Decode], the number of
      packages to come for the loops of the stream and of the server.
    - The registry: what is registered is found by the consumers of the same
      configuration ([registered_is_found]), from a server's [Handle] on and with
      the methods that the server can call ([handled_is_found]); which of several
      providers at an address a consumer gets ([GetServices_last]); what [Create]
      makes of the tree ([Create_makes]); the life of a connection
      ([conn_closed_once]) and of reconnections ([first_restart_registers],
      [second_restart_never_ends], [delay_bounded]).
    - Watching: the cache lists the providers' nodes after they changed
      ([cache_follows_children]), and where it does not
      ([one_node_watched_for_all], [last_provider_unreported]).
    - The pool: a connection is handed out to one call at a time and is open
      ([getConn_exclusive]); and that the collection of streams closes what the
      pool keeps ([calls_dial], [gc_closes_in_use]).
    - The cache: in-place updates of shared arrays refine operations on a map of
      lists ([update_refines], [get_refines]); after any events the cache lists
      what the registry last said ([watch_follows]); callers' lists are not
      changed under them ([get_isolated]) except in one case ([stale_alias]).
    - The client: retries ([Call_retries]), selection ([Select_next],
      [roundRobin_fair]), and the course of one call ([call_outcome]), after which the
      client is at rest and its connection closed; that the collector is a run
      of the pool ([gc_refines_pool]), closes what it is sent ([gc_drains]), and leaves
      calls behind when the client is closed ([closed_client_stuck]).
    - The server: functions in the table are called with arguments of their
      types ([dispatch_typed]), up to the context's ([context_unchecked]);
      requests are answered in their order ([requests_in_order]), unknown ones
      with an error ([serve_unknown]); what [Handle] and [Start] leave behind
      ([Handle_two_groups], [Start_shares], [Stop_closes]).
    - JSON-RPC: a call from the client's codec through the server to the client
      ([json_call]); no package makes the server panic or hang
      ([json_serves]); bodies that are no requests get no answer
      ([malformed_unsent]), and neither do nil parameters
      ([nil_params_refused]).  The scanner's fuel is twice the length of its
      text, and more of it changes no answer; the decoder's is the number of
      number of bytes that have come ([readValue_halts]).
    - The transports: a package and its answer go over HTTP ([http_exchange]);
      the loop over an HTTP connection
      ends whatever bytes come, and gives back what it holds
      ([http_connection_ends]), the fuel of every reader being the number of bytes
      left; what becomes of the headers of later requests ([first_header_stays]),
      of calls without metadata ([no_metadata_unserved]), of closed clients
      ([closed_client]) and of servers over TCP ([tcp_serves_nothing]).
    - Listeners: the port that is bound ([listen_first_port]), how many connections
      are served ([http_accept_bounded], [tcp_accept_exhausted]), and the address
      that is announced ([GetLocalIP_private], [no_private_address]).
    - Errors are read back from their texts ([Parse_Error]).

    ** What is not modelled

    Of the JSON-RPC codec, [ServerError] and the branch of [Error.Error] for
    data that cannot be marshalled.  In [handled_is_called] the bytes that the client
    sends are those that the server reads and the other way round; the listener that
    hands the connection over is in [Listen] and [Start_shares] only, and the registry's
    answer comes to the selector when it asks, not through the watcher of [Watch].
    Of [net/http], host names outside ASCII, [Expect] and what a server of Go's
    own would do.  The connection of [Net] answers a read beyond what has come
    with the connection's end; the wait before it and the clock that ends it are
    not there.  Logging, a socket's addresses, [Future] and the goroutine's number
    are left out.  The client's errors of [Client] are without their detail.  The
    exchange of a call whose context ends first goes on in its goroutine; the
    model stops where [call] returns. *)
From stdpp Require Export base list strings gmap.
From Stdlib Require Export ZArith Lia.

#[global] Open Scope Z_scope.

(** ** Errors and outcomes *)

(** A Go [error] value.  [Errorf] keeps the format string of a
    [jerrors.Errorf]/[errors.New] and leaves the formatted arguments out;
    [Text] is an error that is its text, [Coded] a [*common.Error] without its
    detail; [Traced] is [jerrors.Trace]/[Annotatef], which wraps its argument in a new
    value, so that [err == io.EOF] is false of a traced EOF. *)
Inductive goerr :=
| EOF
| UnexpectedEOF
| ErrBufferFull
| Errorf (fmt : string)
| Text (s : list Z)
| Coded (id : string) (code : Z)
| Traced (e : goerr).

#[export] Instance goerr_eq_dec : EqDecision goerr.
Proof. solve_decision. Defined.

(** [len(err.Error()) == 0]: tracing keeps the text, and a [*common.Error]'s is
    a JSON object. *)
Fixpoint error_empty (e : goerr) : bool :=
  match e with
  | Errorf "" | Text [] => true
  | Traced e => error_empty e
  | _ => false
  end.

(** What a Go call does: it returns a value, returns an error, or panics.
    [NoFuel] is the model's own answer for an exhausted step budget; the
    termination theorems show where it cannot occur. *)
Inductive outcome (A : Type) :=
| Ret (a : A)
| Fail (e : goerr)
| Panic
| NoFuel.
Arguments Ret {A} a.
Arguments Fail {A} e.
Arguments Panic {A}.
Arguments NoFuel {A}.

(** ** State passing with errors and panics *)

Definition ST (S A : Type) : Type := S -> outcome A * S.

Definition ret {S A} (a : A) : ST S A := fun s => (Ret a, s).
Definition fail {S A} (e : goerr) : ST S A := fun s => (Fail e, s).
Definition panic {S A} : ST S A := fun s => (Panic, s).
Definition nofuel {S A} : ST S A := fun s => (NoFuel, s).

Definition bind {S A B} (m : ST S A) (k : A -> ST S B) : ST S B :=
  fun s => match m s with
           | (Ret a, s') => k a s'
           | (Fail e, s') => (Fail e, s')
           | (Panic, s') => (Panic, s')
           | (NoFuel, s') => (NoFuel, s')
           end.

(** [x, _ = m]: the error is dropped and the zero value [a0] is used. *)
Definition or_zero {S A} (a0 : A) (m : ST S A) : ST S A :=
  fun s => match m s with
           | (Fail _, s') => (Ret a0, s')
           | r => r
           end.

(** [if err != nil { return h(err) }]. *)
Definition on_err {S A} (m : ST S A) (h : goerr -> ST S A) : ST S A :=
  fun s => match m s with
           | (Fail e, s') => h e s'
           | r => r
           end.

(** [jerrors.Trace(err)] around a returned error. *)
Definition trace {S A} (m : ST S A) : ST S A := on_err m (fun e => fail (Traced e)).

(** A call whose own state is threaded elsewhere. *)
Definition of_outcome {S A} (o : outcome A) : ST S A := fun s => (o, s).

Definition get {S} : ST S S := fun s => (Ret s, s).
Definition put {S} (s' : S) : ST S unit := fun _ => (Ret tt, s').

Declare Scope go_scope.
Delimit Scope go_scope with go.
Notation "x <- m ;; k" := (bind m (fun x => k))
  (at level 60, m at next level, right associativity) : go_scope.
Notation "m ;;; k" := (bind m (fun _ => k))
  (at level 60, right associativity) : go_scope.
#[global] Open Scope go_scope.

(** ** Pure functions that can fail *)

(** What a call without state returns: an error or a value. *)
Abbreviation result A := (goerr + A)%type.

Definition rbind {A B} (m : result A) (k : A -> result B) : result B :=
  match m with
  | inr a => k a
  | inl e => inl e
  end.

Notation "x <~ m ;; k" := (rbind m (fun x => k))
  (at level 60, m at next level, right associativity) : go_scope.

(** ** Machine integers *)

(** The value of [z] reduced to an unsigned, resp. two's complement signed,
    integer of [w] bits: what Go's conversions and wrapping operators do. *)
Definition wrap (w z : Z) : Z := z mod 2 ^ w.
Definition swrap (w z : Z) : Z := (z + 2 ^ (w - 1)) mod 2 ^ w - 2 ^ (w - 1).

Definition u8 : Z -> Z := wrap 8.
Definition u16 : Z -> Z := wrap 16.
Definition u32 : Z -> Z := wrap 32.
Definition u64 : Z -> Z := wrap 64.
Definition i8 : Z -> Z := swrap 8.
Definition i16 : Z -> Z := swrap 16.
Definition i32 : Z -> Z := swrap 32.
Definition i64 : Z -> Z := swrap 64.

Definition is_i32 (z : Z) : Prop := - 2 ^ 31 <= z < 2 ^ 31.
Definition is_i64 (z : Z) : Prop := - 2 ^ 63 <= z < 2 ^ 63.
Definition is_byte (z : Z) : Prop := 0 <= z < 256.

(** A Go string or [[]byte]: its bytes. *)
Abbreviation bytes := (list Z).

(** The bytes of a literal. *)
Fixpoint lit (s : string) : bytes :=
  match s with
  | EmptyString => []
  | String c s => Z.of_N (Ascii.N_of_ascii c) :: lit s
  end.

Definition between (a b c : Z) : bool := (a <=? c) && (c <=? b).
Definition is_digit (c : Z) : bool := between 48 57 c.

Lemma between_spec a b c : between a b c = true <-> a <= c <= b.
Proof. unfold between. rewrite andb_true_iff, !Z.leb_le. done. Qed.

(** Boolean tests of the code, reflected in the context. *)
Ltac zify_bool :=
  repeat match goal with
  | H : (_ && _)%bool = true |- _ => apply andb_true_iff in H; destruct H
  | H : (_ || _)%bool = false |- _ => apply orb_false_iff in H; destruct H
  | H : (_ <=? _) = true |- _ => apply Z.leb_le in H
  | H : (_ <=? _) = false |- _ => apply Z.leb_gt in H
  | H : (_ <? _) = true |- _ => apply Z.ltb_lt in H
  | H : (_ <? _) = false |- _ => apply Z.ltb_ge in H
  | H : (_ =? _) = true |- _ => apply Z.eqb_eq in H
  | H : (_ =? _) = false |- _ => apply Z.eqb_neq in H
  end.

(** ** Lemmas on machine integers *)

Lemma wrap_id w z : 0 <= z < 2 ^ w -> wrap w z = z.
Proof. apply Z.mod_small. Qed.

Lemma wrap_range w z : 0 <= w -> 0 <= wrap w z < 2 ^ w.
Proof. intros. apply Z.mod_pos_bound. lia. Qed.

Lemma swrap_id w z : 0 < w -> - 2 ^ (w - 1) <= z < 2 ^ (w - 1) -> swrap w z = z.
Proof.
  intros Hw Hz. unfold swrap.
  replace (2 ^ w) with (2 * 2 ^ (w - 1)) by (rewrite <- Z.pow_succ_r by lia; f_equal; lia).
  rewrite Z.mod_small; lia.
Qed.

Lemma swrap_wrap w z : 0 < w -> swrap w (wrap w z) = swrap w z.
Proof.
  intros Hw. unfold swrap, wrap. by rewrite Zplus_mod_idemp_l.
Qed.

Lemma i32_id z : is_i32 z -> i32 z = z.
Proof. apply (swrap_id 32). lia. Qed.
Lemma i64_id z : is_i64 z -> i64 z = z.
Proof. apply (swrap_id 64). lia. Qed.
Lemma i32_wrap z : i32 (wrap 32 z) = i32 z.
Proof. by apply (swrap_wrap 32). Qed.
Lemma i64_wrap z : i64 (wrap 64 z) = i64 z.
Proof. by apply (swrap_wrap 64). Qed.
Lemma u8_id z : is_byte z -> u8 z = z.
Proof. apply (wrap_id 8). Qed.
Lemma u8_byte z : is_byte (u8 z).
Proof. apply (wrap_range 8). lia. Qed.
Lemma i32_is_i32 z : is_i32 (i32 z).
Proof. unfold i32, swrap, is_i32. pose proof (Z.mod_pos_bound (z + 2 ^ (32 - 1)) (2 ^ 32)). lia. Qed.
Lemma i64_is_i64 z : is_i64 (i64 z).
Proof. unfold i64, swrap, is_i64. pose proof (Z.mod_pos_bound (z + 2 ^ (64 - 1)) (2 ^ 64)). lia. Qed.

(** A disjunction of a shifted word and a shorter one is their sum. *)
Lemma lor_shiftl a b n :
  0 <= n -> 0 <= a < 2 ^ n -> Z.lor (Z.shiftl b n) a = b * 2 ^ n + a.
Proof.
  intros Hn Ha. rewrite Z.shiftl_mul_pow2 by done.
  rewrite <- Z.lxor_lor, Z.add_nocarry_lxor; [done|..].
  all: apply Z.bits_inj'; intros i Hi; rewrite Z.land_spec, Z.bits_0.
  all: destruct (decide (i < n)).
  all: try (rewrite Z.mul_pow2_bits_low by lia; done).
  all: rewrite <- (Z.mod_small a (2 ^ n)) by done.
  all: rewrite Z.mod_pow2_bits_high by lia; apply andb_false_r.
Qed.

Create Rewrite HintDb len.
Create HintDb go.
#[export] Hint Rewrite @length_app @length_cons @length_nil @length_take @length_drop
  @length_fmap @length_reverse @length_replicate : len.

#[export] Hint Resolve u8_byte i32_is_i32 i64_is_i64 : go.
