(* ===== verification/Utf8.v ===== *)
(** * Runes and UTF-8

    What the code uses of Go's [unicode/utf8] package: [FullRune],
    [DecodeRune], [RuneCount], and the conversion [string(r)] of a rune.
    Strings are lists of bytes, runes are integers. *)
From S2P Require Import Prelude.

Definition RuneError : Z := 0xFFFD.

(** The table of first bytes: the length of the sequence a byte starts and
    the range its second byte must be in; a length of [1] with [None] is a
    byte that starts no sequence. *)
Definition first_info (b : Z) : Z * option (Z * Z) :=
  if b <? 0x80 then (1, Some (0, 0))
  else if b <? 0xC2 then (1, None)
  else if b <? 0xE0 then (2, Some (0x80, 0xBF))
  else if b =? 0xE0 then (3, Some (0xA0, 0xBF))
  else if b =? 0xED then (3, Some (0x80, 0x9F))
  else if b <? 0xF0 then (3, Some (0x80, 0xBF))
  else if b =? 0xF0 then (4, Some (0x90, 0xBF))
  else if b <? 0xF4 then (4, Some (0x80, 0xBF))
  else if b =? 0xF4 then (4, Some (0x80, 0x8F))
  else (1, None).

Definition outside (b lo hi : Z) : bool := (b <? lo) || (hi <? b).
Arguments outside : simpl never.

Definition FullRune (p : bytes) : bool :=
  match p with
  | [] => false
  | b0 :: t =>
      let '(sz, acc) := first_info b0 in
      if sz <=? Z.of_nat (length p) then true
      else match acc, t with
           | Some (lo, hi), b1 :: t' =>
               if outside b1 lo hi then true
               else match t' with
                    | b2 :: _ => outside b2 0x80 0xBF
                    | [] => false
                    end
           | _, _ => false
           end
  end.

(** [DecodeRune p]: the first rune of [p] and its width in bytes. *)
Definition DecodeRune (p : bytes) : Z * nat :=
  match p with
  | [] => (RuneError, 0%nat)
  | b0 :: t =>
      let '(sz, acc) := first_info b0 in
      match acc with
      | None => (RuneError, 1%nat)
      | Some (lo, hi) =>
          if sz =? 1 then (b0, 1%nat)
          else if Z.of_nat (length p) <? sz then (RuneError, 1%nat)
          else match t with
          | b1 :: t' =>
              if outside b1 lo hi then (RuneError, 1%nat)
              else if sz =? 2 then
                (Z.lor (Z.shiftl (Z.land b0 0x1F) 6) (Z.land b1 0x3F), 2%nat)
              else match t' with
              | b2 :: t'' =>
                  if outside b2 0x80 0xBF then (RuneError, 1%nat)
                  else if sz =? 3 then
                    (Z.lor (Z.shiftl (Z.lor (Z.shiftl (Z.land b0 0x0F) 6)
                                            (Z.land b1 0x3F)) 6)
                           (Z.land b2 0x3F), 3%nat)
                  else match t'' with
                  | b3 :: _ =>
                      if outside b3 0x80 0xBF then (RuneError, 1%nat)
                      else
                        (Z.lor (Z.shiftl (Z.lor (Z.shiftl (Z.lor (Z.shiftl (Z.land b0 0x07) 6)
                                                                 (Z.land b1 0x3F)) 6)
                                                (Z.land b2 0x3F)) 6)
                               (Z.land b3 0x3F), 4%nat)
                  | [] => (RuneError, 1%nat)
                  end
              | [] => (RuneError, 1%nat)
              end
          | [] => (RuneError, 1%nat)
          end
      end
  end.

Definition is_surrogate (r : Z) : bool := (0xD800 <=? r) && (r <=? 0xDFFF).

(** The bytes of [string(r)] (and of [utf8.EncodeRune]). *)
Definition EncodeRune (r : Z) : bytes :=
  let cont x := Z.lor 0x80 (Z.land x 0x3F) in
  if (0 <=? r) && (r <=? 0x7F) then [r]
  else if (0 <=? r) && (r <=? 0x7FF) then [Z.lor 0xC0 (Z.shiftr r 6); cont r]
  else if (r <? 0) || (0x10FFFF <? r) || is_surrogate r then [0xEF; 0xBF; 0xBD]
  else if r <=? 0xFFFF then
    [Z.lor 0xE0 (Z.shiftr r 12); cont (Z.shiftr r 6); cont r]
  else
    [Z.lor 0xF0 (Z.shiftr r 18); cont (Z.shiftr r 12); cont (Z.shiftr r 6); cont r].

(** [string(rs)] for a slice of runes. *)
Definition encode_runes (rs : list Z) : bytes := concat (map EncodeRune rs).

(** The runes of a string, in order, as repeated [DecodeRune] finds them. *)
Fixpoint runes_aux (fuel : nat) (p : bytes) : list Z :=
  match fuel with
  | O => []
  | S n => match p with
           | [] => []
           | _ => let '(r, sz) := DecodeRune p in r :: runes_aux n (drop sz p)
           end
  end.
Definition runes (p : bytes) : list Z := runes_aux (length p) p.

Definition RuneCount (p : bytes) : Z := Z.of_nat (length (runes p)).

(** A Unicode scalar value: the runes that UTF-8 represents. *)
Definition scalar (r : Z) : bool :=
  (0 <=? r) && (r <=? 0x10FFFF) && negb (is_surrogate r).

(** ** Lemmas *)

Lemma land_3F x : Z.land x 0x3F = x mod 64.
Proof. apply (Z.land_ones x 6). lia. Qed.
Lemma land_1F x : Z.land x 0x1F = x mod 32.
Proof. apply (Z.land_ones x 5). lia. Qed.
Lemma land_0F x : Z.land x 0x0F = x mod 16.
Proof. apply (Z.land_ones x 4). lia. Qed.
Lemma land_07 x : Z.land x 0x07 = x mod 8.
Proof. apply (Z.land_ones x 3). lia. Qed.

Lemma lor_head h n x : 0 <= n -> 0 <= x < 2 ^ n -> Z.lor (h * 2 ^ n) x = h * 2 ^ n + x.
Proof. intros Hn Hx. rewrite <- Z.shiftl_mul_pow2 by done. rewrite lor_shiftl by done. by rewrite Z.shiftl_mul_pow2. Qed.

Lemma lor_80 x : 0 <= x < 64 -> Z.lor 0x80 x = 128 + x.
Proof. apply (lor_head 2 6). lia. Qed.
Lemma lor_C0 x : 0 <= x < 32 -> Z.lor 0xC0 x = 192 + x.
Proof. apply (lor_head 6 5). lia. Qed.
Lemma lor_E0 x : 0 <= x < 16 -> Z.lor 0xE0 x = 224 + x.
Proof. apply (lor_head 14 4). lia. Qed.
Lemma lor_F0 x : 0 <= x < 8 -> Z.lor 0xF0 x = 240 + x.
Proof. apply (lor_head 30 3). lia. Qed.

Lemma lor_6 a b : 0 <= b < 64 -> Z.lor (Z.shiftl a 6) b = a * 64 + b.
Proof. intros. by apply (lor_shiftl b a 6). Qed.

Definition cont_byte (x : Z) : Z := 128 + x mod 64.

(** The encoder's bytes in arithmetic form, by range of the rune. *)
Lemma EncodeRune_arith r :
  scalar r = true ->
  EncodeRune r =
    if r <? 0x80 then [r]
    else if r <? 0x800 then [192 + r / 64; cont_byte r]
    else if r <? 0x10000 then [224 + r / 4096; cont_byte (r / 64); cont_byte r]
    else [240 + r / 262144; cont_byte (r / 4096); cont_byte (r / 64); cont_byte r].
Proof.
  unfold scalar, EncodeRune, cont_byte. intros H. zify_bool.
  apply negb_true_iff in H0. rewrite H0.
  rewrite !land_3F, !Z.shiftr_div_pow2 by lia.
  change (2 ^ 6) with 64; change (2 ^ 12) with 4096; change (2 ^ 18) with 262144.
  rewrite !lor_80 by (apply Z.mod_pos_bound; lia).
  repeat match goal with
  | |- context [if ?b then _ else _] => destruct b eqn:?; zify_bool; try lia
  end; try done.
  - rewrite lor_C0; [done|]. Z.div_mod_to_equations; lia.
  - rewrite lor_E0; [done|]. Z.div_mod_to_equations; lia.
  - rewrite lor_F0; [done|]. Z.div_mod_to_equations; lia.
Qed.

Lemma cont_byte_range x : 128 <= cont_byte x < 192.
Proof. unfold cont_byte. pose proof (Z.mod_pos_bound x 64). lia. Qed.

Lemma outside_false b lo hi : lo <= b <= hi -> outside b lo hi = false.
Proof. unfold outside. intros. apply orb_false_iff. rewrite !Z.ltb_ge. lia. Qed.

(** Case analysis on the tests of a goal, the accept ranges apart. *)
Ltac ite := cbn; repeat match goal with
  | |- context [if outside ?b ?lo ?hi then _ else _] =>
      rewrite (outside_false b lo hi) by (unfold cont_byte in *; Z.div_mod_to_equations; lia)
  | |- context [if ?b then _ else _] =>
      lazymatch b with outside _ _ _ => fail | _ => idtac end;
      let E := fresh "E" in destruct b eqn:E; zify_bool; try lia
  end.

(** [DecodeRune] undoes the encoding of a scalar value, whatever follows. *)
Lemma DecodeRune_EncodeRune r q :
  scalar r = true ->
  DecodeRune (EncodeRune r ++ q) = (r, length (EncodeRune r)).
Proof.
  intros Hs. rewrite EncodeRune_arith by done.
  unfold scalar, is_surrogate in Hs. zify_bool.
  apply negb_true_iff, andb_false_iff in H0.
  assert (Hsur : r < 0xD800 \/ 0xDFFF < r)
    by (destruct H0 as [H0|H0]; zify_bool; lia).
  clear H0. pose proof (cont_byte_range r) as C0.
  pose proof (cont_byte_range (r / 64)) as C1.
  pose proof (cont_byte_range (r / 4096)) as C2.
  unfold DecodeRune, first_info.
  destruct (r <? 0x80) eqn:E1; zify_bool; [ite; done|].
  destruct (r <? 0x800) eqn:E2; zify_bool.
  { assert (2 <= r / 64 < 32) by (Z.div_mod_to_equations; lia).
    ite. f_equal. rewrite land_1F, land_3F, lor_6 by (apply Z.mod_pos_bound; lia).
    unfold cont_byte. Z.div_mod_to_equations; lia. }
  destruct (r <? 0x10000) eqn:E3; zify_bool.
  { assert (0 <= r / 4096 < 16) by (Z.div_mod_to_equations; lia).
    assert (Hd : Z.lor (Z.shiftl (Z.lor (Z.shiftl (Z.land (224 + r / 4096) 15) 6)
              (Z.land (cont_byte (r / 64)) 63)) 6) (Z.land (cont_byte r) 63) = r).
    { rewrite land_0F, !land_3F, !lor_6 by (apply Z.mod_pos_bound; lia).
      unfold cont_byte. Z.div_mod_to_equations; lia. }
    ite; by rewrite Hd. }
  assert (0 <= r / 262144 < 5) by (Z.div_mod_to_equations; lia).
  assert (Hd : Z.lor (Z.shiftl (Z.lor (Z.shiftl (Z.lor (Z.shiftl
     (Z.land (240 + r / 262144) 7) 6) (Z.land (cont_byte (r / 4096)) 63)) 6)
       (Z.land (cont_byte (r / 64)) 63)) 6) (Z.land (cont_byte r) 63) = r).
  { rewrite land_07, !land_3F, !lor_6 by (apply Z.mod_pos_bound; lia).
    unfold cont_byte. Z.div_mod_to_equations; lia. }
  ite; by rewrite Hd.
Qed.

Lemma EncodeRune_length r : (1 <= length (EncodeRune r) <= 4)%nat.
Proof. unfold EncodeRune. repeat case_match; simpl; lia. Qed.

Lemma EncodeRune_app_nonnil r q : EncodeRune r ++ q <> [].
Proof.
  pose proof (EncodeRune_length r) as H. intros E%app_eq_nil. destruct E as [E _].
  rewrite E in H. cbn in H. lia.
Qed.

Lemma EncodeRune_bytes r : Forall is_byte (EncodeRune r).
Proof.
  assert (Hc : forall x, is_byte (Z.lor 0x80 (Z.land x 0x3F))).
  { intros x. rewrite land_3F, lor_80 by (apply Z.mod_pos_bound; lia).
    pose proof (Z.mod_pos_bound x 64). unfold is_byte; lia. }
  unfold EncodeRune, is_surrogate in *.
  repeat (case_match; zify_bool); repeat (apply Forall_cons; split); try done.
  all: unfold is_byte; rewrite ?Z.shiftr_div_pow2 by lia; try lia.
  all: change (2 ^ 6) with 64; change (2 ^ 12) with 4096; change (2 ^ 18) with 262144.
  - rewrite lor_C0; Z.div_mod_to_equations; lia.
  - rewrite lor_E0; Z.div_mod_to_equations; lia.
  - rewrite lor_F0; Z.div_mod_to_equations; lia.
Qed.

(** A rune takes at least one byte and no more than there are. *)
Lemma DecodeRune_width p :
  p <> [] -> (1 <= (DecodeRune p).2 <= length p)%nat.
Proof.
  intros Hp. destruct p as [|b0 t]; [done|]. unfold DecodeRune.
  destruct (first_info b0) as [sz [[lo hi]|]].
  - repeat (case_match; subst; zify_bool); cbn [snd length] in *; lia.
  - cbn [snd length]. lia.
Qed.

Lemma first_info_size b : 1 <= (first_info b).1 <= 4.
Proof. unfold first_info. repeat (case_match; try (simpl; lia)). Qed.

(** A prefix that holds a full rune decodes as the whole input does. *)
Lemma FullRune_DecodeRune p q :
  FullRune p = true -> DecodeRune (p ++ q) = DecodeRune p.
Proof.
  destruct p as [|b0 t]; [done|]. unfold FullRune, DecodeRune. rewrite <- app_comm_cons.
  pose proof (first_info_size b0) as Hsz.
  destruct (first_info b0) as [sz [[lo hi]|]]; [|done]. cbn [fst] in Hsz.
  destruct (sz =? 1) eqn:E1; [done|]. zify_bool. rewrite !length_cons, length_app.
  destruct (sz <=? _) eqn:El; zify_bool; intros Hf.
  - rewrite !(proj2 (Z.ltb_ge _ _)) by lia.
    destruct t as [|b1 [|b2 [|b3 t]]]; cbn in *; try lia.
    all: destruct (outside b1 lo hi); [done|].
    all: destruct (sz =? 2) eqn:E2; [done|]; zify_bool; try lia.
    all: destruct (outside b2 _ _); [done|].
    all: destruct (sz =? 3) eqn:E3; [done|]; zify_bool; try lia.
    done.
  - rewrite (proj2 (Z.ltb_lt (Z.of_nat (S (length t))) sz)) by lia.
    destruct (_ <? sz); [done|].
    destruct t as [|b1 t]; [done|]. cbn in *.
    destruct (outside b1 lo hi); [done|].
    destruct t as [|b2 t]; [done|]. cbn in *.
    destruct (sz =? 2) eqn:E2; zify_bool; [lia|]. by rewrite Hf.
Qed.

Lemma FullRune_long p : (4 <= length p)%nat -> FullRune p = true.
Proof.
  destruct p as [|b0 t]; [simpl; lia|]. intros H. unfold FullRune.
  pose proof (first_info_size b0). destruct (first_info b0) as [sz acc].
  simpl in *. destruct (sz <=? _) eqn:E; zify_bool; [done|lia].
Qed.

Lemma runes_aux_fuel n m p :
  (length p <= n)%nat -> (length p <= m)%nat -> runes_aux n p = runes_aux m p.
Proof.
  revert m p. induction n as [|n IH]; intros m p Hn Hm.
  - destruct p; [|simpl in *; lia]. by destruct m.
  - destruct m as [|m].
    { destruct p; [done|simpl in *; lia]. }
    simpl. destruct p as [|b t] eqn:Ep; [done|]. rewrite <- Ep in *.
    pose proof (DecodeRune_width p). destruct (DecodeRune p) as [r sz]. simpl in *.
    f_equal.
    destruct H as [? ?]; [by subst|]. apply IH; rewrite length_drop; lia.
Qed.

Lemma runes_cons p :
  p <> [] -> runes p = (DecodeRune p).1 :: runes (drop (DecodeRune p).2 p).
Proof.
  intros Hp. pose proof (DecodeRune_width p Hp). unfold runes.
  destruct p as [|b t] eqn:Ep; [done|]. rewrite <- Ep in *.
  replace (length p) with (S (length t)) at 1 by (by subst).
  replace (runes_aux (S (length t)) p) with
    (let '(r, sz) := DecodeRune p in r :: runes_aux (length t) (drop sz p))
    by (by subst).
  destruct (DecodeRune p) as [r sz]. simpl in *. f_equal.
  apply runes_aux_fuel; rewrite length_drop; subst; simpl in *; lia.
Qed.

Lemma runes_encode_app rs q :
  Forall (fun r => scalar r = true) rs -> runes (encode_runes rs ++ q) = rs ++ runes q.
Proof.
  induction 1 as [|r rs Hr _ IH]; [done|].
  unfold encode_runes in *; simpl. rewrite <- app_assoc.
  pose proof (EncodeRune_length r). rewrite runes_cons.
  - rewrite DecodeRune_EncodeRune by done. simpl. by rewrite drop_app_length, IH.
  - apply EncodeRune_app_nonnil.
Qed.

Lemma runes_encode rs :
  Forall (fun r => scalar r = true) rs -> runes (encode_runes rs) = rs.
Proof.
  intros H. pose proof (runes_encode_app rs [] H) as E.
  rewrite app_nil_r in E. by rewrite E, app_nil_r.
Qed.

Lemma encode_runes_nonnil r rs : encode_runes (r :: rs) <> [].
Proof.
  apply EncodeRune_app_nonnil.
Qed.
