(* ===== verification/Bufio.v ===== *)
(** * [bufio.Reader]

    The reader a decoder is built on: [bufio.NewReader(bytes.NewReader(b))],
    with Go's default buffer of 4096 bytes.  The state is what is left to
    read, how much of it is already in the buffer (which is what a short
    [Read] and [Buffered] depend on), and the byte [UnreadByte] gives back. *)
From S2P Require Import Prelude Utf8.

Record reader := mkReader {
  unread : bytes;          (* everything not yet read, buffered or not *)
  nbuf : nat;              (* how many of these bytes are in the buffer *)
  lastByte : option Z      (* the byte [UnreadByte] restores *)
}.

Definition bufsize : nat := 4096.

Definition NewReader (b : bytes) : reader := mkReader b 0 None.

(** [fill]: the bytes kept are moved to the front and one [Read] of the source
    fills the rest of the buffer. *)
Definition fill (r : reader) : reader :=
  mkReader (unread r) (Nat.min bufsize (length (unread r))) (lastByte r).

Abbreviation R A := (ST reader A).

Definition ReadByte : R Z := fun r =>
  let r := if (nbuf r =? 0)%nat then fill r else r in
  match unread r with
  | [] => (Fail EOF, r)
  | b :: t => (Ret b, mkReader t (nbuf r - 1) (Some b))
  end.

(** [UnreadByte]; [bufio.ErrInvalidUnreadByte] when there is no byte to give back. *)
Definition UnreadByte : R unit := fun r =>
  match lastByte r with
  | None => (Fail (Errorf "bufio: invalid use of UnreadByte"), r)
  | Some b => (Ret tt, mkReader (b :: unread r) (S (nbuf r)) None)
  end.

Definition consume (k : nat) (r : reader) : reader :=
  mkReader (drop k (unread r)) (nbuf r - k) (last (take k (unread r))).

(** [Read(p)] with [len(p) = n]: at most one read of the source, so that it
    may return fewer bytes than asked for; an empty source answers [EOF]. *)
Definition Read (n : nat) : R bytes := fun r =>
  if (n =? 0)%nat then (Ret [], r)
  else if (nbuf r =? 0)%nat then
    match unread r with
    | [] => (Fail EOF, r)
    | _ => if (bufsize <=? n)%nat
           then (Ret (take n (unread r)), consume n r)
           else let r := fill r in
                let k := Nat.min n (nbuf r) in
                (Ret (take k (unread r)), consume k r)
    end
  else let k := Nat.min n (nbuf r) in (Ret (take k (unread r)), consume k r).

(** [io.ReadFull(r, p)] with [len(p) = n]: reads until [p] is full. *)
Fixpoint readFull_loop (fuel n : nat) (got : bytes) : R bytes :=
  match n, fuel with
  | O, _ => ret got
  | _, O => nofuel
  | _, S fuel => fun r =>
      match Read n r with
      | (Ret bs, r) => readFull_loop fuel (n - length bs) (got ++ bs) r
      | (Fail e, r) => (Fail (match got with [] => EOF | _ => UnexpectedEOF end), r)
      | (o, r) => (o, r)
      end
  end.

Definition ReadFull (n : nat) : R bytes := readFull_loop n n [].

(** [Peek(n)]: the next [n] bytes, or what there is of them with an error. *)
Definition Peek (n : nat) : ST reader (bytes * option goerr) := fun r =>
  let r := if (nbuf r <? n)%nat && (nbuf r <? bufsize)%nat then fill r else r in
  let r := mkReader (unread r) (nbuf r) None in
  if (bufsize <? n)%nat then (Ret (take (nbuf r) (unread r), Some ErrBufferFull), r)
  else if (nbuf r <? n)%nat then (Ret (take (nbuf r) (unread r), Some EOF), r)
  else (Ret (take n (unread r), None), r).

(** [Discard(n)] of bytes that are buffered. *)
Definition Discard (n : nat) : R nat := fun r =>
  if (n <=? nbuf r)%nat then (Ret n, consume n r)
  else let r := fill r in
       if (n <=? length (unread r))%nat then (Ret n, consume n r)
       else (Fail EOF, consume (length (unread r)) r).

Definition ReadRune : R (Z * nat) := fun r =>
  let r := if (nbuf r <? 4)%nat && negb (FullRune (take (nbuf r) (unread r)))
           then fill r else r in
  match take (nbuf r) (unread r) with
  | [] => (Fail EOF, r)
  | p => let '(rn, sz) := DecodeRune p in (Ret (rn, sz), consume sz r)
  end.

(** ** The stream view *)

(** The buffer holds a prefix of what is left and is not over its size (one
    more after [UnreadByte]). *)
Definition buf_ok (r : reader) : Prop := (nbuf r <= length (unread r))%nat.

Lemma NewReader_ok b : buf_ok (NewReader b).
Proof. unfold buf_ok; simpl; lia. Qed.

Lemma fill_ok r : buf_ok (fill r).
Proof. unfold buf_ok, fill; cbn [nbuf unread]; lia. Qed.

Lemma consume_ok k r : buf_ok r -> buf_ok (consume k r).
Proof. unfold buf_ok, consume; simpl. rewrite length_drop. lia. Qed.

#[export] Hint Resolve NewReader_ok fill_ok consume_ok : go.

(** [reads m inp a]: with [inp] in front of the unread bytes, [m] returns [a]
    and has read exactly [inp], wherever the buffer boundary is. *)
Definition reads {A} (m : R A) (inp : bytes) (a : A) : Prop :=
  forall r rest, buf_ok r -> unread r = inp ++ rest ->
  exists r', m r = (Ret a, r') /\ buf_ok r' /\ unread r' = rest.

(** [rejects m inp P]: with exactly [inp] left, [m] fails with an error in [P]. *)
Definition rejects {A} (m : R A) (inp : bytes) (P : goerr -> Prop) : Prop :=
  forall r, buf_ok r -> unread r = inp ->
  exists e r', m r = (Fail e, r') /\ P e.

Lemma reads_ret {A} (a : A) : reads (ret a) [] a.
Proof. intros r rest Hok Hr. exists r. done. Qed.

Lemma reads_bind {A B} (m : R A) (k : A -> R B) inp1 inp2 a b :
  reads m inp1 a -> reads (k a) inp2 b -> reads (bind m k) (inp1 ++ inp2) b.
Proof.
  intros Hm Hk r rest Hok Hr. rewrite <- app_assoc in Hr.
  destruct (Hm r _ Hok Hr) as (r1 & E1 & Hok1 & Hr1).
  destruct (Hk r1 rest Hok1 Hr1) as (r2 & E2 & Hok2 & Hr2).
  exists r2. unfold bind. by rewrite E1.
Qed.

(** Steps that read nothing, and a first byte taken off the front. *)
Lemma reads_bind_nil {A B} (m : R A) (k : A -> R B) inp a b :
  reads m [] a -> reads (k a) inp b -> reads (bind m k) inp b.
Proof. apply (reads_bind m k [] inp). Qed.

Lemma reads_or_zero {A} (z : A) (m : R A) inp a : reads m inp a -> reads (or_zero z m) inp a.
Proof.
  intros H r rest Hok Hr. destruct (H r rest Hok Hr) as (r' & E & ?).
  exists r'. unfold or_zero. by rewrite E.
Qed.

Lemma reads_on_err {A} (m : R A) h inp a : reads m inp a -> reads (on_err m h) inp a.
Proof.
  intros H r rest Hok Hr. destruct (H r rest Hok Hr) as (r' & E & ?).
  exists r'. unfold on_err. by rewrite E.
Qed.

Lemma reads_trace {A} (m : R A) inp a : reads m inp a -> reads (trace m) inp a.
Proof. apply reads_on_err. Qed.

Lemma ReadByte_reads b : reads ReadByte [b] b.
Proof.
  intros r rest Hok Hr. unfold ReadByte. simpl in Hr.
  unfold buf_ok in *. rewrite Hr in Hok. simpl in Hok.
  destruct (nbuf r =? 0)%nat; cbn [fill unread nbuf]; rewrite Hr; eexists;
    (split; [done|]); cbn [unread nbuf length]; (split; [lia|done]).
Qed.

(** One [Read] returns a non-empty prefix as long as there is something. *)
Lemma Read_prefix n r :
  (0 < n)%nat -> buf_ok r -> unread r <> [] ->
  exists k, (0 < k <= n)%nat /\ (k <= length (unread r))%nat
    /\ Read n r = (Ret (take k (unread r)), consume k (mkReader (unread r)
          (if (nbuf r =? 0)%nat && negb (bufsize <=? n)%nat
           then Nat.min bufsize (length (unread r)) else nbuf r) (lastByte r))).
Proof.
  intros Hn Hok Hne. unfold Read, buf_ok in *.
  assert (0 < length (unread r))%nat by (destruct (unread r); [done|simpl; lia]).
  replace (n =? 0)%nat with false by (symmetry; apply Nat.eqb_neq; lia).
  assert (0 < bufsize)%nat by (unfold bufsize; lia).
  destruct (nbuf r =? 0)%nat eqn:E; [apply Nat.eqb_eq in E|apply Nat.eqb_neq in E].
  - destruct (unread r) as [|b t] eqn:Er; [done|]. rewrite <- Er in *.
    destruct (bufsize <=? n)%nat eqn:En; cbn [andb negb].
    + exists (Nat.min n (length (unread r))). split; [lia|]. split; [lia|].
      destruct (decide (n <= length (unread r))%nat).
      * rewrite Nat.min_l by lia. by destruct r; simpl in *; subst.
      * rewrite Nat.min_r by lia. rewrite (take_ge (unread r) n), take_ge by lia.
        unfold consume; cbn [unread nbuf]. rewrite E, !take_ge, !drop_ge by lia.
        destruct n; [lia|done].
    + cbn [fill unread nbuf]. eexists; split_and!; [| | |reflexivity]; lia.
  - cbn [andb]. exists (Nat.min n (nbuf r)). split_and!; [lia|lia|lia|].
    by destruct r; simpl in *.
Qed.

Lemma readFull_reads fuel inp got :
  (length inp <= fuel)%nat -> reads (readFull_loop fuel (length inp) got) inp (got ++ inp).
Proof.
  revert inp got. induction fuel as [|fuel IH]; intros inp got Hf.
  { destruct inp; [|simpl in Hf; lia]. rewrite app_nil_r. apply reads_ret. }
  destruct inp as [|b t].
  { rewrite app_nil_r. apply reads_ret. }
  intros r rest Hok Hr.
  destruct (Read_prefix (length (b :: t)) r) as (k & Hk & Hk' & E); [simpl; lia|done| |].
  { rewrite Hr; done. }
  set (r0 := mkReader _ _ _) in E.
  cbn [readFull_loop length]. cbn [length] in E. rewrite E. rewrite Hr.
  rewrite take_app_le by (cbn [length] in *; lia).
  assert (Hok0 : buf_ok r0).
  { unfold r0, buf_ok in *; cbn [unread nbuf]. case_match; lia. }
  assert (El : (S (length t) - length (take k (b :: t)) = length (drop k (b :: t)))%nat)
    by (rewrite length_take, length_drop; cbn [length] in *; lia).
  rewrite El.
  destruct (IH (drop k (b :: t)) (got ++ take k (b :: t))) with
    (r := consume k r0) (rest := rest) as (r' & E' & ? & ?).
  - rewrite length_drop. cbn [length] in *. lia.
  - auto with go.
  - unfold r0; cbn [consume unread]. rewrite Hr. by rewrite drop_app_le by (cbn [length] in *; lia).
  - exists r'. rewrite E', <- app_assoc, take_drop. done.
Qed.

(** [io.ReadFull] is insensitive to the buffer: it takes its bytes off the
    stream whatever the buffer holds. *)
Lemma ReadFull_reads n inp : length inp = n -> reads (ReadFull n) inp inp.
Proof. intros <-. unfold ReadFull. apply (readFull_reads _ _ []). lia. Qed.

(** [ReadRune] decodes the rune at the head of the stream, wherever the buffer
    ends. *)
Lemma ReadRune_decode r :
  buf_ok r -> unread r <> [] ->
  exists r', ReadRune r = (Ret (DecodeRune (unread r)), r') /\ buf_ok r'
    /\ unread r' = drop (DecodeRune (unread r)).2 (unread r).
Proof.
  intros Hok Hne. unfold ReadRune. cbv zeta.
  set (c := (nbuf r <? 4)%nat && negb (FullRune (take (nbuf r) (unread r)))).
  set (r0 := if c then fill r else r).
  assert (Hu : unread r0 = unread r) by (unfold r0; by destruct c).
  assert (Hok0 : buf_ok r0) by (unfold r0; destruct c; auto with go).
  assert (Hfull : FullRune (take (nbuf r0) (unread r)) = true
                  \/ take (nbuf r0) (unread r) = unread r).
  { unfold r0. destruct c eqn:Ec; unfold c in Ec.
    - cbn [fill nbuf]. destruct (decide (length (unread r) <= bufsize)%nat).
      + right. apply take_ge. lia.
      + left. apply FullRune_long. rewrite length_take. unfold bufsize in *. lia.
    - apply andb_false_iff in Ec as [Ec|Ec].
      + left. apply FullRune_long. rewrite length_take. apply Nat.ltb_ge in Ec.
        unfold buf_ok in *. lia.
      + left. by apply negb_false_iff in Ec. }
  assert (Hd : DecodeRune (take (nbuf r0) (unread r)) = DecodeRune (unread r)).
  { destruct Hfull as [Hfull|Hfull]; [|by rewrite Hfull].
    rewrite <- (take_drop (nbuf r0) (unread r)) at 2. by rewrite FullRune_DecodeRune. }
  rewrite Hu.
  assert (take (nbuf r0) (unread r) <> []) as Hne'.
  { destruct Hfull as [Hf|Hf]; [|by rewrite Hf]. by intros E; rewrite E in Hf. }
  destruct (take (nbuf r0) (unread r)) as [|b t]; [done|]. rewrite Hd.
  destruct (DecodeRune (unread r)) as [rn sz].
  eexists. split_and!; [done|auto with go|]. cbn [consume unread]. by rewrite Hu.
Qed.

Lemma ReadRune_reads rn :
  scalar rn = true -> reads ReadRune (EncodeRune rn) (rn, length (EncodeRune rn)).
Proof.
  intros Hs r rest Hok Hr.
  destruct (ReadRune_decode r) as (r' & E & Hok' & Hr'); [done| |].
  { rewrite Hr. apply EncodeRune_app_nonnil. }
  rewrite Hr in E, Hr'. rewrite DecodeRune_EncodeRune in E, Hr' by done.
  exists r'. split_and!; [done|done|]. rewrite Hr'. apply drop_app_length.
Qed.

(** [io.ReadFull] on a short stream: [EOF] if nothing was read, otherwise
    [io.ErrUnexpectedEOF]; never a value. *)
Lemma readFull_short fuel n inp got :
  (n <= fuel)%nat -> (length inp < n)%nat ->
  rejects (readFull_loop fuel n got) inp
    (eq (match got ++ inp with [] => EOF | _ => UnexpectedEOF end)).
Proof.
  revert n inp got. induction fuel as [|fuel IH]; intros n inp got Hf Hn r Hok Hr; [lia|].
  destruct n as [|n]; [lia|].
  destruct inp as [|b t].
  - cbn [readFull_loop]. unfold Read, buf_ok in *. rewrite Hr in *. cbn [length] in *.
    replace (nbuf r) with 0%nat by lia. cbn. rewrite app_nil_r. by eexists _, _.
  - destruct (Read_prefix (S n) r) as (k & Hk & Hk' & E); [lia|done|by rewrite Hr|].
    set (r0 := mkReader _ _ _) in E.
    cbn [readFull_loop]. rewrite E, Hr. rewrite Hr in Hk'.
    assert (El : length (take k (b :: t)) = k) by (rewrite length_take; lia).
    rewrite El.
    destruct (IH (S n - k)%nat (drop k (b :: t)) (got ++ take k (b :: t))) with
      (r := consume k r0) as (e & r' & E' & He).
    + lia.
    + rewrite length_drop. lia.
    + apply consume_ok. unfold r0, buf_ok in *; cbn [unread nbuf]. case_match; lia.
    + unfold r0; cbn [consume unread]. by rewrite Hr.
    + exists e, r'. split; [done|]. by rewrite <- app_assoc, take_drop in He.
Qed.
