(* ===== verification/Float64.v ===== *)
(** * Go's [float64] and [float32]

    A [float64] is its IEEE 754 bit pattern, an integer of 64 bits, so that
    [math.Float64bits] and [math.Float64frombits] are the identity and NaN
    payloads and signed zeros are kept.  The conversions to and from [int64]
    and the comparison [==] that the codec uses are defined on the pattern. *)
From S2P Require Import Prelude.

Definition is_f64 (b : Z) : Prop := 0 <= b < 2 ^ 64.

Definition f64_sign (b : Z) : bool := Z.testbit b 63.
Definition f64_exp (b : Z) : Z := Z.land (Z.shiftr b 52) 0x7ff.
Definition f64_frac (b : Z) : Z := Z.land b (Z.ones 52).

Definition f64_is_nan (b : Z) : bool := (f64_exp b =? 0x7ff) && negb (f64_frac b =? 0).
Definition f64_is_zero (b : Z) : bool := (f64_exp b =? 0) && (f64_frac b =? 0).

(** [a == b]: a NaN is equal to nothing and the two zeros are equal. *)
Definition f64_eqb (a b : Z) : bool :=
  negb (f64_is_nan a) && negb (f64_is_nan b)
  && ((a =? b) || (f64_is_zero a && f64_is_zero b)).

(** The integer part of a finite value, rounded towards zero. *)
Definition f64_trunc (b : Z) : Z :=
  let e := f64_exp b in
  let m := if e =? 0 then f64_frac b else f64_frac b + 2 ^ 52 in
  let e2 := (if e =? 0 then 1 else e) - 1075 in
  let a := if 0 <=? e2 then Z.shiftl m e2 else Z.shiftr m (- e2) in
  if f64_sign b then - a else a.

(** [int64(v)].  The conversion of a NaN, an infinity or a value out of range
    is implementation-dependent in Go; this is what amd64 answers. *)
Definition int64_of_f64 (b : Z) : Z :=
  if f64_exp b =? 0x7ff then - 2 ^ 63
  else let t := f64_trunc b in
       if (- 2 ^ 63 <=? t) && (t <? 2 ^ 63) then t else - 2 ^ 63.

(** [float64(z)]: the nearest double, ties to even. *)
Definition f64_of_int (z : Z) : Z :=
  if z =? 0 then 0
  else
    let a := Z.abs z in
    let n := Z.log2 a in
    let m :=                                (* 53 or, after a carry, 54 bits *)
      if n <=? 52 then Z.shiftl a (52 - n)
      else let sh := n - 52 in
           let q := Z.shiftr a sh in
           let r := Z.land a (Z.ones sh) in
           let half := 2 ^ (sh - 1) in
           if (half <? r) || ((r =? half) && Z.odd q) then q + 1 else q in
    (if z <? 0 then 2 ^ 63 else 0) + Z.shiftl (n + 1022) 52 + m.

(** [float64(v)] of a [float32] given by its 32-bit pattern. *)
Definition f64_of_f32 (b : Z) : Z :=
  let s := if Z.testbit b 31 then 2 ^ 63 else 0 in
  let e := Z.land (Z.shiftr b 23) 0xff in
  let m := Z.land b (Z.ones 23) in
  if e =? 0xff then s + Z.shiftl 0x7ff 52 + (if m =? 0 then 0 else Z.lor (Z.shiftl m 29) (2 ^ 51))
  else if e =? 0 then
    if m =? 0 then s
    else let n := Z.log2 m in
         s + Z.shiftl (n + 873) 52 + Z.shiftl m (52 - n)
  else s + Z.shiftl (e + 896) 52 + Z.shiftl m 29.

(** [float32(v)]: the nearest float, ties to even, as a 32-bit pattern. *)
Definition f32_of_f64 (b : Z) : Z :=
  let s := if f64_sign b then 2 ^ 31 else 0 in
  let e := f64_exp b in
  let m := f64_frac b in
  if e =? 0x7ff then
    s + Z.shiftl 0xff 23 + (if m =? 0 then 0 else Z.lor (Z.shiftr m 29) (2 ^ 22))
  else if e =? 0 then s
  else
    let E := Z.max (e - 1023) (-126) in
    let sh := 29 + (E - (e - 1023)) in
    let M := m + 2 ^ 52 in
    let q := Z.shiftr M sh in
    let r := Z.land M (Z.ones sh) in
    let half := 2 ^ (sh - 1) in
    let q := if (half <? r) || ((r =? half) && Z.odd q) then q + 1 else q in
    let bits := Z.shiftl (E + 126) 23 + q in
    s + Z.min bits (Z.shiftl 0xff 23).
