(* ===== verification/HessianConst.v ===== *)
(** * Constants of the Hessian 2.0 wire format

    [codec/hessian/const.go]: the tag of every construct, the bounds of the
    compact forms and the chunk size.  Byte constants are integers in 0..255. *)
From S2P Require Import Prelude.

Definition TAG_READ : Z := -1.
Definition CHUNK_SIZE : Z := 4096.
Definition BC_BINARY : Z := 0x42.
Definition BC_BINARY_CHUNK : Z := 0x41.
Definition BC_BINARY_DIRECT : Z := 0x20.
Definition BINARY_DIRECT_MAX : Z := 0x0f.
Definition BC_BINARY_SHORT : Z := 0x34.
Definition BINARY_SHORT_MAX : Z := 0x3ff.
Definition BC_DATE : Z := 0x4a.
Definition BC_DATE_MINUTE : Z := 0x4b.
Definition BC_DOUBLE : Z := 0x44.
Definition BC_DOUBLE_ZERO : Z := 0x5b.
Definition BC_DOUBLE_ONE : Z := 0x5c.
Definition BC_DOUBLE_BYTE : Z := 0x5d.
Definition BC_DOUBLE_SHORT : Z := 0x5e.
Definition BC_DOUBLE_MILL : Z := 0x5f.
Definition BC_FALSE : Z := 0x46.
Definition BC_INT : Z := 0x49.
Definition INT_DIRECT_MIN : Z := -0x10.
Definition INT_DIRECT_MAX : Z := 0x2f.
Definition BC_INT_ZERO : Z := 0x90.
Definition INT_BYTE_MIN : Z := -0x800.
Definition INT_BYTE_MAX : Z := 0x7ff.
Definition BC_INT_BYTE_ZERO : Z := 0xc8.
Definition BC_END : Z := 0x5a.
Definition INT_SHORT_MIN : Z := -0x40000.
Definition INT_SHORT_MAX : Z := 0x3ffff.
Definition BC_INT_SHORT_ZERO : Z := 0xd4.
Definition BC_LIST_VARIABLE : Z := 0x55.
Definition BC_LIST_FIXED : Z := 0x56.
Definition BC_LIST_VARIABLE_UNTYPED : Z := 0x57.
Definition BC_LIST_FIXED_UNTYPED : Z := 0x58.
Definition BC_LIST_DIRECT : Z := 0x70.
Definition BC_LIST_DIRECT_UNTYPED : Z := 0x78.
Definition BC_LONG : Z := 0x4c.
Definition LONG_DIRECT_MIN : Z := -0x08.
Definition LONG_DIRECT_MAX : Z := 0x0f.
Definition BC_LONG_ZERO : Z := 0xe0.
Definition LONG_BYTE_MIN : Z := -0x800.
Definition LONG_BYTE_MAX : Z := 0x7ff.
Definition BC_LONG_BYTE_ZERO : Z := 0xf8.
Definition LONG_SHORT_MIN : Z := -0x40000.
Definition LONG_SHORT_MAX : Z := 0x3ffff.
Definition BC_LONG_SHORT_ZERO : Z := 0x3c.
Definition BC_LONG_INT : Z := 0x59.
Definition BC_MAP : Z := 0x4d.
Definition BC_MAP_UNTYPED : Z := 0x48.
Definition BC_NULL : Z := 0x4e.
Definition BC_OBJECT : Z := 0x4f.
Definition BC_OBJECT_DEF : Z := 0x43.
Definition BC_OBJECT_DIRECT : Z := 0x60.
Definition OBJECT_DIRECT_MAX : Z := 0x0f.
Definition BC_REF : Z := 0x51.
Definition BC_STRING : Z := 0x53.
Definition BC_STRING_CHUNK : Z := 0x52.
Definition BC_STRING_DIRECT : Z := 0x00.
Definition STRING_DIRECT_MAX : Z := 0x1f.
Definition BC_STRING_SHORT : Z := 0x30.
Definition STRING_SHORT_MAX : Z := 0x3ff.
Definition BC_TRUE : Z := 0x54.
Definition PATH_KEY : bytes := lit "path".
Definition INTERFACE_KEY : bytes := lit "interface".
Definition VERSION_KEY : bytes := lit "version".
Definition TIMEOUT_KEY : bytes := lit "timeout".
Definition STRING_NIL : bytes := lit "null".
Definition STRING_TRUE : bytes := lit "true".
Definition STRING_FALSE : bytes := lit "false".
Definition STRING_ZERO : bytes := lit "0.0".
Definition STRING_ONE : bytes := lit "1.0".
