(* ===== verification/HessianPack.v ===== *)
(** * Fixed-width packing

    [codec/hessian/codec.go]: big-endian packing of integers and floats and
    its inverse. *)
From S2P Require Import Prelude Float64.

(** [append(b, byte(v))]. *)
Definition PackInt8 (v : Z) (b : bytes) : bytes := b ++ [u8 v].

(** [binary.BigEndian.PutUint16/32/64]. *)
Definition PutUint16 (v : Z) : bytes := [u8 (Z.shiftr v 8); u8 v].
Definition PutUint32 (v : Z) : bytes :=
  [u8 (Z.shiftr v 24); u8 (Z.shiftr v 16); u8 (Z.shiftr v 8); u8 v].
Definition PutUint64 (v : Z) : bytes :=
  [u8 (Z.shiftr v 56); u8 (Z.shiftr v 48); u8 (Z.shiftr v 40); u8 (Z.shiftr v 32);
   u8 (Z.shiftr v 24); u8 (Z.shiftr v 16); u8 (Z.shiftr v 8); u8 v].

Definition PackInt16 (v : Z) : bytes := PutUint16 (u16 v).
Definition PackUint16 (v : Z) : bytes := PutUint16 v.
Definition PackInt32 (v : Z) : bytes := PutUint32 (u32 v).
Definition PackInt64 (v : Z) : bytes := PutUint64 (u64 v).
Definition PackFloat64 (v : Z) : bytes := PutUint64 v.

(** [binary.BigEndian.Uint16/32/64]; [b[:n]] panics on a shorter slice. *)
Definition Uint16 (b : bytes) : option Z :=
  match b with
  | b0 :: b1 :: _ => Some (Z.lor (Z.shiftl b0 8) b1)
  | _ => None
  end.
Definition Uint32 (b : bytes) : option Z :=
  match b with
  | b0 :: b1 :: b2 :: b3 :: _ =>
      Some (Z.lor (Z.lor (Z.lor (Z.shiftl b0 24) (Z.shiftl b1 16)) (Z.shiftl b2 8)) b3)
  | _ => None
  end.
Definition Uint64 (b : bytes) : option Z :=
  match b with
  | b0 :: b1 :: b2 :: b3 :: b4 :: b5 :: b6 :: b7 :: _ =>
      Some (Z.lor (Z.lor (Z.lor (Z.lor (Z.lor (Z.lor (Z.lor
        (Z.shiftl b0 56) (Z.shiftl b1 48)) (Z.shiftl b2 40)) (Z.shiftl b3 32))
        (Z.shiftl b4 24)) (Z.shiftl b5 16)) (Z.shiftl b6 8)) b7)
  | _ => None
  end.

Definition UnpackInt16 (b : bytes) : option Z := option_map i16 (Uint16 b).
Definition UnpackUint16 (b : bytes) : option Z := Uint16 b.
Definition UnpackInt32 (b : bytes) : option Z := option_map i32 (Uint32 b).
Definition UnpackInt64 (b : bytes) : option Z := option_map i64 (Uint64 b).
Definition UnpackFloat64 (b : bytes) : option Z := Uint64 b.

(** ** Base-256 numbers *)

(** The number a big-endian byte string denotes, and the [n] low bytes of a
    number. *)
Definition be_val (bs : bytes) : Z := foldl (fun acc b => acc * 256 + b) 0 bs.

Fixpoint be_digits (n : nat) (v : Z) : bytes :=
  match n with
  | O => []
  | S m => be_digits m (Z.shiftr v 8) ++ [u8 v]
  end.

Lemma be_val_app bs b : be_val (bs ++ [b]) = be_val bs * 256 + b.
Proof. unfold be_val. by rewrite foldl_app. Qed.

Lemma be_val_digits n v : be_val (be_digits n v) = v mod 2 ^ (8 * Z.of_nat n).
Proof.
  revert v. induction n as [|n IH]; intros v.
  { simpl. by rewrite Z.mod_1_r. }
  cbn [be_digits]. rewrite be_val_app, IH, Z.shiftr_div_pow2 by lia.
  replace (8 * Z.of_nat (S n)) with (8 + 8 * Z.of_nat n) by lia.
  rewrite Z.pow_add_r by lia. change (2 ^ 8) with 256.
  rewrite (Z.rem_mul_r v 256 (2 ^ (8 * Z.of_nat n))) by lia.
  unfold u8, wrap. change (2 ^ 8) with 256. lia.
Qed.

Lemma be_digits_bytes n v : Forall is_byte (be_digits n v).
Proof.
  revert v. induction n; intros v; cbn [be_digits]; [constructor|].
  apply Forall_app. auto with go.
Qed.

Lemma PutUint32_digits v : PutUint32 v = be_digits 4 v.
Proof. unfold PutUint32. simpl. by rewrite !Z.shiftr_shiftr. Qed.
Lemma PutUint64_digits v : PutUint64 v = be_digits 8 v.
Proof. unfold PutUint64. simpl. by rewrite !Z.shiftr_shiftr. Qed.

(** Disjunctions of shifted bytes are the big-endian number. *)
Lemma lor_byte a b : is_byte b -> Z.lor (Z.shiftl a 8) b = a * 256 + b.
Proof. intros. by apply (lor_shiftl b a 8). Qed.

Ltac be_bytes H :=
  repeat (apply Forall_cons in H as [? H]); unfold be_val; cbn [foldl];
  rewrite <- ?lor_byte by done; rewrite ?Z.mul_0_l, ?Z.add_0_l, ?Z.shiftl_0_l, ?Z.lor_0_l;
  rewrite ?Z.shiftl_lor, ?Z.shiftl_shiftl by lia; reflexivity.

Lemma Uint16_val b0 b1 :
  Forall is_byte [b0; b1] -> Uint16 [b0; b1] = Some (be_val [b0; b1]).
Proof. intros H. be_bytes H. Qed.

Lemma Uint32_val b0 b1 b2 b3 :
  Forall is_byte [b0; b1; b2; b3] ->
  Uint32 [b0; b1; b2; b3] = Some (be_val [b0; b1; b2; b3]).
Proof. intros H. be_bytes H. Qed.

Lemma Uint64_val b0 b1 b2 b3 b4 b5 b6 b7 :
  Forall is_byte [b0; b1; b2; b3; b4; b5; b6; b7] ->
  Uint64 [b0; b1; b2; b3; b4; b5; b6; b7] = Some (be_val [b0; b1; b2; b3; b4; b5; b6; b7]).
Proof. intros H. be_bytes H. Qed.

Lemma Uint32_digits v : Uint32 (be_digits 4 v) = Some (v mod 2 ^ 32).
Proof.
  rewrite <- (be_val_digits 4). pose proof (be_digits_bytes 4 v).
  simpl in *. by apply Uint32_val.
Qed.
Lemma Uint64_digits v : Uint64 (be_digits 8 v) = Some (v mod 2 ^ 64).
Proof.
  rewrite <- (be_val_digits 8). pose proof (be_digits_bytes 8 v).
  simpl in *. by apply Uint64_val.
Qed.

Lemma UnpackInt64_Pack v : is_i64 v -> UnpackInt64 (PackInt64 v) = Some v.
Proof.
  intros H. unfold UnpackInt64, PackInt64. rewrite PutUint64_digits, Uint64_digits.
  simpl. f_equal. change ((u64 v) mod 2 ^ 64) with (wrap 64 (wrap 64 v)).
  unfold i64. rewrite !swrap_wrap by lia. by apply i64_id.
Qed.
