(* ===== verification/HessianValue.v ===== *)
(** * Go values and types

    The [interface{}] values that the codec encodes and decodes, their
    dynamic types, and the parts of package [reflect] and of the language's
    own map and assignment rules that the codec uses.

    A type is identified by what [Type.String] prints for it: the application's
    types are assumed to print differently.  Identifiers are ASCII. *)
From S2P Require Import Prelude Float64.

(** ** Types *)

Inductive ikind := Int8 | Int16 | Int32 | Int | Int64 | Uint8 | Uint16 | Uint32 | Uint | Uint64.

#[export] Instance ikind_eq_dec : EqDecision ikind.
Proof. solve_decision. Defined.

(** [TNamed n t] is [type n t] for a [t] that is not a struct; the fields of a
    struct that refers to itself are repeated where they are used. *)
Inductive gotype :=
| TBool
| TInt (k : ikind)
| TFloat32
| TFloat64
| TString
| TTime                                   (* time.Time *)
| TIface                                  (* interface{} *)
| TReflectValue                           (* reflect.Value *)
| TSlice (t : gotype)
| TArray (n : nat) (t : gotype)
| TMap (kt vt : gotype)
| TPtr (t : gotype)
| TNamed (name : bytes) (under : gotype)
| TStruct (name : bytes) (fields : list (bytes * gotype)).

Definition ikind_String (k : ikind) : bytes :=
  lit match k with
      | Int8 => "int8" | Int16 => "int16" | Int32 => "int32" | Int => "int" | Int64 => "int64"
      | Uint8 => "uint8" | Uint16 => "uint16" | Uint32 => "uint32" | Uint => "uint"
      | Uint64 => "uint64"
      end.

(** The digits of a number ([strconv.Itoa] of a natural number). *)
Definition digits (n : nat) : bytes := lit (pretty.pretty (N.of_nat n)).

(** [Type.String]. *)
Fixpoint String (t : gotype) : bytes :=
  match t with
  | TBool => lit "bool"
  | TInt k => ikind_String k
  | TFloat32 => lit "float32"
  | TFloat64 => lit "float64"
  | TString => lit "string"
  | TTime => lit "time.Time"
  | TIface => lit "interface {}"
  | TReflectValue => lit "reflect.Value"
  | TSlice t => lit "[]" ++ String t
  | TArray n t => lit "[" ++ digits n ++ lit "]" ++ String t
  | TMap k v => lit "map[" ++ String k ++ lit "]" ++ String v
  | TPtr t => lit "*" ++ String t
  | TNamed n _ => n
  | TStruct n _ => n
  end.

Definition type_eqb (a b : gotype) : bool := bool_decide (String a = String b).

(** The underlying type, and [Type.Kind]. *)
Definition under (t : gotype) : gotype := match t with TNamed _ u => u | t => t end.

Inductive kind := KBool | KInt (k : ikind) | KFloat32 | KFloat64 | KString | KStruct
  | KInterface | KSlice | KArray | KMap | KPtr.

#[export] Instance kind_eq_dec : EqDecision kind.
Proof. solve_decision. Defined.

Fixpoint Kind (t : gotype) : kind :=
  match t with
  | TBool => KBool
  | TInt k => KInt k
  | TFloat32 => KFloat32
  | TFloat64 => KFloat64
  | TString => KString
  | TTime | TReflectValue | TStruct _ _ => KStruct
  | TIface => KInterface
  | TSlice _ => KSlice
  | TArray _ _ => KArray
  | TMap _ _ => KMap
  | TPtr _ => KPtr
  | TNamed _ u => Kind u
  end.

(** ** Values *)

(** [VNil] is the nil interface.  [VBytes] is a non-nil [[]byte].  A map is the
    list of its entries in the order in which they are visited.  [VRef i] is
    the pointer [&d.refs[i]] into a decoder's table; [VReflect i v] is the
    addressable [reflect.Value] of the struct [v] that a decoder made and
    keeps as [d.refs[i]], and [VValueOf v] any other [reflect.Value]. *)
Inductive value :=
| VNil
| VBool (b : bool)
| VInt (k : ikind) (z : Z)
| VFloat32 (bits : Z)
| VFloat64 (bits : Z)
| VString (s : bytes)
| VTime (ns : Z)
| VBytes (b : bytes)
| VNilSlice (t : gotype)
| VSlice (t : gotype) (l : list value)
| VArray (t : gotype) (l : list value)
| VNilMap (kt vt : gotype)
| VMap (kt vt : gotype) (l : list (value * value))
| VStruct (name : bytes) (fields : list (bytes * gotype)) (l : list value)
| VNamed (name : bytes) (v : value)
| VNilPtr (t : gotype)
| VPtr (t : gotype) (v : value)
| VRef (i : nat)
| VReflect (i : nat) (v : value)
| VValueOf (v : value).

(** [reflect.TypeOf]; the nil interface has no type. *)
Fixpoint TypeOf (v : value) : option gotype :=
  match v with
  | VNil => None
  | VBool _ => Some TBool
  | VInt k _ => Some (TInt k)
  | VFloat32 _ => Some TFloat32
  | VFloat64 _ => Some TFloat64
  | VString _ => Some TString
  | VTime _ => Some TTime
  | VBytes _ => Some (TSlice (TInt Uint8))
  | VNilSlice t | VSlice t _ => Some (TSlice t)
  | VArray t l => Some (TArray (length l) t)
  | VNilMap k v | VMap k v _ => Some (TMap k v)
  | VStruct n fs _ => Some (TStruct n fs)
  | VNamed n v => option_map (TNamed n) (TypeOf v)
  | VNilPtr t | VPtr t _ => Some (TPtr t)
  | VRef _ => Some (TPtr TIface)
  | VReflect _ _ | VValueOf _ => Some TReflectValue
  end.

(** January 1, year 1, UTC: the zero [time.Time]. *)
Definition time_zero : Z := -62135596800 * 1000000000.

(** The zero value of a type, [reflect.Zero]. *)
Fixpoint zero (t : gotype) : value :=
  match t with
  | TBool => VBool false
  | TInt k => VInt k 0
  | TFloat32 => VFloat32 0
  | TFloat64 => VFloat64 0
  | TString => VString []
  | TTime => VTime time_zero
  | TIface => VNil
  | TReflectValue => VStruct (lit "reflect.Value") [] []
  | TSlice t => VNilSlice t
  | TArray n t => VArray t (replicate n (zero t))
  | TMap k v => VNilMap k v
  | TPtr t => VNilPtr t
  | TNamed n u => VNamed n (zero u)
  | TStruct n fs => VStruct n fs (map (fun f => zero f.2) fs)
  end.

(** The value below the name of its type. *)
Definition strip (v : value) : value := match v with VNamed _ v => v | v => v end.

(** The elements of a slice or an array, [v.Len()] and [v.Index(i)]. *)
Definition elems (v : value) : list value :=
  match strip v with
  | VBytes b => map (VInt Uint8) b
  | VSlice _ l | VArray _ l => l
  | _ => []
  end.

(** A slice of element type [t]. *)
Definition mk_slice (t : gotype) (l : list value) : value :=
  match t with
  | TInt Uint8 => VBytes (map (fun v => match v with VInt _ z => z | _ => 0 end) l)
  | _ => VSlice t l
  end.

(** ** Assignment *)

Definition unnamed_composite (t : gotype) : bool :=
  match t with TSlice _ | TArray _ _ | TMap _ _ | TPtr _ => true | _ => false end.

(** [src.AssignableTo(dst)], the interfaces being [interface{}] only. *)
Definition assignable (dst src : gotype) : bool :=
  match dst with
  | TIface => true
  | _ =>
      type_eqb dst src
      || (type_eqb (under dst) (under src)
          && (unnamed_composite dst || unnamed_composite src))
  end.

(** Storing [v] in a variable of type [dst]: [reflect.Value.Set] with
    [reflect.ValueOf(v)], which panics on the zero [reflect.Value] of a nil
    interface and on a value that is not assignable. *)
Definition set_value (dst : gotype) (v : value) : option value :=
  match TypeOf v with
  | None => None
  | Some src =>
      if assignable dst src then
        Some match dst with
             | TIface => v
             | TNamed n _ => VNamed n (strip v)
             | _ => if unnamed_composite dst then strip v else v
             end
      else None
  end.

(** ** Equality and maps *)

(** The dynamic types that can be compared and used as map keys; the others
    (slices, maps) are a run-time panic. *)
Fixpoint hashable (v : value) : bool :=
  match v with
  | VBytes _ | VNilSlice _ | VSlice _ _ | VNilMap _ _ | VMap _ _ _ => false
  | VArray _ l | VStruct _ _ l => forallb hashable l
  | VNamed _ v => hashable v
  | _ => true
  end.

Definition same_type (a b : value) : bool :=
  match TypeOf a, TypeOf b with
  | None, None => true
  | Some ta, Some tb => type_eqb ta tb
  | _, _ => false
  end.

(** Equality of hashable values of the same type; a pointer is identified by
    what it points into. *)
Fixpoint key_eqb (a b : value) : bool :=
  same_type a b &&
  match a, b with
  | VNil, VNil => true
  | VBool x, VBool y => Bool.eqb x y
  | VInt _ x, VInt _ y => x =? y
  | VFloat32 x, VFloat32 y => f64_eqb (f64_of_f32 x) (f64_of_f32 y)
  | VFloat64 x, VFloat64 y => f64_eqb x y
  | VString x, VString y => bool_decide (x = y)
  | VTime x, VTime y => x =? y
  | VArray _ l1, VArray _ l2 | VStruct _ _ l1, VStruct _ _ l2 =>
      (fix go l1 l2 := match l1, l2 with
                       | v1 :: l1, v2 :: l2 => key_eqb v1 v2 && go l1 l2
                       | _, _ => true
                       end) l1 l2
  | VNamed _ x, VNamed _ y => key_eqb x y
  | VRef i, VRef j => (i =? j)%nat
  | VReflect i _, VReflect j _ => (i =? j)%nat
  | _, _ => false
  end.

(** [m[k] = v]: an entry with an equal key is replaced. *)
Fixpoint map_insert (k v : value) (l : list (value * value)) : list (value * value) :=
  match l with
  | [] => [(k, v)]
  | (k', v') :: l => if key_eqb k k' then (k, v) :: l else (k', v') :: map_insert k v l
  end.

(** [delete(m, k)]. *)
Definition map_delete (k : value) (l : list (value * value)) : list (value * value) :=
  filter (fun e => key_eqb k e.1 = false) l.

(** [m[k]]: nil where there is no such entry. *)
Fixpoint map_lookup (k : value) (l : list (value * value)) : value :=
  match l with
  | [] => VNil
  | (k', v) :: l => if key_eqb k k' then v else map_lookup k l
  end.
