(* ===== verification/HessianEncode.v ===== *)
(** * Encoding of the scalar types

    [codec/hessian/encode.go], the functions [enc*] that append the Hessian
    form of one value to a buffer [b].  Every function returns the new buffer;
    [byte(x)] is [u8 x], arithmetic is wrapped at the width of its operands. *)
From S2P Require Import Prelude Utf8 Float64 HessianConst HessianPack.

(** [append(b, t...)]. *)
Definition encByte (b t : bytes) : bytes := b ++ t.

Definition encNull (b : bytes) : bytes := b ++ [0x4e].

Definition encBool (v : bool) (b : bytes) : bytes :=
  b ++ [if v then BC_TRUE else BC_FALSE].

Definition encInt32 (v : Z) (b : bytes) : bytes :=
  if (INT_DIRECT_MIN <=? v) && (v <=? INT_DIRECT_MAX) then
    encByte b [u8 (i32 (v + BC_INT_ZERO))]
  else if (INT_BYTE_MIN <=? v) && (v <=? INT_BYTE_MAX) then
    encByte b [u8 (i32 (BC_INT_BYTE_ZERO + Z.shiftr v 8)); u8 v]
  else if (INT_SHORT_MIN <=? v) && (v <=? INT_SHORT_MAX) then
    encByte b [u8 (i32 (Z.shiftr v 16 + BC_INT_SHORT_ZERO)); u8 (Z.shiftr v 8); u8 v]
  else
    encByte b [BC_INT; u8 (Z.shiftr v 24); u8 (Z.shiftr v 16); u8 (Z.shiftr v 8); u8 v].

Definition encInt64 (v : Z) (b : bytes) : bytes :=
  if (LONG_DIRECT_MIN <=? v) && (v <=? LONG_DIRECT_MAX) then
    encByte b [u8 (i64 (v + BC_LONG_ZERO))]
  else if (LONG_BYTE_MIN <=? v) && (v <=? LONG_BYTE_MAX) then
    encByte b [u8 (i64 (BC_LONG_BYTE_ZERO + Z.shiftr v 8)); u8 v]
  else if (LONG_SHORT_MIN <=? v) && (v <=? LONG_SHORT_MAX) then
    encByte b [u8 (i64 (BC_LONG_SHORT_ZERO + Z.shiftr v 16)); u8 (Z.shiftr v 8); u8 v]
  else if (0x80000000 <=? v) && (v <=? 0x7fffffff) then
    encByte b [BC_LONG_INT; u8 (Z.shiftr v 24); u8 (Z.shiftr v 16); u8 (Z.shiftr v 8); u8 v]
  else
    encByte b [BC_LONG; u8 (Z.shiftr v 56); u8 (Z.shiftr v 48); u8 (Z.shiftr v 40);
               u8 (Z.shiftr v 32); u8 (Z.shiftr v 24); u8 (Z.shiftr v 16);
               u8 (Z.shiftr v 8); u8 v].

(** A [time.Time] is the number of nanoseconds since the Unix epoch;
    [UnixNano] is that number as an [int64]. *)
Definition UnixNano (t : Z) : Z := i64 t.

Definition encDateInMs (v : Z) (b : bytes) : bytes :=
  let b := b ++ [BC_DATE] in
  b ++ PackInt64 (Z.quot (UnixNano v) 1000000).

Definition encDateInMimute (v : Z) (b : bytes) : bytes :=
  let b := b ++ [BC_DATE_MINUTE] in
  b ++ PackInt32 (i32 (Z.quot (UnixNano v) 60000000000)).

(** The form with all 64 bits, which the source reaches by [goto END]. *)
Definition encFloat_END (v : Z) (b : bytes) : bytes :=
  let bits := v in
  encByte b [BC_DOUBLE; u8 (Z.shiftr bits 56); u8 (Z.shiftr bits 48); u8 (Z.shiftr bits 40);
             u8 (Z.shiftr bits 32); u8 (Z.shiftr bits 24); u8 (Z.shiftr bits 16);
             u8 (Z.shiftr bits 8); u8 bits].

Definition encFloat (v : Z) (b : bytes) : bytes :=
  let fv := f64_of_int (int64_of_f64 v) in
  if f64_eqb fv v then
    let iv := int64_of_f64 v in
    if iv =? 0 then encByte b [BC_DOUBLE_ZERO]
    else if iv =? 1 then encByte b [BC_DOUBLE_ONE]
    else if (-0x80 <=? iv) && (iv <? 0x80) then encByte b [BC_DOUBLE_BYTE; u8 iv]
    else if (-0x8000 <=? iv) && (iv <? 0x8000) then
      encByte b [BC_DOUBLE_BYTE; u8 (Z.shiftr iv 8); u8 iv]
    else encFloat_END v b
  else encFloat_END v b.

(** [gxstrings.Slice] of github.com/AlexStocks/goext: the bytes of a string
    as a slice over the same memory. *)
Class GxStrings := { Slice : bytes -> bytes }.
Class GxStringsOk `{GxStrings} := { Slice_bytes : forall s, Slice s = s }.

(** The conversion [[]byte(s)], which [Slice] stands in for. *)
Definition plain_Slice : GxStrings := {| Slice s := s |}.
Lemma plain_Slice_ok : @GxStringsOk plain_Slice.
Proof. by constructor. Qed.

Section Strings.
Context `{GX : GxStrings}.

(** The closure [vChunk]: [length] runes are moved from [vBuf] to [b]. *)
Fixpoint vChunk (length : nat) (vBuf b : bytes) : bytes * bytes :=
  match length with
  | O => (vBuf, b)
  | S n =>
      match vBuf with
      | [] => vChunk n vBuf b
      | _ => let '(r, s) := DecodeRune vBuf in
             vChunk n (drop s vBuf) (b ++ Slice (EncodeRune r))
      end
  end.

Fixpoint encString_loop (fuel : nat) (vBuf b : bytes) : bytes :=
  match fuel with
  | O => b
  | S fuel =>
      let vLen := RuneCount vBuf in
      if vLen =? 0 then b
      else if CHUNK_SIZE <? vLen then
        let b := encByte b [BC_STRING_CHUNK] in
        let b := encByte b (PackUint16 (u16 CHUNK_SIZE)) in
        let '(vBuf, b) := vChunk (Z.to_nat CHUNK_SIZE) vBuf b in
        encString_loop fuel vBuf b
      else
        let b :=
          if vLen <=? STRING_DIRECT_MAX then encByte b [u8 (vLen + BC_STRING_DIRECT)]
          else if vLen <=? STRING_SHORT_MAX then
            encByte b [u8 (Z.shiftr vLen 8 + BC_STRING_SHORT); u8 vLen]
          else encByte (encByte b [BC_STRING]) (PackUint16 (u16 vLen)) in
        let '(vBuf, b) := vChunk (Z.to_nat vLen) vBuf b in
        encString_loop fuel vBuf b
  end.

(** The loop takes at least one rune off [vBuf] in every round, so the length
    of the string is enough rounds. *)
Definition encString (v b : bytes) : bytes :=
  match v with
  | [] => encByte b [BC_STRING_DIRECT]
  | _ => encString_loop (S (length v)) v b
  end.

End Strings.

Fixpoint encBinary_loop (fuel : nat) (v b : bytes) : bytes :=
  match fuel with
  | O => b
  | S fuel =>
      let vLength := Z.of_nat (length v) in
      if vLength <=? 0 then b
      else
        let '(len, b) :=
          if CHUNK_SIZE <? vLength then
            (CHUNK_SIZE, encByte b [BC_BINARY_CHUNK; u8 (Z.shiftr CHUNK_SIZE 8); u8 CHUNK_SIZE])
          else
            (u16 vLength,
             if vLength <=? BINARY_DIRECT_MAX then encByte b [u8 (BC_BINARY_DIRECT + vLength)]
             else if vLength <=? BINARY_SHORT_MAX then
               encByte b [u8 (BC_BINARY_SHORT + Z.shiftr vLength 8); u8 vLength]
             else encByte b [BC_BINARY; u8 (Z.shiftr vLength 8); u8 vLength]) in
        let b := b ++ take (Z.to_nat len) v in
        encBinary_loop fuel (drop (Z.to_nat len) v) b
  end.

Definition encBinary (v b : bytes) : bytes :=
  match v with
  | [] => encByte b [BC_NULL]
  | _ => encBinary_loop (S (length v)) v b
  end.
