(* ===== verification/HessianDecode.v ===== *)
(** * Decoding of the scalar types

    [codec/hessian/decode.go], the methods of [Decoder] that use its reader
    only.  A method is a function of the reader's state; [trace] is
    [jerrors.Trace], an ignored error is [or_zero]. *)
From stdpp Require Import pretty.
From S2P Require Import Prelude Utf8 Bufio Float64 HessianConst HessianPack.

Definition ErrNotEnoughBuf : goerr := Errorf "not enough buf".
Definition ErrIllegalRefIndex : goerr := Errorf "illegal ref index".

(** [lo <= tag && tag <= hi]. *)
Definition in_range (lo tag hi : Z) : bool := (lo <=? tag) && (tag <=? hi).

(** ** Utilities *)

Definition readByte : R Z := ReadByte.
Definition unreadByte : R unit := UnreadByte.
Definition next (n : nat) : R bytes := Read n.

Definition peek (n : nat) : R bytes := pe <- Peek n ;; ret pe.1.

(** [d.peek(1)[0]]: an index out of range at the end of the input. *)
Definition peekByte : R Z :=
  b <- peek 1 ;; match b with b0 :: _ => ret b0 | [] => panic end.

(** [len]: the bytes that are buffered after one look at the source. *)
Definition len : R Z :=
  _ <- peek 1 ;; fun r => (Ret (Z.of_nat (nbuf r)), r).

Definition nextRune (n : nat) : R (list Z) :=
  (fix loop (i : nat) (s : list Z) : R (list Z) :=
     match i with
     | O => ret s
     | S i => fun r =>
         match ReadRune r with
         | (Ret (rn, ri), r) => loop i (if (0 <? ri)%nat then s ++ [rn] else s) r
         | (_, r) => loop i s r
         end
     end) n [].

(** [if flag != TAG_READ { tag = byte(flag) } else { tag, _ = d.readByte() }]. *)
Definition readTag (flag : Z) : R Z :=
  if negb (flag =? TAG_READ) then ret (u8 flag) else or_zero 0 readByte.

(** The bytes of a full read, by number. *)
Definition read1 {A} (k : Z -> R A) : R A :=
  buf <- trace (ReadFull 1) ;; match buf with [b0] => k b0 | _ => panic end.
Definition read2 {A} (k : Z -> Z -> R A) : R A :=
  buf <- trace (ReadFull 2) ;; match buf with [b0; b1] => k b0 b1 | _ => panic end.

(** ** Integers *)

Definition decInt32 (flag : Z) : R Z :=
  tag <- readTag flag ;;
  if in_range 0x80 tag 0xbf then ret (u8 (tag - BC_INT_ZERO))
  else if in_range 0xc0 tag 0xcf then
    read1 (fun b0 => ret (i32 (Z.shiftl (u8 (tag - BC_INT_BYTE_ZERO)) 8 + b0)))
  else if in_range 0xd0 tag 0xd7 then
    read2 (fun b0 b1 =>
      ret (i32 (Z.shiftl (u8 (tag - BC_INT_SHORT_ZERO)) 16 + Z.shiftl b0 8 + b1)))
  else if tag =? BC_INT then
    buf <- trace (ReadFull 4) ;;
    match buf with
    | [b0; b1; b2; b3] =>
        ret (i32 (Z.shiftl b0 24 + Z.shiftl b1 16 + Z.shiftl b2 8 + b3))
    | _ => panic
    end
  else fail (Errorf "decInt32 integer wrong tag:%#x").

Definition decInt64 (flag : Z) : R Z :=
  tag <- readTag flag ;;
  if tag =? 0x4e then ret 0                     (* 'N' *)
  else if tag =? 0x46 then ret 0                (* 'F' *)
  else if tag =? 0x54 then ret 1                (* 'T' *)
  else if in_range 0x80 tag 0xbf then ret (u8 (tag - BC_INT_ZERO))
  else if in_range 0xc0 tag 0xcf then
    read1 (fun b0 => ret (i64 (Z.shiftl (u8 (tag - BC_INT_BYTE_ZERO)) 8 + b0)))
  else if in_range 0xd0 tag 0xd7 then
    read2 (fun b0 b1 =>
      ret (i64 (Z.shiftl (u8 (tag - BC_INT_SHORT_ZERO)) 16 + Z.shiftl b0 8 + b1)))
  else if tag =? BC_DOUBLE_BYTE then or_zero 0 readByte
  else if tag =? BC_DOUBLE_SHORT then
    read2 (fun b0 b1 => ret (i64 (Z.shiftl b0 8 + b1)))
  else if tag =? BC_INT then decInt32 TAG_READ
  else if tag =? BC_LONG_INT then decInt32 TAG_READ
  else if in_range 0xd8 tag 0xef then ret (u8 (tag - BC_LONG_ZERO))
  else if in_range 0xf0 tag 0xff then
    read1 (fun b0 => ret (i64 (Z.shiftl (u8 (tag - BC_LONG_BYTE_ZERO)) 8 + b0)))
  else if in_range 0x38 tag 0x3f then
    read2 (fun b0 b1 =>
      ret (i64 (Z.shiftl (u8 (tag - BC_LONG_SHORT_ZERO)) 16 + Z.shiftl b0 8 + b1)))
  else if tag =? BC_LONG then
    buf <- trace (ReadFull 8) ;;
    match buf with
    | [b0; b1; b2; b3; b4; b5; b6; b7] =>
        ret (i64 (Z.shiftl b0 56 + Z.shiftl b1 48 + Z.shiftl b2 40 + Z.shiftl b3 32 +
                  Z.shiftl b4 24 + Z.shiftl b5 16 + Z.shiftl b6 8 + b7))
    | _ => panic
    end
  else if tag =? BC_DOUBLE_ZERO then ret 0
  else if tag =? BC_DOUBLE_ONE then ret 1
  else if tag =? BC_DOUBLE_MILL then trace (decInt32 TAG_READ)
  else fail (Errorf "decInt64 long wrong tag:%#x").

(** ** Dates *)

(** [time.Unix(sec, nsec)], in nanoseconds since the epoch. *)
Definition time_Unix (sec nsec : Z) : Z := sec * 1000000000 + nsec.

Definition decDate (flag : Z) : R Z :=
  tag <- readTag flag ;;
  if tag =? BC_DATE then
    s <- next 8 ;;
    if negb (length s =? 8)%nat then fail ErrNotEnoughBuf
    else match UnpackInt64 s with
         | Some i64 => ret (time_Unix (Z.quot i64 1000) (Z.rem i64 1000 * 1000000))
         | None => panic
         end
  else if tag =? BC_DATE_MINUTE then
    s <- next 4 ;;
    if negb (length s =? 4)%nat then fail ErrNotEnoughBuf
    else match UnpackInt32 s with
         | Some i64 => ret (time_Unix (i64 * 60) 0)
         | None => panic
         end
  else fail (Errorf "decDate Invalid type: %v").

(** ** Doubles *)

(** The [interface{}] that [decDouble] returns: a [float64], or the [int32]
    of the [BC_LONG_INT] case. *)
Inductive double := DFloat64 (bits : Z) | DInt32 (z : Z).

Definition decDouble (flag : Z) : R double :=
  tag <- readTag flag ;;
  if tag =? BC_LONG_INT then i <- decInt32 TAG_READ ;; ret (DInt32 i)
  else if tag =? BC_DOUBLE_ZERO then ret (DFloat64 (f64_of_int 0))
  else if tag =? BC_DOUBLE_ONE then ret (DFloat64 (f64_of_int 1))
  else if tag =? BC_DOUBLE_BYTE then
    tag <- or_zero 0 readByte ;; ret (DFloat64 (f64_of_int tag))
  else if tag =? BC_DOUBLE_SHORT then
    read2 (fun b0 b1 => ret (DFloat64 (f64_of_int (Z.shiftl b0 8 + b1))))
  else if tag =? BC_DOUBLE_MILL then
    i <- or_zero 0 (decInt32 TAG_READ) ;; ret (DFloat64 (f64_of_int i))
  else if tag =? BC_DOUBLE then
    buf <- trace (ReadFull 8) ;;
    match Uint64 buf with
    | Some bits => ret (DFloat64 bits)
    | None => panic
    end
  else fail (Errorf "decDouble parse double wrong tag:%d-%#x").

(** ** Strings *)

(** The tags that start a string or a chunk of one. *)
Definition is_string_tag (tag : Z) : bool :=
  in_range BC_STRING_DIRECT tag STRING_DIRECT_MAX || in_range 0x30 tag 0x33
  || (tag =? BC_STRING_CHUNK) || (tag =? BC_STRING).

(** The default case returns [-1] with [jerrors.Trace(nil)], which is nil. *)
Definition getStringLength (tag : Z) : R Z :=
  if in_range BC_STRING_DIRECT tag STRING_DIRECT_MAX then ret (u8 (tag - 0x00))
  else if in_range 0x30 tag 0x33 then
    read1 (fun b0 => ret (i32 (Z.shiftl (u8 (tag - 0x30)) 8 + b0)))
  else if (tag =? BC_STRING_CHUNK) || (tag =? BC_STRING) then
    read2 (fun b0 b1 => ret (i32 (Z.shiftl b0 8 + b1)))
  else ret (-1).

(** [strconv.Itoa]. *)
Definition Itoa (z : Z) : bytes := lit (pretty z).

(** [strconv.FormatFloat(f, 'E', -1, 64)] at the only values it is called
    with, the integers 0..65535: the digits without trailing zeros, one before
    the point, and an exponent of two digits. *)
Definition strip_zeros (ds : bytes) : bytes :=
  reverse ((fix go l := match l with 48 :: t => go t | _ => l end) (reverse ds)).
Definition FormatFloatE (z : Z) : bytes :=
  if z =? 0 then lit "0E+00"
  else match Itoa z with
       | [] => []
       | d :: ds =>
           d :: (match strip_zeros ds with [] => [] | fs => lit "." ++ fs end)
             ++ lit "E+0" ++ Itoa (Z.of_nat (length ds))
       end.

(** [make([]rune, length)] followed by [copy]; [make] panics on a negative length. *)
Definition grow_runes (length : Z) (runeDate : list Z) : list Z :=
  let n := Z.to_nat length in
  take n runeDate ++ replicate (n - base.length runeDate) 0.

Fixpoint decString_loop (fuel : nat) (tag i length : Z) (last : bool) (runeDate : list Z)
    : R bytes :=
  match fuel with
  | O => nofuel
  | S fuel =>
      if i32 i =? length then
        if last then ret (encode_runes runeDate)
        else
          b <- or_zero 0 readByte ;;
          if is_string_tag tag then
            let last := negb (b =? BC_STRING_CHUNK) in
            l <- trace (getStringLength b) ;;
            let length := i32 (length + l) in
            if length <? 0 then panic
            else decString_loop fuel tag i length last (grow_runes length runeDate)
          else ret []
      else
        rs <- trace ReadRune ;;
        if i <? Z.of_nat (base.length runeDate) then
          decString_loop fuel tag (i + 1) length last (<[Z.to_nat i := rs.1]> runeDate)
        else panic
  end.

(** Every round of the loop but two reads a byte. *)
Definition decString_fuel (r : reader) : nat := base.length (unread r) + 3.

Definition is_int_tag (tag : Z) : bool :=
  in_range 0x80 tag 0xbf || in_range 0xc0 tag 0xcf || in_range 0xd0 tag 0xd7
  || (tag =? BC_INT).
Definition is_long_tag (tag : Z) : bool :=
  in_range 0xd8 tag 0xef || in_range 0xf0 tag 0xff || in_range 0x38 tag 0x3f
  || (tag =? BC_LONG_INT) || (tag =? BC_LONG).

Definition decString (flag : Z) : R bytes :=
  tag <- readTag flag ;;
  if tag =? BC_NULL then ret STRING_NIL
  else if tag =? BC_TRUE then ret STRING_TRUE
  else if tag =? BC_FALSE then ret STRING_FALSE
  else if is_int_tag tag || is_long_tag tag then
    i <- trace (decInt64 tag) ;; ret (Itoa i)
  else if tag =? BC_DOUBLE_ZERO then ret STRING_ZERO
  else if tag =? BC_DOUBLE_ONE then ret STRING_ONE
  else if (tag =? BC_DOUBLE_BYTE) || (tag =? BC_DOUBLE_SHORT) then
    f <- trace (decDouble tag) ;;
    match f with
    | DFloat64 f => ret (FormatFloatE (int64_of_f64 f))
    | DInt32 _ => panic
    end
  else if is_string_tag tag then
    let last := negb (tag =? BC_STRING_CHUNK) in
    length <- trace (getStringLength tag) ;;
    if length <? 0 then panic
    else fun r => decString_loop (decString_fuel r) tag 0 length last
                    (replicate (Z.to_nat length) 0) r
  else fail (Errorf "unknown string tag %#x\n").

(** ** Binary data *)

Definition getBinaryLength (tag : Z) : R Z :=
  if in_range BC_BINARY_DIRECT tag INT_DIRECT_MAX then ret (u8 (tag - BC_BINARY_DIRECT))
  else if in_range BC_BINARY_SHORT tag 0x37 then
    read1 (fun b0 => ret (Z.shiftl (u8 (tag - BC_BINARY_SHORT)) 8 + b0))
  else if negb (tag =? BC_BINARY_CHUNK) && negb (tag =? BC_BINARY) then
    fail (Errorf "illegal binary tag:%d")
  else read2 (fun b0 b1 => ret (Z.shiftl b0 8 + b1)).

Definition readBufByte : R Z := read1 ret.

(** One chunk, whose tag has been read, after [data]: [None] stands for the
    [return nil, jerrors.Annotatef(err, ...)] with a nil [err], which returns
    no data and no error when the length is over [CHUNK_SIZE]. *)
Definition readChunk (tag : Z) (data : bytes) : R (option bytes) :=
  length <- trace (getBinaryLength tag) ;;
  if CHUNK_SIZE <? length then ret None
  else chunk <- trace (ReadFull (Z.to_nat length)) ;; ret (Some (data ++ chunk)).

Fixpoint decBinary_loop (fuel : nat) (tag : Z) (data : bytes) : R bytes :=
  match fuel with
  | O => nofuel
  | S fuel =>
      if tag =? BC_BINARY_CHUNK then
        c <- readChunk tag data ;;
        match c with
        | None => ret []
        | Some data => tag <- or_zero 0 readBufByte ;; decBinary_loop fuel tag data
        end
      else
        c <- readChunk tag data ;; ret (default [] c)
  end.

Definition decBinary (flag : Z) : R bytes :=
  tag <- (if negb (flag =? TAG_READ) then ret (u8 flag) else or_zero 0 readBufByte) ;;
  if tag =? BC_NULL then ret []
  else fun r => decBinary_loop (S (base.length (unread r))) tag [] r.
