(* ===== verification/HessianScalar.v ===== *)
(** * Round trips of the scalar encodings

    What [decode.go] reads back from what [encode.go] wrote, for integers,
    dates, doubles, strings and binary data. *)
From S2P Require Import Prelude Utf8 Bufio Float64 HessianConst HessianPack.
From S2P Require Import HessianEncode HessianDecode.

(** ** Reading a tagged value *)

(** A decoder called with [TAG_READ] reads the tag itself; called with a tag,
    it reads what follows it.  [reads_tagged dec inp a] says it answers [a]
    on [inp] in both cases. *)
Definition reads_tagged {A} (dec : Z -> R A) (inp : bytes) (a : A) : Prop :=
  match inp with
  | [] => False
  | t :: inp' => is_byte t /\ reads (dec TAG_READ) inp a /\ reads (dec t) inp' a
  end.

Lemma reads_tag_read {A} (dec : Z -> R A) inp a : reads_tagged dec inp a -> reads (dec TAG_READ) inp a.
Proof. unfold reads_tagged. by destruct inp as [|t inp]; [|intros (_ & ? & _)]. Qed.

Lemma readTag_read t : reads (readTag TAG_READ) [t] t.
Proof. unfold readTag. simpl. apply reads_or_zero, ReadByte_reads. Qed.

Lemma readTag_given t : is_byte t -> reads (readTag t) [] t.
Proof.
  intros H. unfold readTag. destruct (t =? TAG_READ) eqn:E.
  - unfold TAG_READ, is_byte in *. lia.
  - simpl. rewrite u8_id by done. apply reads_ret.
Qed.

Lemma reads_tagged_intro {A} (body : Z -> R A) t inp a :
  is_byte t -> reads (body t) inp a ->
  reads_tagged (fun flag => bind (readTag flag) body) (t :: inp) a.
Proof.
  intros Ht H. split_and!; [done| |].
  - apply (reads_bind _ _ [t] inp t a); [apply readTag_read|done].
  - apply reads_bind_nil with t; [by apply readTag_given|done].
Qed.

Lemma reads_read1 {A} (k : Z -> R A) b0 inp a :
  reads (k b0) inp a -> reads (read1 k) (b0 :: inp) a.
Proof.
  intros H. apply (reads_bind _ _ [b0] inp [b0] a); [|done].
  apply reads_trace. by apply ReadFull_reads.
Qed.

Lemma reads_read2 {A} (k : Z -> Z -> R A) b0 b1 inp a :
  reads (k b0 b1) inp a -> reads (read2 k) (b0 :: b1 :: inp) a.
Proof.
  intros H. apply (reads_bind _ _ [b0; b1] inp [b0; b1] a); [|done].
  apply reads_trace. by apply ReadFull_reads.
Qed.

Lemma reads_full {A} n (k : bytes -> R A) inp0 inp a :
  length inp0 = n -> reads (k inp0) inp a ->
  reads (bind (trace (ReadFull n)) k) (inp0 ++ inp) a.
Proof.
  intros Hn H. apply reads_bind with inp0; [|done].
  apply reads_trace. by apply ReadFull_reads.
Qed.

Lemma reads_ret_eq {A} (a b : A) : a = b -> reads (ret a) [] b.
Proof. intros ->. apply reads_ret. Qed.

Lemma in_range_true lo t hi : lo <= t <= hi -> in_range lo t hi = true.
Proof. unfold in_range. lia. Qed.
Lemma in_range_false lo t hi : t < lo \/ hi < t -> in_range lo t hi = false.
Proof. unfold in_range. lia. Qed.

(** Runs the dispatch on a tag: decides each test of the goal by [lia]. *)
Ltac tag_case :=
  repeat match goal with
  | |- context [in_range ?lo ?t ?hi] =>
      first [ rewrite (in_range_true lo t hi) by lia
            | rewrite (in_range_false lo t hi) by lia ]
  | |- context [?a =? ?b] =>
      first [ rewrite (proj2 (Z.eqb_neq a b)) by lia
            | rewrite (proj2 (Z.eqb_eq a b)) by lia ]
  end; cbn [orb andb negb].

Ltac hessian_const :=
  unfold TAG_READ, BC_INT, BC_INT_ZERO, BC_INT_BYTE_ZERO, BC_INT_SHORT_ZERO, BC_LONG_ZERO,
    BC_LONG_BYTE_ZERO, BC_LONG_SHORT_ZERO, BC_LONG, BC_LONG_INT, INT_DIRECT_MIN,
    INT_DIRECT_MAX, INT_BYTE_MIN, INT_BYTE_MAX, INT_SHORT_MIN, INT_SHORT_MAX,
    LONG_DIRECT_MIN, LONG_DIRECT_MAX, LONG_BYTE_MIN, LONG_BYTE_MAX, LONG_SHORT_MIN,
    LONG_SHORT_MAX, BC_DATE, BC_DATE_MINUTE, BC_DOUBLE, BC_DOUBLE_ZERO, BC_DOUBLE_ONE,
    BC_DOUBLE_BYTE, BC_DOUBLE_SHORT, BC_DOUBLE_MILL, BC_STRING, BC_STRING_CHUNK,
    BC_STRING_DIRECT, STRING_DIRECT_MAX, BC_STRING_SHORT, STRING_SHORT_MAX, CHUNK_SIZE,
    BC_BINARY, BC_BINARY_CHUNK, BC_BINARY_DIRECT, BINARY_DIRECT_MAX, BC_BINARY_SHORT,
    BINARY_SHORT_MAX, BC_NULL, BC_TRUE, BC_FALSE in *.

(** Wrapping arithmetic as equations for [lia]. *)
Ltac wrap_lia :=
  unfold u8, u16, u32, u64, i32, i64, wrap, swrap, is_byte, is_i32, is_i64 in *;
  rewrite ?Z.shiftr_div_pow2, ?Z.shiftl_mul_pow2 by lia;
  Z.div_mod_to_equations; lia.

(** ** Integers *)

(** The sums of shifted bytes in the decoders are big-endian numbers. *)
Lemma be_sum4 b0 b1 b2 b3 :
  be_val [b0; b1; b2; b3] = Z.shiftl b0 24 + Z.shiftl b1 16 + Z.shiftl b2 8 + b3.
Proof. unfold be_val. cbn [foldl]. rewrite !Z.shiftl_mul_pow2 by lia. lia. Qed.

Lemma be_sum8 b0 b1 b2 b3 b4 b5 b6 b7 :
  be_val [b0; b1; b2; b3; b4; b5; b6; b7] =
    Z.shiftl b0 56 + Z.shiftl b1 48 + Z.shiftl b2 40 + Z.shiftl b3 32 +
    Z.shiftl b4 24 + Z.shiftl b5 16 + Z.shiftl b6 8 + b7.
Proof. unfold be_val. cbn [foldl]. rewrite !Z.shiftl_mul_pow2 by lia. lia. Qed.

Lemma be_bytes4 v :
  be_val [u8 (Z.shiftr v 24); u8 (Z.shiftr v 16); u8 (Z.shiftr v 8); u8 v] = wrap 32 v.
Proof. fold (PutUint32 v). rewrite PutUint32_digits. apply (be_val_digits 4). Qed.

Lemma be_bytes8 v :
  be_val [u8 (Z.shiftr v 56); u8 (Z.shiftr v 48); u8 (Z.shiftr v 40); u8 (Z.shiftr v 32);
          u8 (Z.shiftr v 24); u8 (Z.shiftr v 16); u8 (Z.shiftr v 8); u8 v] = wrap 64 v.
Proof. fold (PutUint64 v). rewrite PutUint64_digits. apply (be_val_digits 8). Qed.

(** What [decInt32] makes of an encoded [v]: the tag of a compact form is
    taken to be unsigned, so that the sign of a negative [v] is lost. *)
Definition int32_back (v : Z) : Z :=
  if (-0x10 <=? v) && (v <? 0) then v + 0x100
  else if (-0x800 <=? v) && (v <? 0) then v + 0x10000
  else if (-0x40000 <=? v) && (v <? 0) then v + 0x1000000
  else v.

Lemma decInt32_encInt32 v :
  is_i32 v -> reads_tagged decInt32 (encInt32 v []) (int32_back v).
Proof.
  intros Hv. unfold encInt32, encByte, int32_back, decInt32. hessian_const. cbn [app].
  destruct ((-0x10 <=? v) && (v <=? 0x2f)) eqn:E1; zify_bool.
  { apply reads_tagged_intro; [auto with go|].
    assert (u8 (i32 (v + 0x90)) = v + 0x90) as -> by wrap_lia. tag_case.
    apply reads_ret_eq. repeat case_match; zify_bool; wrap_lia. }
  destruct ((-0x800 <=? v) && (v <=? 0x7ff)) eqn:E2; zify_bool.
  { apply reads_tagged_intro; [auto with go|].
    assert (u8 (i32 (0xc8 + Z.shiftr v 8)) = 0xc8 + v / 256) as -> by wrap_lia.
    assert (0xc0 <= 0xc8 + v / 256 <= 0xcf) by (Z.div_mod_to_equations; lia). tag_case.
    apply reads_read1, reads_ret_eq. repeat case_match; zify_bool; wrap_lia. }
  destruct ((-0x40000 <=? v) && (v <=? 0x3ffff)) eqn:E3; zify_bool.
  { apply reads_tagged_intro; [auto with go|].
    assert (u8 (i32 (Z.shiftr v 16 + 0xd4)) = 0xd4 + v / 65536) as -> by wrap_lia.
    assert (0xd0 <= 0xd4 + v / 65536 <= 0xd7) by (Z.div_mod_to_equations; lia). tag_case.
    apply reads_read2, reads_ret_eq. repeat case_match; zify_bool; wrap_lia. }
  apply reads_tagged_intro; [unfold is_byte; lia|]. tag_case.
  apply (reads_full 4 _ [_; _; _; _] []); [done|].
  apply reads_ret_eq. rewrite <- be_sum4, be_bytes4, i32_wrap, i32_id by done.
  repeat case_match; zify_bool; lia.
Qed.

(** [decInt64] loses the sign of the compact forms in the same way. *)
Definition int64_back (v : Z) : Z :=
  if (-0x8 <=? v) && (v <? 0) then v + 0x100
  else if (-0x800 <=? v) && (v <? 0) then v + 0x10000
  else if (-0x40000 <=? v) && (v <? 0) then v + 0x1000000
  else v.

Lemma decInt64_encInt64 v :
  is_i64 v -> reads_tagged decInt64 (encInt64 v []) (int64_back v).
Proof.
  intros Hv. unfold encInt64, encByte, int64_back, decInt64. hessian_const. cbn [app].
  destruct ((-0x8 <=? v) && (v <=? 0x0f)) eqn:E1; zify_bool.
  { apply reads_tagged_intro; [auto with go|].
    assert (u8 (i64 (v + 0xe0)) = v + 0xe0) as -> by wrap_lia. tag_case.
    apply reads_ret_eq. repeat case_match; zify_bool; wrap_lia. }
  destruct ((-0x800 <=? v) && (v <=? 0x7ff)) eqn:E2; zify_bool.
  { apply reads_tagged_intro; [auto with go|].
    assert (u8 (i64 (0xf8 + Z.shiftr v 8)) = 0xf8 + v / 256) as -> by wrap_lia.
    assert (0xf0 <= 0xf8 + v / 256 <= 0xff) by (Z.div_mod_to_equations; lia). tag_case.
    apply reads_read1, reads_ret_eq. repeat case_match; zify_bool; wrap_lia. }
  destruct ((-0x40000 <=? v) && (v <=? 0x3ffff)) eqn:E3; zify_bool.
  { apply reads_tagged_intro; [auto with go|].
    assert (u8 (i64 (0x3c + Z.shiftr v 16)) = 0x3c + v / 65536) as -> by wrap_lia.
    assert (0x38 <= 0x3c + v / 65536 <= 0x3f) by (Z.div_mod_to_equations; lia). tag_case.
    apply reads_read2, reads_ret_eq. repeat case_match; zify_bool; wrap_lia. }
  destruct ((0x80000000 <=? v) && (v <=? 0x7fffffff)) eqn:E4; zify_bool; [lia|].
  apply reads_tagged_intro; [unfold is_byte; lia|]. tag_case.
  apply (reads_full 8 _ [_; _; _; _; _; _; _; _] []); [done|].
  apply reads_ret_eq. rewrite <- be_sum8, be_bytes8, i64_wrap, i64_id by done.
  repeat case_match; zify_bool; lia.
Qed.

(** ** Dates *)

(** A date is written to the millisecond, rounded towards 1970. *)
Definition date_back (t : Z) : Z := Z.quot t 1000000 * 1000000.

(** [decDate] asks for its bytes with a single [Read]: it gets them when the
    buffer is empty or holds them all, and fails when the buffer ends inside. *)
Lemma next_buffered n inp r rest :
  length inp = n -> (0 < n < bufsize)%nat -> buf_ok r -> unread r = inp ++ rest ->
  (nbuf r = 0 \/ n <= nbuf r)%nat ->
  exists r', next n r = (Ret inp, r') /\ buf_ok r' /\ unread r' = rest.
Proof.
  intros Hl Hn Hok Hr Hb. unfold next, Read.
  rewrite (proj2 (Nat.eqb_neq n 0)) by lia.
  assert (Htake : take n (unread r) = inp) by (rewrite Hr, <- Hl; apply take_app_length).
  assert (Hdrop : drop n (unread r) = rest) by (rewrite Hr, <- Hl; apply drop_app_length).
  assert (n <= length (unread r))%nat by (rewrite Hr, length_app; lia).
  destruct (nbuf r =? 0)%nat eqn:E.
  - destruct (unread r) as [|x l] eqn:Er; [simpl in *; lia|]. rewrite <- Er in *.
    rewrite (proj2 (Nat.leb_gt bufsize n)) by lia. cbn [fill nbuf unread].
    rewrite Nat.min_l by lia. rewrite Htake. eexists; split_and!; [done|auto with go|].
    done.
  - apply Nat.eqb_neq in E. rewrite Nat.min_l by lia. rewrite Htake.
    eexists; split_and!; [done|auto with go|done].
Qed.

Lemma encDateInMs_bytes t :
  encDateInMs t [] = BC_DATE :: PackInt64 (Z.quot (UnixNano t) 1000000).
Proof. done. Qed.

Lemma quot_ms_i64 t : is_i64 t -> is_i64 (Z.quot t 1000000).
Proof. unfold is_i64. intros. pose proof (Z.quot_rem' t 1000000). pose proof (Z.rem_bound_abs t 1000000). lia. Qed.

Lemma time_of_ms m : time_Unix (Z.quot m 1000) (Z.rem m 1000 * 1000000) = m * 1000000.
Proof. unfold time_Unix. pose proof (Z.quot_rem' m 1000). lia. Qed.

Lemma decDate_encDate t r rest :
  is_i64 t -> buf_ok r -> unread r = tail (encDateInMs t []) ++ rest ->
  (nbuf r = 0 \/ 8 <= nbuf r)%nat ->
  exists r', decDate BC_DATE r = (Ret (date_back t), r') /\ buf_ok r' /\ unread r' = rest.
Proof.
  intros Ht Hok Hr Hb. rewrite encDateInMs_bytes in Hr. cbn [tail] in Hr.
  destruct (next_buffered 8 (PackInt64 (Z.quot (UnixNano t) 1000000)) r rest)
    as (r' & E & Hok' & Hr'); [done|unfold bufsize; lia|done|done|done|].
  exists r'. split_and!; [|done|done].
  change (decDate BC_DATE r) with
    ((s <- next 8 ;; if negb (length s =? 8)%nat then fail ErrNotEnoughBuf
      else match UnpackInt64 s with
           | Some i64 => ret (time_Unix (Z.quot i64 1000) (Z.rem i64 1000 * 1000000))
           | None => panic end) r).
  unfold bind. rewrite E. change (length _ =? 8)%nat with true. cbn [negb].
  rewrite UnpackInt64_Pack by (unfold UnixNano; rewrite i64_id by done; by apply quot_ms_i64).
  unfold UnixNano. rewrite i64_id by done. unfold ret. by rewrite time_of_ms.
Qed.

Lemma decDate_straddle r :
  buf_ok r -> (0 < nbuf r < 8)%nat ->
  exists r', decDate BC_DATE r = (Fail ErrNotEnoughBuf, r').
Proof.
  intros Hok Hn. eexists.
  change (decDate BC_DATE r) with
    ((s <- next 8 ;; if negb (length s =? 8)%nat then fail ErrNotEnoughBuf
      else match UnpackInt64 s with
           | Some i64 => ret (time_Unix (Z.quot i64 1000) (Z.rem i64 1000 * 1000000))
           | None => panic end) r).
  unfold bind, next, Read. cbn [Nat.eqb].
  rewrite (proj2 (Nat.eqb_neq (nbuf r) 0)), Nat.min_r by lia.
  rewrite length_take, Nat.min_l by (unfold buf_ok in *; lia).
  by rewrite (proj2 (Nat.eqb_neq (nbuf r) 8)) by lia.
Qed.

(** ** Doubles *)

(** The integers the encoder stores in one byte, and those it stores in two
    under the tag of one. *)
Definition f64_small (v lo hi : Z) : Prop :=
  f64_eqb (f64_of_int (int64_of_f64 v)) v = true /\ lo <= int64_of_f64 v < hi.

Definition float_back (v : Z) : Z :=
  let iv := int64_of_f64 v in
  if f64_eqb (f64_of_int iv) v then
    if (-0x80 <=? iv) && (iv <? 0) then f64_of_int (iv + 0x100)
    else if (0 <=? iv) && (iv <? 0x80) then f64_of_int iv
    else v
  else v.

Lemma decDouble_END v :
  is_f64 v -> reads_tagged decDouble (encFloat_END v []) (DFloat64 v).
Proof.
  intros Hv. unfold encFloat_END, encByte, decDouble. hessian_const. cbn [app].
  apply reads_tagged_intro; [unfold is_byte; lia|]. tag_case.
  change [u8 (Z.shiftr v 56); u8 (Z.shiftr v 48); u8 (Z.shiftr v 40); u8 (Z.shiftr v 32);
          u8 (Z.shiftr v 24); u8 (Z.shiftr v 16); u8 (Z.shiftr v 8); u8 v] with (PutUint64 v).
  rewrite <- (app_nil_r (PutUint64 v)).
  apply (reads_full 8); [done|]. rewrite PutUint64_digits, Uint64_digits.
  rewrite Z.mod_small by (unfold is_f64 in Hv; lia). apply reads_ret.
Qed.

Lemma decDouble_encFloat v :
  is_f64 v ->
  ~ (f64_small v (-0x8000) (-0x80) \/ f64_small v 0x80 0x8000) ->
  reads_tagged decDouble (encFloat v []) (DFloat64 (float_back v)).
Proof.
  unfold f64_small. intros Hv Hns. unfold encFloat, float_back.
  destruct (f64_eqb (f64_of_int (int64_of_f64 v)) v) eqn:Eq; [|by apply decDouble_END].
  set (iv := int64_of_f64 v) in *.
  destruct (iv =? 0) eqn:E0; zify_bool.
  { rewrite E0. cbn [Z.leb Z.ltb Z.compare andb].
    apply reads_tagged_intro; [unfold is_byte, BC_DOUBLE_ZERO; lia|]. apply reads_ret. }
  destruct (iv =? 1) eqn:E1; zify_bool.
  { rewrite E1. cbn [Z.leb Z.ltb Z.compare andb].
    apply reads_tagged_intro; [unfold is_byte, BC_DOUBLE_ONE; lia|]. apply reads_ret. }
  destruct ((-0x80 <=? iv) && (iv <? 0x80)) eqn:E2; zify_bool.
  { apply reads_tagged_intro; [unfold is_byte, BC_DOUBLE_BYTE; lia|]. hessian_const. tag_case.
    apply (reads_bind _ _ [u8 iv] [] (u8 iv)); [apply reads_or_zero, ReadByte_reads|].
    apply reads_ret_eq. f_equal. repeat case_match; zify_bool; try lia; f_equal; wrap_lia. }
  destruct ((-0x80 <=? iv) && (iv <? 0)) eqn:Ea; [lia|].
  destruct ((0 <=? iv) && (iv <? 0x80)) eqn:Eb; [lia|].
  destruct ((-0x8000 <=? iv) && (iv <? 0x8000)) eqn:E3; zify_bool; [|by apply decDouble_END].
  exfalso. apply Hns. lia.
Qed.

(** ** Strings *)

Abbreviation scalars rs := (Forall (fun r => scalar r = true) rs).

Section Strings.
Context `{GX : GxStrings} {GXok : GxStringsOk}.

Lemma vChunk_runes n rs b :
  scalars rs ->
  vChunk n (encode_runes rs) b = (encode_runes (drop n rs), b ++ encode_runes (take n rs)).
Proof.
  intros H. revert n b. induction H as [|r rs Hr Hrs IH]; intros n b.
  - rewrite drop_nil, take_nil. cbn. rewrite app_nil_r.
    induction n; [done|]. by cbn.
  - destruct n as [|n].
    { cbn. by rewrite app_nil_r. }
    change (encode_runes (r :: rs)) with (EncodeRune r ++ encode_runes rs).
    cbn [vChunk]. pose proof (EncodeRune_app_nonnil r (encode_runes rs)).
    destruct (EncodeRune r ++ encode_runes rs) as [|x l] eqn:E; [done|]. rewrite <- E.
    rewrite DecodeRune_EncodeRune by done. rewrite drop_app_length, IH, Slice_bytes.
    cbn. by rewrite <- app_assoc.
Qed.

(** The header of the last chunk, of [n <= CHUNK_SIZE] runes. *)
Definition str_header (n : Z) : bytes :=
  if n <=? STRING_DIRECT_MAX then [u8 (n + BC_STRING_DIRECT)]
  else if n <=? STRING_SHORT_MAX then [u8 (Z.shiftr n 8 + BC_STRING_SHORT); u8 n]
  else BC_STRING :: PackUint16 (u16 n).

(** The chunks of a string, as a function of its runes. *)
Fixpoint str_frames (fuel : nat) (rs : list Z) : bytes :=
  match fuel with
  | O => []
  | S fuel =>
      if CHUNK_SIZE <? Z.of_nat (length rs) then
        (BC_STRING_CHUNK :: PackUint16 (u16 CHUNK_SIZE))
          ++ encode_runes (take (Z.to_nat CHUNK_SIZE) rs)
          ++ str_frames fuel (drop (Z.to_nat CHUNK_SIZE) rs)
      else str_header (Z.of_nat (length rs)) ++ encode_runes rs
  end.

Lemma RuneCount_encode rs : scalars rs -> RuneCount (encode_runes rs) = Z.of_nat (length rs).
Proof. intros. unfold RuneCount. by rewrite runes_encode. Qed.

Lemma encString_loop_nil fuel b : encString_loop fuel [] b = b.
Proof. by destruct fuel. Qed.

Lemma encString_loop_frames fuel rs b :
  scalars rs -> rs <> [] -> (length rs < fuel)%nat ->
  encString_loop fuel (encode_runes rs) b = b ++ str_frames fuel rs.
Proof.
  revert rs b. induction fuel as [|fuel IH]; intros rs b Hs Hne Hf; [lia|].
  cbn [encString_loop str_frames]. rewrite RuneCount_encode by done.
  assert (0 < length rs)%nat by (destruct rs; [done|simpl; lia]).
  destruct (_ =? 0) eqn:E0; zify_bool; [lia|].
  destruct (CHUNK_SIZE <? _) eqn:E1; zify_bool.
  - rewrite vChunk_runes by done. unfold encByte.
    assert (Z.to_nat CHUNK_SIZE < length rs)%nat by (unfold CHUNK_SIZE in *; lia).
    rewrite IH.
    + by rewrite <- !app_assoc.
    + by apply Forall_drop.
    + intros E. apply (f_equal length) in E. rewrite length_drop in E. simpl in E. lia.
    + rewrite length_drop. unfold CHUNK_SIZE in *. lia.
  - rewrite vChunk_runes by done. rewrite Nat2Z.id, take_ge, drop_ge by done.
    change (encode_runes []) with (@nil Z). rewrite encString_loop_nil.
    unfold str_header, encByte. repeat case_match; by rewrite <- !app_assoc.
Qed.

Lemma encString_frames rs :
  scalars rs -> rs <> [] ->
  exists fuel, (length rs < fuel)%nat /\ encString (encode_runes rs) [] = str_frames fuel rs.
Proof.
  intros Hs Hne. exists (S (length (encode_runes rs))).
  assert (length rs <= length (encode_runes rs))%nat.
  { clear. induction rs as [|r rs IH]; [done|].
    unfold encode_runes in *. simpl. rewrite length_app. pose proof (EncodeRune_length r). lia. }
  split; [lia|]. unfold encString.
  destruct (encode_runes rs) eqn:E.
  { destruct rs; [done|]. by destruct (encode_runes_nonnil z rs). }
  rewrite <- E in *. rewrite encString_loop_frames by (done || lia). done.
Qed.

(** Reading the [k] runes [rs] of a chunk after the runes [dn]. *)
Lemma decString_loop_runes fuel tag L last rs dn inp a :
  scalars rs -> L = Z.of_nat (length dn + length rs) -> L < 2 ^ 31 ->
  reads (decString_loop fuel tag L L last (dn ++ rs)) inp a ->
  reads (decString_loop (length rs + fuel) tag (Z.of_nat (length dn)) L last
           (dn ++ replicate (length rs) 0)) (encode_runes rs ++ inp) a.
Proof.
  intros Hs. revert dn. induction Hs as [|r rs Hr Hs IH]; intros dn HL Hlt H.
  { cbn [length Nat.add] in *. rewrite Nat.add_0_r in HL. by rewrite <- HL. }
  cbn [length Nat.add replicate] in *. cbn [decString_loop].
  rewrite i32_id by (unfold is_i32; lia).
  destruct (_ =? L) eqn:E; zify_bool; [lia|].
  change (encode_runes (r :: rs)) with (EncodeRune r ++ encode_runes rs).
  rewrite <- app_assoc.
  apply reads_bind with (r, length (EncodeRune r)); [by apply reads_trace, ReadRune_reads|].
  rewrite length_app. cbn [length]. rewrite length_replicate.
  destruct (_ <? _) eqn:E2; zify_bool; [|lia].
  replace (Z.of_nat (length dn) + 1) with (Z.of_nat (length (dn ++ [r])))
    by (rewrite length_app; simpl; lia).
  rewrite Nat2Z.id. cbn [fst].
  replace (<[length dn := r]> (dn ++ 0 :: replicate (length rs) 0))
    with ((dn ++ [r]) ++ replicate (length rs) 0).
  - apply IH; [rewrite length_app; simpl; lia|done|]. by rewrite <- app_assoc.
  - rewrite <- app_assoc. cbn [app]. rewrite <- (Nat.add_0_r (length dn)) at 1.
    by rewrite insert_app_r.
Qed.

(** The bytes that can start a chunk. *)
Definition str_tag (t : Z) : Prop :=
  0 <= t <= 0x1f \/ 0x30 <= t <= 0x33 \/ t = 0x52 \/ t = 0x53.

Lemma str_tag_is t : str_tag t -> is_string_tag t = true.
Proof. unfold str_tag, is_string_tag, in_range. hessian_const. lia. Qed.
Lemma str_tag_byte t : str_tag t -> is_byte t.
Proof. unfold str_tag, is_byte. lia. Qed.

(** A chunk begins with a tag and the length it announces. *)
Definition announces (hdr : bytes) (n : Z) (is_last : bool) : Prop :=
  exists t h, hdr = t :: h /\ str_tag t /\ negb (t =? BC_STRING_CHUNK) = is_last
    /\ reads (getStringLength t) h n.

Lemma announces_header n : 0 <= n <= CHUNK_SIZE -> announces (str_header n) n true.
Proof.
  intros Hn. unfold str_header, announces, getStringLength, str_tag. hessian_const.
  destruct (n <=? 0x1f) eqn:E1; zify_bool.
  { exists (u8 (n + 0)), []. rewrite u8_id by (unfold is_byte; lia). rewrite Z.add_0_r.
    split_and!; [done|lia|lia|]. tag_case. rewrite Z.sub_0_r. apply reads_ret_eq.
    apply u8_id. unfold is_byte; lia. }
  destruct (n <=? 0x3ff) eqn:E2; zify_bool.
  { exists (u8 (Z.shiftr n 8 + 0x30)), [u8 n].
    assert (u8 (Z.shiftr n 8 + 0x30) = n / 256 + 0x30) as -> by wrap_lia.
    assert (0x30 <= n / 256 + 0x30 <= 0x33) by (Z.div_mod_to_equations; lia).
    split_and!; [done|lia|lia|]. tag_case. apply reads_read1, reads_ret_eq. wrap_lia. }
  eexists _, _. split_and!; [done|lia|done|]. tag_case.
  apply reads_read2, reads_ret_eq. wrap_lia.
Qed.

Lemma announces_chunk : announces (BC_STRING_CHUNK :: PackUint16 (u16 CHUNK_SIZE)) CHUNK_SIZE false.
Proof.
  eexists _, _. split_and!; [done|unfold str_tag; hessian_const; lia|done|].
  apply reads_read2, reads_ret.
Qed.

Lemma grow_runes_app dn k L :
  L = Z.of_nat (length dn + k) -> grow_runes L dn = dn ++ replicate k 0.
Proof.
  intros ->. unfold grow_runes. rewrite Nat2Z.id, take_ge by lia.
  by replace (length dn + k - length dn)%nat with k by lia.
Qed.

(** The header of one more chunk, read in the middle of the loop. *)
Lemma decString_loop_header fuel tag hdr n is_last dn inp a :
  str_tag tag -> announces hdr n is_last -> 0 <= n -> Z.of_nat (length dn) + n < 2 ^ 31 ->
  reads (decString_loop fuel tag (Z.of_nat (length dn)) (Z.of_nat (length dn) + n) is_last
           (dn ++ replicate (Z.to_nat n) 0)) inp a ->
  reads (decString_loop (S fuel) tag (Z.of_nat (length dn)) (Z.of_nat (length dn)) false dn)
    (hdr ++ inp) a.
Proof.
  intros Htag (t & h & -> & Ht & Hl & Hg) Hn Hlt H. cbn [decString_loop].
  rewrite i32_id by (unfold is_i32; lia). rewrite Z.eqb_refl.
  apply (reads_bind _ _ [t] (h ++ inp) t).
  { apply reads_or_zero, ReadByte_reads. }
  rewrite str_tag_is by done. rewrite Hl.
  apply reads_bind with n; [by apply reads_trace|].
  rewrite i32_id by (unfold is_i32; lia).
  destruct (_ <? 0) eqn:E; zify_bool; [lia|].
  by rewrite (grow_runes_app dn (Z.to_nat n)) by lia.
Qed.

Lemma decString_loop_done fuel tag L dn :
  L = Z.of_nat (length dn) -> L < 2 ^ 31 ->
  reads (decString_loop (S fuel) tag L L true dn) [] (encode_runes dn).
Proof.
  intros HL Hlt. cbn [decString_loop]. rewrite i32_id by (unfold is_i32; lia).
  rewrite Z.eqb_refl. apply reads_ret.
Qed.

Lemma encode_runes_length rs : (length rs <= length (encode_runes rs))%nat.
Proof.
  induction rs as [|r rs IH]; [done|]. unfold encode_runes in *. simpl.
  rewrite length_app. pose proof (EncodeRune_length r). lia.
Qed.

Lemma decString_loop_chunk n fuel tag L last rs dn inp a :
  scalars rs -> n = length rs -> (n <= fuel)%nat -> L = Z.of_nat (length dn + n) -> L < 2 ^ 31 ->
  reads (decString_loop (fuel - n) tag L L last (dn ++ rs)) inp a ->
  reads (decString_loop fuel tag (Z.of_nat (length dn)) L last (dn ++ replicate n 0))
    (encode_runes rs ++ inp) a.
Proof.
  intros Hs -> Hf HL Hlt H.
  replace fuel with (length rs + (fuel - length rs))%nat by lia.
  by apply decString_loop_runes.
Qed.

(** Every chunk is a header and a body, and the loop started behind the header
    reads the body and all chunks after it. *)
Definition frame_reads (frames : bytes) (dn rs : list Z) : Prop :=
  exists hdr n is_last body,
    frames = hdr ++ body /\ announces hdr n is_last /\ 0 <= n <= Z.of_nat (length rs)
    /\ forall tag fuel, str_tag tag -> (length body < fuel)%nat ->
       reads (decString_loop fuel tag (Z.of_nat (length dn)) (Z.of_nat (length dn) + n) is_last
                (dn ++ replicate (Z.to_nat n) 0)) body (encode_runes (dn ++ rs)).

Lemma frame_reads_last dn rs :
  scalars rs -> Z.of_nat (length rs) <= CHUNK_SIZE -> Z.of_nat (length dn + length rs) < 2 ^ 31 ->
  frame_reads (str_header (Z.of_nat (length rs)) ++ encode_runes rs) dn rs.
Proof.
  intros Hs Hc Hlt. eexists _, (Z.of_nat (length rs)), true, _.
  split_and!; [reflexivity|apply announces_header; lia|lia|lia|].
  intros tag fuel _ Hf. pose proof (encode_runes_length rs).
  rewrite Nat2Z.id, <- (app_nil_r (encode_runes rs)).
  apply decString_loop_chunk; [done|done|lia|lia|lia|].
  replace (fuel - length rs)%nat with (S (fuel - length rs - 1)) by lia.
  apply decString_loop_done; [|lia]. rewrite length_app. lia.
Qed.

Lemma frame_reads_chunk dn rs rs1 rs2 frames :
  rs = rs1 ++ rs2 -> scalars rs1 -> Z.of_nat (length rs1) = CHUNK_SIZE ->
  Z.of_nat (length dn + length rs) < 2 ^ 31 ->
  frame_reads frames (dn ++ rs1) rs2 ->
  frame_reads ((BC_STRING_CHUNK :: PackUint16 (u16 CHUNK_SIZE)) ++ encode_runes rs1 ++ frames)
    dn rs.
Proof.
  intros -> Hs Hc Hlt (hdr & n & il & body & -> & Ha & Hn & Hr).
  rewrite length_app in Hlt. rewrite Nat2Z.inj_add, Nat2Z.inj_add in Hlt.
  eexists _, CHUNK_SIZE, false, _.
  split_and!; [reflexivity|apply announces_chunk|unfold CHUNK_SIZE; lia|rewrite length_app; lia|].
  intros tag fuel Htag Hf. pose proof (encode_runes_length rs1).
  rewrite !length_app in Hf.
  assert (0 < length hdr)%nat by (destruct Ha as (t & h & -> & _); simpl; lia).
  apply decString_loop_chunk; [done|lia|lia|lia|lia|].
  replace (fuel - Z.to_nat CHUNK_SIZE)%nat with (S (fuel - length rs1 - 1)) by lia.
  replace (Z.of_nat (length dn) + CHUNK_SIZE) with (Z.of_nat (length (dn ++ rs1)))
    by (rewrite length_app; lia).
  apply decString_loop_header with (n := n) (is_last := il); [done|done|lia| |].
  { rewrite length_app. lia. }
  rewrite app_assoc. apply Hr; [done|lia].
Qed.

Lemma str_frames_reads fuelF rs dn :
  scalars rs -> (length rs < fuelF)%nat -> Z.of_nat (length dn + length rs) < 2 ^ 31 ->
  frame_reads (str_frames fuelF rs) dn rs.
Proof.
  revert rs dn. induction fuelF as [|fuelF IH]; intros rs dn Hs HfF Hlt; [lia|].
  cbn [str_frames]. destruct (CHUNK_SIZE <? Z.of_nat (length rs)) eqn:E; zify_bool.
  - set (c := Z.to_nat CHUNK_SIZE).
    assert (Hc : (0 < c < length rs)%nat) by (unfold c, CHUNK_SIZE in *; lia).
    apply frame_reads_chunk with (drop c rs); [by rewrite take_drop|by apply Forall_take| |done|].
    { rewrite length_take. unfold c, CHUNK_SIZE in *. lia. }
    apply IH; [by apply Forall_drop|rewrite length_drop; lia|].
    rewrite length_app, length_take, length_drop. lia.
  - by apply frame_reads_last.
Qed.

(** The dispatch of [decString] on a tag that starts a string. *)
Lemma decString_tag t h n is_last body a :
  announces (t :: h) n is_last -> 0 <= n ->
  (forall fuel, (length body < fuel)%nat ->
     reads (decString_loop fuel t 0 n is_last (replicate (Z.to_nat n) 0)) body a) ->
  reads_tagged decString (t :: h ++ body) a.
Proof.
  intros (t' & h' & Et & Ht & Hl & Hg) Hn Hloop. injection Et as <- <-.
  apply reads_tagged_intro; [by apply str_tag_byte|].
  pose proof (str_tag_is t Ht) as Hst. unfold str_tag in Ht.
  unfold is_int_tag, is_long_tag. hessian_const. tag_case.
  rewrite Hst. apply reads_bind with n; [by apply reads_trace|].
  destruct (n <? 0) eqn:E; zify_bool; [lia|]. rewrite Hl.
  intros r rest Hok Hr. apply Hloop; [|done|done].
  unfold decString_fuel. rewrite Hr, length_app. lia.
Qed.

(** A string of any length, in as many chunks as it takes, is read back as it
    was written, provided it is valid UTF-8 of fewer than 2^31 runes. *)
Lemma decString_encString rs :
  scalars rs -> Z.of_nat (length rs) < 2 ^ 31 ->
  reads_tagged decString (encString (encode_runes rs) []) (encode_runes rs).
Proof.
  intros Hs Hlt. destruct (decide (rs = [])) as [->|Hne].
  - apply (decString_tag 0 [] 0 true []); [|done|].
    + apply (announces_header 0). hessian_const. lia.
    + intros fuel Hf. destruct fuel; [simpl in Hf; lia|].
      apply decString_loop_done; [done|lia].
  - destruct (encString_frames rs Hs Hne) as (fuel & Hf & ->).
    destruct (str_frames_reads fuel rs []) as (hdr & n & il & body & -> & Ha & Hn & Hr);
      [done|done|simpl; lia|].
    pose proof Ha as (t & h & -> & Ht & _).
    apply (decString_tag t h n il body); [done|lia|].
    intros f Hf'. by apply (Hr t f).
Qed.
End Strings.

(** ** Binary data *)

(** The header of the last chunk, of [n <= CHUNK_SIZE] bytes. *)
Definition bin_header (n : Z) : bytes :=
  if n <=? BINARY_DIRECT_MAX then [u8 (BC_BINARY_DIRECT + n)]
  else if n <=? BINARY_SHORT_MAX then [u8 (BC_BINARY_SHORT + Z.shiftr n 8); u8 n]
  else [BC_BINARY; u8 (Z.shiftr n 8); u8 n].

Definition bin_chunk_header : bytes :=
  [BC_BINARY_CHUNK; u8 (Z.shiftr CHUNK_SIZE 8); u8 CHUNK_SIZE].

Fixpoint bin_frames (fuel : nat) (v : bytes) : bytes :=
  match fuel with
  | O => []
  | S fuel =>
      if CHUNK_SIZE <? Z.of_nat (length v) then
        bin_chunk_header ++ take (Z.to_nat CHUNK_SIZE) v
          ++ bin_frames fuel (drop (Z.to_nat CHUNK_SIZE) v)
      else bin_header (Z.of_nat (length v)) ++ v
  end.

Lemma encBinary_loop_frames fuel v b :
  v <> [] -> (length v < fuel)%nat ->
  encBinary_loop fuel v b = b ++ bin_frames fuel v.
Proof.
  revert v b. induction fuel as [|fuel IH]; intros v b Hne Hf; [lia|].
  cbn [encBinary_loop bin_frames].
  assert (0 < length v)%nat by (destruct v; [done|simpl; lia]).
  destruct (_ <=? 0) eqn:E0; zify_bool; [lia|].
  destruct (CHUNK_SIZE <? _) eqn:E1; zify_bool.
  - assert (Hd : (0 < length (drop (Z.to_nat CHUNK_SIZE) v) < fuel)%nat).
    { rewrite length_drop. unfold CHUNK_SIZE in *. lia. }
    rewrite IH; [by unfold encByte; rewrite <- !app_assoc| |lia].
    intros E. rewrite E in Hd. simpl in Hd. lia.
  - assert (u16 (Z.of_nat (length v)) = Z.of_nat (length v)) as ->
      by (apply (wrap_id 16); unfold CHUNK_SIZE in *; lia).
    rewrite Nat2Z.id, take_ge, drop_ge by done.
    assert (forall b, encBinary_loop fuel [] b = b) as -> by (by destruct fuel).
    unfold bin_header, encByte. repeat case_match; by rewrite <- !app_assoc.
Qed.

Definition bin_tag (t : Z) : Prop :=
  0x20 <= t <= 0x2f \/ 0x34 <= t <= 0x37 \/ t = 0x41 \/ t = 0x42.

(** A binary header announces [n] bytes, the last ones or not. *)
Definition bin_announces (hdr : bytes) (n : Z) (is_last : bool) : Prop :=
  exists t h, hdr = t :: h /\ bin_tag t /\ negb (t =? BC_BINARY_CHUNK) = is_last
    /\ reads (getBinaryLength t) h n.

Lemma bin_announces_header n : 0 <= n <= CHUNK_SIZE -> bin_announces (bin_header n) n true.
Proof.
  intros Hn. unfold bin_header, bin_announces, getBinaryLength, bin_tag, INT_DIRECT_MAX.
  hessian_const. destruct (n <=? 0x0f) eqn:E1; zify_bool.
  { exists (u8 (0x20 + n)), []. rewrite u8_id by (unfold is_byte; lia).
    split_and!; [done|lia|lia|]. tag_case. apply reads_ret_eq. wrap_lia. }
  destruct (n <=? 0x3ff) eqn:E2; zify_bool.
  { exists (u8 (0x34 + Z.shiftr n 8)), [u8 n].
    assert (u8 (0x34 + Z.shiftr n 8) = 0x34 + n / 256) as -> by wrap_lia.
    assert (0x34 <= 0x34 + n / 256 <= 0x37) by (Z.div_mod_to_equations; lia).
    split_and!; [done|lia|lia|]. tag_case. apply reads_read1, reads_ret_eq. wrap_lia. }
  eexists _, _. split_and!; [done|lia|done|]. tag_case.
  apply reads_read2, reads_ret_eq. wrap_lia.
Qed.

Lemma bin_announces_chunk : bin_announces bin_chunk_header CHUNK_SIZE false.
Proof.
  eexists _, _. split_and!; [done|unfold bin_tag; hessian_const; lia|done|].
  apply reads_read2, reads_ret.
Qed.

Lemma readChunk_reads t h n data v :
  reads (getBinaryLength t) h n -> 0 <= n <= CHUNK_SIZE -> Z.of_nat (length v) = n ->
  reads (readChunk t data) (h ++ v) (Some (data ++ v)).
Proof.
  intros Hg Hn Hl. apply reads_bind with n; [by apply reads_trace|].
  destruct (CHUNK_SIZE <? n) eqn:E; zify_bool; [lia|].
  rewrite <- (app_nil_r v) at 1. apply reads_full; [lia|]. apply reads_ret.
Qed.

Lemma reads_readBufByte t : reads (or_zero 0 readBufByte) [t] t.
Proof. apply reads_or_zero, reads_read1, reads_ret. Qed.

(** The chunks behind their first tag [t]. *)
Lemma decBinary_loop_frames fuelF v :
  (length v < fuelF)%nat ->
  exists t inp, bin_frames fuelF v = t :: inp /\ bin_tag t /\
    forall fuel data, (length inp < fuel)%nat ->
      reads (decBinary_loop fuel t data) inp (data ++ v).
Proof.
  revert v. induction fuelF as [|fuelF IH]; intros v HfF; [lia|]. cbn [bin_frames].
  destruct (CHUNK_SIZE <? Z.of_nat (length v)) eqn:E; zify_bool.
  - set (c := Z.to_nat CHUNK_SIZE).
    assert (Hc : (0 < c < length v)%nat) by (unfold c, CHUNK_SIZE in *; lia).
    destruct (IH (drop c v)) as (t & inp & Ef & Ht & Hr); [rewrite length_drop; lia|].
    destruct bin_announces_chunk as (t0 & h0 & E0 & Ht0 & Hl0 & Hg0).
    rewrite Ef, E0. exists t0, (h0 ++ take c v ++ t :: inp).
    split_and!; [reflexivity|done|].
    intros fuel data Hf. destruct fuel as [|fuel]; [lia|]. cbn [decBinary_loop].
    apply negb_false_iff in Hl0. rewrite Hl0.
    rewrite app_assoc. apply reads_bind with (Some (data ++ take c v)).
    + apply readChunk_reads with CHUNK_SIZE; [done|unfold CHUNK_SIZE; lia|].
      rewrite length_take. unfold c, CHUNK_SIZE in *. lia.
    + apply (reads_bind _ _ [t] inp t); [apply reads_readBufByte|].
      rewrite <- (take_drop c v) at 2. rewrite app_assoc.
      apply Hr. rewrite !length_app in Hf. cbn [length] in Hf. lia.
  - destruct (bin_announces_header (Z.of_nat (length v))) as (t & h & Eh & Ht & Hl & Hg); [lia|].
    rewrite Eh. exists t, (h ++ v). split_and!; [reflexivity|done|].
    intros fuel data Hf. destruct fuel as [|fuel]; [lia|]. cbn [decBinary_loop].
    apply negb_true_iff in Hl. rewrite Hl.
    rewrite <- (app_nil_r (h ++ v)). apply reads_bind with (Some (data ++ v)).
    + apply readChunk_reads with (Z.of_nat (length v)); [done|lia|done].
    + apply reads_ret.
Qed.

(** Non-empty binary data of any length is read back as it was written. *)
Lemma decBinary_encBinary v :
  v <> [] -> reads_tagged decBinary (encBinary v []) v.
Proof.
  intros Hne. assert (encBinary v [] = bin_frames (S (length v)) v) as ->.
  { unfold encBinary. destruct v as [|x l] eqn:Ev; [done|]. rewrite <- Ev in *.
    rewrite encBinary_loop_frames by (done || lia). done. }
  destruct (decBinary_loop_frames (S (length v)) v) as (t & inp & -> & Ht & Hr); [lia|].
  assert (is_byte t) by (unfold bin_tag, is_byte in *; lia).
  assert (Hbody : reads (if t =? BC_NULL then ret []
     else fun r => decBinary_loop (S (base.length (unread r))) t [] r) inp v).
  { unfold bin_tag in Ht. hessian_const. tag_case.
    intros r rest Hok Hr'. apply (Hr _ []); [|done|done]. rewrite Hr', length_app. lia. }
  split_and!; [done| |].
  - apply (reads_bind _ _ [t] inp t); [apply reads_readBufByte|done].
  - apply reads_bind_nil with t; [|done].
    destruct (negb (t =? TAG_READ)) eqn:E.
    + rewrite u8_id by done. apply reads_ret.
    + unfold bin_tag, TAG_READ in *. lia.
Qed.

(** ** Properties *)

(** Every 32-bit integer is read back from what [encInt32] wrote, at any
    position of the stream and consuming exactly its bytes; the value is the one
    written except for the negative numbers of a compact form, which come back
    as the unsigned number of the same bytes. *)
Lemma int32_roundtrip v r rest :
  is_i32 v -> buf_ok r -> unread r = encInt32 v [] ++ rest ->
  exists r', decInt32 TAG_READ r = (Ret (int32_back v), r') /\ unread r' = rest
    /\ (int32_back v = v <-> 0 <= v \/ v < -0x40000).
Proof.
  intros Hv Hok Hr.
  destruct (reads_tag_read _ _ _ (decInt32_encInt32 v Hv) r rest Hok Hr) as (r' & E & _ & Hr').
  exists r'. split_and!; [done|done|].
  unfold int32_back. repeat case_match; zify_bool; lia.
Qed.

(** The same for 64-bit integers and [encInt64]. *)
Lemma int64_roundtrip v r rest :
  is_i64 v -> buf_ok r -> unread r = encInt64 v [] ++ rest ->
  exists r', decInt64 TAG_READ r = (Ret (int64_back v), r') /\ unread r' = rest
    /\ (int64_back v = v <-> 0 <= v \/ v < -0x40000).
Proof.
  intros Hv Hok Hr.
  destruct (reads_tag_read _ _ _ (decInt64_encInt64 v Hv) r rest Hok Hr) as (r' & E & _ & Hr').
  exists r'. split_and!; [done|done|].
  unfold int64_back. repeat case_match; zify_bool; lia.
Qed.

(** C35. A string of fewer than 2^31 characters, of whatever length in bytes and
    in however many chunks, is read back unchanged. *)
Theorem string_roundtrip `{GX : GxStrings} {GXok : GxStringsOk} s rs r rest :
  s = encode_runes rs -> scalars rs -> Z.of_nat (length rs) < 2 ^ 31 ->
  buf_ok r -> unread r = encString s [] ++ rest ->
  exists r', decString TAG_READ r = (Ret s, r') /\ unread r' = rest.
Proof.
  intros -> Hs Hl Hok Hr.
  destruct (reads_tag_read _ _ _ (decString_encString rs Hs Hl) r rest Hok Hr)
    as (r' & E & _ & Hr'). by exists r'.
Qed.

Lemma string_roundtrip_witness : exists r',
  decString TAG_READ (NewReader (@encString plain_Slice (lit "abc" ++ [0xe2; 0x82; 0xac]) [] ++ [0x4e]))
  = (Ret (lit "abc" ++ [0xe2; 0x82; 0xac]), r') /\ unread r' = [0x4e].
Proof.
  apply (@string_roundtrip plain_Slice plain_Slice_ok _ [97; 98; 99; 0x20ac]);
    [reflexivity|by repeat constructor|reflexivity|apply NewReader_ok|reflexivity].
Defined.

(** Every non-empty byte string is read back unchanged, in chunks of 4096
    bytes. *)
Lemma binary_roundtrip v r rest :
  v <> [] -> buf_ok r -> unread r = encBinary v [] ++ rest ->
  exists r', decBinary TAG_READ r = (Ret v, r') /\ unread r' = rest.
Proof.
  intros Hv Hok Hr.
  destruct (reads_tag_read _ _ _ (decBinary_encBinary v Hv) r rest Hok Hr) as (r' & E & _ & Hr').
  by exists r'.
Qed.

(** An integral double of two bytes does not survive: [encFloat] writes it
    under [BC_DOUBLE_BYTE], [decDouble] reads the high byte only and leaves the
    low one in the stream. *)
Lemma double_short_desync v r rest :
  f64_small v 0x80 0x8000 -> buf_ok r -> unread r = encFloat v [] ++ rest ->
  exists r', decDouble TAG_READ r = (Ret (DFloat64 (f64_of_int (int64_of_f64 v / 256))), r')
    /\ unread r' = u8 (int64_of_f64 v) :: rest.
Proof.
  intros [Heq Hiv] Hok Hr. unfold encFloat in Hr. rewrite Heq in Hr.
  set (iv := int64_of_f64 v) in *.
  replace (iv =? 0) with false in Hr by lia. replace (iv =? 1) with false in Hr by lia.
  replace ((-0x80 <=? iv) && (iv <? 0x80)) with false in Hr by lia.
  replace ((-0x8000 <=? iv) && (iv <? 0x8000)) with true in Hr by lia.
  assert (H : reads (decDouble TAG_READ) [BC_DOUBLE_BYTE; u8 (Z.shiftr iv 8)]
                (DFloat64 (f64_of_int (iv / 256)))).
  { apply reads_tag_read, reads_tagged_intro; [unfold is_byte, BC_DOUBLE_BYTE; lia|].
    apply (reads_bind _ _ [u8 (Z.shiftr iv 8)] [] (u8 (Z.shiftr iv 8))).
    - apply reads_or_zero, ReadByte_reads.
    - assert (u8 (Z.shiftr iv 8) = iv / 256) as -> by wrap_lia. apply reads_ret. }
  destruct (H r (u8 iv :: rest) Hok Hr) as (r' & E & _ & Hr'). by exists r'.
Qed.

(** 256.0 *)
(** A date is read back in whole milliseconds where its eight bytes are all
    buffered or none of them is; where the buffer ends among them, [decDate]
    fails, although the bytes are there. *)
Lemma date_buffering t r rest :
  is_i64 t -> buf_ok r -> unread r = tail (encDateInMs t []) ++ rest ->
  ((nbuf r = 0 \/ 8 <= nbuf r)%nat ->
     exists r', decDate BC_DATE r = (Ret (date_back t), r') /\ unread r' = rest)
  /\ ((0 < nbuf r < 8)%nat -> exists r', decDate BC_DATE r = (Fail ErrNotEnoughBuf, r')).
Proof.
  intros Ht Hok Hr. split; intros Hb.
  - destruct (decDate_encDate t r rest Ht Hok Hr Hb) as (r' & ? & _ & ?). by exists r'.
  - by apply decDate_straddle.
Qed.
