(* ===== verification/Pojo.v ===== *)
(** * The registry of application classes

    [codec/hessian/pojo.go]: [RegisterPOJO] and [RegisterJavaEnum] give an
    application's struct or enum type a class definition, kept in one global
    table that the encoder and every decoder consult.  The global and its lock
    become a state passed through; each function holds the lock for its whole
    body, so that each is one step. *)
From S2P Require Import Prelude Utf8 HessianConst HessianValue HessianEncode.

(** The methods of the application's types: [JavaClassName] and [EnumValue]
    where a type implements [POJO] and [POJOEnum], and the setters called by
    name on a struct. *)
Class Application := {
  JavaClassName : gotype -> option (value -> bytes);
  EnumValue : gotype -> option (value -> bytes -> Z);
  CallMethod : value -> bytes -> value -> option value
}.

(** [o.JavaClassName()] of an interface value, where it implements [POJO]. *)
Definition asPOJO `{Application} (o : value) : option bytes :=
  match TypeOf o with
  | Some t => option_map (fun f => f o) (JavaClassName t)
  | None => None
  end.

(** [t.Implements(javaEnumType)]. *)
Definition ImplementsEnum `{Application} (t : gotype) : bool :=
  match EnumValue t with Some _ => true | None => false end.

Definition InvalidJavaEnum : Z := -1.

(** A value of [type JavaEnum int32]. *)
Definition JavaEnum (z : Z) : value := VNamed (lit "hessian.JavaEnum") (VInt Int32 z).

Record classInfo := mkClassInfo {
  c_javaName : bytes;
  c_fieldNameList : list bytes;
  c_buffer : bytes
}.

Record structInfo := mkStructInfo {
  s_typ : gotype;
  s_goName : bytes;
  s_javaName : bytes;
  s_index : Z;
  s_inst : value
}.

Record POJORegistry := mkRegistry {
  classInfoList : list classInfo;
  j2g : gmap bytes bytes;
  registry : gmap bytes structInfo
}.

Definition pojoRegistry : POJORegistry := mkRegistry [] ∅ ∅.

(** [strings.ToLower] of an identifier. *)
Definition ToLower (s : bytes) : bytes :=
  map (fun c => if (65 <=? c) && (c <=? 90) then c + 32 else c) s.

Section Register.
Context `{GX : GxStrings} `{App : Application}.

(** The [switch v.Kind()] that finds the registered type; [Elem] of a nil
    pointer has no type. *)
Definition typ_of (o : value) : option gotype :=
  match o with
  | VPtr t _ => Some t
  | VNilPtr _ => None
  | VRef _ => Some TIface
  | _ => TypeOf o
  end.

(** [class-def ::= 'C' string int string*]. *)
Definition class_def (javaName : bytes) (fields : list bytes) : bytes :=
  let b := encByte [] [BC_OBJECT_DEF] in
  let b := encString javaName b in
  let b := encInt32 (i32 (Z.of_nat (length fields))) b in
  foldl (fun b f => encString f b) b fields.

(** The class is appended to the table and indexed under both names. *)
Definition add_class (typ : gotype) (o : value) (javaName : bytes) (l : list bytes)
    (g : POJORegistry) : Z * POJORegistry :=
  let goName := String typ in
  let index := Z.of_nat (length (classInfoList g)) in
  let c := mkClassInfo javaName l (class_def javaName l) in
  (index, mkRegistry (classInfoList g ++ [c]) (<[javaName := goName]> (j2g g))
            (<[goName := mkStructInfo typ goName javaName index o]> (registry g))).

(** [t.typ.NumField()] and the lower-case names of the fields; a panic on a
    type that is not a struct. *)
Definition struct_fields (typ : gotype) : option (list (bytes * gotype)) :=
  match typ with
  | TStruct _ fs => Some fs
  | _ => None
  end.

Definition RegisterPOJO (o : value) (name : bytes) : ST POJORegistry Z := fun g =>
  match registry g !! name with
  | Some _ => (Ret (-1), g)
  | None =>
      match typ_of o with
      | None => (Panic, g)
      | Some typ =>
          match struct_fields typ with
          | None => (Panic, mkRegistry (classInfoList g) (<[name := String typ]> (j2g g)) (registry g))
          | Some fs =>
              let '(i, g) := add_class typ o name (map (fun f => ToLower f.1) fs) g in
              (Ret i, g)
          end
      end
  end.

Definition RegisterJavaEnum (o : value) (name : bytes) : ST POJORegistry Z := fun g =>
  match registry g !! name with
  | Some _ => (Ret (-1), g)
  | None =>
      match typ_of o with
      | None => (Panic, g)
      | Some typ =>
          let '(i, g) := add_class typ o name [ToLower (lit "name")] g in (Ret i, g)
      end
  end.

End Register.

(** [s.index, ok]: the zero index for a name that is not registered. *)
Definition checkPOJORegistry (g : POJORegistry) (goName : bytes) : Z * bool :=
  match registry g !! goName with
  | Some s => (s_index s, true)
  | None => (0, false)
  end.

Definition getStructInfo (g : POJORegistry) (javaName : bytes) : option structInfo :=
  match j2g g !! javaName with
  | Some goName => registry g !! goName
  | None => None
  end.

(** The list index [l[i]] of an [int]. *)
Definition index {A} (l : list A) (i : Z) : option A :=
  if i <? 0 then None else l !! Z.to_nat i.

(** The type, the class and the error; the zero class with the first error. *)
Definition zero_class : classInfo := mkClassInfo [] [] [].

Definition getStructDefByIndex (g : POJORegistry) (idx : Z)
    : option gotype * classInfo * option goerr :=
  match index (classInfoList g) idx with
  | None => (None, zero_class, Some (Errorf "illegal class index @idx %d"))
  | Some cls =>
      let clsName := default [] (j2g g !! c_javaName cls) in
      match registry g !! clsName with
      | None => (None, cls, Some (Errorf "can not find go type name %s in registry"))
      | Some s => (Some (s_typ s), cls, None)
      end
  end.

(** [reflect.New(s.typ).Interface()]; nil for a name that is not registered. *)
Definition createInstance (g : POJORegistry) (goName : bytes) : option value :=
  match registry g !! goName with
  | Some s => Some (VPtr (s_typ s) (zero (s_typ s)))
  | None => None
  end.

(** ** What the registry keeps true *)

(** Every Java name leads to a registered Go type, and every registered type
    to a class of the table that bears its Java name. *)
Record registry_ok (g : POJORegistry) : Prop := {
  ok_j2g : forall j gn, j2g g !! j = Some gn -> is_Some (registry g !! gn);
  ok_index : forall gn s, registry g !! gn = Some s ->
    String (s_typ s) = gn /\ s_goName s = gn /\
    exists c, index (classInfoList g) (s_index s) = Some c /\ c_javaName c = s_javaName s;
  ok_classes : forall i c, classInfoList g !! i = Some c -> is_Some (j2g g !! c_javaName c)
}.

Lemma index_app {A} (l : list A) i x k : index l i = Some x -> index (l ++ k) i = Some x.
Proof.
  unfold index. destruct (i <? 0); [done|]. intros H. by apply lookup_app_l_Some.
Qed.

Lemma index_snoc {A} (l : list A) x : index (l ++ [x]) (Z.of_nat (length l)) = Some x.
Proof.
  unfold index. destruct (_ <? 0) eqn:E; zify_bool; [lia|].
  rewrite Nat2Z.id. by apply list_lookup_middle.
Qed.

Lemma pojoRegistry_ok : registry_ok pojoRegistry.
Proof. by split. Qed.

Section RegisterOk.
Context `{GX : GxStrings}.

Lemma add_class_ok typ o j l g :
  registry_ok g -> registry_ok (add_class typ o j l g).2.
Proof.
  intros [Hj Hi Hc]. split; cbn [add_class snd j2g registry classInfoList].
  - intros j' gn. destruct (decide (gn = String typ)) as [->|Hne].
    { intros _. rewrite lookup_insert_eq. eauto. }
    rewrite (lookup_insert_ne (registry g)) by done.
    destruct (decide (j' = j)) as [->|Hne']; [by rewrite lookup_insert_eq; intros [=]|].
    rewrite lookup_insert_ne by done. apply Hj.
  - intros gn s. destruct (decide (gn = String typ)) as [->|Hne].
    + rewrite lookup_insert_eq. intros [= <-]. cbn. split_and!; [done|done|].
      eexists. split; [apply index_snoc|done].
    + rewrite lookup_insert_ne by done. intros Hs. apply Hi in Hs as (? & ? & c & ? & ?).
      split_and!; [done|done|]. exists c. split; [by apply index_app|done].
  - intros i c Hl. apply lookup_app_Some in Hl as [Hl|[_ Hl]].
    + destruct (decide (c_javaName c = j)) as [->|Hne]; [rewrite lookup_insert_eq; eauto|].
      rewrite lookup_insert_ne by done. by apply Hc in Hl.
    + apply list_lookup_singleton_Some in Hl as [_ <-]. cbn. rewrite lookup_insert_eq. eauto.
Qed.

(** What [RegisterPOJO] does on a struct whose Java name is no registered Go
    name. *)
Lemma RegisterPOJO_struct o name typ fs g :
  registry g !! name = None -> typ_of o = Some typ -> struct_fields typ = Some fs ->
  RegisterPOJO o name g =
    let '(i, g') := add_class typ o name (map (fun f => ToLower f.1) fs) g in (Ret i, g').
Proof. intros Hn Ht Hf. unfold RegisterPOJO. by rewrite Hn, Ht, Hf. Qed.

(** The class that the registry holds for the struct type [nm] with fields [fs]
    and Java name [name]. *)
Definition registered (g : POJORegistry) (name nm : bytes) (fs : list (bytes * gotype)) : Prop :=
  exists s, registry g !! nm = Some s /\ s_typ s = TStruct nm fs
    /\ j2g g !! name = Some nm
    /\ index (classInfoList g) (s_index s)
       = Some (mkClassInfo name (map (fun f => ToLower f.1) fs)
                 (class_def name (map (fun f => ToLower f.1) fs))).

Lemma add_class_registered o name nm fs g :
  registered (add_class (TStruct nm fs) o name (map (fun f => ToLower f.1) fs) g).2 name nm fs.
Proof.
  eexists. cbn [add_class snd registry j2g classInfoList String].
  rewrite !lookup_insert_eq. split_and!; [done|done|done|]. cbn [s_index]. apply index_snoc.
Qed.

Lemma registered_lookups g name nm fs :
  registered g name nm fs -> exists s,
    s_typ s = TStruct nm fs /\ getStructInfo g name = Some s
    /\ checkPOJORegistry g nm = (s_index s, true)
    /\ getStructDefByIndex g (s_index s)
       = (Some (TStruct nm fs),
          mkClassInfo name (map (fun f => ToLower f.1) fs)
            (class_def name (map (fun f => ToLower f.1) fs)), None).
Proof.
  intros (s & Hs & Ht & Hj & Hi). exists s. split; [done|].
  unfold getStructInfo, checkPOJORegistry, getStructDefByIndex.
  rewrite Hj, Hs, Hi. cbn [c_javaName]. rewrite Hj. cbn [from_option id]. unfold id. rewrite Hs, Ht. done.
Qed.

(** Registering a struct type gives it the next index; the class is then
    found by its index, its Go name and its Java name, and the registry's
    invariant is kept. *)
Lemma RegisterPOJO_registers o name nm fs g :
  registry_ok g -> registry g !! name = None -> typ_of o = Some (TStruct nm fs) ->
  exists g', RegisterPOJO o name g = (Ret (Z.of_nat (length (classInfoList g))), g')
    /\ registry_ok g' /\ registered g' name nm fs
    /\ checkPOJORegistry g' nm = (Z.of_nat (length (classInfoList g)), true)
    /\ option_map s_typ (getStructInfo g' name) = Some (TStruct nm fs).
Proof.
  intros Hok Hn Ht. exists (add_class (TStruct nm fs) o name (map (fun f => ToLower f.1) fs) g).2.
  rewrite (RegisterPOJO_struct o name (TStruct nm fs) fs) by done.
  split_and!; [done|by apply add_class_ok|apply add_class_registered| |].
  - unfold checkPOJORegistry. cbn [add_class snd registry String]. by rewrite lookup_insert_eq.
  - unfold getStructInfo. cbn [add_class snd registry j2g String]. by rewrite !lookup_insert_eq.
Qed.

(** The comment on [RegisterPOJO] promises -1 for a type that has been
    registered; the guard looks the Java name up in a table of Go names, so that
    registering a type again appends a second class. *)
Lemma RegisterPOJO_again o name nm fs g i g1 :
  name <> nm -> typ_of o = Some (TStruct nm fs) -> RegisterPOJO o name g = (Ret i, g1) -> i <> -1 ->
  exists g2, RegisterPOJO o name g1 = (Ret (i + 1), g2)
    /\ length (classInfoList g2) = (2 + length (classInfoList g))%nat.
Proof.
  intros Hne Ht Hr Hi. unfold RegisterPOJO in Hr.
  destruct (registry g !! name) eqn:Hn; [by injection Hr as <- <-|].
  rewrite Ht in Hr. cbn [struct_fields] in Hr. injection Hr as <- <-.
  set (g1 := mkRegistry _ _ _). set (l := map (fun f => ToLower f.1) fs).
  assert (Hn1 : registry g1 !! name = None) by (cbn; by rewrite lookup_insert_ne).
  exists (add_class (TStruct nm fs) o name l g1).2.
  rewrite (RegisterPOJO_struct o name (TStruct nm fs) fs g1) by done.
  assert (Hl : length (classInfoList g1) = S (length (classInfoList g)))
    by (cbn; rewrite length_app; cbn; lia).
  cbn [add_class snd classInfoList]. rewrite length_app, Hl. split; [|cbn; lia].
  do 2 f_equal. lia.
Qed.

End RegisterOk.

(** ** A sample application *)

Definition User : list (bytes * gotype) :=
  [(lit "Name", TString); (lit "Age", TInt Int32); (lit "Vip", TBool)].
Definition User_name : bytes := lit "main.User".
Definition User_java : bytes := lit "com.ikurento.user.User".

(** One struct type, [main.User]; nothing else implements [POJO]. *)
Definition sample_app : Application := {|
  JavaClassName t := if type_eqb t (TStruct User_name User) then Some (fun _ => User_java) else None;
  EnumValue _ := None;
  CallMethod _ _ _ := None
|}.

Definition user (name : bytes) (age : Z) (vip : bool) : value :=
  VStruct User_name User [VString name; VInt Int32 age; VBool vip].

Definition sample_registry `{GX : GxStrings} : POJORegistry :=
  (RegisterPOJO (user [] 0 false) User_java pojoRegistry).2.

