(* ===== verification/HessianEncoder.v ===== *)
(** * The encoder

    [codec/hessian/encode.go], the methods of [Encoder].  The encoder's state
    is its buffer, the classes it has written so far, and the global registry,
    which [encStruct] may extend. *)
From S2P Require Import Prelude Utf8 Float64 HessianConst HessianPack HessianValue.
From S2P Require Import HessianEncode Pojo.

Record Encoder := mkEncoder {
  e_classInfoList : list classInfo;
  e_buffer : bytes;
  e_registry : POJORegistry
}.

(** [NewEncoder()] in a program whose registry is [g]. *)
Definition NewEncoder (g : POJORegistry) : Encoder := mkEncoder [] [] g.

Abbreviation E := (ST Encoder).

Definition Buffer : E bytes := fun e => (Ret (e_buffer e), e).

(** [e.buffer = f(e.buffer)]. *)
Definition on_buffer (f : bytes -> bytes) : E unit := fun e =>
  (Ret tt, mkEncoder (e_classInfoList e) (f (e_buffer e)) (e_registry e)).

Definition Append (buf : bytes) : E unit := on_buffer (fun b => b ++ buf).

(** ** Lists *)

(** The elements [l] of the list and how each is encoded. *)
Definition encUntypedList {A} (Encode : A -> E unit) (l : list A) : E unit :=
  on_buffer (fun b => encByte b [BC_LIST_FIXED_UNTYPED]) ;;;
  on_buffer (encInt32 (i32 (Z.of_nat (length l)))) ;;;
  (fix loop (l : list A) : E unit :=
     match l with
     | [] => ret tt
     | v :: l => Encode v ;;; loop l
     end) l.

(** ** Maps *)

(** The entries in the order [range] visits them. *)
Definition encUntypedMap (Encode : value -> E unit) (m : list (value * value)) : E unit :=
  match m with
  | [] => ret tt
  | _ =>
      on_buffer (fun b => encByte b [BC_MAP_UNTYPED]) ;;;
      (fix loop (m : list (value * value)) : E unit :=
         match m with
         | [] => ret tt
         | (k, v) :: m => Encode k ;;; Encode v ;;; loop m
         end) m ;;;
      on_buffer (fun b => encByte b [BC_END])
  end.

(** The key as a value of the predeclared type of its kind. *)
Definition getMapKey (key : value) (t : gotype) : option value :=
  match Kind t with
  | KBool | KInt _ | KFloat32 | KFloat64 | KString => Some (strip key)
  | _ => None
  end.

(** A key's error ends the map with [return nil]: only the state is kept. *)
Definition encMap (EncodeKey Encode : value -> E unit) (kt : gotype)
    (m : list (value * value)) : E unit :=
  match m with
  | [] => ret tt
  | _ =>
      on_buffer (fun b => encByte b [BC_MAP_UNTYPED]) ;;;
      (fix loop (m : list (value * value)) : E unit :=
         match m with
         | [] => on_buffer (fun b => encByte b [BC_END])
         | (k, v) :: m =>
             match getMapKey k kt with
             | None => fail (Traced (Errorf "unsuport map key kind %s"))
             | Some k => fun e =>
                 match EncodeKey k e with
                 | (Fail _, e) => (Ret tt, e)
                 | (Ret _, e) => (Encode v ;;; loop m) e
                 | r => r
                 end
             end
         end) m
  end.

(** ** Structs *)

(** [typeof]: the name of the dynamic type. *)
Definition typeof (v : value) : bytes :=
  match TypeOf v with Some t => String t | None => [] end.

(** The position of the first class written with this Java name. *)
Fixpoint find_class (name : bytes) (l : list classInfo) : option nat :=
  match l with
  | [] => None
  | c :: l => if bool_decide (name = c_javaName c) then Some 0%nat
              else option_map S (find_class name l)
  end.

Definition exported (name : bytes) : bool :=
  match name with c :: _ => (65 <=? c) && (c <=? 90) | [] => false end.

Section Encode.
Context `{GX : GxStrings} `{App : Application}.

(** The first half of [encStruct]: the class's index in this stream, its
    definition being written when it is the first of its class. *)
Definition write_class (v : value) (name : bytes) : E Z := fun e =>
  match find_class name (e_classInfoList e) with
  | Some idx => (Ret (Z.of_nat idx), e)
  | None =>
      let '(o, g) :=
        match checkPOJORegistry (e_registry e) (typeof v) with
        | (idx, true) => (Ret idx, e_registry e)
        | (_, false) => RegisterPOJO v name (e_registry e)
        end in
      match o with
      | Ret idx =>
          let clsDef := (getStructDefByIndex g idx).1.2 in
          (Ret (Z.of_nat (length (e_classInfoList e))),
           mkEncoder (e_classInfoList e ++ [clsDef]) (e_buffer e ++ c_buffer clsDef) g)
      | Fail err => (Fail err, mkEncoder (e_classInfoList e) (e_buffer e) g)
      | Panic => (Panic, mkEncoder (e_classInfoList e) (e_buffer e) g)
      | NoFuel => (NoFuel, mkEncoder (e_classInfoList e) (e_buffer e) g)
      end
  end.

(** [object ::= 'O' int value* | [x60-x6f] value*]: the instance's header. *)
Definition write_object (idx : Z) (b : bytes) : bytes :=
  if u8 idx <=? OBJECT_DIRECT_MAX then encByte b [u8 (u8 idx + BC_OBJECT_DIRECT)]
  else encInt32 (i32 idx) (encByte b [BC_OBJECT]).

(** The fields in order; [Interface] panics on an unexported one. *)
Definition encFields (Encode : value -> E unit) : list (bytes * gotype) -> list value -> E unit :=
  fix loop fs l {struct l} :=
    match l, fs with
    | v :: l, (name, _) :: fs => if exported name then Encode v ;;; loop fs l else panic
    | _, _ => ret tt
    end.

(** [fields] is the loop over the fields, a panic where [v] is a pointer. *)
Definition encStruct (v : value) (name : bytes) (fields : E unit) : E unit :=
  idx <- write_class v name ;; on_buffer (write_object idx) ;;; fields.

(** The cases of the type switch for values without components. *)
Definition not_supported : E unit := fail (Errorf "type not Support! %s").

Definition Encode_scalar (v : value) : E unit :=
  match v with
  | VNil => on_buffer encNull
  | VBool b => on_buffer (encBool b)
  | VInt Int8 _ | VInt Int16 _ => panic               (* v.(int32) *)
  | VInt Int32 z => on_buffer (encInt32 z)
  | VInt Int z => on_buffer (encInt64 z)
  | VInt Int64 z => on_buffer (encInt64 z)
  | VTime t => on_buffer (encDateInMs t)
  | VFloat32 b => on_buffer (encFloat (f64_of_f32 b))
  | VFloat64 b => on_buffer (encFloat b)
  | VString s => on_buffer (encString s)
  | VBytes b => on_buffer (encBinary b)
  | _ => not_supported
  end.

(** The case of a struct and of a pointer to anything: [encStruct] of a
    [POJO]. *)
Definition Encode_struct (v : value) (fields : E unit) : E unit :=
  match asPOJO v with
  | Some name => encStruct v name fields
  | None => fail (Errorf "struct type not Support! %s is not a instance of POJO")
  end.

Fixpoint Encode (v : value) : E unit :=
  match v with
  | VSlice _ l | VArray _ l | VNamed _ (VSlice _ l) | VNamed _ (VArray _ l) =>
      encUntypedList Encode l
  | VNilSlice (TInt Uint8) => on_buffer (encBinary [])
  | VNilSlice _ | VNamed _ (VNilSlice _) => encUntypedList Encode []
  | VNamed _ (VBytes b) => encUntypedList (fun z => Encode_scalar (VInt Uint8 z)) b
  | VMap TIface TIface m => encUntypedMap Encode m
  | VMap kt _ m | VNamed _ (VMap kt _ m) => encMap Encode_scalar Encode kt m
  | VNilMap _ _ | VNamed _ (VNilMap _ _) => ret tt
  | VStruct _ fs l => Encode_struct v (encFields Encode fs l)
  | VPtr _ _ | VNilPtr _ | VRef _ | VReflect _ _ | VValueOf _ => Encode_struct v panic
  | v => Encode_scalar v
  end.

(** The keys that [getMapKey] hands to [Encode] are scalars. *)
Lemma Encode_key key t k :
  getMapKey key t = Some k -> TypeOf key = Some t -> Encode k = Encode_scalar k.
Proof.
  unfold getMapKey. intros Hk Ht.
  assert (Hkind : forall v u, TypeOf v = Some u ->
    match Kind u with KBool | KInt _ | KFloat32 | KFloat64 | KString => True | _ => False end ->
    Encode v = Encode_scalar v).
  { intros v u Hv Hb. destruct v as [| | | | | | | | | | | | | |n v| | | | |]; simplify_eq/=; try done.
    destruct v; simplify_eq/=; try done; by repeat case_match; simplify_eq/=. }
  destruct key as [| | | | | | | | | | | | | |n v| | | | |]; simplify_eq/=; try done.
  destruct (TypeOf v) as [u|] eqn:Hv; simplify_eq/=.
  destruct (Kind u) eqn:Hu; simplify_eq; apply (Hkind _ u Hv); by rewrite Hu.
Qed.

End Encode.
