(* ===== verification/HessianDecoder.v ===== *)
(** * The decoder

    [codec/hessian/decode.go], the methods of [Decoder] for composite values.

    A method that always returns nil next to an error is a [D] computation
    that fails.  [Decode], [decObject] and [decEnum] can return a value beside
    an error, which [decMapByValue] uses, so that their result is a pair.

    The recursion of these methods is cut by fuel: one unit per nested value.
    A list, a map and a struct share their memory with the entry that
    [appendRefs] made for them, so that every assignment to an element is also
    one to that entry. *)
From S2P Require Import Prelude Utf8 Bufio Float64 HessianConst HessianPack HessianValue.
From S2P Require Import HessianEncode HessianDecode Pojo HessianEncoder.

Record Decoder := mkDecoder {
  d_reader : reader;
  d_refs : list value;
  d_classInfoList : list classInfo
}.

Definition NewDecoder (b : bytes) : Decoder := mkDecoder (NewReader b) [] [].

Abbreviation D := (ST Decoder).

(** A method of the reader. *)
Definition rd {A} (m : R A) : D A := fun d =>
  let '(o, r) := m (d_reader d) in (o, mkDecoder r (d_refs d) (d_classInfoList d)).

(** What [return v, err] hands over. *)
Abbreviation result := (value * option goerr)%type.

Definition ok (v : value) : D result := ret (v, None).

(** [m] as a result; [z] is what stands beside its error. *)
Definition result_of {A} (f : A -> value) (z : value) (m : D A) : D result := fun d =>
  match m d with
  | (Ret a, d) => (Ret (f a, None), d)
  | (Fail e, d) => (Ret (z, Some e), d)
  | (Panic, d) => (Panic, d)
  | (NoFuel, d) => (NoFuel, d)
  end.

Definition or_nil (m : D value) : D result := result_of id VNil m.

(** [if v, err = m; err != nil { return nil, err }]. *)
Definition try (m : D result) : D value :=
  p <- m ;; match p.2 with Some e => fail e | None => ret p.1 end.

(** [v, err = m; if err != nil { return nil, err }], [v] being used by [k]. *)
Definition check {A} (m : D A) (k : A -> D result) : D result := fun d =>
  match m d with
  | (Ret a, d) => k a d
  | (Fail e, d) => (Ret (VNil, Some e), d)
  | (Panic, d) => (Panic, d)
  | (NoFuel, d) => (NoFuel, d)
  end.

(** ** References *)

Definition appendRefs (v : value) : D nat := fun d =>
  (Ret (length (d_refs d)), mkDecoder (d_reader d) (d_refs d ++ [v]) (d_classInfoList d)).

(** An assignment through the memory that entry [i] shares. *)
Definition set_ref (i : nat) (v : value) : D unit := fun d =>
  (Ret tt, mkDecoder (d_reader d) (<[i := v]> (d_refs d)) (d_classInfoList d)).

Definition decRef (flag : Z) : D value :=
  tag <- rd (readTag flag) ;;
  if tag =? BC_REF then
    i <- rd (decInt32 TAG_READ) ;;
    fun d => if Z.of_nat (length (d_refs d)) <=? i then (Fail ErrIllegalRefIndex, d)
             else if i <? 0 then (Panic, d) else (Ret (VRef (Z.to_nat i)), d)
  else fail (Errorf "decRef illegal ref type tag:%+v").

(** ** Classes *)

Definition appendClsDef (cd : classInfo) : D unit := fun d =>
  (Ret tt, mkDecoder (d_reader d) (d_refs d) (d_classInfoList d ++ [cd])).

(** [n] more field names after [l]. *)
Fixpoint decFieldList (n : nat) (l : list bytes) : D (list bytes) :=
  match n with
  | O => ret l
  | S n => f <- trace (rd (decString TAG_READ)) ;; decFieldList n (l ++ [f])
  end.

Definition decClassDef : D classInfo :=
  clsName <- trace (rd (decString TAG_READ)) ;;
  fieldNum <- trace (rd (decInt32 TAG_READ)) ;;
  if fieldNum <? 0 then panic                        (* make([]string, fieldNum) *)
  else
    fieldList <- decFieldList (Z.to_nat fieldNum) [] ;;
    ret (mkClassInfo clsName fieldList []).

(** The index of the field with this name or this lower-case name. *)
Fixpoint findField (name : bytes) (fs : list (bytes * gotype)) : option nat :=
  match fs with
  | [] => None
  | (str, _) :: fs =>
      if bool_decide (str = name) then Some 0%nat
      else if bool_decide (name = ToLower str) then Some 0%nat
      else option_map S (findField name fs)
  end.

Section Decode.
Context `{App : Application}.
Variable g : POJORegistry.

Definition d_getStructDefByIndex (idx : Z) : D (gotype * classInfo) := fun d =>
  match index (d_classInfoList d) idx with
  | None => (Fail (Errorf "illegal class index @idx %d"), d)
  | Some cls =>
      match getStructInfo g (c_javaName cls) with
      | None => (Fail (Errorf "can not find go type name %s in registry"), d)
      | Some s => (Ret (s_typ s, cls), d)
      end
  end.

Definition decType : D bytes :=
  buf <- trace (rd (ReadFull 1)) ;;
  match buf with
  | [tag] =>
      if is_string_tag tag then rd (decString tag)
      else
        idx <- trace (rd (decInt32 TAG_READ)) ;;
        tc <- d_getStructDefByIndex idx ;; ret (String tc.1)
  | _ => panic
  end.

Definition decEnum (javaName : bytes) : D result :=
  name <- result_of VString VNil (rd (decString TAG_READ)) ;;
  match name with
  | (VString enumName, None) =>
      match getStructInfo g javaName with
      | None => ret (JavaEnum InvalidJavaEnum,
                     Some (Errorf "getStructInfo(javaName:%s) = false"))
      | Some info =>
          match TypeOf (s_inst info) with
          | Some t =>
              match EnumValue t with
              | Some f =>
                  let v := JavaEnum (i32 (f (s_inst info) enumName)) in
                  appendRefs v ;;; ok v
              | None => panic
              end
          | None => panic
          end
      end
  | (_, e) => ret (JavaEnum InvalidJavaEnum, option_map Traced e)
  end.

(** ** The recursive methods, over the calls they make *)

Section Step.
Variable Decode : D result.
Variable decObject : Z -> D result.

(** The elements of a list of [n], stored in [arr] from position [j] on. *)
Fixpoint decElems (n j : nat) (idx : nat) (arr : list value) : D (list value) :=
  match n with
  | O => ret arr
  | S n =>
      it <- trace (try Decode) ;;
      let arr := <[j := it]> arr in
      set_ref idx (VSlice TIface arr) ;;; decElems n (S j) idx arr
  end.

(** [arr := make([]interface{}, size)], a panic for a negative size. *)
Definition decArr (size : Z) : D (list value) :=
  if size <? 0 then panic
  else
    let arr := replicate (Z.to_nat size) VNil in
    idx <- appendRefs (VSlice TIface arr) ;; decElems (Z.to_nat size) 0 idx arr.

Definition decList (flag : Z) : D value :=
  tag <- (if negb (flag =? TAG_READ) then ret (u8 flag) else trace (rd readByte)) ;;
  if in_range BC_LIST_DIRECT tag 0x77 || (tag =? BC_LIST_FIXED) || (tag =? BC_LIST_VARIABLE) then
    or_zero [] decType ;;;
    size <- (if in_range BC_LIST_DIRECT tag 0x77 then ret (u8 (tag - BC_LIST_DIRECT))
             else trace (rd (decInt32 TAG_READ))) ;;
    arr <- decArr size ;;
    (if tag =? BC_LIST_VARIABLE then or_zero 0 (rd readBufByte) else ret 0) ;;;
    ret (VSlice TIface arr)
  else if in_range BC_LIST_DIRECT_UNTYPED tag 0x7f || (tag =? BC_LIST_FIXED_UNTYPED)
          || (tag =? BC_LIST_VARIABLE_UNTYPED) then
    size <- (if in_range BC_LIST_DIRECT_UNTYPED tag 0x7f
             then ret (u8 (tag - BC_LIST_DIRECT_UNTYPED))
             else trace (rd (decInt32 TAG_READ))) ;;
    arr <- decArr size ;;
    (if tag =? BC_LIST_VARIABLE_UNTYPED then or_zero 0 (rd readBufByte) else ret 0) ;;;
    ret (VSlice TIface arr)
  else fail (Errorf "illegal list type tag:%+v").

(** [for d.peekByte() != stop { ... m[k] = v }]. *)
Fixpoint decEntries (fuel : nat) (stop : Z) (idx : nat) (m : list (value * value))
    : D (list (value * value)) :=
  match fuel with
  | O => nofuel
  | S fuel =>
      b <- rd peekByte ;;
      if b =? stop then ret m
      else
        k <- Decode ;;
        match k.2 with
        | Some EOF => ret m                       (* break *)
        | Some e => fail e
        | None =>
            v <- try Decode ;;
            if hashable k.1 then
              let m := map_insert k.1 v m in
              set_ref idx (VMap TIface TIface m) ;;; decEntries fuel stop idx m
            else panic
        end
  end.

Definition method_name (keyName : bytes) : option bytes :=
  match keyName with
  | [] => None
  | c :: t => Some (lit "Set" ++ (if 97 <=? c then EncodeRune (u8 (c - 32)) ++ t else keyName))
  end.

(** The properties of the instance [inst] of a typed map. *)
Fixpoint decSetters (fuel : nat) (idx : nat) (inst : option value) : D value :=
  match fuel with
  | O => nofuel
  | S fuel =>
      b <- rd peekByte ;;
      if b =? 122 then ret (default VNil inst)
      else
        key <- try Decode ;;
        v <- try Decode ;;
        match v with
        | VNil => decSetters fuel idx inst
        | _ =>
            match key, inst with
            | VString keyName, Some i =>
                match method_name keyName with
                | Some f =>
                    match CallMethod i f v with
                    | Some i => set_ref idx i ;;; decSetters fuel idx (Some i)
                    | None => panic
                    end
                | None => panic
                end
            | _, _ => panic
            end
        end
  end.

(** Every round of these loops reads a byte. *)
Definition loop_fuel (d : Decoder) : nat := S (length (unread (d_reader d))).

Definition decMap (flag : Z) : D value :=
  tag <- rd (readTag flag) ;;
  if tag =? BC_MAP then
    t <- decType ;;
    if (checkPOJORegistry g t).2 then
      idx <- appendRefs (VMap TIface TIface []) ;;
      m <- (fun d => decEntries (loop_fuel d) 122 idx [] d) ;;
      or_zero 0 (rd readByte) ;;; ret (VMap TIface TIface m)
    else
      let inst := createInstance g t in
      idx <- appendRefs (default VNil inst) ;;
      fun d => decSetters (loop_fuel d) idx inst d
  else if tag =? BC_MAP_UNTYPED then
    idx <- appendRefs (VMap TIface TIface []) ;;
    m <- (fun d => decEntries (loop_fuel d) BC_END idx [] d) ;;
    or_zero 0 (rd readByte) ;;; ret (VMap TIface TIface m)
  else fail (Errorf "illegal map type tag:%+v").

(** [m.SetMapIndex(key, elem)]: a nil [elem] deletes the entry. *)
Definition SetMapIndex (kt vt : gotype) (key elem : value) (m : list (value * value))
    : option (list (value * value)) :=
  match set_value kt key with
  | None => None
  | Some k =>
      if hashable k then
        match elem with
        | VNil => Some (map_delete k m)
        | _ => option_map (fun v => map_insert k v m) (set_value vt elem)
        end
      else None
  end.

Fixpoint decByValue_loop (fuel : nat) (kt vt : gotype) (m : list (value * value))
    : D (list (value * value)) :=
  match fuel with
  | O => nofuel
  | S fuel =>
      key <- Decode ;;
      match key with
      | (_, Some EOF) => ret m
      | (_, Some e) => fail (Traced e)
      | (VNil, None) => ret m
      | (key, None) =>
          vl <- Decode ;;
          match SetMapIndex kt vt key vl.1 m with
          | Some m => decByValue_loop fuel kt vt m
          | None => panic
          end
      end
  end.

(** The new value of a field of type [ft]. *)
Definition retype (ft : gotype) (v : value) : value :=
  match ft with TNamed n _ => VNamed n v | _ => v end.

Definition decMapByValue (ft : gotype) : D value :=
  tag <- or_zero 0 (rd readBufByte) ;;
  if (tag =? BC_MAP) || (tag =? BC_MAP_UNTYPED) then
    (if tag =? BC_MAP then or_zero [] (rd (decString TAG_READ)) else ret []) ;;;
    match under ft with
    | TMap kt vt =>
        m <- (fun d => decByValue_loop (loop_fuel d) kt vt [] d) ;;
        ret (retype ft (VMap kt vt m))
    | _ => panic
    end
  else fail (Errorf "wrong header BC_MAP_UNTYPED").

(** What the field of an instance becomes: a new value, what it was, or the
    end of [decInstance] with [return nil, jerrors.Trace(err)] for an [err]
    that is nil. *)
Inductive field_result := FSet (v : value) | FKeep | FReturnNil.

(** [SetInt] on a field of integer kind [k]. *)
Definition set_int (k : ikind) (z : Z) : value :=
  VInt k match k with Int8 => i8 z | Int16 => i16 z | Int32 => i32 z | _ => i64 z end.

(** [s.(JavaEnum)], the zero value where [s] is something else. *)
Definition as_enum (s : value) : Z :=
  match s with
  | VNamed n (VInt Int32 z) => if bool_decide (n = lit "hessian.JavaEnum") then z else 0
  | _ => 0
  end.

(** An integer field; an enum where the integer's tag is wrong. *)
Definition decIntField (dec : Z -> R Z) (ft : gotype) : D Z := fun d =>
  match rd (dec TAG_READ) d with
  | (Fail err, d) =>
      (if ImplementsEnum ft then
         or_zero tt (rd unreadByte) ;;; s <- trace (try Decode) ;; ret (as_enum s)
       else fail (Traced err)) d
  | r => r
  end.

(** The slice field's elements, each assigned to one of the field's slice. *)
Fixpoint set_elems (t : gotype) (l : list value) : option (list value) :=
  match l with
  | [] => Some []
  | v :: l =>
      match set_value t v with
      | Some v => option_map (cons v) (set_elems t l)
      | None => None
      end
  end.

Definition decField (ft : gotype) : D field_result :=
  match Kind ft with
  | KString => str <- trace (rd (decString TAG_READ)) ;; ret (FSet (retype ft (VString str)))
  | KInt Int32 => num <- decIntField decInt32 ft ;; ret (FSet (retype ft (set_int Int32 num)))
  | KInt Int16 => num <- decIntField decInt32 ft ;; ret (FSet (retype ft (set_int Int16 num)))
  | KInt Int => num <- decIntField decInt64 ft ;; ret (FSet (retype ft (set_int Int num)))
  | KInt Int64 => num <- decIntField decInt64 ft ;; ret (FSet (retype ft (set_int Int64 num)))
  | KInt Uint64 => decIntField decInt64 ft ;;; panic         (* SetInt on a uint64 *)
  | KBool =>
      b <- trace (try Decode) ;;
      match b with VBool b => ret (FSet (retype ft (VBool b))) | _ => panic end
  | KFloat32 =>
      num <- trace (rd (decDouble TAG_READ)) ;;
      match num with
      | DFloat64 f => ret (FSet (retype ft (VFloat32 (f32_of_f64 f))))
      | DInt32 _ => panic
      end
  | KFloat64 =>
      num <- trace (rd (decDouble TAG_READ)) ;;
      match num with
      | DFloat64 f => ret (FSet (retype ft (VFloat64 f)))
      | DInt32 _ => panic
      end
  | KMap => m <- or_nil (decMapByValue ft) ;;
      ret match m with (m, None) => FSet m | _ => FKeep end
  | KSlice | KArray =>
      m <- or_nil (decList TAG_READ) ;;
      match m.2 with
      | Some _ => ret FReturnNil
      | None =>
          match elems m.1, under ft with
          | [], _ => ret FKeep
          | l, TSlice t =>
              match set_elems t l with
              | Some l => ret (FSet (retype ft (mk_slice t l)))
              | None => panic
              end
          | _, _ => panic                          (* MakeSlice of an array type *)
          end
      end
  | KStruct =>
      if bool_decide (String ft = lit "time.Time") then
        t <- trace (rd (decDate TAG_READ)) ;; ret (FSet (VTime t))
      else
        s <- trace (try (decObject TAG_READ)) ;;
        match s with
        | VNil => ret FKeep
        | VReflect _ v =>
            match set_value ft v with Some v => ret (FSet v) | None => panic end
        | _ => panic
        end
  | _ => fail (Errorf "unknown struct member type:%d")
  end.

(** The loop over the class's fields; [vals] are the instance's. *)
Fixpoint decFields (idx : nat) (n : bytes) (fs : list (bytes * gotype))
    (names : list bytes) (vals : list value) : D value :=
  match names with
  | [] => ret (VReflect idx (VStruct n fs vals))
  | fieldName :: names =>
      match findField fieldName fs with
      | None => decFields idx n fs names vals       (* log.Warn *)
      | Some i =>
          match fs !! i with
          | None => panic
          | Some (fname, ft) =>
              if exported fname then
                r <- decField ft ;;
                match r with
                | FSet v =>
                    let vals := <[i := v]> vals in
                    set_ref idx (VReflect idx (VStruct n fs vals)) ;;;
                    decFields idx n fs names vals
                | FKeep => decFields idx n fs names vals
                | FReturnNil => ret VNil
                end
              else fail (Errorf "decInstance CanSet false for field %s")
          end
      end
  end.

Definition decInstance (typ : gotype) (cls : classInfo) : D value :=
  match typ with
  | TStruct n fs =>
      let vals := map (fun f => zero f.2) fs in
      fun d =>
        let idx := length (d_refs d) in
        (appendRefs (VReflect idx (VStruct n fs vals)) ;;;
         decFields idx n fs (c_fieldNameList cls) vals) d
  | _ => fail (Errorf "wrong type expect Struct but get:%s")
  end.

(** An object of the class with number [idx] in this stream. *)
Definition decObject_of (idx : Z) : D result :=
  check (d_getStructDefByIndex idx) (fun tc =>
    if ImplementsEnum tc.1 then decEnum (c_javaName tc.2) else or_nil (decInstance tc.1 tc.2)).

Definition decObject_step (flag : Z) : D result :=
  tag <- rd (readTag flag) ;;
  if tag =? BC_OBJECT_DEF then
    check (trace decClassDef) (fun cls => appendClsDef cls ;;; Decode)
  else if tag =? BC_OBJECT then check (rd (decInt32 TAG_READ)) decObject_of
  else if in_range BC_OBJECT_DIRECT tag (BC_OBJECT_DIRECT + OBJECT_DIRECT_MAX) then
    decObject_of (u8 (tag - BC_OBJECT_DIRECT))
  else ret (VNil, Some (Errorf "decObject illegal object type tag:%+v")).

Definition double_value (f : double) : value :=
  match f with DFloat64 b => VFloat64 b | DInt32 z => VInt Int32 z end.

Definition Decode_step : D result :=
  check (rd readByte) (fun tag =>
    if (tag =? BC_END) || (tag =? BC_NULL) then ok VNil
    else if tag =? BC_TRUE then ok (VBool true)
    else if tag =? BC_FALSE then ok (VBool false)
    else if is_int_tag tag then result_of (VInt Int32) (VInt Int32 0) (rd (decInt32 tag))
    else if is_long_tag tag then result_of (VInt Int64) (VInt Int64 0) (rd (decInt64 tag))
    else if (tag =? BC_DATE_MINUTE) || (tag =? BC_DATE) then
      result_of VTime (VTime time_zero) (rd (decDate tag))
    else if (tag =? BC_DOUBLE_ZERO) || (tag =? BC_DOUBLE_ONE) || (tag =? BC_DOUBLE_BYTE)
            || (tag =? BC_DOUBLE_SHORT) || (tag =? BC_DOUBLE_MILL) || (tag =? BC_DOUBLE) then
      result_of double_value VNil (rd (decDouble tag))
    else if is_string_tag tag then result_of VString (VString []) (rd (decString tag))
    else if (tag =? BC_BINARY) || (tag =? BC_BINARY_CHUNK) || in_range 0x20 tag 0x2f
            || in_range BC_BINARY_SHORT tag 0x3f then
      result_of VBytes (VNilSlice (TInt Uint8)) (rd (decBinary tag))
    else if in_range BC_LIST_DIRECT tag 0x77 || (tag =? BC_LIST_FIXED)
            || (tag =? BC_LIST_VARIABLE) || in_range BC_LIST_DIRECT_UNTYPED tag 0x7f
            || (tag =? BC_LIST_FIXED_UNTYPED) || (tag =? BC_LIST_VARIABLE_UNTYPED) then
      or_nil (decList tag)
    else if (tag =? BC_MAP) || (tag =? BC_MAP_UNTYPED) then or_nil (decMap tag)
    else if (tag =? BC_OBJECT_DEF) || (tag =? BC_OBJECT)
            || in_range BC_OBJECT_DIRECT tag (BC_OBJECT_DIRECT + OBJECT_DIRECT_MAX) then
      decObject tag
    else if tag =? BC_REF then or_nil (decRef tag)
    else rd (n <- len ;; peek (Z.to_nat n)) ;;;
         ret (VNil, Some (Errorf "Invalid type: %v,>>%v<<<"))).

End Step.

(** ** Tying the knot *)

Fixpoint Decode (fuel : nat) : D result :=
  match fuel with
  | O => nofuel
  | S n => Decode_step (Decode n) (decObject_step (Decode n) (decObject n))
  end
with decObject (fuel : nat) (flag : Z) : D result :=
  match fuel with
  | O => nofuel
  | S n => decObject_step (Decode n) (decObject n) flag
  end.

(** One unit for each byte left and one more. *)
Definition decode_fuel (d : Decoder) : nat := S (length (unread (d_reader d))).

End Decode.
