(* ===== verification/HessianTree.v ===== *)
(** * Round trips of value trees

    What [Decoder.Decode] reads back from what [Encoder.Encode] appended, for
    values built of scalars, lists and maps: the stream view of [Bufio] is
    lifted to the decoder, each scalar's tag selects its decoder, and lists and
    maps follow by induction. *)
From S2P Require Import Prelude Utf8 Bufio Float64 HessianConst HessianPack HessianValue.
From S2P Require Import HessianEncode HessianDecode HessianScalar Pojo HessianEncoder.
From S2P Require Import HessianDecoder.

(** ** The stream view of the decoder *)

Definition dreads {A} (m : D A) (inp : bytes) (a : A) : Prop :=
  forall d rest, buf_ok (d_reader d) -> unread (d_reader d) = inp ++ rest ->
  exists d', m d = (Ret a, d') /\ buf_ok (d_reader d') /\ unread (d_reader d') = rest
    /\ d_classInfoList d' = d_classInfoList d.

Lemma dreads_rd {A} (m : R A) inp a : reads m inp a -> dreads (rd m) inp a.
Proof.
  intros H d rest Hok Hr. destruct (H _ rest Hok Hr) as (r' & E & ? & ?).
  eexists. unfold rd. by rewrite E.
Qed.

Lemma dreads_ret {A} (a : A) : dreads (ret a) [] a.
Proof. intros d rest Hok Hr. by exists d. Qed.

Lemma dreads_ok v : dreads (ok v) [] (v, None).
Proof. apply dreads_ret. Qed.

Lemma dreads_bind {A B} (m : D A) (k : A -> D B) inp1 inp2 a b :
  dreads m inp1 a -> dreads (k a) inp2 b -> dreads (bind m k) (inp1 ++ inp2) b.
Proof.
  intros Hm Hk d rest Hok Hr. rewrite <- app_assoc in Hr.
  destruct (Hm d _ Hok Hr) as (d1 & E1 & Hok1 & Hr1 & Hc1).
  destruct (Hk d1 rest Hok1 Hr1) as (d2 & E2 & Hok2 & Hr2 & Hc2).
  exists d2. unfold bind. rewrite E1, Hc2. done.
Qed.

Lemma dreads_bind_nil {A B} (m : D A) (k : A -> D B) inp a b :
  dreads m [] a -> dreads (k a) inp b -> dreads (bind m k) inp b.
Proof. apply (dreads_bind m k [] inp). Qed.

Lemma dreads_result_of {A} (f : A -> value) z (m : D A) inp a :
  dreads m inp a -> dreads (result_of f z m) inp (f a, None).
Proof.
  intros H d rest Hok Hr. destruct (H d rest Hok Hr) as (d' & E & ?).
  exists d'. unfold result_of. by rewrite E.
Qed.

Lemma dreads_check {A} (m : D A) (k : A -> D result) inp1 inp2 a b :
  dreads m inp1 a -> dreads (k a) inp2 b -> dreads (check m k) (inp1 ++ inp2) b.
Proof.
  intros Hm Hk d rest Hok Hr. rewrite <- app_assoc in Hr.
  destruct (Hm d _ Hok Hr) as (d1 & E1 & Hok1 & Hr1 & Hc1).
  destruct (Hk d1 rest Hok1 Hr1) as (d2 & E2 & Hok2 & Hr2 & Hc2).
  exists d2. unfold check. rewrite E1, Hc2. done.
Qed.

Lemma dreads_try (m : D result) inp v : dreads m inp (v, None) -> dreads (try m) inp v.
Proof.
  intros H. rewrite <- (app_nil_r inp). apply (dreads_bind _ _ _ _ (v, None)); [done|].
  apply dreads_ret.
Qed.

Lemma dreads_on_err {A} (m : D A) h inp a : dreads m inp a -> dreads (on_err m h) inp a.
Proof.
  intros H d rest Hok Hr. destruct (H d rest Hok Hr) as (d' & E & ?).
  exists d'. unfold on_err. by rewrite E.
Qed.

Lemma dreads_or_zero {A} (z : A) (m : D A) inp a : dreads m inp a -> dreads (or_zero z m) inp a.
Proof.
  intros H d rest Hok Hr. destruct (H d rest Hok Hr) as (d' & E & ?).
  exists d'. unfold or_zero. by rewrite E.
Qed.

(** The table of references grows and is written without touching the stream. *)
Lemma dreads_appendRefs {B} v (k : nat -> D B) inp b :
  (forall i, dreads (k i) inp b) -> dreads (bind (appendRefs v) k) inp b.
Proof.
  intros H d rest Hok Hr. unfold bind, appendRefs.
  destruct (H (length (d_refs d))
    (mkDecoder (d_reader d) (d_refs d ++ [v]) (d_classInfoList d)) rest Hok Hr) as (d' & E & ?).
  by exists d'.
Qed.

Lemma dreads_set_ref i v : dreads (set_ref i v) [] tt.
Proof. intros d rest Hok Hr. by eexists. Qed.

(** [peekByte] looks at the first byte and leaves it. *)
Lemma peekByte_looks r b t :
  buf_ok r -> unread r = b :: t ->
  exists r', peekByte r = (Ret b, r') /\ buf_ok r' /\ unread r' = b :: t.
Proof.
  intros Hok Hr. unfold peekByte, peek, bind, Peek.
  set (r0 := if (nbuf r <? 1)%nat && (nbuf r <? bufsize)%nat then fill r else r).
  assert (Hu : unread r0 = b :: t) by (unfold r0; by case_match).
  assert (Hn : (1 <= nbuf r0 <= length (b :: t))%nat).
  { unfold r0, buf_ok in *. rewrite Hr in Hok.
    destruct (nbuf r <? 1)%nat eqn:E; [apply Nat.ltb_lt in E|apply Nat.ltb_ge in E].
    - rewrite (proj2 (Nat.ltb_lt (nbuf r) bufsize)) by (unfold bufsize; lia).
      cbn [andb fill nbuf]. rewrite Hr. cbn [length]. unfold bufsize. lia.
    - cbn [andb]. lia. }
  cbn [nbuf unread]. rewrite (proj2 (Nat.ltb_ge (nbuf r0) 1)) by lia.
  rewrite (proj2 (Nat.ltb_ge bufsize 1)) by (unfold bufsize; lia).
  cbn [ret fst]. rewrite Hu. eexists. split_and!; [done| |done].
  unfold buf_ok; cbn [nbuf unread]. lia.
Qed.

(** ** Encoders append *)

Lemma encInt32_app v b : encInt32 v b = b ++ encInt32 v [].
Proof. unfold encInt32, encByte. by repeat case_match. Qed.
Lemma encInt64_app v b : encInt64 v b = b ++ encInt64 v [].
Proof. unfold encInt64, encByte. by repeat case_match. Qed.
Lemma encFloat_app v b : encFloat v b = b ++ encFloat v [].
Proof. unfold encFloat, encFloat_END, encByte. by repeat case_match. Qed.
Lemma encBinary_app v b : v <> [] -> encBinary v b = b ++ encBinary v [].
Proof.
  intros Hne. unfold encBinary. destruct v as [|x l] eqn:E; [done|]. rewrite <- E in *.
  by rewrite !encBinary_loop_frames by (done || lia).
Qed.
Lemma encString_app `{GX : GxStrings} {GXok : GxStringsOk} rs b :
  scalars rs -> encString (encode_runes rs) b = b ++ encString (encode_runes rs) [].
Proof.
  intros Hs. unfold encString. destruct rs as [|r rs]; [done|].
  destruct (encode_runes (r :: rs)) eqn:E; [done|]. rewrite <- E.
  assert (length (r :: rs) < S (length (encode_runes (r :: rs))))%nat
    by (pose proof (encode_runes_length (r :: rs)); lia).
  by rewrite !encString_loop_frames by done.
Qed.

(** [appends m bs]: [m] succeeds and adds [bs] to the buffer. *)
Definition appends (m : E unit) (bs : bytes) : Prop := forall e,
  m e = (Ret tt, mkEncoder (e_classInfoList e) (e_buffer e ++ bs) (e_registry e)).

Lemma appends_buffer f bs : (forall b, f b = b ++ bs) -> appends (on_buffer f) bs.
Proof. intros H e. unfold on_buffer. by rewrite H. Qed.

Lemma appends_ret : appends (ret tt) [].
Proof. intros e. unfold ret. rewrite app_nil_r. by destruct e. Qed.

Lemma appends_bind (m n : E unit) bs1 bs2 :
  appends m bs1 -> appends n bs2 -> appends (m ;;; n) (bs1 ++ bs2).
Proof.
  intros H1 H2 e. unfold bind. rewrite H1, H2. cbn. by rewrite app_assoc.
Qed.

(** ** The tag of each scalar *)

Definition head_is (P : Z -> Prop) (bs : bytes) : Prop :=
  match bs with t :: _ => P t | [] => False end.

Lemma encInt32_head v : is_i32 v -> head_is (fun t => is_int_tag t = true) (encInt32 v []).
Proof.
  intros Hv. unfold encInt32, encByte, head_is, is_int_tag, in_range. hessian_const. cbn [app].
  repeat case_match; zify_bool; simplify_eq; wrap_lia.
Qed.

Lemma encInt64_head v : is_i64 v -> head_is (fun t => is_long_tag t = true) (encInt64 v []).
Proof.
  intros Hv. unfold encInt64, encByte, head_is, is_long_tag, in_range. hessian_const. cbn [app].
  repeat case_match; zify_bool; simplify_eq; wrap_lia.
Qed.

Lemma encFloat_head v : head_is (fun t => 0x5b <= t <= 0x5d \/ t = 0x44) (encFloat v []).
Proof.
  unfold encFloat, encFloat_END, encByte, head_is. hessian_const. cbn [app].
  repeat case_match; simplify_eq; lia.
Qed.

Lemma str_header_head n : 0 <= n <= CHUNK_SIZE -> head_is str_tag (str_header n).
Proof.
  intros H. destruct (announces_header n H) as (t & h & -> & Ht & _). done.
Qed.

Lemma str_frames_head fuel rs : (0 < fuel)%nat -> head_is str_tag (str_frames fuel rs).
Proof.
  destruct fuel; [lia|]. intros _. cbn [str_frames].
  destruct (CHUNK_SIZE <? _) eqn:E; zify_bool.
  - right; right; left. done.
  - pose proof (str_header_head (Z.of_nat (length rs))) as H.
    destruct (str_header _); [exfalso|]; apply H; lia.
Qed.

Lemma encString_head `{GX : GxStrings} {GXok : GxStringsOk} rs :
  scalars rs -> head_is str_tag (encString (encode_runes rs) []).
Proof.
  intros Hs. destruct (decide (rs = [])) as [->|Hne].
  - left. unfold BC_STRING_DIRECT. lia.
  - destruct (encString_frames rs Hs Hne) as (fuel & Hf & ->). apply str_frames_head. lia.
Qed.

Lemma encBinary_head v : v <> [] -> head_is bin_tag (encBinary v []).
Proof.
  intros Hne. unfold encBinary. destruct v as [|x l] eqn:E; [done|]. rewrite <- E in *.
  rewrite encBinary_loop_frames by (done || lia).
  destruct (decBinary_loop_frames (S (length v)) v) as (t & inp & -> & Ht & _); [lia|done].
Qed.

(** ** [Decode] on a scalar *)

Section Decode.
Context `{GX : GxStrings} {GXok : GxStringsOk} `{App : Application}.
Variable g : POJORegistry.

(** [decodes inp v]: [Decode] returns [v] after [inp], whose first byte does
    not end a map, with one unit of fuel for each byte and one more. *)
Definition decodes (inp : bytes) (v : value) : Prop :=
  head_is (fun t => t <> BC_END) inp
  /\ forall fuel, (length inp < fuel)%nat -> dreads (Decode g fuel) inp (v, None).

(** Opens [Decode] behind its tag byte, which the context classifies. *)
Lemma decodes_tag t inp v :
  t <> BC_END ->
  (forall n, (length inp < n)%nat -> dreads (Decode g (S n)) (t :: inp) (v, None)) ->
  decodes (t :: inp) v.
Proof.
  intros Ht Hd. split; [done|]. intros fuel Hf. cbn [length] in Hf.
  destruct fuel as [|n]; [lia|]. apply Hd. lia.
Qed.

Ltac open_tag t inp :=
  change (t :: inp) with ([t] ++ inp);
  apply dreads_check with t; [apply dreads_rd, ReadByte_reads|];
  unfold is_int_tag, is_long_tag, is_string_tag, in_range, BC_END, BC_REF, BC_LIST_FIXED,
    BC_LIST_VARIABLE, BC_LIST_FIXED_UNTYPED, BC_LIST_VARIABLE_UNTYPED, BC_LIST_DIRECT,
    BC_LIST_DIRECT_UNTYPED, BC_MAP, BC_MAP_UNTYPED, BC_OBJECT, BC_OBJECT_DEF,
    BC_OBJECT_DIRECT, OBJECT_DIRECT_MAX in *; hessian_const.

Ltac decide_tests :=
  repeat match goal with
  | |- context [if ?c then _ else _] =>
      first [ replace c with true by lia | replace c with false by lia ]
  end.

Lemma tag_inp {A} (dec : Z -> R A) inp a (P : Z -> Prop) :
  reads_tagged dec inp a -> head_is P inp ->
  exists t inp', inp = t :: inp' /\ is_byte t /\ P t /\ reads (dec t) inp' a.
Proof. destruct inp as [|t inp]; [done|]. intros (? & _ & ?) ?. by exists t, inp. Qed.

Lemma decodes_null : decodes [BC_NULL] VNil.
Proof.
  apply decodes_tag; [done|]. intros n _. open_tag BC_NULL (@nil Z). apply dreads_ok.
Qed.

Lemma decodes_bool b : decodes (encBool b []) (VBool b).
Proof.
  destruct b; (apply decodes_tag; [done|]; intros n _).
  - open_tag BC_TRUE (@nil Z). apply dreads_ok.
  - open_tag BC_FALSE (@nil Z). apply dreads_ok.
Qed.

Lemma decodes_int32 z : is_i32 z -> decodes (encInt32 z []) (VInt Int32 (int32_back z)).
Proof.
  intros Hz.
  destruct (tag_inp _ _ _ _ (decInt32_encInt32 z Hz) (encInt32_head z Hz))
    as (t & inp & -> & Hb & Ht & Hr).
  apply decodes_tag; [intros ->; done|]. intros n _.
  open_tag t inp. decide_tests.
  by apply dreads_result_of with (a := int32_back z), dreads_rd.
Qed.

Lemma decodes_int64 z : is_i64 z -> decodes (encInt64 z []) (VInt Int64 (int64_back z)).
Proof.
  intros Hz.
  destruct (tag_inp _ _ _ _ (decInt64_encInt64 z Hz) (encInt64_head z Hz))
    as (t & inp & -> & Hb & Ht & Hr).
  apply decodes_tag; [intros ->; done|]. intros n _.
  open_tag t inp. decide_tests.
  by apply dreads_result_of with (a := int64_back z), dreads_rd.
Qed.

Lemma decodes_double v :
  is_f64 v -> ~ (f64_small v (-0x8000) (-0x80) \/ f64_small v 0x80 0x8000) ->
  decodes (encFloat v []) (VFloat64 (float_back v)).
Proof.
  intros Hv Hns.
  destruct (tag_inp _ _ _ _ (decDouble_encFloat v Hv Hns) (encFloat_head v))
    as (t & inp & -> & Hb & Ht & Hr).
  apply decodes_tag; [unfold BC_END; lia|]. intros n _.
  open_tag t inp. decide_tests.
  by apply (dreads_result_of double_value _ _ _ (DFloat64 (float_back v))), dreads_rd.
Qed.

Lemma decodes_string rs :
  scalars rs -> Z.of_nat (length rs) < 2 ^ 31 ->
  decodes (encString (encode_runes rs) []) (VString (encode_runes rs)).
Proof.
  intros Hs Hl.
  destruct (tag_inp _ _ _ _ (decString_encString rs Hs Hl) (encString_head rs Hs))
    as (t & inp & -> & Hb & Ht & Hr).
  unfold str_tag in Ht. apply decodes_tag; [unfold BC_END; lia|]. intros n _.
  open_tag t inp. decide_tests.
  by apply (dreads_result_of VString _ _ _ (encode_runes rs)), dreads_rd.
Qed.

Lemma decodes_binary b : b <> [] -> decodes (encBinary b []) (VBytes b).
Proof.
  intros Hne.
  destruct (tag_inp _ _ _ _ (decBinary_encBinary b Hne) (encBinary_head b Hne))
    as (t & inp & -> & Hb & Ht & Hr).
  unfold bin_tag in Ht. apply decodes_tag; [unfold BC_END; lia|]. intros n _.
  open_tag t inp. unfold BC_BINARY_SHORT. decide_tests.
  by apply (dreads_result_of VBytes _ _ _ b), dreads_rd.
Qed.

(** ** Lists *)

Lemma decElems_reads Dec inps l' idx dn :
  Forall2 (fun i v => dreads Dec i (v, None)) inps l' ->
  dreads (decElems Dec (length l') (length dn) idx (dn ++ replicate (length l') VNil))
    (concat inps) (dn ++ l').
Proof.
  intros Hl. revert dn. induction Hl as [|i v inps l' Hv Hl IH]; intros dn.
  { apply dreads_ret. }
  cbn [decElems concat length replicate].
  apply dreads_bind with v; [by apply dreads_on_err, dreads_try|]. cbv zeta.
  apply dreads_bind_nil with tt; [apply dreads_set_ref|].
  rewrite insert_app_r_alt, Nat.sub_diag by done. cbn [insert list_insert].
  rewrite (cons_middle v dn (replicate _ _)), (cons_middle v dn l'), !(app_assoc dn [v]).
  replace (S (length dn)) with (length (dn ++ [v])) by (rewrite length_app; cbn; lia).
  apply IH.
Qed.

(** The list's header, then its elements. *)
Definition list_header (n : nat) : bytes :=
  BC_LIST_FIXED_UNTYPED :: encInt32 (Z.of_nat n) [].

Lemma int32_back_nonneg z : 0 <= z -> int32_back z = z.
Proof. intros. unfold int32_back. repeat case_match; zify_bool; lia. Qed.

Lemma decodes_list inps l' :
  Forall2 decodes inps l' -> Z.of_nat (length l') < 2 ^ 31 ->
  decodes (list_header (length l') ++ concat inps) (VSlice TIface l').
Proof.
  intros Hl Hlt.
  assert (Hn : is_i32 (Z.of_nat (length l'))) by (unfold is_i32; lia).
  pose proof (decInt32_encInt32 _ Hn) as Hi.
  rewrite int32_back_nonneg in Hi by lia.
  unfold list_header. rewrite <- app_comm_cons. apply decodes_tag; [done|]. intros n Hf.
  open_tag BC_LIST_FIXED_UNTYPED (encInt32 (Z.of_nat (length l')) [] ++ concat inps).
  decide_tests. apply (dreads_result_of id). unfold decList.
  apply dreads_bind_nil with 0x58; [apply dreads_ret|].
  unfold in_range. cbn [orb andb Z.leb Z.eqb Z.compare Pos.compare Pos.compare_cont].
  apply dreads_bind with (Z.of_nat (length l')).
  { apply dreads_on_err, dreads_rd. destruct (encInt32 _ _); [done|]. apply Hi. }
  rewrite <- (app_nil_r (concat inps)). apply dreads_bind with l'.
  - unfold decArr. destruct (_ <? 0) eqn:E; zify_bool; [lia|]. cbv zeta.
    apply dreads_appendRefs. intros idx. rewrite Nat2Z.id. apply (decElems_reads _ _ _ _ []).
    apply Forall2_length in Hl as Hll.
    assert (Hsum : forall i, i ∈ inps -> (length i < n)%nat).
    { intros i Hin. rewrite !length_app in Hf. apply list_elem_of_split in Hin as (a & b & ->).
      rewrite concat_app in Hf. cbn [concat] in Hf. rewrite !length_app in Hf.
      assert (0 < length (encInt32 (Z.of_nat (length l')) []))%nat; [|lia].
      destruct (encInt32 _ _); [done|cbn; lia]. }
    clear -Hl Hsum. induction Hl as [|i v inps l' [_ Hv] Hl IH]; constructor.
    + apply Hv, Hsum. by left.
    + apply IH. intros. apply Hsum. by right.
  - apply dreads_bind_nil with 0; apply dreads_ret.
Qed.

(** ** Maps *)

(** [k] differs from every key before it, so that it is a new entry. *)
Definition fresh_key (k : value) (m : list (value * value)) : Prop :=
  Forall (fun e => key_eqb k e.1 = false) m.

Lemma map_insert_fresh k v m : fresh_key k m -> map_insert k v m = m ++ [(k, v)].
Proof.
  induction 1 as [|[k' v'] m Hk Hm IH]; [done|]. cbn in *. by rewrite Hk, IH.
Qed.

(** The entries of [m'], one after the other, behind those of [dn]. *)
Inductive entries_decode : bytes -> list (value * value) -> list (value * value) -> Prop :=
| entries_nil dn : entries_decode [] dn []
| entries_cons ik iv inp dn k v m :
    decodes ik k -> decodes iv v -> hashable k = true -> fresh_key k dn ->
    entries_decode inp (dn ++ [(k, v)]) m ->
    entries_decode (ik ++ iv ++ inp) dn ((k, v) :: m).

Lemma decEntries_reads n fuel idx inp dn m :
  entries_decode inp dn m -> (length inp < n)%nat -> (length inp < fuel)%nat ->
  dreads (m <- decEntries (Decode g n) fuel BC_END idx dn ;;
          (or_zero 0 (rd readByte) ;;; ret (VMap TIface TIface m)))
    (inp ++ [BC_END]) (VMap TIface TIface (dn ++ m)).
Proof.
  intros He. revert fuel. induction He as [dn|ik iv inp dn k v m [Hk1 Hk2] [Hv1 Hv2] Hh Hfr He IH];
    intros fuel Hn Hf.
  - destruct fuel as [|fuel]; [lia|]. cbn [decEntries app]. rewrite app_nil_r.
    intros d rest Hok Hr.
    destruct (peekByte_looks (d_reader d) BC_END rest) as (r' & E & Hok' & Hr'); [done|done|].
    unfold bind at 1 2, rd at 1. rewrite E. cbn [Z.eqb Pos.eqb BC_END].
    destruct (dreads_bind (or_zero 0 (rd readByte)) (fun _ => ret (VMap TIface TIface dn))
      [BC_END] [] BC_END (VMap TIface TIface dn)) with
      (d := mkDecoder r' (d_refs d) (d_classInfoList d)) (rest := rest) as (d' & E' & ?).
    + apply dreads_or_zero, dreads_rd, ReadByte_reads.
    + apply dreads_ret.
    + done.
    + done.
    + exists d'. by unfold ret at 1.
  - destruct fuel as [|fuel]; [lia|]. rewrite !length_app in Hn, Hf.
    destruct ik as [|t ik]; [done|]. cbn [head_is] in Hk1. cbn [length] in Hn, Hf.
    intros d rest Hok Hr. cbn [decEntries].
    rewrite <- !app_assoc in Hr.
    destruct (peekByte_looks (d_reader d) t (ik ++ iv ++ inp ++ [BC_END] ++ rest))
      as (r' & E & Hok' & Hr'); [done|by rewrite Hr|].
    unfold bind at 1 2, rd at 1. rewrite E.
    rewrite (proj2 (Z.eqb_neq t BC_END)) by done.
    destruct (Hk2 n) with (d := mkDecoder r' (d_refs d) (d_classInfoList d))
      (rest := iv ++ inp ++ [BC_END] ++ rest) as (d1 & E1 & Hok1 & Hr1 & Hc1);
      [cbn; lia|done|done|].
    unfold bind at 1. rewrite E1. cbn [snd fst].
    destruct (dreads_try _ _ _ (Hv2 n ltac:(lia))) with (d := d1)
      (rest := inp ++ [BC_END] ++ rest) as (d2 & E2 & Hok2 & Hr2 & Hc2); [done|done|].
    unfold bind at 1. rewrite E2, Hh. cbv zeta. rewrite map_insert_fresh by done.
    unfold bind at 1, set_ref.
    destruct (IH fuel) with (d := mkDecoder (d_reader d2)
        (<[idx := VMap TIface TIface (dn ++ [(k, v)])]> (d_refs d2)) (d_classInfoList d2))
      (rest := rest) as (d3 & E3 & Hok3 & Hr3 & Hc3); [lia|lia|done|by rewrite <- app_assoc|].
    exists d3. rewrite <- app_assoc in E3. split_and!; [exact E3|done|done|].
    rewrite Hc3. cbn. by rewrite Hc2, Hc1.
Qed.

Lemma decodes_map inp m :
  entries_decode inp [] m ->
  decodes ([BC_MAP_UNTYPED] ++ inp ++ [BC_END]) (VMap TIface TIface m).
Proof.
  intros He. cbn [app]. apply decodes_tag; [done|]. intros n Hf.
  open_tag BC_MAP_UNTYPED (inp ++ [BC_END]). decide_tests.
  apply (dreads_result_of id). unfold decMap.
  apply dreads_bind_nil with 0x48; [apply dreads_rd, reads_ret|].
  unfold BC_MAP_UNTYPED, BC_MAP. cbn [Z.eqb Pos.eqb].
  apply dreads_appendRefs. intros idx. rewrite length_app in Hf. cbn in Hf.
  intros d rest Hok Hr.
  destruct (decEntries_reads n (loop_fuel d) idx inp [] m He) with (d := d) (rest := rest)
    as (d' & E & ?); [lia| |done|done|].
  { unfold loop_fuel. rewrite Hr, !length_app. lia. }
  by exists d'.
Qed.

(** ** Trees *)

(** [portable v v']: [v] survives the wire as [v'].  Integers come back at the
    width of their encoding and without the sign of a compact form, doubles
    and slices as their general types, and the typed map as a map of
    interfaces.  [portable_entries dn m m'] follows [dn], the entries that were
    read before; [portable_typed] is the same for a typed map, whose keys are
    converted by [getMapKey]. *)
Inductive portable : value -> value -> Prop :=
| p_nil : portable VNil VNil
| p_bool b : portable (VBool b) (VBool b)
| p_int32 z : is_i32 z -> portable (VInt Int32 z) (VInt Int32 (int32_back z))
| p_int z : is_i64 z -> portable (VInt Int z) (VInt Int64 (int64_back z))
| p_int64 z : is_i64 z -> portable (VInt Int64 z) (VInt Int64 (int64_back z))
| p_float64 v :
    is_f64 v -> ~ (f64_small v (-0x8000) (-0x80) \/ f64_small v 0x80 0x8000) ->
    portable (VFloat64 v) (VFloat64 (float_back v))
| p_string rs :
    scalars rs -> Z.of_nat (length rs) < 2 ^ 31 ->
    portable (VString (encode_runes rs)) (VString (encode_runes rs))
| p_bytes b : b <> [] -> portable (VBytes b) (VBytes b)
| p_slice t l l' :
    portable_list l l' -> Z.of_nat (length l) < 2 ^ 31 ->
    portable (VSlice t l) (VSlice TIface l')
| p_array t l l' :
    portable_list l l' -> Z.of_nat (length l) < 2 ^ 31 ->
    portable (VArray t l) (VSlice TIface l')
| p_map m m' :
    portable_entries [] m m' -> m <> [] -> portable (VMap TIface TIface m) (VMap TIface TIface m')
| p_typed_map kt vt m m' :
    portable_typed kt [] m m' -> m <> [] -> Kind kt <> KInterface ->
    portable (VMap kt vt m) (VMap TIface TIface m')
with portable_list : list value -> list value -> Prop :=
| pl_nil : portable_list [] []
| pl_cons v v' l l' : portable v v' -> portable_list l l' -> portable_list (v :: l) (v' :: l')
with portable_entries : list (value * value) -> list (value * value) -> list (value * value) -> Prop :=
| pe_nil dn : portable_entries dn [] []
| pe_cons dn k k' v v' m m' :
    portable k k' -> portable v v' -> hashable k' = true -> fresh_key k' dn ->
    portable_entries (dn ++ [(k', v')]) m m' ->
    portable_entries dn ((k, v) :: m) ((k', v') :: m')
with portable_typed : gotype -> list (value * value) -> list (value * value) -> list (value * value) -> Prop :=
| pt_nil kt dn : portable_typed kt dn [] []
| pt_cons kt dn k0 k k' v v' m m' :
    TypeOf k0 = Some kt -> getMapKey k0 kt = Some k ->
    portable k k' -> portable v v' -> hashable k' = true -> fresh_key k' dn ->
    portable_typed kt (dn ++ [(k', v')]) m m' ->
    portable_typed kt dn ((k0, v) :: m) ((k', v') :: m').

Scheme portable_mut := Minimality for portable Sort Prop
  with portable_list_mut := Minimality for portable_list Sort Prop
  with portable_entries_mut := Minimality for portable_entries Sort Prop
  with portable_typed_mut := Minimality for portable_typed Sort Prop.

Combined Scheme portable_all from
  portable_mut, portable_list_mut, portable_entries_mut, portable_typed_mut.

(** [v] is encoded to bytes that decode to [v']. *)
Definition carried (m : E unit) (v' : value) : Prop :=
  exists inp, appends m inp /\ decodes inp v'.

Lemma carried_buffer f v' :
  (forall b, f b = b ++ f []) -> decodes (f []) v' -> carried (on_buffer f) v'.
Proof. intros Hf Hd. exists (f []). split; [by apply appends_buffer|done]. Qed.

Lemma appends_loop {A} (enc : A -> E unit) l inps :
  Forall2 (fun v i => appends (enc v) i) l inps ->
  appends ((fix loop (l : list A) : E unit :=
     match l with [] => ret tt | v :: l => enc v ;;; loop l end) l) (concat inps).
Proof.
  induction 1 as [|v i l inps Hv Hl IH]; [apply appends_ret|]. by apply appends_bind.
Qed.

Lemma carried_list l l' :
  Forall2 (fun v v' => carried (Encode v) v') l l' -> Z.of_nat (length l) < 2 ^ 31 ->
  carried (encUntypedList Encode l) (VSlice TIface l').
Proof.
  intros Hl Hlt.
  assert (exists inps, Forall2 (fun v i => appends (Encode v) i) l inps /\ Forall2 decodes inps l')
    as (inps & Ha & Hd).
  { clear Hlt. induction Hl as [|v v' l l' (i & Ha & Hd) Hl (inps & IHa & IHd)].
    - exists []. by split.
    - exists (i :: inps). by split; constructor. }
  apply Forall2_length in Hl. exists (list_header (length l') ++ concat inps). split.
  - unfold encUntypedList, list_header. rewrite <- Hl.
    rewrite i32_id by (unfold is_i32; lia).
    change (BC_LIST_FIXED_UNTYPED :: encInt32 (Z.of_nat (length l)) [])
      with ([BC_LIST_FIXED_UNTYPED] ++ encInt32 (Z.of_nat (length l)) []).
    rewrite <- app_assoc. apply appends_bind; [by apply appends_buffer|].
    apply appends_bind; [|by apply appends_loop].
    apply appends_buffer. intros b. apply encInt32_app.
  - apply decodes_list; [done|lia].
Qed.

(** The loop over the entries, in the form of either map encoder. *)
Definition carried_entries (loop : E unit) (dn m' : list (value * value)) : Prop :=
  exists inp, appends loop inp /\ entries_decode inp dn m'.

Lemma carried_step loop dn (mk mv : E unit) k' v' m' :
  carried mk k' -> carried mv v' -> hashable k' = true -> fresh_key k' dn ->
  carried_entries loop (dn ++ [(k', v')]) m' ->
  carried_entries (mk ;;; (mv ;;; loop)) dn ((k', v') :: m').
Proof.
  intros (ik & Hka & Hkd) (iv & Hva & Hvd) Hh Hf (inp & Ha & Hd).
  exists (ik ++ iv ++ inp). split; [|by constructor].
  apply appends_bind; [done|]. by apply appends_bind.
Qed.

Lemma carried_map_end (loop : E unit) m' :
  carried_entries loop [] m' ->
  carried (on_buffer (fun b => encByte b [BC_MAP_UNTYPED]) ;;; (loop ;;;
           on_buffer (fun b => encByte b [BC_END]))) (VMap TIface TIface m').
Proof.
  intros (inp & Ha & Hd). exists ([BC_MAP_UNTYPED] ++ inp ++ [BC_END]).
  split; [|by apply decodes_map].
  apply appends_bind; [by apply appends_buffer|].
  apply appends_bind; [done|by apply appends_buffer].
Qed.

(** The loops of the two map encoders, named. *)
Fixpoint untyped_loop (m : list (value * value)) : E unit :=
  match m with
  | [] => ret tt
  | (k, v) :: m => Encode k ;;; Encode v ;;; untyped_loop m
  end.

Definition typed_loop (kt : gotype) : list (value * value) -> E unit :=
  fix loop m :=
  match m with
  | [] => on_buffer (fun b => encByte b [BC_END])
  | (k, v) :: m =>
      match getMapKey k kt with
      | None => fail (Traced (Errorf "unsuport map key kind %s"))
      | Some k => fun e =>
          match Encode_scalar k e with
          | (Fail _, e) => (Ret tt, e)
          | (Ret _, e) => (Encode v ;;; loop m) e
          | r => r
          end
      end
  end.

Definition typed_carried (kt : gotype) (dn m m' : list (value * value)) : Prop :=
  exists inp, appends (typed_loop kt m) (inp ++ [BC_END]) /\ entries_decode inp dn m'.

Lemma typed_step kt dn k0 k k' v v' m m' :
  TypeOf k0 = Some kt -> getMapKey k0 kt = Some k ->
  carried (Encode k) k' -> carried (Encode v) v' -> hashable k' = true -> fresh_key k' dn ->
  typed_carried kt (dn ++ [(k', v')]) m m' -> typed_carried kt dn ((k0, v) :: m) ((k', v') :: m').
Proof.
  intros Ht Hk (ik & Hka & Hkd) (iv & Hva & Hvd) Hh Hf (inp & Ha & Hd).
  exists (ik ++ iv ++ inp). split; [|by constructor].
  rewrite (Encode_key k0 kt) in Hka by done. intros e. cbn [typed_loop].
  rewrite Hk, Hka. unfold bind. rewrite Hva, Ha. cbn. by rewrite <- !app_assoc.
Qed.

Lemma typed_end kt m m' :
  typed_carried kt [] m m' -> m <> [] ->
  carried (encMap Encode_scalar Encode kt m) (VMap TIface TIface m').
Proof.
  intros (inp & Ha & Hd) Hne. exists ([BC_MAP_UNTYPED] ++ inp ++ [BC_END]).
  split; [|by apply decodes_map]. unfold encMap. destruct m as [|e m]; [done|].
  apply appends_bind; [by apply appends_buffer|exact Ha].
Qed.

Lemma portable_carried :
  (forall v v', portable v v' -> carried (Encode v) v')
  /\ (forall l l', portable_list l l' -> Forall2 (fun v v' => carried (Encode v) v') l l')
  /\ (forall dn m m', portable_entries dn m m' -> carried_entries (untyped_loop m) dn m')
  /\ (forall kt dn m m', portable_typed kt dn m m' -> typed_carried kt dn m m').
Proof.
  apply portable_all.
  - apply carried_buffer; [done|apply decodes_null].
  - intros b. apply carried_buffer; [done|apply decodes_bool].
  - intros z Hz. apply carried_buffer; [intros b; apply encInt32_app|by apply decodes_int32].
  - intros z Hz. apply carried_buffer; [intros b; apply encInt64_app|by apply decodes_int64].
  - intros z Hz. apply carried_buffer; [intros b; apply encInt64_app|by apply decodes_int64].
  - intros v Hv Hns. apply carried_buffer; [intros b; apply encFloat_app|by apply decodes_double].
  - intros rs Hs Hl. apply carried_buffer; [intros b; by apply encString_app|by apply decodes_string].
  - intros b Hne. apply carried_buffer; [intros b'; by apply encBinary_app|by apply decodes_binary].
  - intros t l l' _ IH Hl. by apply carried_list.
  - intros t l l' _ IH Hl. by apply carried_list.
  - intros m m' _ IH Hne. destruct m as [|e m]; [done|]. by apply carried_map_end in IH.
  - intros kt vt m m' _ IH Hne Hkt.
    destruct kt; try done; by apply typed_end.
  - constructor.
  - by constructor.
  - intros dn. exists []. split; [apply appends_ret|constructor].
  - intros dn k k' v v' m m' _ IHk _ IHv Hh Hf _ IH. by apply carried_step.
  - intros kt dn. exists []. split; [by apply appends_buffer|constructor].
  - intros kt dn k0 k k' v v' m m' Ht Hk _ IHk _ IHv Hh Hf _ IH. by apply typed_step with k.
Qed.


End Decode.

(** A map from a string to a list, and an empty list. *)
Definition sample_tree : value :=
  VMap TIface TIface
    [(VString (lit "ids"), VSlice TIface [VInt Int32 7; VInt Int64 (-3); VBool true; VNil]);
     (VInt Int32 300, VSlice TString [])].
Definition sample_back : value :=
  VMap TIface TIface
    [(VString (lit "ids"), VSlice TIface [VInt Int32 7; VInt Int64 253; VBool true; VNil]);
     (VInt Int32 300, VSlice TIface [])].

