(* ===== verification/HessianObject.v ===== *)
(** * Round trips of objects

    A struct of a registered type is written as its class definition, once in
    a stream, and its fields; the decoder rebuilds the class and then the
    struct.  Fields are the scalar kinds that [decInstance] reads without
    recursion. *)
From S2P Require Import Prelude Utf8 Bufio Float64 HessianConst HessianPack HessianValue.
From S2P Require Import HessianEncode HessianDecode HessianScalar Pojo HessianEncoder.
From S2P Require Import HessianDecoder HessianTree.

(** A string that the codec carries unchanged. *)
Definition text (s : bytes) : Prop := exists rs,
  scalars rs /\ Z.of_nat (length rs) < 2 ^ 31 /\ s = encode_runes rs.

(** ** Classes *)

Section Class.
Context `{GX : GxStrings} {GXok : GxStringsOk}.

Lemma encString_text s b : text s -> encString s b = b ++ encString s [].
Proof. intros (rs & Hs & _ & ->). by apply encString_app. Qed.

Lemma decString_text s : text s -> reads (decString TAG_READ) (encString s []) s.
Proof.
  intros (rs & Hs & Hl & ->). by apply reads_tag_read, decString_encString.
Qed.

Definition names_bytes (l : list bytes) : bytes := concat (map (fun f => encString f []) l).

Lemma foldl_encString l b :
  Forall text l -> foldl (fun b f => encString f b) b l = b ++ names_bytes l.
Proof.
  intros Hl. revert b. induction Hl as [|f l Hf Hl IH]; intros b.
  - cbn. by rewrite app_nil_r.
  - cbn [foldl names_bytes map concat]. rewrite IH, encString_text, app_assoc by done. done.
Qed.

Lemma decFieldList_reads l dn :
  Forall text l -> dreads (decFieldList (length l) dn) (names_bytes l) (dn ++ l).
Proof.
  intros Hl. revert dn. induction Hl as [|f l Hf Hl IH]; intros dn.
  - rewrite app_nil_r. apply dreads_ret.
  - cbn [decFieldList length]. apply dreads_bind with f.
    + by apply dreads_on_err, dreads_rd, decString_text.
    + specialize (IH (dn ++ [f])). by rewrite <- app_assoc in IH.
Qed.

(** What follows the tag of a class definition. *)
Definition class_body (name : bytes) (l : list bytes) : bytes :=
  encString name [] ++ encInt32 (Z.of_nat (length l)) [] ++ names_bytes l.

Lemma class_def_body name l :
  text name -> Forall text l -> Z.of_nat (length l) < 2 ^ 31 ->
  class_def name l = BC_OBJECT_DEF :: class_body name l.
Proof.
  intros Hn Hl Hlen. unfold class_def, encByte. rewrite app_nil_l, foldl_encString by done.
  rewrite i32_id by (unfold is_i32; lia).
  rewrite encString_text, encInt32_app, <- !app_assoc by done. done.
Qed.

Lemma decClassDef_reads name l :
  text name -> Forall text l -> Z.of_nat (length l) < 2 ^ 31 ->
  dreads decClassDef (class_body name l) (mkClassInfo name l []).
Proof.
  intros Hn Hl Hlen. unfold class_body, decClassDef.
  apply dreads_bind with name; [by apply dreads_on_err, dreads_rd, decString_text|].
  apply dreads_bind with (Z.of_nat (length l)).
  { apply dreads_on_err, dreads_rd.
    assert (Hi : is_i32 (Z.of_nat (length l))) by (unfold is_i32; lia).
    rewrite <- (int32_back_nonneg (Z.of_nat (length l))) at 2 by lia.
    by apply reads_tag_read, decInt32_encInt32. }
  destruct (_ <? 0) eqn:E; zify_bool; [lia|]. rewrite Nat2Z.id.
  rewrite <- (app_nil_r (names_bytes l)). apply dreads_bind with l; [|apply dreads_ret].
  by apply (decFieldList_reads l []).
Qed.

End Class.

(** A class definition leaves the references alone. *)
Lemma decFieldList_refs n l d : d_refs (decFieldList n l d).2 = d_refs d.
Proof.
  revert l d. induction n as [|n IH]; intros l d; [done|].
  cbn [decFieldList]. unfold bind, trace, on_err, rd.
  destruct (decString TAG_READ (d_reader d)) as [[] r]; try done. by rewrite IH.
Qed.

Lemma decClassDef_refs d : d_refs (decClassDef d).2 = d_refs d.
Proof.
  unfold decClassDef, bind at 1, trace, on_err, rd.
  destruct (decString TAG_READ (d_reader d)) as [[] r]; try done.
  unfold bind at 1. cbn [d_reader]. destruct (decInt32 TAG_READ r) as [[z| | |] r']; try done.
  destruct (z <? 0); [done|]. unfold bind.
  pose proof (decFieldList_refs (Z.to_nat z) [] (mkDecoder r' (d_refs d) (d_classInfoList d))) as H.
  cbn [d_refs d_classInfoList] in *. destruct (decFieldList _ _ _) as [[] d']; exact H.
Qed.

(** ** Fields *)

(** A field of type [ft] holding [v] comes back as [v']. *)
Inductive field_portable : gotype -> value -> value -> Prop :=
| fp_string s : text s -> field_portable TString (VString s) (VString s)
| fp_int32 z : is_i32 z -> field_portable (TInt Int32) (VInt Int32 z) (VInt Int32 (int32_back z))
| fp_int64 z : is_i64 z -> field_portable (TInt Int64) (VInt Int64 z) (VInt Int64 (int64_back z))
| fp_int z : is_i64 z -> field_portable (TInt Int) (VInt Int z) (VInt Int (int64_back z))
| fp_bool b : field_portable TBool (VBool b) (VBool b)
| fp_float64 v :
    is_f64 v -> ~ (f64_small v (-0x8000) (-0x80) \/ f64_small v 0x80 0x8000) ->
    field_portable TFloat64 (VFloat64 v) (VFloat64 (float_back v)).

Lemma int32_back_i32 z : is_i32 z -> is_i32 (int32_back z).
Proof. unfold int32_back, is_i32. intros. repeat case_match; zify_bool; lia. Qed.
Lemma int64_back_i64 z : is_i64 z -> is_i64 (int64_back z).
Proof. unfold int64_back, is_i64. intros. repeat case_match; zify_bool; lia. Qed.

Section Fields.
Context `{GX : GxStrings} {GXok : GxStringsOk} `{App : Application}.
Variable g : POJORegistry.

(** Types that are not enums, for which an integer's error is an error. *)
Lemma decIntField_reads Dec dec ft inp z :
  reads (dec TAG_READ) inp z -> dreads (decIntField Dec dec ft) inp z.
Proof.
  intros H d rest Hok Hr. destruct (dreads_rd _ _ _ H d rest Hok Hr) as (d' & E & ?).
  exists d'. unfold decIntField. by rewrite E.
Qed.

Lemma field_carried ft v v' :
  field_portable ft v v' ->
  exists inp, appends (Encode v) inp /\ inp <> [] /\
    forall n DO, (length inp < n)%nat -> dreads (decField g (Decode g n) DO ft) inp (FSet v').
Proof.
  assert (Hnil : forall P bs, head_is P bs -> bs <> []) by (intros P [|]; done).
  intros [s (rs & Hs & Hl & ->)|z Hz|z Hz|z Hz|b|w Hw Hns].
  - eexists. split; [apply appends_buffer; intros b; by apply encString_app|].
    split; [by eapply Hnil, encString_head|]. intros n DO Hn.
    rewrite <- (app_nil_r (encString _ _)). apply dreads_bind with (encode_runes rs).
    + apply dreads_on_err, dreads_rd, reads_tag_read. by apply decString_encString.
    + apply dreads_ret.
  - eexists. split; [apply appends_buffer; intros b; apply encInt32_app|].
    split; [by eapply Hnil, encInt32_head|]. intros n DO Hn.
    rewrite <- (app_nil_r (encInt32 _ _)). apply dreads_bind with (int32_back z).
    + by apply decIntField_reads, reads_tag_read, decInt32_encInt32.
    + unfold set_int, retype. rewrite i32_id by (by apply int32_back_i32). apply dreads_ret.
  - eexists. split; [apply appends_buffer; intros b; apply encInt64_app|].
    split; [by eapply Hnil, encInt64_head|]. intros n DO Hn.
    rewrite <- (app_nil_r (encInt64 _ _)). apply dreads_bind with (int64_back z).
    + by apply decIntField_reads, reads_tag_read, decInt64_encInt64.
    + unfold set_int, retype. rewrite i64_id by (by apply int64_back_i64). apply dreads_ret.
  - eexists. split; [apply appends_buffer; intros b; apply encInt64_app|].
    split; [by eapply Hnil, encInt64_head|]. intros n DO Hn.
    rewrite <- (app_nil_r (encInt64 _ _)). apply dreads_bind with (int64_back z).
    + by apply decIntField_reads, reads_tag_read, decInt64_encInt64.
    + unfold set_int, retype. rewrite i64_id by (by apply int64_back_i64). apply dreads_ret.
  - exists (encBool b []). split; [by apply appends_buffer|]. split; [done|]. intros n DO Hn.
    rewrite <- (app_nil_r (encBool _ _)). apply dreads_bind with (VBool b).
    + apply dreads_on_err, dreads_try. by apply (decodes_bool g b).
    + apply dreads_ret.
  - eexists. split; [apply appends_buffer; intros b; apply encFloat_app|].
    split; [by eapply Hnil, encFloat_head|]. intros n DO Hn.
    rewrite <- (app_nil_r (encFloat _ _)). apply dreads_bind with (DFloat64 (float_back w)).
    + by apply dreads_on_err, dreads_rd, reads_tag_read, decDouble_encFloat.
    + apply dreads_ret.
Qed.

(** ** Instances *)

(** The fields of a struct, each carried. *)
Inductive fields_portable : list (bytes * gotype) -> list value -> list value -> Prop :=
| fps_nil : fields_portable [] [] []
| fps_cons name ft fs v v' l l' :
    exported name = true -> field_portable ft v v' -> fields_portable fs l l' ->
    fields_portable ((name, ft) :: fs) (v :: l) (v' :: l').

(** The names under which the encoder announces the fields. *)
Definition lower_names (fs : list (bytes * gotype)) : list bytes := map (fun f => ToLower f.1) fs.

Lemma ToLower_not_exported name : exported (ToLower name) = false.
Proof.
  destruct name as [|c t]; [done|]. cbn. destruct ((65 <=? c) && (c <=? 90)) eqn:E; [|done].
  zify_bool. apply andb_false_iff. right. lia.
Qed.

(** A lower-case name finds its own field. *)
Lemma findField_lower fs1 name ft fs2 :
  Forall (fun f => exported f.1 = true) (fs1 ++ (name, ft) :: fs2) ->
  NoDup (lower_names (fs1 ++ (name, ft) :: fs2)) ->
  findField (ToLower name) (fs1 ++ (name, ft) :: fs2) = Some (length fs1).
Proof.
  intros He Hd. induction fs1 as [|[n1 t1] fs1 IH].
  - cbn. destruct (bool_decide (name = ToLower name)); [done|].
    by rewrite bool_decide_true by done.
  - cbn [app findField lower_names map fst] in *.
    apply Forall_cons in He as [He1 He]. apply NoDup_cons in Hd as [Hn Hd].
    rewrite bool_decide_false.
    2: { intros E. pose proof (ToLower_not_exported name). cbn in He1. congruence. }
    rewrite bool_decide_false.
    2: { intros E. apply Hn. rewrite <- E. unfold lower_names. rewrite map_app.
         apply elem_of_app. right. by left. }
    unfold lower_names in *. rewrite IH by done. done.
Qed.

Lemma fields_portable_exported fs l l' :
  fields_portable fs l l' -> Forall (fun f => exported f.1 = true) fs.
Proof. induction 1; by constructor. Qed.

(** The bytes of the fields and the loop that reads them. *)
Lemma fields_carried fs l l' :
  fields_portable fs l l' ->
  exists inp, appends (encFields Encode fs l) inp /\
    forall n DO idx nm fs1 dn,
      (length inp < n)%nat -> length dn = length fs1 ->
      Forall (fun f => exported f.1 = true) (fs1 ++ fs) -> NoDup (lower_names (fs1 ++ fs)) ->
      dreads (decFields g (Decode g n) DO idx nm (fs1 ++ fs) (lower_names fs)
                (dn ++ map (fun f => zero f.2) fs)) inp
        (VReflect idx (VStruct nm (fs1 ++ fs) (dn ++ l'))).
Proof.
  induction 1 as [|name ft fs v v' l l' He Hf Hfs (inp & Ha & IH)].
  { exists []. split; [apply appends_ret|]. intros. apply dreads_ret. }
  destruct (field_carried ft v v' Hf) as (i & Hai & Hne & Hd).
  exists (i ++ inp). split.
  - cbn [encFields]. rewrite He. by apply appends_bind.
  - intros n DO idx nm fs1 dn Hn Hl Hex Hnd. cbn [lower_names map decFields].
    rewrite findField_lower by done.
    rewrite list_lookup_middle by done. rewrite He. rewrite length_app in Hn.
    apply dreads_bind with (FSet v'); [apply Hd; lia|]. cbv zeta.
    apply dreads_bind_nil with tt; [apply dreads_set_ref|].
    rewrite <- Hl, insert_app_r_alt, Nat.sub_diag by done. cbn [insert list_insert].
    rewrite (cons_middle v' dn (map _ fs)), (cons_middle v' dn l'), !(app_assoc dn [v']).
    rewrite (cons_middle (name, ft) fs1 fs), (app_assoc fs1) in *.
    apply IH; [lia|rewrite !length_app; cbn; lia|done|done].
Qed.

(** The tags of objects select [decObject]. *)
Definition object_tag (tag : Z) : Prop :=
  tag = BC_OBJECT_DEF \/ BC_OBJECT_DIRECT <= tag <= BC_OBJECT_DIRECT + OBJECT_DIRECT_MAX.

Lemma Decode_step_object Dec DO d d1 tag :
  rd readByte d = (Ret tag, d1) -> object_tag tag -> Decode_step g Dec DO d = DO tag d1.
Proof.
  unfold object_tag. intros E Htag. unfold Decode_step, check. rewrite E.
  unfold is_int_tag, is_long_tag, is_string_tag, in_range, BC_END, BC_REF, BC_LIST_FIXED,
    BC_LIST_VARIABLE, BC_LIST_FIXED_UNTYPED, BC_LIST_VARIABLE_UNTYPED, BC_LIST_DIRECT,
    BC_LIST_DIRECT_UNTYPED, BC_MAP, BC_MAP_UNTYPED, BC_OBJECT, BC_OBJECT_DEF,
    BC_OBJECT_DIRECT, OBJECT_DIRECT_MAX, BC_BINARY_SHORT in *. hessian_const.
  repeat match goal with
  | |- context [if ?c then _ else _] =>
      first [ replace c with true by lia | replace c with false by lia ]
  end. done.
Qed.

Lemma decObject_step_direct Dec DO idx d :
  0 <= idx <= OBJECT_DIRECT_MAX ->
  decObject_step g Dec DO (idx + BC_OBJECT_DIRECT) d = decObject_of g Dec DO idx d.
Proof.
  intros H. unfold decObject_step, bind, rd, readTag, TAG_READ, in_range, BC_OBJECT_DEF,
    BC_OBJECT, BC_OBJECT_DIRECT, OBJECT_DIRECT_MAX in *.
  replace (negb (idx + 0x60 =? -1)) with true by lia. unfold ret at 1.
  rewrite u8_id by (unfold is_byte; lia).
  replace (idx + 0x60 =? 0x43) with false by lia. replace (idx + 0x60 =? 0x4f) with false by lia.
  replace ((0x60 <=? idx + 0x60) && (idx + 0x60 <=? 0x60 + 0x0f)) with true by lia.
  rewrite u8_id by (unfold is_byte; lia). rewrite Z.add_simpl_r. by destruct d.
Qed.

Lemma decObject_step_def Dec DO d :
  decObject_step g Dec DO BC_OBJECT_DEF d
  = check (trace decClassDef) (fun cls => appendClsDef cls ;;; Dec) d.
Proof. unfold decObject_step, bind, rd, readTag, ret. by destruct d. Qed.

Lemma rd_refs {A} (m : R A) d : d_refs (rd m d).2 = d_refs d.
Proof. unfold rd. by destruct (m (d_reader d)). Qed.

(** A class of this stream whose type is registered. *)
Lemma getStructDef_known idx d c s :
  d_classInfoList d !! idx = Some c -> getStructInfo g (c_javaName c) = Some s ->
  d_getStructDefByIndex g (Z.of_nat idx) d = (Ret (s_typ s, c), d).
Proof.
  intros Hc Hs. unfold d_getStructDefByIndex, index.
  destruct (_ <? 0) eqn:E; zify_bool; [lia|]. by rewrite Nat2Z.id, Hc, Hs.
Qed.

(** An instance of class number [idx], whose class and type are known. *)
Lemma instance_decodes fs l l' nm name s idx :
  fields_portable fs l l' -> NoDup (lower_names fs) ->
  getStructInfo g name = Some s -> s_typ s = TStruct nm fs -> ImplementsEnum (TStruct nm fs) = false ->
  Z.of_nat idx <= OBJECT_DIRECT_MAX ->
  exists inp, appends (on_buffer (write_object (Z.of_nat idx)) ;;; encFields Encode fs l) inp /\
    forall n d rest b,
      (length inp < n)%nat -> buf_ok (d_reader d) -> unread (d_reader d) = inp ++ rest ->
      d_classInfoList d !! idx = Some (mkClassInfo name (lower_names fs) b) ->
      exists d', Decode g n d = (Ret (VReflect (length (d_refs d)) (VStruct nm fs l'), None), d')
        /\ buf_ok (d_reader d') /\ unread (d_reader d') = rest
        /\ d_classInfoList d' = d_classInfoList d.
Proof.
  intros Hf Hnd Hs Ht He Hidx.
  destruct (fields_carried fs l l' Hf) as (inp & Ha & Hd).
  set (tag := Z.of_nat idx + BC_OBJECT_DIRECT).
  exists ([tag] ++ inp). split.
  { apply appends_bind; [|done]. apply appends_buffer. intros b. unfold write_object, encByte.
    unfold OBJECT_DIRECT_MAX in *. rewrite u8_id by (unfold is_byte; lia).
    destruct (_ <=? 0x0f) eqn:E; zify_bool; [|lia].
    rewrite u8_id by (unfold is_byte, BC_OBJECT_DIRECT; lia). done. }
  intros n d rest b Hn Hok Hr Hc. cbn [app length] in Hn, Hr. destruct n as [|n]; [lia|].
  destruct (dreads_rd _ _ _ (ReadByte_reads tag) d (inp ++ rest) Hok Hr)
    as (d1 & E1 & Hok1 & Hr1 & Hc1).
  pose proof (rd_refs ReadByte d) as Hrefs. rewrite E1 in Hrefs. cbn [snd] in Hrefs.
  rewrite <- Hrefs. rewrite <- Hc1 in *.
  change (Decode g (S n)) with
    (Decode_step g (Decode g n) (decObject_step g (Decode g n) (decObject g n))).
  rewrite (Decode_step_object _ _ _ _ _ E1) by (right; unfold tag; lia).
  unfold tag. rewrite decObject_step_direct by lia.
  unfold decObject_of, check. rewrite (getStructDef_known _ _ _ _ Hc Hs), Ht.
  cbn [fst snd]. rewrite He. unfold or_nil, result_of, decInstance, bind, appendRefs.
  cbn [c_fieldNameList].
  destruct (Hd n (decObject g n) (length (d_refs d1)) nm [] []) with
    (d := mkDecoder (d_reader d1) (d_refs d1 ++ [VReflect (length (d_refs d1))
            (VStruct nm fs (map (fun f => zero f.2) fs))]) (d_classInfoList d1))
    (rest := rest) as (d2 & E2 & Hok2 & Hr2 & Hc2);
    [lia|done|by apply (fields_portable_exported fs l l')|done|done|done|].
  cbn [app] in E2. rewrite E2. by exists d2.
Qed.

End Fields.

(** ** Objects in a stream *)

Section Objects.
Context `{GX : GxStrings} {GXok : GxStringsOk} `{App : Application}.
Variable g : POJORegistry.

(** A struct type of the application that the codec can carry. *)
Record carries (name nm : bytes) (fs : list (bytes * gotype)) : Prop := {
  ca_registered : registered g name nm fs;
  ca_pojo : exists f, JavaClassName (TStruct nm fs) = Some f
            /\ forall l, f (VStruct nm fs l) = name;
  ca_enum : ImplementsEnum (TStruct nm fs) = false;
  ca_name : text name;
  ca_fields : Forall text (lower_names fs);
  ca_distinct : NoDup (lower_names fs);
  ca_count : Z.of_nat (length fs) < 2 ^ 31
}.

(** The class as the encoder and as the decoder list it. *)
Definition enc_class (name : bytes) (fs : list (bytes * gotype)) : classInfo :=
  mkClassInfo name (lower_names fs) (class_def name (lower_names fs)).
Definition dec_class (name : bytes) (fs : list (bytes * gotype)) : classInfo :=
  mkClassInfo name (lower_names fs) [].

Lemma asPOJO_carries name nm fs l :
  carries name nm fs -> asPOJO (VStruct nm fs l) = Some name.
Proof.
  intros H. destruct (ca_pojo _ _ _ H) as (f & Hf & Hn).
  unfold asPOJO. cbn [TypeOf]. rewrite Hf. cbn. by rewrite Hn.
Qed.

(** The first object of its class: the definition, then the instance. *)
Lemma write_class_first name nm fs l e :
  carries name nm fs -> e_registry e = g -> find_class name (e_classInfoList e) = None ->
  write_class (VStruct nm fs l) name e =
    (Ret (Z.of_nat (length (e_classInfoList e))),
     mkEncoder (e_classInfoList e ++ [enc_class name fs])
       (e_buffer e ++ class_def name (lower_names fs)) g).
Proof.
  intros Hc Hg Hf. destruct (registered_lookups _ _ _ _ (ca_registered _ _ _ Hc))
    as (s & _ & _ & Hck & Hdef).
  unfold write_class. rewrite Hf. unfold typeof. cbn [TypeOf String]. rewrite Hg, Hck.
  rewrite Hdef. done.
Qed.

Lemma write_class_again name nm fs l e idx :
  find_class name (e_classInfoList e) = Some idx ->
  write_class (VStruct nm fs l) name e = (Ret (Z.of_nat idx), e).
Proof. intros Hf. unfold write_class. by rewrite Hf. Qed.

(** An object of a class already written: its bytes and what they decode to. *)
Lemma object_again name nm fs l l' idx :
  carries name nm fs -> fields_portable fs l l' -> Z.of_nat idx <= OBJECT_DIRECT_MAX ->
  exists inp,
    (forall e, find_class name (e_classInfoList e) = Some idx ->
       Encode (VStruct nm fs l) e
       = (Ret tt, mkEncoder (e_classInfoList e) (e_buffer e ++ inp) (e_registry e))) /\
    forall n d rest b,
      (length inp < n)%nat -> buf_ok (d_reader d) -> unread (d_reader d) = inp ++ rest ->
      d_classInfoList d !! idx = Some (mkClassInfo name (lower_names fs) b) ->
      exists d', Decode g n d = (Ret (VReflect (length (d_refs d)) (VStruct nm fs l'), None), d')
        /\ buf_ok (d_reader d') /\ unread (d_reader d') = rest
        /\ d_classInfoList d' = d_classInfoList d.
Proof.
  intros Hc Hf Hidx.
  destruct (registered_lookups _ _ _ _ (ca_registered _ _ _ Hc)) as (s & Ht & Hs & _).
  destruct (instance_decodes g fs l l' nm name s idx Hf (ca_distinct _ _ _ Hc) Hs Ht
    (ca_enum _ _ _ Hc) Hidx) as (inp & Ha & Hd).
  exists inp. split; [|exact Hd]. intros e Hfc. cbn [Encode]. unfold Encode_struct.
  rewrite (asPOJO_carries name) by done. unfold encStruct.
  unfold bind at 1. rewrite write_class_again with (idx := idx) by done. apply Ha.
Qed.

(** The first object of its class. *)
Lemma object_first name nm fs l l' k :
  carries name nm fs -> fields_portable fs l l' -> Z.of_nat k <= OBJECT_DIRECT_MAX ->
  exists inp, (exists inst, inp = class_def name (lower_names fs) ++ inst) /\
    (forall e, e_registry e = g -> find_class name (e_classInfoList e) = None ->
       length (e_classInfoList e) = k ->
       Encode (VStruct nm fs l) e
       = (Ret tt, mkEncoder (e_classInfoList e ++ [enc_class name fs]) (e_buffer e ++ inp) g)) /\
    forall n d rest,
      (length inp < n)%nat -> buf_ok (d_reader d) -> unread (d_reader d) = inp ++ rest ->
      length (d_classInfoList d) = k ->
      exists d', Decode g n d = (Ret (VReflect (length (d_refs d)) (VStruct nm fs l'), None), d')
        /\ buf_ok (d_reader d') /\ unread (d_reader d') = rest
        /\ d_classInfoList d' = d_classInfoList d ++ [dec_class name fs].
Proof.
  intros Hc Hf Hk.
  destruct (registered_lookups _ _ _ _ (ca_registered _ _ _ Hc)) as (s & Ht & Hs & _).
  destruct (instance_decodes g fs l l' nm name s k Hf (ca_distinct _ _ _ Hc) Hs Ht
    (ca_enum _ _ _ Hc) Hk) as (inp & Ha & Hd).
  assert (Hlen : Z.of_nat (length (lower_names fs)) < 2 ^ 31)
    by (unfold lower_names; rewrite length_map; apply (ca_count _ _ _ Hc)).
  pose proof (class_def_body name (lower_names fs) (ca_name _ _ _ Hc) (ca_fields _ _ _ Hc) Hlen) as Hdef.
  pose proof (decClassDef_reads name (lower_names fs) (ca_name _ _ _ Hc) (ca_fields _ _ _ Hc) Hlen)
    as Hcd.
  exists (class_def name (lower_names fs) ++ inp). split; [by eexists|]. split.
  - intros e Hg Hfc Hl. cbn [Encode]. unfold Encode_struct.
    rewrite (asPOJO_carries name) by done. unfold encStruct.
    unfold bind at 1. rewrite (write_class_first name) by done. rewrite Hl, Ha.
    cbn [e_classInfoList e_buffer e_registry]. by rewrite app_assoc.
  - intros n d rest Hn Hok Hr Hl. rewrite Hdef in Hn, Hr. cbn [app length] in Hn, Hr.
    rewrite length_app in Hn. destruct n as [|n]; [lia|].
    destruct (dreads_rd _ _ _ (ReadByte_reads BC_OBJECT_DEF) d
      ((class_body name (lower_names fs) ++ inp) ++ rest) Hok Hr) as (d1 & E1 & Hok1 & Hr1 & Hc1).
    pose proof (rd_refs ReadByte d) as Hrefs. rewrite E1 in Hrefs. cbn [snd] in Hrefs.
    rewrite <- app_assoc in Hr1.
    destruct (dreads_on_err _ (fun e => fail (Traced e)) _ _ Hcd d1 (inp ++ rest) Hok1 Hr1)
      as (d2 & E2 & Hok2 & Hr2 & Hc2). fold (trace decClassDef) in E2.
    assert (Hrefs2 : d_refs d2 = d_refs d).
    { pose proof (decClassDef_refs d1) as Hx. unfold trace, on_err in E2.
      destruct (decClassDef d1) as [[]]; simplify_eq/=; congruence. }
    destruct (Hd n (mkDecoder (d_reader d2) (d_refs d2) (d_classInfoList d2 ++ [dec_class name fs]))
      rest []) as (d3 & E3 & Hok3 & Hr3 & Hc3); [lia|done|done| |].
    { cbn [d_classInfoList]. rewrite Hc2, Hc1, <- Hl. by apply list_lookup_middle. }
    exists d3. split_and!; [|done|done|].
    + change (Decode g (S n)) with
        (Decode_step g (Decode g n) (decObject_step g (Decode g n) (decObject g n))).
      rewrite (Decode_step_object _ _ _ _ _ _ E1) by (by left).
      rewrite decObject_step_def. unfold check. rewrite E2.
      unfold bind, appendClsDef. fold (dec_class name fs). rewrite E3. cbn [d_refs]. by rewrite Hrefs2.
    + rewrite Hc3. cbn [d_classInfoList]. by rewrite Hc2, Hc1.
Qed.


End Objects.

Lemma text_ascii s : Forall (fun c => 0 <= c < 128) s -> Z.of_nat (length s) < 2 ^ 31 -> text s.
Proof.
  intros Hs Hl. exists s. split_and!; [|done|].
  - eapply Forall_impl; [exact Hs|]. intros c Hc. unfold scalar. cbv beta in Hc.
    unfold is_surrogate. lia.
  - clear Hl. induction Hs as [|c s Hc Hs IH]; [done|].
    change (encode_runes (c :: s)) with (EncodeRune c ++ encode_runes s).
    rewrite <- IH. unfold EncodeRune. by replace ((0 <=? c) && (c <=? 0x7f)) with true by lia.
Qed.

