(* ===== verification/HessianTotal.v ===== *)
(** * Termination of decoding

    Every reading function ends within its fuel, whatever the input, and never
    gives bytes back: a function that succeeds has read at least as many bytes
    as [steps] states.  The recursion of [Decode] is bounded by the bytes that
    are left, unless a field of a registered struct is an enum. *)
From S2P Require Import Prelude Utf8 Bufio Float64 HessianConst HessianPack HessianValue.
From S2P Require Import HessianEncode HessianDecode Pojo HessianEncoder HessianDecoder.

(** ** Functions that read and end *)

(** A state with an invariant and a number of bytes left. *)
Class Sized (St : Type) := { good : St -> Prop; size : St -> nat }.

#[export] Instance reader_sized : Sized reader :=
  {| good := buf_ok; size := fun r => length (unread r) |}.
#[export] Instance decoder_sized : Sized Decoder :=
  {| good := fun d => buf_ok (d_reader d); size := fun d => length (unread (d_reader d)) |}.

(** From a state with fewer than [n] bytes left, [m] ends, reads no less than
    nothing, and at least [k] bytes where it succeeds. *)
Definition steps `{Sz : Sized St} {A} (n k : nat) (m : ST St A) : Prop := forall s,
  good s -> (size s < n)%nat ->
  (m s).1 <> NoFuel /\ good (m s).2 /\ (size (m s).2 <= size s)%nat
  /\ forall a, (m s).1 = Ret a -> (size (m s).2 + k <= size s)%nat.

Section Steps.
Context `{Sz : Sized St}.

Lemma steps_ret {A} n (a : A) : steps n 0 (ret a).
Proof. intros s Hg Hs. split_and!; [done|done|done|]. intros ? _. cbn. lia. Qed.
Lemma steps_fail {A} n k e : steps n k (fail e : ST St A).
Proof. intros s Hg Hs. by split_and!. Qed.
Lemma steps_panic {A} n k : steps n k (panic : ST St A).
Proof. intros s Hg Hs. by split_and!. Qed.

Lemma steps_weaken {A} n k n' k' (m : ST St A) :
  steps n k m -> (n' <= n)%nat -> (k' <= k)%nat -> steps n' k' m.
Proof.
  intros Hm Hn Hk s Hg Hs. destruct (Hm s Hg) as (? & ? & ? & Hr); [lia|].
  split_and!; [done|done|done|]. intros a Ha. specialize (Hr a Ha). lia.
Qed.

(** One step further on, from a state with no more left. *)
Lemma steps_go {A} n k (m : ST St A) s s' x :
  steps n k m -> good s' -> (size s' < n)%nat -> (size s' <= size s)%nat -> x = m s' ->
  x.1 <> NoFuel /\ good x.2 /\ (size x.2 <= size s)%nat
  /\ forall a, x.1 = Ret a -> (size x.2 + k <= size s)%nat.
Proof.
  intros Hm Hg Hs Hle ->. destruct (Hm s' Hg Hs) as (? & ? & ? & Hr).
  split_and!; [done|done|lia|]. intros a Ha. specialize (Hr a Ha). lia.
Qed.

Lemma steps_bind {A B} n k1 k2 (m : ST St A) (f : A -> ST St B) :
  steps n k1 m -> (forall a, steps (n - k1) k2 (f a)) -> steps n (k1 + k2) (bind m f).
Proof.
  intros Hm Hf s Hg Hs. destruct (Hm s Hg Hs) as (Ho & Hg1 & Hs1 & Hr). unfold bind.
  destruct (m s) as [[a|e| |] s1] eqn:E; cbn in *; [|by split_and!..|done].
  specialize (Hr a eq_refl).
  destruct (Hf a s1 Hg1) as (? & ? & ? & Hr2); [lia|].
  split_and!; [done|done|lia|]. intros b Hb. specialize (Hr2 b Hb). lia.
Qed.

Lemma steps_bind0 {A B} n k (m : ST St A) (f : A -> ST St B) :
  steps n 0 m -> (forall a, steps n k (f a)) -> steps n k (bind m f).
Proof.
  intros Hm Hf. apply (steps_bind n 0 k); [done|]. intros a. by rewrite Nat.sub_0_r.
Qed.

Lemma steps_or_zero {A} n (z : A) (m : ST St A) : steps n 0 m -> steps n 0 (or_zero z m).
Proof.
  intros Hm s Hg Hs. destruct (Hm s Hg Hs) as (Ho & Hg1 & Hs1 & Hr). unfold or_zero.
  destruct (m s) as [[a|e| |] s1] eqn:E; cbn in *; split_and!; try done; intros; lia.
Qed.

Lemma steps_on_err {A} n k (m : ST St A) h :
  steps n k m -> (forall e, steps n k (h e)) -> steps n k (on_err m h).
Proof.
  intros Hm Hh s Hg Hs. destruct (Hm s Hg Hs) as (Ho & Hg1 & Hs1 & Hr). unfold on_err.
  destruct (m s) as [[a|e| |] s1] eqn:E; cbn in *; [by split_and!| |by split_and!|done].
  destruct (Hh e s1 Hg1) as (? & ? & ? & Hr2); [lia|].
  split_and!; [done|done|lia|]. intros b Hb. specialize (Hr2 b Hb). lia.
Qed.

Lemma steps_trace {A} n k (m : ST St A) : steps n k m -> steps n k (trace m).
Proof. intros Hm. apply steps_on_err; [done|]. intros e. apply steps_fail. Qed.

Lemma steps_if {A} n k (c : bool) (m1 m2 : ST St A) :
  steps n k m1 -> steps n k m2 -> steps n k (if c then m1 else m2).
Proof. by destruct c. Qed.

End Steps.

Create HintDb steps.
#[export] Hint Resolve steps_ret steps_fail steps_panic steps_bind0 steps_or_zero steps_trace
  steps_if : steps.

(** Walks through binds, tests and matches. *)
Ltac walk :=
  repeat first
    [ progress intros
    | progress cbv zeta
    | match goal with |- steps _ _ (match ?x with _ => _ end) => destruct x end
    | solve [auto 4 with steps]
    | apply steps_bind0
    | apply steps_or_zero
    | apply steps_trace ].

(** ** The reader *)

Lemma ReadByte_steps n : steps n 1 ReadByte.
Proof.
  intros r Hg Hs. unfold ReadByte.
  set (r0 := if (nbuf r =? 0)%nat then fill r else r).
  assert (Hu : unread r0 = unread r) by (unfold r0; by case_match).
  assert (Hok : buf_ok r0) by (unfold r0; case_match; auto with go).
  rewrite Hu. cbn [good size reader_sized] in *.
  destruct (unread r) as [|b t] eqn:E; cbn [fst snd]; rewrite ?Hu.
  - by split_and!.
  - unfold buf_ok in *. rewrite Hu in Hok. cbn [length unread nbuf] in *.
    split_and!; [done|lia|lia|]. intros; lia.
Qed.

(** What a [Read] returns is what it took off the stream. *)
Lemma Read_takes n r :
  buf_ok r ->
  (Read n r).1 <> NoFuel /\ (Read n r).1 <> Panic /\ buf_ok (Read n r).2
  /\ (forall e, (Read n r).1 = Fail e -> unread (Read n r).2 = unread r)
  /\ forall bs, (Read n r).1 = Ret bs ->
       (length (unread (Read n r).2) + length bs = length (unread r))%nat
       /\ (length bs <= n)%nat /\ ((0 < n)%nat -> (0 < length bs)%nat).
Proof.
  intros Hok. destruct (decide (n = 0%nat)) as [->|Hn].
  { cbn. split_and!; try done. intros bs [= <-]. cbn. lia. }
  destruct (decide (unread r = [])) as [He|Hne].
  { unfold Read. rewrite (proj2 (Nat.eqb_neq n 0)) by done.
    unfold buf_ok in Hok. rewrite He in *. cbn [length] in Hok.
    replace (nbuf r) with 0%nat by lia. cbn. unfold buf_ok. rewrite He. cbn.
    by split_and!. }
  destruct (Read_prefix n r) as (k & Hk & Hk' & ->); [lia|done|done|].
  cbn [fst snd]. split_and!; try done.
  - apply consume_ok. unfold buf_ok in *; cbn [unread nbuf]. case_match; lia.
  - intros bs [= <-]. cbn [consume unread]. rewrite length_drop, length_take. lia.
Qed.

Lemma Read_steps n k : steps n 0 (Read k).
Proof.
  intros r Hg Hs. destruct (Read_takes k r Hg) as (H1 & H2 & H3 & Hf & Hr).
  cbn [good size reader_sized] in *.
  destruct (Read k r) as [[bs|e| |] r']; cbn [fst snd] in *; try done.
  - destruct (Hr bs eq_refl) as (? & ?). split_and!; try done; [lia|]. intros; lia.
  - rewrite (Hf e eq_refl). by split_and!.
Qed.

Lemma readFull_steps fuel n k got :
  (k <= fuel)%nat -> steps n k (readFull_loop fuel k got).
Proof.
  revert k got. induction fuel as [|fuel IH]; intros k got Hf.
  { replace k with 0%nat by lia. apply steps_ret. }
  destruct k as [|k]; [apply steps_ret|].
  intros r Hg Hs. cbn [readFull_loop].
  destruct (Read_takes (S k) r Hg) as (H1 & H2 & H3 & Hfl & Hr).
  cbn [good size reader_sized] in *.
  destruct (Read (S k) r) as [[bs|e| |] r']; cbn [fst snd] in *; try done.
  - destruct (Hr bs eq_refl) as (Hl & Hle & Hpos). specialize (Hpos ltac:(lia)).
    destruct (IH (S k - length bs)%nat (got ++ bs) ltac:(lia) r' H3) as (? & ? & ? & Hr2);
      [cbn; lia|].
    cbn [good size reader_sized] in *. split_and!; try done; [lia|].
    intros a Ha. specialize (Hr2 a Ha). lia.
  - rewrite (Hfl e eq_refl). by split_and!.
Qed.

Lemma ReadFull_steps n k : steps n k (ReadFull k).
Proof. by apply readFull_steps. Qed.

Lemma ReadFull_steps0 n k : steps n 0 (ReadFull k).
Proof. apply (steps_weaken n k); [apply ReadFull_steps|lia|lia]. Qed.

Lemma ReadByte_steps0 n : steps n 0 ReadByte.
Proof. apply (steps_weaken n 1); [apply ReadByte_steps|lia|lia]. Qed.

Lemma Peek_steps n k : steps n 0 (Peek k).
Proof.
  intros r Hg Hs. unfold Peek.
  set (r0 := if (nbuf r <? k)%nat && (nbuf r <? bufsize)%nat then fill r else r).
  assert (Hu : unread r0 = unread r) by (unfold r0; by case_match).
  assert (Hok : buf_ok r0) by (unfold r0; case_match; auto with go).
  cbv zeta. cbn [good size reader_sized] in *. unfold buf_ok in *. rewrite Hu in Hok.
  repeat case_match; cbn [fst snd unread nbuf]; rewrite Hu;
    (split_and!; [done|done|lia|intros; lia]).
Qed.

Lemma ReadRune_steps n : steps n 1 ReadRune.
Proof.
  intros r Hg Hs. cbn [good size reader_sized] in *.
  destruct (decide (unread r = [])) as [He|Hne].
  - unfold ReadRune. cbv zeta. set (c := (nbuf r <? 4)%nat && _).
    set (r0 := if c then fill r else r).
    assert (Hu : unread r0 = unread r) by (unfold r0; by destruct c).
    assert (Hok : buf_ok r0) by (unfold r0; destruct c; auto with go).
    rewrite Hu, He, take_nil. cbn [fst snd]. rewrite Hu, He. by split_and!.
  - destruct (ReadRune_decode r Hg Hne) as (r' & -> & Hok' & Hr').
    cbn [fst snd]. rewrite Hr', length_drop.
    assert (0 < length (unread r))%nat by (destruct (unread r); [done|cbn; lia]).
    assert (0 < (DecodeRune (unread r)).2)%nat.
    { pose proof (DecodeRune_width (unread r) Hne). lia. }
    split_and!; [done|done|lia|]. intros; lia.
Qed.

#[export] Hint Resolve Read_steps ReadFull_steps0 ReadByte_steps0 Peek_steps : steps.

(** ** The scalar decoders *)

Lemma readTag_steps n flag : steps n 0 (readTag flag).
Proof. unfold readTag, readByte. walk. Qed.

Lemma read1_steps {A} n (k : Z -> R A) : (forall b, steps n 0 (k b)) -> steps n 0 (read1 k).
Proof. intros Hk. unfold read1. walk. Qed.
Lemma read2_steps {A} n (k : Z -> Z -> R A) :
  (forall b c, steps n 0 (k b c)) -> steps n 0 (read2 k).
Proof. intros Hk. unfold read2. walk. Qed.
#[export] Hint Resolve readTag_steps read1_steps read2_steps : steps.

Lemma decInt32_steps n flag : steps n 0 (decInt32 flag).
Proof. unfold decInt32, readByte. walk; apply read1_steps || apply read2_steps; walk. Qed.
#[export] Hint Resolve decInt32_steps : steps.

Lemma decInt64_steps n flag : steps n 0 (decInt64 flag).
Proof.
  unfold decInt64, readByte.
  apply steps_bind0; [apply readTag_steps|intros tag].
  repeat first [apply steps_if | apply read1_steps; intros | apply read2_steps; intros]; walk.
Qed.

Lemma decDate_steps n flag : steps n 0 (decDate flag).
Proof. unfold decDate, next. walk. Qed.

Lemma decDouble_steps n flag : steps n 0 (decDouble flag).
Proof.
  unfold decDouble, readByte.
  apply steps_bind0; [apply readTag_steps|intros tag].
  repeat first [apply steps_if | apply read1_steps; intros | apply read2_steps; intros]; walk.
Qed.

Lemma getStringLength_steps n tag : steps n 0 (getStringLength tag).
Proof.
  unfold getStringLength.
  repeat first [apply steps_if | apply read1_steps; intros | apply read2_steps; intros]; walk.
Qed.

Lemma getBinaryLength_steps n tag : steps n 0 (getBinaryLength tag).
Proof.
  unfold getBinaryLength.
  repeat first [apply steps_if | apply read1_steps; intros | apply read2_steps; intros]; walk.
Qed.
#[export] Hint Resolve decInt64_steps decDate_steps decDouble_steps getStringLength_steps
  getBinaryLength_steps : steps.

(** Reading the next chunk's tag either takes a byte or is the end. *)
Lemma next_tag r :
  buf_ok r ->
  exists b r', or_zero 0 readByte r = (Ret b, r') /\ buf_ok r'
    /\ (S (length (unread r')) = length (unread r)
        \/ (b = 0 /\ unread r' = [] /\ unread r = [])).
Proof.
  intros Hok. destruct (unread r) as [|b t] eqn:E.
  - unfold or_zero, readByte, ReadByte, buf_ok in *. rewrite E in Hok. cbn in Hok.
    replace (nbuf r =? 0)%nat with true by (symmetry; apply Nat.eqb_eq; lia).
    cbn [fill unread]. rewrite E. eexists _, _. split_and!; [done|by apply fill_ok|].
    right. by cbn.
  - destruct (ReadByte_reads b r t Hok) as (r' & Er & Hok' & Hr'); [by rewrite E|].
    exists b, r'. unfold or_zero, readByte. rewrite Er, Hr'.
    split_and!; [done|done|]. left. by cbn.
Qed.

Lemma steps_next_tag {A} n (k : Z -> R A) :
  (forall b, steps (n - 1) 0 (k b)) -> steps n 0 (k 0) ->
  steps n 0 (bind (or_zero 0 readByte) k).
Proof.
  intros Hk Hk0 r Hg Hs. destruct (next_tag r Hg) as (b & r' & E & Hok' & Hl).
  assert (Er : bind (or_zero 0 readByte) k r = k b r') by (unfold bind; by rewrite E).
  cbn [size reader_sized] in Hs. destruct Hl as [Hl|(-> & Hl & Hl')].
  - by apply (steps_go (n - 1) 0 (k b) r r'); [|done|cbn; lia..|].
  - apply (steps_go n 0 (k 0) r r'); [done|done| | |done]; cbn; rewrite Hl, ?Hl' in *; cbn in *; lia.
Qed.

(** A round of the string loop reads a rune or a chunk's tag; only the tag of
    the last chunk may be missing. *)
Lemma decString_loop_steps fuel n tag i length last runes :
  (n + (if last : bool then 1 else 2) <= fuel)%nat ->
  steps n 0 (decString_loop fuel tag i length last runes).
Proof.
  revert n i length last runes. induction fuel as [|fuel IH]; intros n i length last runes Hf.
  { destruct last; lia. }
  destruct (decide (n = 0%nat)) as [->|Hn0]; [intros s _ Hs; lia|].
  cbn [decString_loop]. destruct (i32 i =? length) eqn:Ei.
  - destruct last; [apply steps_ret|]. apply steps_next_tag.
    + intros b. apply steps_if; [|apply steps_ret]. apply steps_bind0; [walk|intros l].
      apply steps_if; [walk|]. apply IH. destruct (negb _); lia.
    + apply steps_if; [|apply steps_ret]. apply steps_bind0; [walk|intros l].
      apply steps_if; [walk|]. apply IH. cbn. lia.
  - apply (steps_weaken n (1 + 0)); [|lia|lia].
    apply steps_bind; [apply steps_trace, ReadRune_steps|]. intros rs.
    apply steps_if; [|apply steps_panic]. apply IH. destruct last; lia.
Qed.

(** Fuel taken from the state: what is left to read bounds it. *)
Lemma steps_fueled `{Sz : Sized St} {A} n k (m : nat -> ST St A) (f : St -> nat) :
  (forall s, good s -> (size s < n)%nat -> steps (S (size s)) k (m (f s))) ->
  steps n k (fun s => m (f s) s).
Proof. intros Hm s Hg Hs. apply (Hm s Hg Hs s Hg). lia. Qed.

Lemma decString_steps n flag : steps n 0 (decString flag).
Proof.
  unfold decString. apply steps_bind0; [apply readTag_steps|intros tag].
  repeat first [apply steps_if; [walk; fail|] | apply steps_if; [|walk; fail]].
  walk. apply (steps_fueled n 0 (fun fuel => decString_loop fuel _ _ _ _ _) decString_fuel).
  intros s _ _. apply decString_loop_steps. unfold decString_fuel. cbn. case_match; lia.
Qed.
#[export] Hint Resolve decString_steps : steps.

Lemma readBufByte_steps n : steps n 0 readBufByte.
Proof. apply read1_steps. walk. Qed.

Lemma readChunk_steps n tag data : tag = BC_BINARY_CHUNK -> steps n 1 (readChunk tag data).
Proof.
  intros ->. unfold readChunk.
  apply (steps_weaken n (2 + 0)); [|lia|lia]. apply steps_bind.
  - apply steps_trace. unfold getBinaryLength. cbn -[steps read2]. unfold read2.
    apply (steps_bind n 2 0); [apply steps_trace, ReadFull_steps|]. walk.
  - walk.
Qed.

Lemma readChunk_steps0 n tag data : steps n 0 (readChunk tag data).
Proof. unfold readChunk. walk. Qed.
#[export] Hint Resolve readBufByte_steps readChunk_steps0 : steps.

Lemma decBinary_loop_steps fuel n tag data :
  (n <= fuel)%nat -> (0 < n)%nat -> steps n 0 (decBinary_loop fuel tag data).
Proof.
  revert n tag data. induction fuel as [|fuel IH]; intros n tag data Hf Hn; [lia|].
  cbn [decBinary_loop]. destruct (tag =? BC_BINARY_CHUNK) eqn:E; zify_bool; [|walk].
  apply (steps_weaken n (1 + 0)); [|lia|lia].
  destruct (decide (n = 1%nat)) as [->|Hne].
  - apply steps_bind; [by apply readChunk_steps|]. intros c s Hg Hs. cbn in Hs. lia.
  - apply steps_bind; [by apply readChunk_steps|]. walk. apply IH; lia.
Qed.

Lemma decBinary_steps n flag : steps n 0 (decBinary flag).
Proof.
  unfold decBinary. apply steps_bind0; [walk|intros tag]. apply steps_if; [walk|].
  apply (steps_fueled n 0 (fun fuel => decBinary_loop fuel tag []) (fun r => S (length (unread r)))).
  intros s _ _. apply decBinary_loop_steps; cbn; lia.
Qed.
#[export] Hint Resolve decBinary_steps : steps.

(** ** The decoder's own steps *)

Lemma rd_steps {A} n k (m : R A) : steps n k m -> steps n k (rd m).
Proof.
  intros Hm d Hg Hs. destruct (Hm (d_reader d) Hg Hs) as (? & ? & ? & Hr). unfold rd.
  destruct (m (d_reader d)) as [o r]. by split_and!.
Qed.

Lemma appendRefs_steps n v : steps n 0 (appendRefs v).
Proof. intros d Hg Hs. split_and!; [done|done|done|]. intros; cbn; lia. Qed.
Lemma set_ref_steps n i v : steps n 0 (set_ref i v).
Proof. intros d Hg Hs. split_and!; [done|done|done|]. intros; cbn; lia. Qed.
Lemma appendClsDef_steps n c : steps n 0 (appendClsDef c).
Proof. intros d Hg Hs. split_and!; [done|done|done|]. intros; cbn; lia. Qed.

Lemma result_of_steps {A} n (f : A -> value) z (m : D A) : steps n 0 m -> steps n 0 (result_of f z m).
Proof.
  intros Hm d Hg Hs. destruct (Hm d Hg Hs) as (? & ? & ? & Hr). unfold result_of.
  destruct (m d) as [[a|e| |] d']; cbn in *; split_and!; try done; intros; lia.
Qed.

Lemma or_nil_steps n (m : D value) : steps n 0 m -> steps n 0 (or_nil m).
Proof. apply result_of_steps. Qed.

Lemma try_steps n (m : D result) : steps n 0 m -> steps n 0 (try m).
Proof. intros Hm. unfold try. walk. Qed.

(** [check] with what is known of the value. *)
Lemma check_steps {A} n k1 k2 (m : D A) (k : A -> D result) (P : A -> Prop) :
  steps n k1 m -> (forall d a d', m d = (Ret a, d') -> P a) ->
  (forall a, P a -> steps (n - k1) k2 (k a)) -> steps n 0 (check m k).
Proof.
  intros Hm HP Hk d Hg Hs. destruct (Hm d Hg Hs) as (? & Hg1 & ? & Hr). unfold check.
  destruct (m d) as [[a|e| |] d'] eqn:E; cbn in *; [|split_and!; try done; intros; lia..].
  specialize (Hr a eq_refl). specialize (HP d a d' E).
  destruct (Hk a HP d' Hg1) as (? & ? & ? & ?); [cbn; lia|]. cbn in *.
  split_and!; [done|done|lia|]. intros; lia.
Qed.

Lemma check_steps0 {A} n (m : D A) (k : A -> D result) :
  steps n 0 m -> (forall a, steps n 0 (k a)) -> steps n 0 (check m k).
Proof.
  intros Hm Hk. apply (check_steps n 0 0 _ _ (fun _ => True)); [done|done|].
  intros a _. by rewrite Nat.sub_0_r.
Qed.

#[export] Hint Resolve rd_steps appendRefs_steps set_ref_steps appendClsDef_steps
  result_of_steps or_nil_steps try_steps : steps.

Lemma decRef_steps n flag : steps n 0 (decRef flag).
Proof.
  unfold decRef. walk. intros d Hg Hs.
  repeat case_match; cbn; split_and!; try done; intros; lia.
Qed.

Lemma decFieldList_steps n k l : steps n 0 (decFieldList k l).
Proof. revert l. induction k as [|k IH]; intros l; cbn [decFieldList]; walk. Qed.

Lemma decClassDef_steps n : steps n 0 decClassDef.
Proof. unfold decClassDef. walk. apply decFieldList_steps. Qed.

Section DecodeSteps.
Context `{App : Application}.
Variable g : POJORegistry.

(** No field of a registered struct is an enum. *)
Definition no_enum_fields : Prop := forall gn s n fs,
  registry g !! gn = Some s -> s_typ s = TStruct n fs ->
  Forall (fun f => ImplementsEnum f.2 = false) fs.

Definition plain_type (t : gotype) : Prop := forall n fs,
  t = TStruct n fs -> Forall (fun f => ImplementsEnum f.2 = false) fs.

Lemma getStructDef_steps n idx : steps n 0 (d_getStructDefByIndex g idx).
Proof.
  intros d Hg Hs. unfold d_getStructDefByIndex.
  repeat case_match; cbn; split_and!; try done; intros; lia.
Qed.

Lemma getStructDef_plain idx d tc d' :
  no_enum_fields -> d_getStructDefByIndex g idx d = (Ret tc, d') -> plain_type tc.1.
Proof.
  intros Hno. unfold d_getStructDefByIndex, getStructInfo.
  destruct (index _ idx) as [cls|]; [|done].
  destruct (j2g g !! _) as [gn|]; [|done].
  destruct (registry g !! gn) as [s|] eqn:E; [|done].
  intros [= <- <-] n fs Ht. exact (Hno gn s n fs E Ht).
Qed.

Lemma decType_steps n : steps n 0 (decType g).
Proof. unfold decType. walk. apply getStructDef_steps. Qed.

Lemma decEnum_steps n name : steps n 0 (decEnum g name).
Proof. unfold decEnum, ok. walk. Qed.

#[local] Hint Resolve getStructDef_steps decType_steps decEnum_steps decRef_steps
  decClassDef_steps : steps.

Section Step.
Variable Dec : D result.
Variable DO : Z -> D result.

(** What the recursive calls are assumed to do below [n] bytes. *)
Definition calls_ok (n : nat) : Prop :=
  steps n 0 Dec /\ steps n 1 (try Dec) /\ steps n 0 (DO TAG_READ).

Lemma calls_ok_le n n' : calls_ok n -> (n' <= n)%nat -> calls_ok n'.
Proof. intros (? & ? & ?) ?. split_and!; by eapply steps_weaken. Qed.

(** A call that returns no error has read a byte. *)
Lemma steps_call {A} n k (f : result -> D A) :
  calls_ok n -> (forall v, steps (n - 1) k (f (v, None))) ->
  (forall v e, steps n k (f (v, Some e))) -> steps n k (bind Dec f).
Proof.
  intros (H0 & H1 & _) Hv He d Hg Hs.
  destruct (H0 d Hg Hs) as (? & Hg1 & Hl & _).
  destruct (H1 d Hg Hs) as (_ & _ & _ & Hr). unfold try, bind in *.
  destruct (Dec d) as [[[v [e|]]|e| |] d']; cbn in *; try by split_and!.
  - refine (steps_go n k (f (v, Some e)) d d' _ (He v e) Hg1 _ Hl eq_refl). cbn. lia.
  - specialize (Hr v eq_refl).
    refine (steps_go (n - 1) k (f (v, None)) d d' _ (Hv v) Hg1 _ Hl eq_refl). cbn. lia.
Qed.

Lemma decElems_steps n c j idx arr : calls_ok n -> steps n 0 (decElems Dec c j idx arr).
Proof.
  intros (H0 & _). revert j arr. induction c as [|c IH]; intros j arr; [apply steps_ret|].
  cbn [decElems]. walk.
Qed.

Lemma decList_steps n flag : calls_ok n -> steps n 0 (decList g Dec flag).
Proof.
  intros Hc. unfold decList.
  assert (Ha : forall size, steps n 0 (decArr Dec size)).
  { intros size. unfold decArr. walk. by apply decElems_steps. }
  unfold readByte. walk.
Qed.

Lemma peekByte_steps n : steps n 0 peekByte.
Proof. unfold peekByte, peek. walk. Qed.
#[local] Hint Resolve peekByte_steps : steps.

Lemma decEntries_steps fuel n stop idx m :
  calls_ok n -> (n <= fuel)%nat -> steps n 0 (decEntries Dec fuel stop idx m).
Proof.
  revert n m. induction fuel as [|fuel IH]; intros n m Hc Hf;
    [intros s _ Hs; lia|].
  cbn [decEntries]. apply steps_bind0; [walk|intros b]. apply steps_if; [walk|].
  destruct (decide (n = 0%nat)) as [->|Hn]; [intros s _ Hs; lia|].
  apply steps_call; [done| |].
  - intros k. cbn [snd fst].
    assert (Hc' : calls_ok (n - 1)) by (apply (calls_ok_le n); [done|lia]).
    pose proof Hc' as (H0' & _). apply steps_bind0; [walk|intros v].
    destruct (hashable k); [|apply steps_panic]. cbv zeta.
    apply steps_bind0; [walk|intros _]. apply IH; [done|lia].
  - intros k e. cbn [snd]. destruct e; walk.
Qed.

Lemma decSetters_steps fuel n idx inst :
  calls_ok n -> (n <= fuel)%nat -> steps n 0 (decSetters Dec fuel idx inst).
Proof.
  revert n inst. induction fuel as [|fuel IH]; intros n inst Hc Hf;
    [intros s _ Hs; lia|].
  cbn [decSetters]. apply steps_bind0; [walk|intros b]. apply steps_if; [walk|].
  destruct (decide (n = 0%nat)) as [->|Hn]; [intros s _ Hs; lia|].
  pose proof Hc as (_ & H1 & _).
  assert (Hc' : calls_ok (n - 1)) by (apply (calls_ok_le n); [done|lia]).
  pose proof Hc' as (H0' & _).
  apply (steps_weaken n (1 + 0)); [|lia|lia]. apply steps_bind; [done|intros key].
  apply steps_bind0; [walk|intros v].
  walk; apply IH; (done || lia).
Qed.

(** The loops are given one unit of fuel for each byte left and one more. *)
Lemma steps_loop {A} n k (m : nat -> D A) :
  calls_ok n ->
  (forall n' fuel, calls_ok n' -> (n' <= fuel)%nat -> steps n' k (m fuel)) ->
  steps n k (fun d => m (loop_fuel d) d).
Proof.
  intros Hc Hm. apply (steps_fueled n k m loop_fuel). intros s _ Hs. apply Hm.
  - by apply (calls_ok_le n).
  - done.
Qed.

Lemma decMap_steps n flag : calls_ok n -> steps n 0 (decMap g Dec flag).
Proof.
  intros Hc. unfold decMap, readByte.
  assert (He : forall stop idx, steps n 0 (fun d => decEntries Dec (loop_fuel d) stop idx [] d)).
  { intros stop idx. apply (steps_loop n 0 (fun fuel => decEntries Dec fuel stop idx [])); [done|].
    intros. by apply decEntries_steps. }
  assert (Hs : forall idx inst, steps n 0 (fun d => decSetters Dec (loop_fuel d) idx inst d)).
  { intros idx inst. apply (steps_loop n 0 (fun fuel => decSetters Dec fuel idx inst)); [done|].
    intros. by apply decSetters_steps. }
  walk.
Qed.

Lemma decByValue_loop_steps fuel n kt vt m :
  calls_ok n -> (n <= fuel)%nat -> steps n 0 (decByValue_loop Dec fuel kt vt m).
Proof.
  revert n m. induction fuel as [|fuel IH]; intros n m Hc Hf; [intros s _ Hs; lia|].
  cbn [decByValue_loop].
  destruct (decide (n = 0%nat)) as [->|Hn]; [intros s _ Hs; lia|].
  apply steps_call; [done| |].
  - intros k. assert (Hc' : calls_ok (n - 1)) by (apply (calls_ok_le n); [done|lia]).
    pose proof Hc' as (H0' & _).
    assert (steps (n - 1) 0 (vl <- Dec ;;
      match SetMapIndex kt vt k vl.1 m with
      | Some m => decByValue_loop Dec fuel kt vt m
      | None => panic
      end)).
    { apply steps_bind0; [done|intros vl]. case_match; [|apply steps_panic].
      apply IH; [done|lia]. }
    destruct k; (done || apply steps_ret).
  - intros k e. destruct k, e; walk.
Qed.

Lemma decMapByValue_steps n ft : calls_ok n -> steps n 0 (decMapByValue Dec ft).
Proof.
  intros Hc. unfold decMapByValue.
  assert (He : forall kt vt, steps n 0 (fun d => decByValue_loop Dec (loop_fuel d) kt vt [] d)).
  { intros kt vt. apply (steps_loop n 0 (fun fuel => decByValue_loop Dec fuel kt vt [])); [done|].
    intros. by apply decByValue_loop_steps. }
  walk.
Qed.

Lemma decIntField_steps n dec ft :
  calls_ok n -> (forall flag, steps n 0 (dec flag)) -> ImplementsEnum ft = false ->
  steps n 0 (decIntField Dec dec ft).
Proof.
  intros Hc Hd Hft d Hg Hs. destruct (rd_steps n 0 _ (Hd TAG_READ) d Hg Hs) as (? & ? & ? & ?).
  unfold decIntField. rewrite Hft.
  destruct (rd (dec TAG_READ) d) as [[z|e| |] d']; cbn in *; by split_and!.
Qed.

Lemma decField_steps n ft :
  calls_ok n -> ImplementsEnum ft = false -> steps n 0 (decField g Dec DO ft).
Proof.
  intros Hc Hft. pose proof Hc as (H0 & _ & H2).
  pose proof (decList_steps n TAG_READ Hc). pose proof (decMapByValue_steps n ft Hc).
  assert (forall dec, (forall flag, steps n 0 (dec flag)) -> steps n 0 (decIntField Dec dec ft))
    by (intros; by apply decIntField_steps).
  unfold decField. destruct (Kind ft); walk; auto with steps.
Qed.

Lemma decFields_steps n idx nm fs names vals :
  calls_ok n -> Forall (fun f => ImplementsEnum f.2 = false) fs ->
  steps n 0 (decFields g Dec DO idx nm fs names vals).
Proof.
  intros Hc Hfs. revert vals. induction names as [|f names IH]; intros vals; [apply steps_ret|].
  cbn [decFields]. destruct (findField f fs) as [i|]; [|apply IH].
  destruct (fs !! i) as [[fname ft]|] eqn:E; [|apply steps_panic].
  assert (ImplementsEnum ft = false) by (by apply (proj1 (Forall_lookup _ _) Hfs) in E).
  apply steps_if; [|apply steps_fail]. apply steps_bind0; [by apply decField_steps|].
  intros r. destruct r; walk; apply IH.
Qed.

Lemma decInstance_steps n typ cls :
  calls_ok n -> plain_type typ -> steps n 0 (decInstance g Dec DO typ cls).
Proof.
  intros Hc Ht. unfold decInstance. destruct typ; try apply steps_fail.
  intros d Hg Hs. cbv zeta.
  apply (steps_bind0 n 0 _ _ (appendRefs_steps _ _)
    (fun _ => decFields_steps n (length (d_refs d)) _ _ _ _ Hc (Ht _ _ eq_refl)) d Hg Hs).
Qed.

Lemma decObject_of_steps n idx :
  no_enum_fields -> calls_ok n -> steps n 0 (decObject_of g Dec DO idx).
Proof.
  intros Hno Hc. apply (check_steps n 0 0 _ _ (fun tc => plain_type tc.1)).
  - apply getStructDef_steps.
  - intros d tc d' E. by eapply getStructDef_plain.
  - intros tc Ht. rewrite Nat.sub_0_r. apply steps_if; [walk|].
    by apply or_nil_steps, decInstance_steps.
Qed.

(** After its tag, [decObject] needs what the calls promise. *)
Definition decObject_tail (tag : Z) : D result :=
  if tag =? BC_OBJECT_DEF then check (trace decClassDef) (fun cls => appendClsDef cls ;;; Dec)
  else if tag =? BC_OBJECT then check (rd (decInt32 TAG_READ)) (decObject_of g Dec DO)
  else if in_range BC_OBJECT_DIRECT tag (BC_OBJECT_DIRECT + OBJECT_DIRECT_MAX) then
    decObject_of g Dec DO (u8 (tag - BC_OBJECT_DIRECT))
  else ret (VNil, Some (Errorf "decObject illegal object type tag:%+v")).

Lemma decObject_tail_steps n tag :
  no_enum_fields -> calls_ok n -> steps n 0 (decObject_tail tag).
Proof.
  intros Hno Hc. pose proof Hc as (H0 & _). unfold decObject_tail.
  apply steps_if; [apply check_steps0; walk|].
  apply steps_if; [apply check_steps0; [walk|]; intros; by apply decObject_of_steps|].
  apply steps_if; [by apply decObject_of_steps|walk].
Qed.

End Step.
(** ** The recursion *)

Lemma len_steps n : steps n 0 len.
Proof.
  unfold len, peek. walk. intros r Hg Hs. cbn. split_and!; [done|done|lia|]. intros; lia.
Qed.


Lemma decObject_given n Dec DO tag :
  no_enum_fields -> calls_ok Dec DO n -> steps n 0 (decObject_step g Dec DO tag).
Proof.
  intros Hno Hc. apply steps_bind0; [walk|intros t].
  exact (decObject_tail_steps Dec DO n t Hno Hc).
Qed.

(** With the tag still to be read, one more byte is in reach. *)
Lemma decObject_read n Dec DO :
  no_enum_fields -> calls_ok Dec DO n -> steps (S n) 0 (decObject_step g Dec DO TAG_READ).
Proof.
  intros Hno Hc d Hg Hs.
  assert (Htail : forall t, steps n 0 (decObject_tail Dec DO t))
    by (intros; by apply decObject_tail_steps).
  destruct (next_tag (d_reader d) Hg) as (b & r' & E & Hok' & Hl).
  set (d' := mkDecoder r' (d_refs d) (d_classInfoList d)).
  assert (Er : decObject_step g Dec DO TAG_READ d = decObject_tail Dec DO b d').
  { unfold decObject_step, bind at 1, rd at 1.
    change (readTag TAG_READ) with (or_zero 0 readByte). by rewrite E. }
  cbn [size decoder_sized] in Hs. destruct Hl as [Hl|(-> & Hl & Hl')].
  - refine (steps_go n 0 _ d d' _ (Htail b) Hok' _ _ Er); cbn; lia.
  - rewrite Er. cbn. rewrite Hl, Hl'. by split_and!.
Qed.

Lemma Decode_step_steps n Dec DO :
  calls_ok Dec DO n -> (forall tag, steps n 0 (DO tag)) ->
  steps (S n) 0 (Decode_step g Dec DO) /\ steps (S n) 1 (try (Decode_step g Dec DO)).
Proof.
  intros Hc HDO. unfold Decode_step.
  set (k := fun tag => if (tag =? BC_END) || (tag =? BC_NULL) then _ else _).
  assert (Hk : forall tag, steps n 0 (k tag)).
  { intros tag. subst k. pose proof (decList_steps Dec DO n tag Hc).
    pose proof (decMap_steps Dec DO n tag Hc). cbv beta. unfold ok.
    repeat (apply steps_if; [auto 6 with steps|]).
    apply steps_bind0; [apply rd_steps, steps_bind0; [apply len_steps|unfold peek; walk]|walk].
    }
  split.
  - apply (check_steps (S n) 1 0 _ _ (fun _ => True)); [|done|].
    + apply rd_steps, ReadByte_steps.
    + intros tag _. replace (S n - 1)%nat with n by lia. apply Hk.
  - intros d Hg Hs. unfold try, bind, check, rd, readByte.
    destruct (ReadByte_steps (S n) (d_reader d) Hg Hs) as (? & Hg' & Hl & Hr).
    destruct (ReadByte (d_reader d)) as [[tag|e| |] r']; cbn [fst snd] in *; try done.
    specialize (Hr tag eq_refl). cbn in Hr, Hs.
    set (d' := mkDecoder r' (d_refs d) (d_classInfoList d)).
    destruct (Hk tag d' Hg') as (Ho & Hg2 & Hl2 & _); [cbn; lia|].
    destruct (k tag d') as [[[v [e|]]|e| |] d2]; cbn in *; split_and!; try done; intros; lia.
Qed.

Lemma calls_ok_fuel n :
  no_enum_fields -> calls_ok (Decode g n) (decObject g n) n.
Proof.
  intros Hno. induction n as [|n IH].
  { split_and!; intros d Hg Hs; lia. }
  destruct (Decode_step_steps n (Decode g n) (decObject_step g (Decode g n) (decObject g n)))
    as [H0 H1].
  - destruct IH as (? & ? & ?). split_and!; [done|done|].
    apply decObject_given; [done|by split_and!].
  - intros tag. by apply decObject_given.
  - split_and!; [exact H0|exact H1|]. by apply decObject_read.
Qed.

(** C21. [Decode] ends on every input, with a value, an error or a panic: the
    fuel [decode_fuel], one unit for each byte and one more, is enough where no
    field of a registered struct is an enum. *)
Theorem Decode_terminates d :
  no_enum_fields -> buf_ok (d_reader d) -> (Decode g (decode_fuel d) d).1 <> NoFuel.
Proof.
  intros Hno Hok. destruct (calls_ok_fuel (decode_fuel d) Hno) as (H & _).
  apply (H d Hok). unfold decode_fuel; cbn; lia.
Qed.

End DecodeSteps.

(** A truncated map, at whose end [peekByte] panics. *)
Lemma Decode_terminates_witness :
  (@Decode sample_app (@sample_registry plain_Slice)
    (decode_fuel (NewDecoder [0x48; 0x91; 0x92])) (NewDecoder [0x48; 0x91; 0x92])).1 <> NoFuel.
Proof.
  apply (@Decode_terminates sample_app); [|apply NewReader_ok].
  intros gn s n fs _ _. by apply Forall_forall.
Defined.
