(* ===== verification/HessianRequest.v ===== *)
(** * Requests

    [codec/hessian/request.go]: the 16-byte dubbo header and the body of a
    request, and the type descriptor of its arguments.  [codec.Message] is
    from [codec/codec.go]. *)
From S2P Require Import Prelude Utf8 HessianConst HessianPack HessianValue HessianEncode.
From S2P Require Import HessianDecode Pojo HessianEncoder.

(** ** [codec.go] *)

Definition MT_Error : Z := 0x01.
Definition MT_Request : Z := 0x02.
Definition MT_Response : Z := 0x04.
Definition MT_Heartbeat : Z := 0x08.

Definition ErrHeaderNotEnough : goerr := Errorf "header buffer too short".
Definition ErrBodyNotEnough : goerr := Errorf "body buffer too short".
Definition ErrJavaException : goerr := Errorf "got java exception".
Definition ErrIllegalPackage : goerr := Errorf "illegal package!".

(** A [time.Duration] is in nanoseconds. *)
Record Message := mkMessage {
  ID : Z;
  Version : bytes;
  Type_ : Z;
  ServicePath : bytes;
  Target : bytes;
  Method : bytes;
  Timeout : Z;
  Error : bytes;
  BodyLen : Z
}.

(** ** The header *)

Definition HEADER_LENGTH : nat := 16.
Definition MAGIC : Z := 0xdabb.
Definition MAGIC_HIGH : Z := 0xda.
Definition MAGIC_LOW : Z := 0xbb.
Definition FLAG_REQUEST : Z := 0x80.
Definition FLAG_TWOWAY : Z := 0x40.
Definition FLAG_EVENT : Z := 0x20.
Definition SERIAL_MASK : Z := 0x1f.
Definition DUBBO_VERSION : bytes := lit "2.5.4".
Definition DEFAULT_LEN : Z := 8388608.

Definition DubboHeader : bytes :=
  [MAGIC_HIGH; MAGIC_LOW; Z.lor FLAG_REQUEST FLAG_TWOWAY] ++ replicate 13 0.
Definition DubboHeartbeatHeader : bytes :=
  [MAGIC_HIGH; MAGIC_LOW; Z.lor (Z.lor (Z.lor FLAG_REQUEST FLAG_TWOWAY) FLAG_EVENT) 0x0f]
    ++ replicate 13 0.

(** [copy(b[off:], p)] of bytes that fit. *)
Definition put_at (off : nat) (p b : bytes) : bytes :=
  take off b ++ p ++ drop (off + length p) b.

Definition request_header (hb : bool) (id : Z) : bytes :=
  let byteArray := if hb then DubboHeartbeatHeader else DubboHeader in
  let byteArray :=
    <[2%nat := Z.lor (default 0 (byteArray !! 2%nat)) (u8 (Z.land id SERIAL_MASK))]> byteArray in
  put_at 4 (PutUint64 (u64 id)) byteArray.

(** ** Argument types *)

Definition getArgType (v : value) : bytes :=
  lit match v with
      | VNil => "V"
      | VBool _ => "Z"
      | VInt Uint8 _ => "B"
      | VInt Int8 _ => "B"
      | VInt Int16 _ => "S"
      | VInt Uint16 _ => "C"
      | VInt Int _ => "I"
      | VInt Int32 _ => "I"
      | VInt Int64 _ => "J"
      | VTime _ => "java.util.Date"
      | VFloat32 _ => "F"
      | VFloat64 _ => "D"
      | VString _ => "java.lang.String"
      | VBytes _ | VNilSlice (TInt Uint8) => "[B"
      | VPtr _ _ | VNilPtr _ | VRef _ => "java.lang.Object"
      | _ =>
          match option_map Kind (TypeOf v) with
          | Some KStruct => "java.lang.Object"
          | Some KSlice | Some KArray => "java.util.List"
          | Some KMap => "java.util.Map"
          | _ => ""
          end
      end.

(** [strings.Contains(typ, ".")] and [strings.Replace(typ, ".", "/", -1)]. *)
Definition dot : Z := 46.
Definition slash : Z := 47.
Definition Contains_dot (s : bytes) : bool := existsb (Z.eqb dot) s.
Definition Replace_dot (s : bytes) : bytes := map (fun c => if c =? dot then slash else c) s.

Fixpoint getArgsTypeList (args : list value) : option bytes :=
  match args with
  | [] => Some []
  | v :: args =>
      match getArgType v with
      | [] => None
      | typ =>
          let t := if negb (Contains_dot typ) then typ
                   else lit "L" ++ Replace_dot typ ++ lit ";" in
          option_map (fun types => t ++ types) (getArgsTypeList args)
      end
  end.

(** ** The package *)

Section Pack.
Context `{GX : GxStrings} `{App : Application}.

(** The order in which [range] visits the entries of a map. *)
Variable range : list (value * value) -> list (value * value).

(** [encoder.Encode(v)] as a statement: its error is dropped. *)
Definition Encode_ (v : value) : E unit := or_zero tt (Encode v).

Fixpoint Encode_all (vs : list value) : E unit :=
  match vs with
  | [] => ret tt
  | v :: vs => Encode_ v ;;; Encode_all vs
  end.

(** The local variable [version] is never assigned, so that [VERSION_KEY] is
    never set. *)
Definition serviceParams (m : Message) : list (value * value) :=
  [(VString PATH_KEY, VString (ServicePath m)); (VString INTERFACE_KEY, VString (Target m))]
  ++ if Timeout m =? 0 then []
     else [(VString TIMEOUT_KEY, VString (Itoa (Z.quot (Timeout m) 1000000)))].

Definition request_body (m : Message) (args : list value) : E unit :=
  Encode_ (VString DUBBO_VERSION) ;;;
  Encode_ (VString (Target m)) ;;;
  Encode_ (VString (Version m)) ;;;
  Encode_ (VString (Method m)) ;;;
  match getArgsTypeList args with
  | None => fail (Traced (Errorf "cat not get arg %#v type"))
  | Some types =>
      Encode_ (VString types) ;;;
      Encode_all args ;;;
      Encode_ (VMap TString TString (range (serviceParams m)))
  end.

(** The bytes given to [w.Write]. *)
Definition pack_bytes (m : Message) (args : list value) : E bytes :=
  let hb := Type_ m =? MT_Heartbeat in
  Append (request_header hb (ID m)) ;;;
  (if hb then Encode_ VNil else request_body m args) ;;;
  byteArray <- Buffer ;;
  let pkgLen := Z.of_nat (length byteArray) in
  if DEFAULT_LEN <? pkgLen then fail (Errorf "Data length %d too large, max payload %d")
  else ret (put_at 12 (PutUint32 (u32 (pkgLen - Z.of_nat HEADER_LENGTH))) byteArray).

(** [a.([]interface{})]. *)
Definition as_args (a : value) : option (list value) :=
  match a with
  | VSlice TIface l => Some l
  | VNilSlice TIface => Some []
  | _ => None
  end.

(** [w] is the writer: the number of bytes it takes and its error.  The result
    is what was written. *)
Definition packRequest (m : Message) (a : value) (w : bytes -> nat * option goerr) : E bytes :=
  match as_args a with
  | None => fail (Errorf "@b is not of type: []interface{}")
  | Some args =>
      pkg <- pack_bytes m args ;;
      match w pkg with
      | (_, Some e) => fail (Traced e)
      | (n, None) => if (n =? length pkg)%nat then ret pkg
                     else fail (Errorf "@w.Write(buflen:%d) = %d, nil")
      end
  end.

End Pack.
