(* ===== verification/HessianResponse.v ===== *)
(** * Responses

    [codec/hessian/response.go]: the header of a response, and the assignment
    of a decoded response to the variable the caller supplied. *)
From S2P Require Import Prelude Utf8 Bufio HessianConst HessianPack HessianValue HessianEncode.
From S2P Require Import HessianDecode Pojo HessianEncoder HessianDecoder HessianRequest.

Definition Response_OK : Z := 20.
Definition Response_CLIENT_TIMEOUT : Z := 30.
Definition Response_SERVER_TIMEOUT : Z := 31.
Definition Response_BAD_REQUEST : Z := 40.
Definition Response_BAD_RESPONSE : Z := 50.
Definition Response_SERVICE_NOT_FOUND : Z := 60.
Definition Response_SERVICE_ERROR : Z := 70.
Definition Response_SERVER_ERROR : Z := 80.
Definition Response_CLIENT_ERROR : Z := 90.

Definition RESPONSE_WITH_EXCEPTION : Z := 0.
Definition RESPONSE_VALUE : Z := 1.
Definition RESPONSE_NULL_VALUE : Z := 2.

(** ** The header *)

Definition or_type (t : Z) (m : Message) : Message :=
  mkMessage (ID m) (Version m) (Z.lor (Type_ m) t) (ServicePath m) (Target m) (Method m)
    (Timeout m) (Error m) (BodyLen m).

Definition set_header (id len : Z) (m : Message) : Message :=
  mkMessage id (Version m) (Type_ m) (ServicePath m) (Target m) (Method m)
    (Timeout m) (Error m) len.

(** The message is changed even where an error is returned. *)
Definition unpackResponseHeaer (buf : bytes) : ST Message unit := fun m =>
  match buf with
  | b0 :: b1 :: b2 :: b3 :: rest =>
      if negb (b0 =? MAGIC_HIGH) && negb (b1 =? MAGIC_LOW) then (Fail ErrIllegalPackage, m)
      else if Z.land b2 SERIAL_MASK =? 0 then (Fail (Errorf "serialization ID:%v"), m)
      else
        let m := if negb (Z.land b2 FLAG_EVENT =? 0) then or_type MT_Heartbeat m else m in
        let m := if negb (Z.land b2 FLAG_TWOWAY =? 0) then or_type MT_Response m else m in
        if negb (Z.land b2 FLAG_REQUEST =? 0) then (Fail (Errorf "response flag:%v"), m)
        else
          match HessianPack.Uint64 rest, HessianPack.Uint32 (drop 8 rest) with
          | Some id, Some len =>
              let m := set_header (i64 id) len m in
              if len <? 0 then (Fail ErrIllegalPackage, m)
              else if negb (b3 =? Response_OK) then (Fail ErrJavaException, m)
              else (Ret tt, m)
          | _, _ => (Panic, m)
          end
  | _ => (Panic, m)
  end.

(** ** The value *)

(** The state is the caller's [out], a pointer. *)
Abbreviation Out := (ST value).

(** Through the pointers to what is assigned: its type, and [out] with a new
    value there. *)
Fixpoint pointee (t : gotype) : gotype := match t with TPtr t => pointee t | t => t end.

Fixpoint target (out : value) : option gotype :=
  match out with
  | VPtr (TPtr _) v => target v
  | VPtr t _ => Some t
  | _ => None
  end.

Fixpoint assign (x out : value) : value :=
  match out with
  | VPtr (TPtr t) v => VPtr (TPtr t) (assign x v)
  | VPtr t _ => VPtr t x
  | out => out
  end.

Definition set_target (x : value) : Out unit := fun out => (Ret tt, assign x out).

(** [v.Elem().Set(x)] of a pointer [v], not looking through further pointers. *)
Definition elem_set (x : value) : Out unit := fun out =>
  match out with
  | VPtr t _ =>
      match set_value t x with
      | Some x => (Ret tt, VPtr t x)
      | None => (Panic, out)
      end
  | _ => (Panic, out)
  end.

Definition lift_opt {A} (o : option A) : Out A :=
  match o with Some a => ret a | None => panic end.

(** The element of a list as what is assigned to one of type [t]: the struct
    of the [reflect.Value] that the decoder made, or else the [reflect.Value]
    of the element itself. *)
Definition slice_elem (t : gotype) (v : value) : option value :=
  match Kind t with
  | KStruct => match v with VReflect _ s => Some s | VValueOf s => Some s | _ => None end
  | _ => Some (VValueOf v)
  end.

Fixpoint cpSlice_loop (st t : gotype) (i : nat) (ins outs : list value) : Out unit :=
  match ins with
  | [] => ret tt
  | v :: ins =>
      v <- lift_opt (slice_elem t v) ;;
      match TypeOf v with
      | None => panic
      | Some vt =>
          if assignable t vt then
            x <- lift_opt (set_value t v) ;;
            let outs := <[i := x]> outs in
            set_target (retype st (mk_slice t outs)) ;;; cpSlice_loop st t (S i) ins outs
          else fail (Errorf "in element type %s can not assign to out element type %s")
      end
  end.

Definition cpSlice (in_ : value) : Out unit := fun out =>
  match strip in_ with
  | VNilSlice _ => (Fail (Errorf "@in is nil"), out)
  | VSlice _ _ | VBytes _ =>
      match target out with
      | Some st =>
          match under st with
          | TSlice t =>
              let outs := replicate (length (elems in_)) (zero t) in
              (set_target (retype st (mk_slice t outs)) ;;;
               cpSlice_loop st t 0 (elems in_) outs) out
          | _ => (Panic, out)
          end
      | None => (Panic, out)
      end
  | _ => (Panic, out)                               (* IsNil of an array *)
  end.

(** A key or an element as what is assigned to one of type [t]. *)
Definition map_part (t : gotype) (v : value) : option value :=
  match Kind t with
  | KStruct => match v with VReflect _ s => Some s | VValueOf s => Some s | _ => None end
  | _ => Some v
  end.

Fixpoint cpMap_loop (mt kt vt : gotype) (all : list (value * value))
    (ks : list (value * value)) (acc : list (value * value)) : Out unit :=
  match ks with
  | [] => ret tt
  | (k, _) :: ks =>
      inKey <- lift_opt (map_part kt k) ;;
      inValue <- lift_opt (map_part vt (map_lookup k all)) ;;
      match TypeOf inKey with
      | None => panic                                 (* Type of the zero Value *)
      | Some tk =>
          if negb (assignable kt tk) then
            fail (Errorf "in Key:{type:%s, value:%#v} can not assign to out Key:{type:%s} ")
          else
            match TypeOf inValue with
            | None => panic
            | Some tv =>
                if negb (assignable vt tv) then
                  fail (Errorf "in Value:{type:%s, value:%#v} can not assign to out value:{type:%s}")
                else
                  acc <- lift_opt (SetMapIndex kt vt inKey inValue acc) ;;
                  set_target (retype mt (VMap kt vt acc)) ;;; cpMap_loop mt kt vt all ks acc
            end
      end
  end.

Definition cpMap (in_ : value) : Out unit := fun out =>
  match in_ with
  | VNilMap _ _ | VNamed _ (VNilMap _ _) => (Fail (Errorf "@in is nil"), out)
  | VMap TIface TIface m =>
      match target out with
      | Some mt =>
          match under mt with
          | TMap kt vt =>
              (set_target (retype mt (VMap kt vt [])) ;;; cpMap_loop mt kt vt m m []) out
          | _ => (Panic, out)
          end
      | None => (Panic, out)
      end
  | _ => (Panic, out)
  end.

(** [in.(T)] of the predeclared type of [in]'s kind fails for a named type. *)
Definition predeclared (v : value) : bool := match v with VNamed _ _ => false | _ => true end.

Definition ReflectResponse (in_ : value) : Out unit := fun out =>
  match TypeOf in_, TypeOf out with
  | None, _ => (Fail (Errorf "@in is nil"), out)
  | _, None => (Fail (Errorf "@out is nil"), out)
  | Some inType, Some (TPtr _) =>
      match Kind inType with
      | KBool | KInt Int8 | KInt Int16 | KInt Int32 | KInt Int64 | KFloat32 | KFloat64
      | KString => if predeclared in_ then elem_set in_ out else (Panic, out)
      | KPtr => (Panic, out)                          (* in.(reflect.Value) *)
      | KStruct =>
          match in_ with
          | VReflect _ v | VValueOf v => elem_set v out
          | _ => (Panic, out)
          end
      | KSlice | KArray => cpSlice in_ out
      | KMap => cpMap in_ out
      | KInt _ | KInterface => (Ret tt, out)
      end
  | _, _ => (Fail (Errorf "@out should be a pointer"), out)
  end.

(** ** The body *)

Section Body.
Context `{App : Application}.
Variable g : POJORegistry.

(** One [decoder.Decode()], whose error is traced. *)
Definition decode_next (d : Decoder) : outcome value * Decoder :=
  trace (try (fun d => Decode g (decode_fuel d) d)) d.

Definition unpackResponseBody (buf : bytes) : Out unit :=
  let '(o, d) := decode_next (NewDecoder buf) in
  rspType <- of_outcome o ;;
  match rspType with
  | VInt Int32 z =>
      if z =? RESPONSE_WITH_EXCEPTION then
        of_outcome (decode_next d).1 ;;; fail (Errorf "got exception: %+v")
      else if z =? RESPONSE_VALUE then
        rsp <- of_outcome (decode_next d).1 ;; trace (ReflectResponse rsp)
      else if z =? RESPONSE_NULL_VALUE then fail (Errorf "Received null")
      else ret tt
  | _ => ret tt
  end.

End Body.
