(* ===== verification/HessianCodec.v ===== *)
(** * The hessian codec

    [codec/hessian/hessian.go]: [hessianCodec], whose [Write] sends a request
    and whose [ReadHeader] and [ReadBody] take a response off the stream. *)
From S2P Require Import Prelude Utf8 Bufio HessianConst HessianPack HessianValue HessianEncode.
From S2P Require Import HessianDecode Pojo HessianEncoder HessianDecoder HessianRequest.
From S2P Require Import HessianResponse.

(** The reader [h.reader]; what is written goes to the same connection. *)
Record hessianCodec := mkCodec {
  h_mt : Z;
  h_reader : reader;
  h_rspBodyLen : Z
}.

(** [NewCodec] on a connection that will deliver [input]. *)
Definition NewCodec (input : bytes) : hessianCodec := mkCodec 0 (NewReader input) 0.

Definition String_ : bytes := lit "hessian-codec".

Section Codec.
Context `{GX : GxStrings} `{App : Application}.

Definition Write (range : list (value * value) -> list (value * value))
    (w : bytes -> nat * option goerr) (m : Message) (a : value) : E bytes :=
  if (Type_ m =? MT_Heartbeat) || (Type_ m =? MT_Request) then trace (packRequest range m a w)
  else if Type_ m =? MT_Response then ret []
  else fail (Errorf "Unrecognised message type: %v").

(** The codec and the message [m] that [ReadHeader] fills. *)
Abbreviation H := (ST (hessianCodec * Message)).

Definition on_reader {A} (f : ST reader A) : H A := fun '(h, m) =>
  let '(o, r) := f (h_reader h) in (o, (mkCodec (h_mt h) r (h_rspBodyLen h), m)).

Definition on_message {A} (f : ST Message A) : H A := fun '(h, m) =>
  let '(o, m) := f m in (o, (h, m)).

(** The look at the exception's text: what is buffered is peeked at. *)
Definition log_exception : H unit := fun '(h, m) =>
  let bufSize := nbuf (h_reader h) in
  if (2 <? bufSize)%nat then
    let '(_, r) := Peek bufSize (h_reader h) in
    (Ret tt, (mkCodec (h_mt h) r (h_rspBodyLen h), m))
  else (Ret tt, (h, m)).

Definition ReadHeader (mt : Z) : H unit := fun '(h, m) =>
  (if mt =? MT_Request then ret tt
   else if (mt =? MT_Heartbeat) || (mt =? MT_Response) then
     p <- on_reader (Peek HEADER_LENGTH) ;;
     match p with
     | (_, Some e) => fail (Traced e)
     | (buf, None) =>
         trace (on_reader (Discard HEADER_LENGTH)) ;;;
         on_err (on_message (unpackResponseHeaer buf))
           (fun e => (if bool_decide (e = ErrJavaException) then log_exception else ret tt) ;;;
                     fail (Traced e)) ;;;
         (fun '(h, m) => (Ret tt, (mkCodec (h_mt h) (h_reader h) (BodyLen m), m)))
     end
   else fail (Errorf "Unrecognised message type: %v"))
  (mkCodec mt (h_reader h) (h_rspBodyLen h), m).

(** The codec and the caller's [ret]. *)
Definition ReadBody (g : POJORegistry) : ST (hessianCodec * value) unit := fun '(h, ret_) =>
  if (h_mt h =? MT_Heartbeat) || (h_mt h =? MT_Response) then
    match Peek (Z.to_nat (h_rspBodyLen h)) (h_reader h) with
    | (Ret (buf, None), r) =>
        match Discard (Z.to_nat (h_rspBodyLen h)) r with
        | (Ret _, r) =>
            let h := mkCodec (h_mt h) r (h_rspBodyLen h) in
            match ret_ with
            | VNil => (Ret tt, (h, ret_))
            | _ => let '(o, ret_) := trace (unpackResponseBody g buf) ret_ in (o, (h, ret_))
            end
        | (_, r) => (Fail (Traced EOF), (mkCodec (h_mt h) r (h_rspBodyLen h), ret_))
        end
    | (Ret (_, Some e), r) =>
        (Fail (if bool_decide (e = ErrBufferFull) then ErrBodyNotEnough else Traced e),
         (mkCodec (h_mt h) r (h_rspBodyLen h), ret_))
    | (_, r) => (Panic, (mkCodec (h_mt h) r (h_rspBodyLen h), ret_))
    end
  else (Ret tt, (h, ret_)).

End Codec.
