(* ===== verification/HessianFrame.v ===== *)
(** * The frames of requests and responses

    The package that [packRequest] writes has the dubbo header and a body that
    decodes to the call; [ReadHeader] and [ReadBody] take one response off the
    stream and deliver its value. *)
From S2P Require Import Prelude Utf8 Bufio Float64 HessianConst HessianPack HessianValue.
From S2P Require Import HessianEncode HessianDecode HessianScalar Pojo HessianEncoder.
From S2P Require Import HessianDecoder HessianTree HessianObject HessianRequest.
From S2P Require Import HessianResponse HessianCodec.

(** ** Encoding only appends *)

(** Whatever [m] does, failing included, it keeps what is in the buffer. *)
Definition grows {A} (m : E A) : Prop := forall e, exists suf, e_buffer (m e).2 = e_buffer e ++ suf.

Lemma grows_ret {A} (a : A) : grows (ret a).
Proof. intros e. exists []. by rewrite app_nil_r. Qed.
Lemma grows_fail {A} err : grows (fail err : E A).
Proof. intros e. exists []. by rewrite app_nil_r. Qed.
Lemma grows_panic {A} : grows (panic : E A).
Proof. intros e. exists []. by rewrite app_nil_r. Qed.

Lemma grows_bind {A B} (m : E A) (k : A -> E B) :
  grows m -> (forall a, grows (k a)) -> grows (bind m k).
Proof.
  intros Hm Hk e. destruct (Hm e) as (s1 & E1). unfold bind.
  destruct (m e) as [[a|err| |] e1]; cbn [snd] in *; try by exists s1.
  destruct (Hk a e1) as (s2 & E2). exists (s1 ++ s2). by rewrite E2, E1, app_assoc.
Qed.

Lemma grows_or_zero {A} (z : A) (m : E A) : grows m -> grows (or_zero z m).
Proof.
  intros Hm e. destruct (Hm e) as (s & E). exists s. unfold or_zero.
  by destruct (m e) as [[]].
Qed.

Definition extends (f : bytes -> bytes) : Prop := forall b, exists suf, f b = b ++ suf.

Lemma grows_buffer f : extends f -> grows (on_buffer f).
Proof. intros H e. destruct (H (e_buffer e)) as (s & E). by exists s. Qed.

Lemma encString_extends `{GX : GxStrings} v : extends (encString v).
Proof.
  assert (Hc : forall n vb b, exists s, (vChunk n vb b).2 = b ++ s).
  { intros n. induction n as [|n IH]; intros vb b; [exists []; cbn; by rewrite app_nil_r|].
    cbn [vChunk]. destruct vb as [|x l]; [apply IH|]. destruct (DecodeRune _) as [r sz].
    destruct (IH (drop sz (x :: l)) (b ++ Slice (EncodeRune r))) as (s & E).
    eexists. rewrite E, <- app_assoc. done. }
  assert (Hl : forall fuel vb b, exists s, encString_loop fuel vb b = b ++ s).
  { intros fuel. induction fuel as [|fuel IH]; intros vb b; [exists []; cbn; by rewrite app_nil_r|].
    cbn [encString_loop]. unfold encByte.
    destruct (_ =? 0); [exists []; by rewrite app_nil_r|].
    destruct (CHUNK_SIZE <? _).
    - match goal with |- context [vChunk ?n ?v ?c] => destruct (Hc n v c) as (s1 & E1);
        destruct (vChunk n v c) as [vb' b'] end.
      cbn [snd] in E1. destruct (IH vb' b') as (s2 & ->). rewrite E1, <- !app_assoc. by eexists.
    - cbv zeta. match goal with |- context [vChunk ?n ?v ?c] => destruct (Hc n v c) as (s1 & E1);
        destruct (vChunk n v c) as [vb' b'] end.
      cbn [snd] in E1. destruct (IH vb' b') as (s2 & ->). rewrite E1.
      repeat case_match; rewrite <- !app_assoc; by eexists. }
  intros b. unfold encString. destruct v; [by eexists|apply Hl].
Qed.

Lemma encBinary_extends v : extends (encBinary v).
Proof.
  intros b. destruct v as [|x l] eqn:E; [by eexists|]. rewrite <- E.
  rewrite encBinary_app by (by rewrite E). by eexists.
Qed.

Section Grows.
Context `{GX : GxStrings} `{App : Application}.

Lemma write_class_grows v name : grows (write_class v name).
Proof.
  intros e. unfold write_class. destruct (find_class _ _) as [i|]; [exists []; by rewrite app_nil_r|].
  destruct (checkPOJORegistry _ _) as [i []]; [by eexists|].
  destruct (RegisterPOJO _ _ _) as [[] g]; cbn; try (by eexists); exists []; by rewrite app_nil_r.
Qed.

Lemma write_object_extends idx : extends (write_object idx).
Proof.
  intros b. unfold write_object, encByte. case_match; [by eexists|].
  rewrite encInt32_app, <- app_assoc. by eexists.
Qed.

Lemma Encode_scalar_grows v : grows (Encode_scalar v).
Proof.
  assert (forall f, (forall b, f b = b ++ f []) -> grows (on_buffer f)).
  { intros f Hf. apply grows_buffer. intros b. eexists. apply Hf. }
  destruct v as [|b|k z| | | | | | | | | | | | | | | | |]; try apply grows_fail; cbn [Encode_scalar].
  - by apply H.
  - by apply H.
  - destruct k; try apply grows_fail; try apply grows_panic;
      apply H; intros; first [apply encInt32_app | apply encInt64_app].
  - apply H. intros. apply encFloat_app.
  - apply H. intros. apply encFloat_app.
  - apply grows_buffer, encString_extends.
  - by apply H; intros; unfold encDateInMs; rewrite <- app_assoc.
  - apply grows_buffer, encBinary_extends.
Qed.

Lemma encUntypedList_grows {A} (enc : A -> E unit) l :
  Forall (fun a => grows (enc a)) l -> grows (encUntypedList enc l).
Proof.
  intros Hl. apply grows_bind; [apply grows_buffer; by eexists|intros _].
  apply grows_bind; [apply grows_buffer; intros b; rewrite encInt32_app; by eexists|intros _].
  induction Hl as [|a l Ha Hl IH]; [apply grows_ret|]. by apply grows_bind.
Qed.

Lemma map_header_grows : grows (on_buffer (fun b => encByte b [BC_MAP_UNTYPED])).
Proof. apply grows_buffer. intros b. by eexists. Qed.
Lemma map_end_grows : grows (on_buffer (fun b => encByte b [BC_END])).
Proof. apply grows_buffer. intros b. by eexists. Qed.

Lemma untyped_loop_grows m :
  Forall (fun e => grows (Encode e.1) /\ grows (Encode e.2)) m -> grows (untyped_loop m).
Proof.
  induction 1 as [|[k v] l [Hk Hv] Hl IH]; [apply grows_ret|].
  apply grows_bind; [done|intros _]. by apply grows_bind.
Qed.

Lemma encUntypedMap_grows m :
  Forall (fun e => grows (Encode e.1) /\ grows (Encode e.2)) m -> grows (encUntypedMap Encode m).
Proof.
  intros Hm. apply untyped_loop_grows in Hm. destruct m as [|e m]; [apply grows_ret|].
  apply grows_bind; [apply map_header_grows|intros _].
  apply grows_bind; [exact Hm|intros _; apply map_end_grows].
Qed.

Lemma typed_loop_grows kt m :
  Forall (fun e => grows (Encode e.2)) m -> grows (typed_loop kt m).
Proof.
  induction 1 as [|[k v] l Hv Hl IH]; [apply map_end_grows|]. cbn [typed_loop].
  destruct (getMapKey k kt) as [k0|]; [|apply grows_fail].
  intros e. destruct (Encode_scalar_grows k0 e) as (s & Es).
  pose proof (grows_bind _ _ Hv (fun _ => IH)) as Hr.
  destruct (Encode_scalar k0 e) as [[] e1]; cbn [snd] in *; try (by exists s).
  destruct (Hr e1) as (s2 & E2). exists (s ++ s2).
  change (e_buffer ((Encode v ;;; typed_loop kt l) e1).2 = e_buffer e ++ s ++ s2).
  by rewrite E2, Es, app_assoc.
Qed.

Lemma encMap_grows kt m :
  Forall (fun e => grows (Encode e.2)) m -> grows (encMap Encode_scalar Encode kt m).
Proof.
  intros Hm. apply (typed_loop_grows kt) in Hm. destruct m as [|e m]; [apply grows_ret|].
  apply grows_bind; [apply map_header_grows|intros _]. exact Hm.
Qed.

Lemma encFields_grows enc fs l :
  Forall (fun v => grows (enc v)) l -> grows (encFields enc fs l).
Proof.
  intros Hl. revert fs. induction Hl as [|v l Hv Hl IH]; intros fs; [apply grows_ret|].
  destruct fs as [|[n t] fs]; [apply grows_ret|]. cbn [encFields].
  destruct (exported n); [|apply grows_panic]. apply grows_bind; [done|]. intros _. apply IH.
Qed.

Lemma Encode_struct_grows v fields : grows fields -> grows (Encode_struct v fields).
Proof.
  intros Hf. unfold Encode_struct. destruct (asPOJO v); [|apply grows_fail].
  apply grows_bind; [apply write_class_grows|intros idx].
  apply grows_bind; [apply grows_buffer, write_object_extends|done].
Qed.

Lemma Encode_grows v : grows (Encode v).
Proof.
  revert v. fix IH 1. intros v.
  assert (Hall : forall l, Forall (fun v => grows (Encode v)) l)
    by (intros l; induction l; constructor; [apply IH|done]).
  assert (Hkv : forall l, Forall (fun e => grows (Encode e.1) /\ grows (Encode e.2)) l)
    by (intros l; induction l as [|[]]; constructor; [split; apply IH|done]).
  assert (Hv : forall l : list (value * value), Forall (fun e => grows (Encode e.2)) l)
    by (intros l; induction l as [|[]]; constructor; [apply IH|done]).
  assert (Hb : forall b, grows (encUntypedList (fun z => Encode_scalar (VInt Uint8 z)) b)).
  { intros b. apply encUntypedList_grows, Forall_forall. intros. apply Encode_scalar_grows. }
  destruct v as [| | | | | | | |t|t l|t l|kt vt|kt vt m|n fs l|n v|t|t v|i|i v|v];
    try apply Encode_scalar_grows; try (apply Encode_struct_grows, grows_panic).
  - destruct t; try (by apply encUntypedList_grows).
    destruct k; try (by apply encUntypedList_grows). apply grows_buffer, encBinary_extends.
  - by apply encUntypedList_grows.
  - by apply encUntypedList_grows.
  - apply grows_ret.
  - destruct kt; try (by apply encMap_grows). destruct vt; try (by apply encMap_grows).
    by apply encUntypedMap_grows.
  - by apply Encode_struct_grows, encFields_grows.
  - destruct v as [| | | | | | | |t|t l|t l|kt vt|kt vt m|n' fs l|n' v|t|t v|i|i v|v];
      try apply Encode_scalar_grows; try (by apply encUntypedList_grows); [apply Hb| |].
    + apply grows_ret.
    + by apply encMap_grows.
Qed.

End Grows.

(** ** The request *)

Section Request.
Context `{GX : GxStrings} {GXok : GxStringsOk} `{App : Application}.
Variable range : list (value * value) -> list (value * value).

Lemma request_body_grows m args : grows (request_body range m args).
Proof.
  assert (He : forall v, grows (Encode_ v)) by (intros; apply grows_or_zero, Encode_grows).
  assert (Ha : forall vs, grows (Encode_all vs)).
  { intros vs. induction vs as [|v vs IH]; [apply grows_ret|]. by apply grows_bind. }
  unfold request_body. repeat (apply grows_bind; [done|intros _]).
  destruct (getArgsTypeList args); [|apply grows_fail].
  apply grows_bind; [done|intros _]. by apply grows_bind.
Qed.

(** The header with the length of the body in place. *)
Definition final_header (hb : bool) (id : Z) (len : Z) : bytes :=
  put_at 12 (PutUint32 (u32 len)) (request_header hb id).

Lemma request_header_length hb id : length (request_header hb id) = 16%nat.
Proof. by destruct hb. Qed.

Lemma put_at_app off p b c :
  (off + length p <= length b)%nat -> put_at off p (b ++ c) = put_at off p b ++ c.
Proof.
  intros H. unfold put_at. rewrite (take_app_le _ _ off), (drop_app_le _ _ (off + length p)) by lia.
  by rewrite <- !app_assoc.
Qed.


(** ** The body *)

(** [n] values read one after the other. *)
Fixpoint decode_values (g : POJORegistry) (n : nat) : D (list value) :=
  match n with
  | O => ret []
  | S n =>
      v <- try (fun d => Decode g (decode_fuel d) d) ;;
      vs <- decode_values g n ;; ret (v :: vs)
  end.

Lemma decodes_next g inp v :
  decodes g inp v -> dreads (try (fun d => Decode g (decode_fuel d) d)) inp v.
Proof.
  intros [_ Hd]. apply dreads_try. intros d rest Hok Hr.
  apply (Hd (decode_fuel d)); [|done|done]. unfold decode_fuel. rewrite Hr, length_app. lia.
Qed.

Lemma decode_values_reads g inps vs :
  Forall2 (decodes g) inps vs -> dreads (decode_values g (length vs)) (concat inps) vs.
Proof.
  induction 1 as [|i v inps vs Hv Hvs IH]; [apply dreads_ret|].
  cbn [decode_values length concat]. apply dreads_bind with v; [by apply decodes_next|].
  rewrite <- (app_nil_r (concat inps)). apply dreads_bind with vs; [done|apply dreads_ret].
Qed.

(** Statements that encode the values [vs], which come back as [vs']. *)
Definition carried_all (g : POJORegistry) (m : E unit) (vs' : list value) : Prop :=
  exists inps, appends m (concat inps) /\ Forall2 (decodes g) inps vs'.

Lemma carried_all_one g v v' : portable v v' -> carried_all g (Encode_ v) [v'].
Proof.
  intros Hp. destruct (proj1 (portable_carried g) v v' Hp) as (i & Ha & Hd).
  exists [i]. split; [|by apply Forall2_cons]. intros e. cbn. rewrite app_nil_r.
  unfold Encode_, or_zero. by rewrite Ha.
Qed.

Lemma carried_all_bind g m n vs1 vs2 :
  carried_all g m vs1 -> carried_all g n vs2 -> carried_all g (m ;;; n) (vs1 ++ vs2).
Proof.
  intros (i1 & Ha1 & Hd1) (i2 & Ha2 & Hd2). exists (i1 ++ i2).
  split; [rewrite concat_app; by apply appends_bind|by apply Forall2_app].
Qed.

Lemma carried_all_args g args args' :
  portable_list args args' -> carried_all g (Encode_all args) args'.
Proof.
  induction 1 as [|v v' l l' Hv Hl IH].
  - exists []. split; [apply appends_ret|constructor].
  - by apply (carried_all_bind g _ _ [v'] l'); [apply carried_all_one|].
Qed.

Lemma portable_text s : text s -> portable (VString s) (VString s).
Proof. intros (rs & Hs & Hl & ->). by apply p_string. Qed.

(** A map of distinct strings, in any order. *)
Lemma portable_strings dn ps :
  Forall (fun e => exists k v, e = (VString k, VString v) /\ text k /\ text v) (dn ++ ps) ->
  NoDup (map fst (dn ++ ps)) -> portable_typed TString dn ps ps.
Proof.
  revert dn. induction ps as [|[k0 v0] ps IH]; intros dn Ht Hn; [constructor|].
  pose proof Ht as Ht'. apply Forall_app in Ht' as [Hdn Hps].
  apply Forall_cons in Hps as [(k & v & [= -> ->] & Hk & Hv) Hps].
  apply pt_cons with (VString k); [done|done|by apply portable_text|by apply portable_text|done| |].
  - rewrite map_app in Hn. apply NoDup_app in Hn as (_ & Hdisj & _).
    unfold fresh_key. apply Forall_forall. intros [k1 v1] Hin. cbn [fst].
    pose proof (proj1 (Forall_forall _ _) Hdn _ Hin) as (k2 & v2 & [= -> ->] & _ & _).
    cbn. apply bool_decide_eq_false. intros ->.
    apply (Hdisj (VString k2)); [|by left].
    apply list_elem_of_fmap. by exists (VString k2, VString v2).
  - apply IH; by rewrite <- app_assoc.
Qed.

(** The strings of the message. *)
Record message_text (m : Message) : Prop := {
  mt_target : text (Target m);
  mt_version : text (Version m);
  mt_method : text (Method m);
  mt_path : text (ServicePath m);
  mt_timeout : text (Itoa (Z.quot (Timeout m) 1000000))
}.

Lemma text_lit s : forallb (fun c => (0 <=? c) && (c <? 128)) s && (Z.of_nat (length s) <? 2 ^ 31) = true -> text s.
Proof.
  intros H. apply andb_true_iff in H as [H Hl]. apply text_ascii; [|lia].
  apply Forall_forall. intros c Hc. rewrite forallb_forall in H.
  specialize (H c (proj1 (list_elem_of_In _ _) Hc)). cbv beta in H. lia.
Qed.

Lemma serviceParams_portable m :
  message_text m -> (forall l, range l ≡ₚ l) ->
  portable (VMap TString TString (range (serviceParams m)))
    (VMap TIface TIface (range (serviceParams m))).
Proof.
  intros Hm Hrange. apply p_typed_map; [|intros Hn|done].
  - apply (portable_strings []); cbn [app].
    + rewrite Hrange. unfold serviceParams. destruct Hm.
      destruct (Timeout m =? 0); repeat constructor; eexists _, _;
        (split_and!; [done|by apply text_lit|done]).
    + rewrite Hrange. unfold serviceParams.
      destruct (Timeout m =? 0); apply NoDup_ListNoDup; vm_compute; repeat constructor; cbn;
        intuition discriminate.
  - pose proof (Hrange (serviceParams m)) as Hp. rewrite Hn in Hp.
    by apply Permutation_nil_l in Hp.
Qed.

Lemma carried_run g m vs' e : carried_all g m vs' -> exists inps, m e = (Ret tt, mkEncoder (e_classInfoList e) (e_buffer e ++ concat inps) (e_registry e)) /\ Forall2 (decodes g) inps vs'.
Proof. intros (inps & Ha & Hd). by exists inps. Qed.

(** C13. The body of a request to a method with [args] decodes to the dubbo
    version, the interface, its version, the method, the type descriptor, the
    arguments and the parameters, in this order, and to nothing else. *)
Theorem request_body_decodes m args args' types g0 g :
  message_text m -> portable_list args args' -> getArgsTypeList args = Some types -> text types ->
  (forall l, range l ≡ₚ l) ->
  exists e d,
    request_body range m args (NewEncoder g0) = (Ret tt, e)
    /\ decode_values g (6 + length args') (NewDecoder (e_buffer e))
       = (Ret ([VString DUBBO_VERSION; VString (Target m); VString (Version m);
                VString (Method m); VString types] ++ args'
               ++ [VMap TIface TIface (range (serviceParams m))]), d)
    /\ unread (d_reader d) = [].
Proof.
  intros Hm Hargs Htypes Htt Hrange.
  assert (Hs : forall s, text s -> carried_all g (Encode_ (VString s)) [VString s])
    by (intros; by apply carried_all_one, portable_text).
  assert (Hc : carried_all g (request_body range m args)
    ([VString DUBBO_VERSION] ++ [VString (Target m)] ++ [VString (Version m)] ++
     [VString (Method m)] ++ [VString types] ++ args'
     ++ [VMap TIface TIface (range (serviceParams m))])).
  { unfold request_body. rewrite Htypes. destruct Hm.
    repeat (apply carried_all_bind; [first [by apply Hs | by apply Hs, text_lit]|]).
    apply carried_all_bind; [by apply carried_all_args|].
    by apply carried_all_one, serviceParams_portable. }
  destruct (carried_run g _ _ (NewEncoder g0) Hc) as (inps & E & Hd).
  apply decode_values_reads in Hd.
  destruct (Hd (NewDecoder (concat inps)) []) as (d & Ed & _ & Hr & _);
    [apply NewReader_ok|by rewrite app_nil_r|].
  eexists _, d. split_and!; [exact E| |done]. cbn [NewEncoder e_buffer app] in *.
  replace (6 + length args')%nat with (length (VString DUBBO_VERSION :: VString (Target m)
    :: VString (Version m) :: VString (Method m) :: VString types :: args'
    ++ [VMap TIface TIface (range (serviceParams m))])); [exact Ed|].
  cbn [length]. rewrite length_app. cbn [length]. lia.
Qed.

End Request.

(** ** The response *)

Lemma Peek_reads n r :
  (n <= bufsize)%nat -> (n <= length (unread r))%nat -> buf_ok r ->
  exists r', Peek n r = (Ret (take n (unread r), None), r') /\ buf_ok r'
    /\ unread r' = unread r /\ (n <= nbuf r')%nat.
Proof.
  intros Hn Hl Hok. unfold Peek.
  set (r0 := if (nbuf r <? n)%nat && (nbuf r <? bufsize)%nat then fill r else r).
  assert (Hu : unread r0 = unread r) by (unfold r0; by case_match).
  assert (Hb : (n <= nbuf r0)%nat /\ buf_ok r0).
  { unfold r0. destruct (nbuf r <? n)%nat eqn:E; [apply Nat.ltb_lt in E|apply Nat.ltb_ge in E].
    - rewrite (proj2 (Nat.ltb_lt (nbuf r) bufsize)) by lia. cbn [andb].
      split; [cbn [fill nbuf]; lia|apply fill_ok].
    - cbn [andb]. by split; [lia|]. }
  destruct Hb as [Hb Hok0]. cbv zeta. cbn [nbuf unread].
  rewrite (proj2 (Nat.ltb_ge bufsize n)), (proj2 (Nat.ltb_ge (nbuf r0) n)) by lia.
  rewrite Hu. eexists. split_and!; [done| |done|done].
  unfold buf_ok in *; cbn [nbuf unread]. by rewrite <- Hu.
Qed.

Lemma Discard_reads n r :
  (n <= nbuf r)%nat -> buf_ok r ->
  exists r', Discard n r = (Ret n, r') /\ buf_ok r' /\ unread r' = drop n (unread r).
Proof.
  intros Hn Hok. unfold Discard. rewrite (proj2 (Nat.leb_le n (nbuf r))) by done.
  eexists. split_and!; [done|by apply consume_ok|done].
Qed.

(** The header of a response: flags and serialization in one byte, the status,
    the id and the length. *)
Definition response_header (flags status id len : Z) : bytes :=
  [MAGIC_HIGH; MAGIC_LOW; flags; status] ++ PutUint64 (u64 id) ++ PutUint32 (u32 len).

Lemma unpack_response_header flags id len m :
  Z.land flags SERIAL_MASK <> 0 -> Z.land flags FLAG_REQUEST = 0 -> is_i64 id -> 0 <= len < 2 ^ 32 ->
  exists m', unpackResponseHeaer (response_header flags Response_OK id len) m = (Ret tt, m')
    /\ ID m' = id /\ BodyLen m' = len.
Proof.
  intros Hs Hf Hid Hlen. unfold response_header. cbn [app unpackResponseHeaer].
  unfold negb at 1 2. rewrite !Z.eqb_refl. cbn [andb].
  replace (_ =? 0) with false by lia. rewrite Hf, Z.eqb_refl. cbn [negb].
  rewrite PutUint64_digits, PutUint32_digits.
  assert (H64 : HessianPack.Uint64 (be_digits 8 (u64 id) ++ be_digits 4 (u32 len)) = Some (u64 id)).
  { transitivity (HessianPack.Uint64 (be_digits 8 (u64 id))); [done|].
    rewrite Uint64_digits. f_equal. apply Z.mod_small, wrap_range. lia. }
  assert (H32 : HessianPack.Uint32 (drop 8 (be_digits 8 (u64 id) ++ be_digits 4 (u32 len)))
                = Some len).
  { transitivity (HessianPack.Uint32 (be_digits 4 (u32 len))); [done|].
    rewrite Uint32_digits. f_equal. unfold u32. rewrite wrap_id by done. by apply Z.mod_small. }
  rewrite H64, H32. replace (len <? 0) with false by lia.
  eexists. split; [done|]. cbn [ID BodyLen set_header]. split; [|done].
  unfold i64, u64. rewrite swrap_wrap by lia. by apply i64_id.
Qed.

Section Response.
Context `{App : Application}.

(** C23. A response whose body fits the reader's buffer is taken off the stream
    exactly: [ReadHeader] sets the id and the length, and [ReadBody] drops the
    body, after decoding it into [ret] where there is one. *)
Theorem response_read g h m flags id body rest ret_ :
  Z.land flags SERIAL_MASK <> 0 -> Z.land flags FLAG_REQUEST = 0 -> is_i64 id ->
  (length body <= bufsize)%nat -> buf_ok (h_reader h) ->
  unread (h_reader h)
    = response_header flags Response_OK id (Z.of_nat (length body)) ++ body ++ rest ->
  exists h1 m1 h2,
    ReadHeader MT_Response (h, m) = (Ret tt, (h1, m1))
    /\ ID m1 = id /\ BodyLen m1 = Z.of_nat (length body)
    /\ unread (h_reader h2) = rest
    /\ ReadBody g (h1, ret_)
       = match ret_ with
         | VNil => (Ret tt, (h2, VNil))
         | _ => let '(o, ret_) := trace (unpackResponseBody g body) ret_ in (o, (h2, ret_))
         end.
Proof.
  intros Hs Hf Hid Hb Hok Hr.
  assert (Hlen : 0 <= Z.of_nat (length body) < 2 ^ 32) by (unfold bufsize in *; lia).
  set (hdr := response_header flags Response_OK id (Z.of_nat (length body))) in *.
  assert (Hh : length hdr = 16%nat) by done.
  assert (H16 : (16 <= bufsize)%nat) by (unfold bufsize; lia).
  destruct (Peek_reads 16 (h_reader h)) as (r1 & E1 & Hok1 & Hu1 & Hn1);
    [done|rewrite Hr, length_app; lia|done|].
  destruct (Discard_reads 16 r1) as (r2 & E2 & Hok2 & Hu2); [done|done|].
  rewrite Hr in E1. rewrite Hu1, Hr in Hu2. rewrite take_app_length' in E1 by done.
  rewrite drop_app_length' in Hu2 by done.
  destruct (unpack_response_header flags id (Z.of_nat (length body)) m Hs Hf Hid Hlen)
    as (m1 & Em & Hmid & Hml). fold hdr in Em.
  exists (mkCodec MT_Response r2 (BodyLen m1)), m1.
  destruct (Peek_reads (length body) r2) as (r3 & E3 & Hok3 & Hu3 & Hn3);
    [done|rewrite Hu2, length_app; lia|done|].
  destruct (Discard_reads (length body) r3) as (r4 & E4 & Hok4 & Hu4); [done|done|].
  rewrite Hu2 in E3. rewrite Hu3, Hu2 in Hu4. rewrite take_app_length in E3.
  rewrite drop_app_length in Hu4.
  exists (mkCodec MT_Response r4 (BodyLen m1)). split_and!; [|done|done|done|].
  - unfold ReadHeader. change (MT_Response =? MT_Request) with false.
    change ((MT_Response =? MT_Heartbeat) || (MT_Response =? MT_Response)) with true. cbv iota.
    unfold bind at 1, on_reader at 1. cbn [h_reader h_mt h_rspBodyLen]. unfold HEADER_LENGTH.
    rewrite E1. unfold bind at 1, trace, on_err at 1, on_reader. cbn [h_reader h_mt h_rspBodyLen].
    rewrite E2. unfold bind at 1, on_err, on_message. rewrite Em. done.
  - unfold ReadBody. cbn [h_mt h_reader h_rspBodyLen].
    change ((MT_Response =? MT_Heartbeat) || (MT_Response =? MT_Response)) with true. cbv iota.
    rewrite Hml, Nat2Z.id, E3, E4. cbv zeta. by destruct ret_.
Qed.

(** A body that is not there, or not all of it, leaves the stream as it was;
    the error the caller waits for, [ErrBodyNotEnough], is returned for a body
    that is longer than the reader's buffer, however much of it has arrived, and
    not for a shorter one of which bytes are missing. *)
Lemma ReadBody_refuses g h ret_ :
  h_mt h = MT_Response -> buf_ok (h_reader h) -> 0 <= h_rspBodyLen h ->
  (length (unread (h_reader h)) < Z.to_nat (h_rspBodyLen h))%nat
    \/ (bufsize < Z.to_nat (h_rspBodyLen h))%nat ->
  exists h',
    ReadBody g (h, ret_)
    = (Fail (if decide (bufsize < Z.to_nat (h_rspBodyLen h))%nat
             then ErrBodyNotEnough else Traced EOF), (h', ret_))
    /\ unread (h_reader h') = unread (h_reader h).
Proof.
  intros Hmt Hok Hl Hshort. unfold ReadBody. rewrite Hmt. cbn [Z.eqb orb].
  set (n := Z.to_nat (h_rspBodyLen h)) in *. unfold Peek.
  set (r0 := if (nbuf (h_reader h) <? n)%nat && (nbuf (h_reader h) <? bufsize)%nat
             then fill (h_reader h) else h_reader h).
  assert (Hu : unread r0 = unread (h_reader h)) by (unfold r0; by case_match).
  assert (Hok0 : buf_ok r0) by (unfold r0; case_match; auto with go).
  cbv zeta. cbn [nbuf unread].
  destruct (bufsize <? n)%nat eqn:E; [apply Nat.ltb_lt in E|apply Nat.ltb_ge in E].
  - rewrite decide_True by done. cbn. eexists. split; [done|]. by cbn.
  - rewrite decide_False by lia.
    assert ((nbuf r0 <? n)%nat = true) as ->.
    { apply Nat.ltb_lt. unfold buf_ok in Hok0. rewrite Hu in Hok0. lia. }
    cbn. eexists. split; [done|]. by cbn.
Qed.

(** ** Delivery *)

Lemma decode_next_ret g d v d' :
  try (fun d => Decode g (decode_fuel d) d) d = (Ret v, d') -> decode_next g d = (Ret v, d').
Proof. intros E. unfold decode_next, trace, on_err. by rewrite E. Qed.

(** The values that [ReflectResponse] assigns directly. *)
Definition direct (v : value) : Prop :=
  match v with
  | VBool _ | VInt Int32 _ | VInt Int64 _ | VFloat64 _ | VString _ => True
  | _ => False
  end.

(** A response that carries a value, encoded behind [RESPONSE_VALUE], is
    assigned to the caller's variable of its type. *)
Lemma response_delivers `{GX : GxStrings} {GXok : GxStringsOk} g g0 v v' t old x :
  portable v v' -> direct v' -> set_value t v' = Some x ->
  exists e,
    (Encode (VInt Int32 RESPONSE_VALUE) ;;; Encode v) (NewEncoder g0) = (Ret tt, e)
    /\ unpackResponseBody g (e_buffer e) (VPtr t old) = (Ret tt, VPtr t x).
Proof.
  intros Hp Hdir Hset.
  destruct (proj1 (portable_carried g) _ _ (p_int32 1 ltac:(unfold is_i32; lia)))
    as (i1 & Ha1 & Hd1).
  destruct (proj1 (portable_carried g) _ _ Hp) as (i2 & Ha2 & Hd2).
  pose proof (appends_bind _ _ _ _ Ha1 Ha2 (NewEncoder g0)) as E.
  eexists. split; [exact E|]. cbn [NewEncoder e_buffer app].
  destruct (decodes_next g _ _ Hd1 (NewDecoder (i1 ++ i2)) i2)
    as (d1 & E1 & Hok1 & Hr1 & _); [apply NewReader_ok|done|].
  destruct (decodes_next g _ _ Hd2 d1 []) as (d2 & E2 & Hok2 & Hr2 & _);
    [done|by rewrite app_nil_r|].
  unfold unpackResponseBody. rewrite (decode_next_ret _ _ _ _ E1).
  unfold bind at 1, of_outcome at 1.
  change (int32_back 1 =? RESPONSE_WITH_EXCEPTION) with false.
  change (int32_back 1 =? RESPONSE_VALUE) with true. cbv iota.
  rewrite (decode_next_ret _ _ _ _ E2).
  unfold bind, of_outcome, trace, on_err. cbn [fst].
  assert (ReflectResponse v' (VPtr t old) = (Ret tt, VPtr t x)) as ->; [|done].
  unfold ReflectResponse, elem_set.
  destruct v' as [|b|[]| | | | | | | | | | | | | | | | |]; try done; cbn -[set_value];
    by rewrite Hset.
Qed.

Lemma type_eqb_refl t : type_eqb t t = true.
Proof. by apply bool_decide_eq_true. Qed.

Lemma set_value_struct nm fs l :
  set_value (TStruct nm fs) (VStruct nm fs l) = Some (VStruct nm fs l).
Proof. unfold set_value. cbn [TypeOf assignable]. by rewrite type_eqb_refl. Qed.

Lemma cpSlice_structs nm fs ls dn old :
  let st := TSlice (TStruct nm fs) in
  let s l := VStruct nm fs l in
  cpSlice_loop st (TStruct nm fs) (length dn) (map (fun p => VReflect p.1 (s p.2)) ls)
    (dn ++ replicate (length ls) (zero (TStruct nm fs)))
    (VPtr st (VSlice (TStruct nm fs) (dn ++ old)))
  = (Ret tt, VPtr st (VSlice (TStruct nm fs)
       (dn ++ match ls with [] => old | _ => map (fun p => s p.2) ls end))).
Proof.
  cbv zeta. revert dn old. induction ls as [|[i l] ls IH]; intros dn old; [done|].
  cbn [map length replicate cpSlice_loop slice_elem Kind fst snd].
  unfold bind at 1, lift_opt at 1, ret at 1. cbn [TypeOf assignable].
  rewrite type_eqb_refl. cbn [orb]. rewrite set_value_struct.
  unfold bind at 1, lift_opt, ret at 1. cbv zeta.
  rewrite insert_app_r_alt, Nat.sub_diag by done. cbn [insert list_insert].
  unfold bind, set_target. cbn [assign retype mk_slice].
  replace (S (length dn)) with (length (dn ++ [VStruct nm fs l])) by (rewrite length_app; cbn; lia).
  set (z := replicate (length ls) (zero (TStruct nm fs))).
  assert (Eo : dn ++ VStruct nm fs l :: z = (dn ++ [VStruct nm fs l]) ++ z) by (by rewrite <- app_assoc).
  rewrite Eo, IH, <- app_assoc. unfold z. by destruct ls.
Qed.

(** A list of structs is copied into a variable of a slice of their type,
    element by element; a non-empty list of anything never reaches a slice of
    strings, booleans or integers, because the element's [reflect.Value] is
    boxed once more. *)
Lemma cpSlice_delivers nm fs (ls : list (nat * list value)) old s0 rest t :
  t = TString \/ t = TBool \/ (exists k, t = TInt k) ->
  cpSlice (VSlice TIface (map (fun p => VReflect p.1 (VStruct nm fs p.2)) ls))
    (VPtr (TSlice (TStruct nm fs)) old)
  = (Ret tt, VPtr (TSlice (TStruct nm fs))
       (VSlice (TStruct nm fs) (map (fun p => VStruct nm fs p.2) ls)))
  /\ (cpSlice (VSlice TIface (s0 :: rest)) (VPtr (TSlice t) old)).1
     = Fail (Errorf "in element type %s can not assign to out element type %s").
Proof.
  intros Ht. split.
  - unfold cpSlice. cbn [strip target under elems]. rewrite length_map.
    unfold bind, set_target. cbn [assign retype mk_slice].
    pose proof (cpSlice_structs nm fs ls [] (replicate (length ls) (zero (TStruct nm fs)))) as H.
    cbv zeta in H. cbn [app length] in H. rewrite H. by destruct ls.
  - by destruct Ht as [->|[->|[[] ->]]].
Qed.

End Response.

(** ** Witnesses *)

Definition sample_message : Message :=
  mkMessage 305419896 (lit "1.0") MT_Request (lit "/user") (lit "com.ikurento.user.UserProvider")
    (lit "GetUser") 3000000000 [] 0.
Definition sample_args : list value := [VString (lit "A003"); VInt Int32 7].

(** What [packRequest] builds for it. *)
Definition sample_pkg : bytes :=
  match (@pack_bytes plain_Slice sample_app id sample_message sample_args (NewEncoder pojoRegistry)).1 with
  | Ret pkg => pkg
  | _ => []
  end.


Lemma request_body_decodes_witness : exists e d,
  @request_body plain_Slice sample_app id sample_message sample_args (NewEncoder pojoRegistry)
    = (Ret tt, e)
  /\ @decode_values sample_app pojoRegistry 8 (NewDecoder (e_buffer e))
     = (Ret ([VString DUBBO_VERSION; VString (Target sample_message);
              VString (Version sample_message); VString (Method sample_message);
              VString (lit "Ljava/lang/String;I")] ++ sample_args
             ++ [VMap TIface TIface (id (serviceParams sample_message))]), d)
  /\ unread (d_reader d) = [].
Proof.
  apply (@request_body_decodes plain_Slice plain_Slice_ok sample_app id sample_message sample_args
    sample_args (lit "Ljava/lang/String;I") pojoRegistry pojoRegistry).
  - split; apply text_lit; vm_compute; reflexivity.
  - apply pl_cons; [by apply portable_text, text_lit|].
    apply pl_cons; [apply (p_int32 7); unfold is_i32; lia|apply pl_nil].
  - reflexivity.
  - by apply text_lit.
  - done.
Defined.

Lemma response_read_witness : exists h1 m1 h2,
  ReadHeader MT_Response
    (NewCodec (response_header 0x42 Response_OK (-5) 2 ++ [0x91; 0x4e] ++ [0xda]), sample_message)
    = (Ret tt, (h1, m1))
  /\ ID m1 = -5 /\ BodyLen m1 = 2 /\ unread (h_reader h2) = [0xda]
  /\ @ReadBody sample_app pojoRegistry (h1, VNil) = (Ret tt, (h2, VNil)).
Proof.
  apply (@response_read sample_app pojoRegistry _ sample_message 0x42 (-5) [0x91; 0x4e] [0xda] VNil);
    [done|done|unfold is_i64; lia|unfold bufsize; cbn; lia|apply NewReader_ok|reflexivity].
Defined.

