(* ===== verification/Pool.v ===== *)
(** * The client's connection pool

    [client/rpc_pool.go].  Connections are pointers, shared by the pool, the
    call that uses one and the goroutine that closes it later; the store maps
    a pointer to the fields of its [poolConn].  [now] is [time.Now().Unix()],
    and [Dial] and [Close] of the transport are steps of the environment: the
    outcome of the first is an argument, the second is recorded. *)
From S2P Require Import Prelude.

Record poolConn := mkConn {
  once : bool;             (* [once.Do] has run *)
  client : nat;            (* the transport's connection *)
  created : Z
}.

Record pool := mkPool {
  size : Z;
  ttl : Z;                 (* seconds *)
  conns : gmap bytes (list nat);
  store : gmap nat poolConn;
  next_ptr : nat;
  closes : list nat        (* the transport's connections closed, in order *)
}.

(** [newPool]; [ttl] is given in seconds. *)
Definition newPool (size ttl : Z) : pool := mkPool size ttl ∅ ∅ 0 [].

(** [addr@protocol]. *)
Definition pool_key (protocol addr : bytes) : bytes := addr ++ lit "@" ++ protocol.

Definition conns_of (key : bytes) (p : pool) : list nat := default [] (conns p !! key).

Definition set_conns (key : bytes) (l : list nat) (p : pool) : pool :=
  mkPool (size p) (ttl p) (<[key := l]> (conns p)) (store p) (next_ptr p) (closes p).

(** [conn.Client.Close()]. *)
Definition close_client (c : nat) (p : pool) : pool :=
  mkPool (size p) (ttl p) (conns p) (store p) (next_ptr p) (closes p ++ [c]).

Definition set_conn (i : nat) (c : poolConn) (p : pool) : pool :=
  mkPool (size p) (ttl p) (conns p) (<[i := c]> (store p)) (next_ptr p) (closes p).

(** [(p *poolConn) Close()]: the second time it is an error. *)
Definition poolConn_Close (i : nat) : ST pool unit := fun p =>
  match store p !! i with
  | None => (Panic, p)
  | Some c =>
      if once c then (Fail (Errorf "close poolConn{%#v} again"), p)
      else (Ret tt, set_conn i (mkConn true (client c) 0) (close_client (client c) p))
  end.

(** The loop of [getConn] over the connections of [key], the last one first. *)
Fixpoint getConn_loop (key : bytes) (now : Z) (rconns : list nat) : ST pool (option nat) := fun p =>
  match rconns with
  | [] => (Ret None, p)
  | i :: rest =>
      let p := set_conns key (reverse rest) p in
      match store p !! i with
      | None => (Panic, p)
      | Some c =>
          if ttl p <? i64 (now - created c)
          then getConn_loop key now rest (close_client (client c) p)
          else (Ret (Some i), p)
      end
  end.

(** [dial] is the outcome of [tr.Dial] and [now'] the time after it. *)
Definition getConn (protocol addr : bytes) (now now' : Z) (dial : option goerr) : ST pool nat :=
  let key := pool_key protocol addr in
  o <- (fun p => getConn_loop key now (reverse (conns_of key p)) p) ;;
  match o with
  | Some i => ret i
  | None =>
      match dial with
      | Some e => fail (Traced e)
      | None => fun p =>
          let i := next_ptr p in
          (Ret i, mkPool (size p) (ttl p) (conns p)
                    (<[i := mkConn false i now']> (store p)) (S i) (closes p))
      end
  end.

(** [release] of a connection that is not nil; [err] is the call's. *)
Definition release (protocol addr : bytes) (i : nat) (err : option goerr) : ST pool unit := fun p =>
  match store p !! i with
  | None => (Panic, p)
  | Some c =>
      if created c =? 0 then (Ret tt, p)
      else
        match err with
        | Some _ => or_zero tt (poolConn_Close i) p
        | None =>
            let key := pool_key protocol addr in
            let l := conns_of key p in
            if size p <=? Z.of_nat (length l) then (Ret tt, close_client (client c) p)
            else (Ret tt, set_conns key (l ++ [i]) p)
        end
  end.

(** ** Runs

    What the client does with the pool: a call gets a connection, releases it
    at most once when it is over, and the collector closes it some time after
    the call, whoever may have it by then. *)
Inductive step : pool * list nat -> pool * list nat -> Prop :=
| step_get protocol addr now now' dial p held i p' :
    getConn protocol addr now now' dial p = (Ret i, p') -> 0 < now -> 0 < now' ->
    step (p, held) (p', i :: held)
| step_get_fails protocol addr now now' dial p held e p' :
    getConn protocol addr now now' dial p = (Fail e, p') -> 0 < now -> 0 < now' ->
    step (p, held) (p', held)
| step_release protocol addr i err p held1 held2 o p' :
    release protocol addr i err p = (o, p') ->
    step (p, held1 ++ i :: held2) (p', held1 ++ held2)
| step_gc i p held o p' :
    poolConn_Close i p = (o, p') -> step (p, held) (p', held).

Inductive reachable (sz t : Z) : pool * list nat -> Prop :=
| reach_new : reachable sz t (newPool sz t, [])
| reach_step s s' : reachable sz t s -> step s s' -> reachable sz t s'.

(** All pooled pointers. *)
Definition pooled (p : pool) (i : nat) : Prop := exists key l, conns p !! key = Some l /\ i ∈ l.

(** The pool keeps each connection in at most one place, and no list is over
    the pool's size; what it stores has been allocated; a connection's fields
    show whether [poolConn.Close] has closed it; and nothing has been closed
    that is pooled or held and looks open. *)
Record pool_ok (sz t : Z) (p : pool) (held : list nat) : Prop := {
  po_size : size p = sz /\ ttl p = t;
  po_bound : forall key l, conns p !! key = Some l -> Z.of_nat (length l) <= Z.max 0 sz;
  po_alloc : forall i, is_Some (store p !! i) <-> (i < next_ptr p)%nat;
  po_client : forall i c, store p !! i = Some c -> client c = i;
  po_nodup : forall key l, conns p !! key = Some l -> NoDup l;
  po_disjoint : forall k1 k2 l1 l2 i, conns p !! k1 = Some l1 -> conns p !! k2 = Some l2 ->
    i ∈ l1 -> i ∈ l2 -> k1 = k2;
  po_held : NoDup held /\ forall i, i ∈ held -> (i < next_ptr p)%nat /\ ~ pooled p i;
  po_pooled : forall i, pooled p i -> (i < next_ptr p)%nat;
  po_once : forall i c, store p !! i = Some c -> once c = true <-> created c = 0;
  po_open : forall i c, pooled p i \/ i ∈ held -> store p !! i = Some c -> created c <> 0 ->
    i ∉ closes p;
  po_closes : forall i, i ∈ closes p -> (i < next_ptr p)%nat
}.

(** ** The invariant *)

Lemma conns_of_set key l p : conns_of key (set_conns key l p) = l.
Proof. unfold conns_of. cbn. by rewrite lookup_insert_eq. Qed.

Lemma newPool_ok sz t : pool_ok sz t (newPool sz t) [].
Proof.
  split; cbn; try done.
  all: try by intros * [(k & l & Hl & _)|Hi%not_elem_of_nil]; rewrite ?lookup_empty in *.
  - intros i. rewrite lookup_empty. split; [by intros []|lia].
  - split; [constructor|by intros i Hi%not_elem_of_nil].
  - intros i (k & l & Hl & _). cbn in Hl. by rewrite lookup_empty in Hl.
  - by intros i Hi%not_elem_of_nil.
Qed.

Section Preserve.
Variables sz t : Z.
Abbreviation ok := (pool_ok sz t).

Lemma in_last (l : list nat) i : i ∈ l ++ [i].
Proof. apply elem_of_app. right. by apply list_elem_of_singleton. Qed.
Lemma in_front (l : list nat) i j : j ∈ l -> j ∈ l ++ [i].
Proof. intros Hj. apply elem_of_app. by left. Qed.
#[local] Hint Resolve in_last in_front : core.

Lemma pooled_set key l p i :
  pooled (set_conns key l p) i <-> i ∈ l \/ exists k l', k <> key /\ conns p !! k = Some l' /\ i ∈ l'.
Proof.
  unfold pooled. cbn [set_conns conns]. split.
  - intros (k & l' & Hl & Hi). destruct (decide (k = key)) as [->|Hne].
    + rewrite lookup_insert_eq in Hl. simplify_eq. by left.
    + rewrite lookup_insert_ne in Hl by done. right. by exists k, l'.
  - intros [Hi|(k & l' & Hne & Hl & Hi)].
    + exists key, l. by rewrite lookup_insert_eq.
    + exists k, l'. by rewrite lookup_insert_ne.
Qed.

(** The last connection of a list leaves the pool. *)
Lemma pop_ok key l i p held :
  ok p held -> conns p !! key = Some (l ++ [i]) ->
  ok (set_conns key l p) held /\ ~ pooled (set_conns key l p) i /\ (i ∉ held) /\ (i < next_ptr p)%nat.
Proof.
  intros Hok Hl. destruct Hok.
  assert (Hp : pooled p i) by (exists key, (l ++ [i]); split; [done|eauto]).
  assert (Hsub : forall j, pooled (set_conns key l p) j -> pooled p j).
  { intros j [Hj|(k & l' & _ & Hk & Hj)]%pooled_set; [exists key, (l ++ [i])|by exists k, l'].
    split; [done|eauto]. }
  split_and!.
  - split; cbn [set_conns conns size ttl store next_ptr closes]; try done.
    + intros k l' [[<- <-]|[_ Hk]]%lookup_insert_Some; [|by apply po_bound0 in Hk].
      specialize (po_bound0 _ _ Hl). rewrite length_app in po_bound0. cbn in *. lia.
    + intros k l' [[<- <-]|[_ Hk]]%lookup_insert_Some; [|by apply po_nodup0 in Hk].
      apply po_nodup0 in Hl. by apply NoDup_app in Hl as [? _].
    + intros k1 k2 l1 l2 j [[<- <-]|[Hne1 H1]]%lookup_insert_Some
        [[<- <-]|[Hne2 H2]]%lookup_insert_Some Hj1 Hj2.
      * done.
      * apply (po_disjoint0 key k2 (l ++ [i]) l2 j); eauto.
      * apply (po_disjoint0 k1 key l1 (l ++ [i]) j); eauto.
      * by eapply (po_disjoint0 k1 k2).
    + destruct po_held0 as [Hn Hh]. split; [done|]. intros j Hj. destruct (Hh j Hj).
      split; [done|]. intros Hj'. by apply Hsub in Hj'.
    + intros j Hj. by apply po_pooled0, Hsub.
    + intros j c Hj. apply po_open0. destruct Hj as [Hj|Hj]; [left; by apply Hsub|by right].
  - intros [Hi|(k & l' & Hne & Hk & Hi)]%pooled_set.
    + apply po_nodup0 in Hl. apply NoDup_app in Hl as (_ & Hd & _). apply (Hd i Hi). by apply list_elem_of_singleton.
    + apply Hne. eapply po_disjoint0; [exact Hk|exact Hl|exact Hi|eauto].
  - intros Hi. destruct po_held0 as [_ Hh]. by destruct (Hh i Hi).
  - by apply po_pooled0.
Qed.

Lemma close_client_ok i p held :
  ok p held -> ~ pooled p i -> i ∉ held -> (i < next_ptr p)%nat -> ok (close_client i p) held.
Proof.
  intros [] Hp Hh Hi. split; cbn [close_client size ttl store next_ptr closes]; try done.
  - intros j c Hj Hc H0 Hin. apply elem_of_app in Hin as [Hin|Hin].
    + by apply (po_open0 j c Hj Hc H0).
    + apply list_elem_of_singleton in Hin as ->. by destruct Hj.
  - intros j Hin. apply elem_of_app in Hin as [Hin|Hin]; [by apply po_closes0|].
    by apply list_elem_of_singleton in Hin as ->.
Qed.

Lemma getConn_loop_ptr key now rconns p : next_ptr (getConn_loop key now rconns p).2 = next_ptr p.
Proof.
  revert p. induction rconns as [|i rest IH]; intros p; cbn [getConn_loop]; cbv zeta; [done|].
  destruct (store _ !! i) as [c|]; [|done]. destruct (_ <? _); [|done].
  apply (IH (close_client (client c) (set_conns key (reverse rest) p))).
Qed.

(** What the loop of [getConn] may do. *)
Definition loop_result (now : Z) (held : list nat) (r : outcome (option nat) * pool) : Prop :=
  match r with
  | (Ret None, p) => ok p held
  | (Ret (Some i), p) =>
      ok p held /\ ~ pooled p i /\ (i ∉ held) /\ (i < next_ptr p)%nat
      /\ exists c, store p !! i = Some c /\ i64 (now - created c) <= t
        /\ (created c <> 0 -> i ∉ closes p)
  | _ => False
  end.

Lemma getConn_loop_ok key now rconns p held :
  ok p held -> rconns = [] \/ conns p !! key = Some (reverse rconns) ->
  loop_result now held (getConn_loop key now rconns p).
Proof.
  revert p. induction rconns as [|i rest IH]; intros p Hok Hl; [done|].
  destruct Hl as [Hl|Hl]; [done|]. rewrite reverse_cons in Hl.
  cbn [getConn_loop]. cbv zeta.
  destruct (pop_ok key (reverse rest) i p held Hok Hl) as (Hok' & Hnp & Hh & Hi).
  pose proof (proj2 (po_alloc _ _ _ _ Hok i) Hi) as [c Hc]. cbn [set_conns store].
  rewrite Hc. pose proof (po_client _ _ _ _ Hok i c Hc) as Hcl.
  assert (Hsz : ttl p = t) by apply Hok. cbn [set_conns ttl]. rewrite Hsz.
  destruct (t <? i64 (now - created c)) eqn:E; zify_bool.
  - rewrite Hcl. apply IH; [by apply close_client_ok|]. right. cbn. apply lookup_insert_eq.
  - cbn. split_and!; [done|done|done|done|]. exists c. split_and!; [done|done|].
    intros H0. apply (po_open _ _ _ _ Hok i c); [left|done|done].
    exists key, (reverse rest ++ [i]). split; [done|eauto].
Qed.

(** A connection that nobody else has is handed out. *)
Lemma hold_ok i p held :
  ok p held -> ~ pooled p i -> i ∉ held -> (i < next_ptr p)%nat ->
  (forall c, store p !! i = Some c -> created c <> 0 -> i ∉ closes p) -> ok p (i :: held).
Proof.
  intros [] Hp Hh Hi Ho. split; try done.
  - destruct po_held0 as [Hn Hx]. split; [by apply NoDup_cons|].
    intros j [->|Hj]%elem_of_cons; [done|by apply Hx].
  - intros j c [Hj|Hj] Hc H0.
    + by apply (po_open0 j c (or_introl Hj) Hc H0).
    + apply elem_of_cons in Hj as [->|Hj]; [by apply (Ho c)|].
      by apply (po_open0 j c (or_intror Hj) Hc H0).
Qed.

(** A new connection. *)
Lemma alloc_ok now p held :
  0 < now -> ok p held ->
  let i := next_ptr p in
  ok (mkPool (size p) (ttl p) (conns p) (<[i := mkConn false i now]> (store p)) (S i) (closes p))
    (i :: held).
Proof.
  intros Hnow Hok. cbv zeta. set (i := next_ptr p). destruct Hok.
  assert (Hfresh : forall j, pooled p j -> j <> i) by (intros j Hj; apply po_pooled0 in Hj; unfold i; lia).
  split; cbn [size ttl conns store next_ptr closes]; try done.
  - intros j. destruct (decide (j = i)) as [->|Hne].
    + rewrite lookup_insert_eq. split; [unfold i; lia|by eexists].
    + rewrite lookup_insert_ne by done. rewrite po_alloc0. unfold i in *. lia.
  - intros j c. destruct (decide (j = i)) as [->|Hne].
    + rewrite lookup_insert_eq. by intros [= <-].
    + rewrite lookup_insert_ne by done. apply po_client0.
  - destruct po_held0 as [Hn Hx]. split.
    + apply NoDup_cons. split; [|done]. intros Hin. apply Hx in Hin as [Hin _]. unfold i in Hin. lia.
    + intros j [->|Hj]%elem_of_cons.
      * split; [lia|]. intros Hp. by apply (Hfresh i Hp).
      * destruct (Hx j Hj). split; [lia|done].
  - intros j Hj. apply po_pooled0 in Hj. lia.
  - intros j c. destruct (decide (j = i)) as [->|Hne].
    + rewrite lookup_insert_eq. intros [= <-]. cbn. split; [done|lia].
    + rewrite lookup_insert_ne by done. apply po_once0.
  - intros j c Hj Hc H0. destruct (decide (j = i)) as [->|Hne].
    + intros Hin. apply po_closes0 in Hin. unfold i in Hin. lia.
    + rewrite lookup_insert_ne in Hc by done. apply (po_open0 j c); [|done|done].
      destruct Hj as [Hj|Hj]; [by left|]. right. by apply elem_of_cons in Hj as [->|Hj].
  - intros j Hj. apply po_closes0 in Hj. lia.
Qed.

Lemma getConn_ok protocol addr now now' dial p held :
  ok p held -> 0 < now' ->
  match getConn protocol addr now now' dial p with
  | (Ret i, p') => ok p' (i :: held) /\ (i ∉ held)
      /\ exists c, store p' !! i = Some c
         /\ (i64 (now - created c) <= t \/ c = mkConn false (next_ptr p) now')
  | (Fail _, p') => ok p' held
  | _ => False
  end.
Proof.
  intros Hok Hnow. unfold getConn, bind. set (key := pool_key protocol addr). cbv zeta.
  assert (Hl : reverse (conns_of key p) = [] \/
               conns p !! key = Some (reverse (reverse (conns_of key p)))).
  { rewrite reverse_involutive. unfold conns_of. destruct (conns p !! key); [by right|by left]. }
  pose proof (getConn_loop_ok key now _ p held Hok Hl) as Hr.
  pose proof (getConn_loop_ptr key now (reverse (conns_of key p)) p) as Hn.
  destruct (getConn_loop _ _ _ p) as [[[i|]|e| |] p']; unfold loop_result in Hr; cbn [snd] in Hn; try done.
  - destruct Hr as (Hok' & Hnp & Hh & Hi & c & Hc & Ht & Ho).
    split_and!; [|done|by exists c; auto].
    apply hold_ok; try done. intros c' Hc'. by simplify_eq.
  - destruct dial as [e|]; [done|]. cbn in Hn. rewrite <- Hn. split_and!.
    + by apply alloc_ok.
    + intros Hin. destruct (po_held _ _ _ _ Hr) as [_ Hx]. destruct (Hx _ Hin). lia.
    + exists (mkConn false (next_ptr p') now'). cbn. rewrite lookup_insert_eq. auto.
Qed.

(** A held connection is let go of. *)
Lemma drop_ok i p h1 h2 :
  ok p (h1 ++ i :: h2) ->
  ok p (h1 ++ h2) /\ ~ pooled p i /\ (i ∉ h1 ++ h2)
  /\ exists c, store p !! i = Some c /\ client c = i /\ (i < next_ptr p)%nat
     /\ (created c <> 0 -> i ∉ closes p) /\ (once c = true <-> created c = 0).
Proof.
  intros Hok. pose proof Hok as [].
  assert (Hper : h1 ++ i :: h2 ≡ₚ i :: (h1 ++ h2)) by by rewrite Permutation_middle.
  assert (Hin : i ∈ h1 ++ i :: h2) by (rewrite Hper; by left).
  assert (Hsub : forall j, j ∈ h1 ++ h2 -> j ∈ h1 ++ i :: h2) by (intros j Hj; rewrite Hper; by right).
  destruct po_held0 as [Hn Hx]. destruct (Hx i Hin) as [Hi Hp].
  pose proof (proj2 (po_alloc0 i) Hi) as [c Hc].
  assert (Hn' := Hn). rewrite Hper in Hn'. apply NoDup_cons in Hn' as [Hni Hn'].
  split_and!; [|done|done|exists c; split_and!; eauto].
  split; try done.
  - split; [done|]. intros j Hj. by apply Hx, Hsub.
  - intros j c' Hj. apply po_open0. destruct Hj as [Hj|Hj]; [by left|right; by apply Hsub].
Qed.

(** A connection is closed through [poolConn.Close], whoever has it. *)
Lemma gc_ok i c p held :
  ok p held -> store p !! i = Some c ->
  ok (set_conn i (mkConn true (client c) 0) (close_client (client c) p)) held.
Proof.
  intros [] Hc. rewrite (po_client0 i c Hc).
  assert (Hi : (i < next_ptr p)%nat) by (apply po_alloc0; eauto).
  split; cbn [set_conn close_client size ttl conns store next_ptr closes]; try done.
  - intros j. rewrite <- po_alloc0. destruct (decide (j = i)) as [->|Hne].
    + rewrite lookup_insert_eq. split; eauto.
    + by rewrite lookup_insert_ne.
  - intros j c' [[<- <-]|[_ Hj]]%lookup_insert_Some; [done|by apply po_client0].
  - intros j c' [[<- <-]|[_ Hj]]%lookup_insert_Some; [done|by apply (po_once0 j)].
  - intros j c' Hp [[<- <-]|[Hne Hj]]%lookup_insert_Some H0; [done|].
    intros [Hin|Hin%list_elem_of_singleton]%elem_of_app; [|done].
    by apply (po_open0 j c').
  - intros j [Hin|Hin%list_elem_of_singleton]%elem_of_app; [by apply po_closes0|by subst].
Qed.

(** A connection goes back to the pool. *)
Lemma push_ok key i p held :
  ok p held -> ~ pooled p i -> i ∉ held -> (i < next_ptr p)%nat ->
  (forall c, store p !! i = Some c -> created c <> 0 -> i ∉ closes p) ->
  Z.of_nat (length (conns_of key p)) < sz -> ok (set_conns key (conns_of key p ++ [i]) p) held.
Proof.
  intros [] Hp Hh Hi Ho Hsz.
  assert (Hof : forall j, j ∈ conns_of key p -> conns p !! key = Some (conns_of key p)).
  { unfold conns_of. destruct (conns p !! key); [done|]. by intros j Hj%not_elem_of_nil. }
  assert (Hsub : forall j, pooled (set_conns key (conns_of key p ++ [i]) p) j -> pooled p j \/ j = i).
  { intros j [[Hj|Hj%list_elem_of_singleton]%elem_of_app|(k & l' & _ & Hk & Hj)]%pooled_set; auto.
    - left. exists key, (conns_of key p). eauto.
    - left. by exists k, l'. }
  assert (Hnk : forall k l', conns p !! k = Some l' -> i ∉ l') by (intros k l' Hk Hin; apply Hp; by exists k, l').
  split; cbn [set_conns conns size ttl store next_ptr closes]; try done.
  - intros k l' [[<- <-]|[_ Hk]]%lookup_insert_Some; [|by apply po_bound0 in Hk].
    rewrite length_app. cbn. lia.
  - intros k l' [[<- <-]|[_ Hk]]%lookup_insert_Some; [|by apply po_nodup0 in Hk].
    apply NoDup_app. split_and!; [|intros j Hj Hji%list_elem_of_singleton; subst j|apply NoDup_singleton].
    + unfold conns_of. destruct (conns p !! key) eqn:E; [by apply (po_nodup0 key)|constructor].
    + by apply (Hnk key (conns_of key p)); eauto.
  - intros k1 k2 l1 l2 j [[<- <-]|[Hne1 H1]]%lookup_insert_Some
      [[<- <-]|[Hne2 H2]]%lookup_insert_Some Hj1 Hj2; [done|..].
    + apply elem_of_app in Hj1 as [Hj1|Hj1%list_elem_of_singleton]; [|by subst; destruct (Hnk k2 l2)].
      apply (po_disjoint0 key k2 (conns_of key p) l2 j); eauto.
    + apply elem_of_app in Hj2 as [Hj2|Hj2%list_elem_of_singleton]; [|by subst; destruct (Hnk k1 l1)].
      apply (po_disjoint0 k1 key l1 (conns_of key p) j); eauto.
    + by apply (po_disjoint0 k1 k2 l1 l2 j).
  - destruct po_held0 as [Hn Hx]. split; [done|]. intros j Hj. destruct (Hx j Hj).
    split; [done|]. intros [Hj'| ->]%Hsub; done.
  - intros j [Hj| ->]%Hsub; [by apply po_pooled0|done].
  - intros j c [[Hj| ->]%Hsub|Hj] Hc H0; [by apply (po_open0 j c); auto|by apply (Ho c)|].
    by apply (po_open0 j c); auto.
Qed.

Lemma release_ok protocol addr i err p h1 h2 :
  ok p (h1 ++ i :: h2) ->
  exists p', release protocol addr i err p = (Ret tt, p') /\ ok p' (h1 ++ h2).
Proof.
  intros Hok. destruct (drop_ok i p h1 h2 Hok) as (Hok' & Hp & Hh & c & Hc & Hcl & Hi & Ho & Hon).
  unfold release. rewrite Hc. destruct (created c =? 0) eqn:E0; zify_bool; [eauto|].
  destruct err as [e|].
  - unfold or_zero, poolConn_Close. rewrite Hc.
    destruct (once c); [by destruct E0; apply Hon|]. eexists. split; [done|]. by apply gc_ok.
  - cbv zeta. destruct (po_size _ _ _ _ Hok) as [-> _].
    destruct (sz <=? _) eqn:E; zify_bool; eexists; (split; [reflexivity|]).
    + rewrite Hcl. by apply close_client_ok.
    + apply push_ok; try done. intros c' Hc'. by simplify_eq.
Qed.

Lemma poolConn_Close_ok i p held :
  ok p held -> ok (poolConn_Close i p).2 held.
Proof.
  intros Hok. unfold poolConn_Close. destruct (store p !! i) as [c|] eqn:Hc; [|done].
  destruct (once c); [done|]. by apply gc_ok.
Qed.

Lemma pool_step_ok s s' : ok s.1 s.2 -> step s s' -> ok s'.1 s'.2.
Proof.
  intros Hok Hs. destruct Hs as [pr ad now now' dial p held i p' E _ Hn|pr ad now now' dial p held e p' E _ Hn
    |pr ad i err p h1 h2 o p' E|i p held o p' E]; cbn [fst snd] in *.
  - pose proof (getConn_ok pr ad now now' dial p held Hok Hn) as H. rewrite E in H. apply H.
  - pose proof (getConn_ok pr ad now now' dial p held Hok Hn) as H. by rewrite E in H.
  - destruct (release_ok pr ad i err p h1 h2 Hok) as (p1 & E' & H). rewrite E in E'. by simplify_eq.
  - pose proof (poolConn_Close_ok i p held Hok) as H. by rewrite E in H.
Qed.

Lemma pool_reachable_ok s : reachable sz t s -> ok s.1 s.2.
Proof. induction 1 as [|s s' _ IH Hs]; [apply newPool_ok|by eapply pool_step_ok]. Qed.

End Preserve.

(** ** What a call may rely on *)


(** No address has more pooled connections than the pool's size, and a
    connection is pooled once only; with the default size, 0, none is ever. *)
Lemma pool_bounded sz t s :
  reachable sz t s ->
  forall key l, conns s.1 !! key = Some l ->
    Z.of_nat (length l) <= Z.max 0 sz /\ NoDup l
    /\ forall key' l' i, conns s.1 !! key' = Some l' -> i ∈ l -> i ∈ l' -> key' = key.
Proof.
  intros Hr key l Hl. pose proof (pool_reachable_ok sz t s Hr) as [].
  split_and!; [by apply po_bound0 in Hl|by apply po_nodup0 in Hl|].
  intros key' l' i Hl' Hi Hi'. by apply (po_disjoint0 key' key l' l i).
Qed.

(** A connection released without an error while there is room is the one
    the next [getConn] for its address gets, until it is too old, and the
    other connections stay as they were. *)
Lemma release_reuse sz t protocol addr i c now now' dial p h1 h2 :
  reachable sz t (p, h1 ++ i :: h2) ->
  store p !! i = Some c -> created c <> 0 ->
  Z.of_nat (length (conns_of (pool_key protocol addr) p)) < sz ->
  i64 (now - created c) <= t ->
  exists p1 p2, release protocol addr i None p = (Ret tt, p1)
    /\ getConn protocol addr now now' dial p1 = (Ret i, p2)
    /\ closes p2 = closes p /\ store p2 = store p
    /\ forall key, conns_of key p2 = conns_of key p.
Proof.
  intros Hr Hc H0 Hsz Hage. pose proof (pool_reachable_ok sz t _ Hr) as Hok. cbn in Hok.
  destruct (po_size _ _ _ _ Hok) as [Hs Ht]. unfold release. rewrite Hc.
  apply Z.eqb_neq in H0 as ->. cbv zeta. rewrite Hs. apply Z.leb_gt in Hsz as ->.
  set (key := pool_key protocol addr). do 2 eexists. split; [done|].
  unfold getConn, bind. fold key. cbv zeta. rewrite conns_of_set, reverse_app.
  cbn [reverse app rev_append getConn_loop]. cbv zeta. cbn [set_conns store]. rewrite Hc. cbn [ttl set_conns]. rewrite Ht.
  apply Z.ltb_ge in Hage as ->. split; [done|]. cbn [closes store]. split_and!; [done..|].
  intros k. destruct (decide (k = key)) as [->|Hne].
  - rewrite conns_of_set. apply reverse_involutive.
  - unfold conns_of. cbn. by rewrite !lookup_insert_ne.
Qed.

(** ** Calls one after the other

    What [call] of [client/rpc_client.go] does with the pool around an exchange
    that ends with [err]: the deferred function releases the connection of a
    request that is a stream, and hands its stream to [gc], which closes the
    codec and with it the connection. *)
Definition call_pool (protocol addr : bytes) (now now' : Z) (dial : option goerr) (stream : bool)
    (err : option goerr) : ST pool nat :=
  i <- getConn protocol addr now now' dial ;;
  (if stream then release protocol addr i err else ret tt) ;;;
  or_zero tt (poolConn_Close i) ;;;
  ret i.

Definition closed_conn (p : pool) (i : nat) : Prop := exists c, store p !! i = Some c /\ created c = 0.

Lemma getConn_loop_closed key now rconns p :
  ttl p < now -> is_i64 now -> (forall i, i ∈ rconns -> closed_conn p i) ->
  exists p', getConn_loop key now rconns p = (Ret None, p')
    /\ store p' = store p /\ next_ptr p' = next_ptr p /\ ttl p' = ttl p
    /\ forall i, pooled p' i -> i ∈ rconns \/ pooled p i.
Proof.
  intros Ht Hi. revert p Ht. induction rconns as [|i rest IH]; intros p Ht Hall; [exists p; split_and!; auto|].
  destruct (Hall i) as (c & Hc & H0); [by left|]. cbn [getConn_loop]. cbv zeta.
  cbn [set_conns store]. rewrite Hc, H0, Z.sub_0_r, i64_id by done. cbn [ttl set_conns].
  pose proof (proj2 (Z.ltb_lt _ _) Ht) as ->.
  destruct (IH (close_client (client c) (set_conns key (reverse rest) p))) as (p' & E & Hs & Hn & Ht' & Hp);
    [done|intros j Hj; apply (Hall j); by right|].
  exists p'. split_and!; [exact E|done|done|done|].
  intros j [Hj|Hj]%Hp; [left; by right|].
  destruct (proj1 (pooled_set key (reverse rest) p j) Hj) as [Hj'|(k & l' & _ & Hk & Hj')].
  - left. right. by apply elem_of_reverse.
  - right. by exists k, l'.
Qed.

Definition all_closed (p : pool) : Prop := forall i, pooled p i -> closed_conn p i.

(** What the other connections see of a release and of a collection. *)
Definition frames (i : nat) (p p' : pool) : Prop :=
  next_ptr p' = next_ptr p /\ (forall j, pooled p' j -> pooled p j \/ j = i)
  /\ forall j, closed_conn p j -> closed_conn p' j.

Lemma frames_refl i p : frames i p p.
Proof. split_and!; auto. Qed.

Lemma frames_trans i p1 p2 p3 : frames i p1 p2 -> frames i p2 p3 -> frames i p1 p3.
Proof.
  intros (H1 & H2 & H3) (H1' & H2' & H3'). split_and!; [congruence| |auto].
  intros j [Hj| ->]%H2'; auto.
Qed.

Lemma Close_frames i c p :
  store p !! i = Some c -> (once c = true <-> created c = 0) ->
  frames i p (poolConn_Close i p).2 /\ closed_conn (poolConn_Close i p).2 i.
Proof.
  intros Hc Hon. unfold poolConn_Close. rewrite Hc. destruct (once c).
  - split; [apply frames_refl|]. exists c. split; [done|by apply Hon].
  - cbn [snd]. split; [split_and!; [done|auto|]|eexists; cbn; by rewrite lookup_insert_eq].
    intros j (cj & Hj & H0). destruct (decide (j = i)) as [->|Hne]; eexists; cbn.
    + by rewrite lookup_insert_eq.
    + by rewrite lookup_insert_ne.
Qed.

Lemma release_frames protocol addr i err p c :
  store p !! i = Some c -> (once c = true <-> created c = 0) ->
  frames i p (release protocol addr i err p).2.
Proof.
  intros Hc Hon. unfold release. rewrite Hc. destruct (created c =? 0); [apply frames_refl|].
  destruct err as [e|].
  - destruct (Close_frames i c p Hc Hon) as [Hf _]. unfold or_zero.
    by destruct (poolConn_Close i p) as [[] p'].
  - cbv zeta. destruct (_ <=? _); [by split_and!; auto|].
    split_and!; [done| |done]. intros j Hj. apply pooled_set in Hj.
    destruct Hj as [[Hj|Hj%list_elem_of_singleton]%elem_of_app|(k & l' & _ & Hk & Hj)]; [|auto|left; by exists k, l'].
    left. exists (pool_key protocol addr), (conns_of (pool_key protocol addr) p). split; [|done].
    unfold conns_of in *. destruct (conns p !! _); [done|by apply not_elem_of_nil in Hj].
Qed.

Lemma all_closed_frames i p p' : frames i p p' -> all_closed p -> closed_conn p' i -> all_closed p'.
Proof. intros (_ & Hp & Hc) Hall Hi j [Hj| ->]%Hp; auto. Qed.

Lemma getConn_dials sz t protocol addr now now' p :
  pool_ok sz t p [] -> all_closed p -> t < now -> is_i64 now -> 0 < now' ->
  exists p', getConn protocol addr now now' None p = (Ret (next_ptr p), p')
    /\ pool_ok sz t p' [next_ptr p] /\ all_closed p' /\ next_ptr p' = S (next_ptr p)
    /\ store p' !! next_ptr p = Some (mkConn false (next_ptr p) now').
Proof.
  intros Hok Hall Ht Hi Hn.
  pose proof (getConn_ok sz t protocol addr now now' None p [] Hok Hn) as Hg.
  set (key := pool_key protocol addr). unfold getConn, bind in *. cbv zeta in *. fold key in Hg |- *.
  assert (Htt : ttl p = t) by apply Hok.
  assert (Hrc : forall i, i ∈ reverse (conns_of key p) -> closed_conn p i).
  { intros i Hin. rewrite elem_of_reverse in Hin. apply Hall. exists key, (conns_of key p). split; [|done].
    unfold conns_of in *. destruct (conns p !! key); [done|]. by apply not_elem_of_nil in Hin. }
  destruct (getConn_loop_closed key now _ p ltac:(lia) Hi Hrc) as (p1 & E & Hs & Hnp & _ & Hp).
  rewrite E in *. cbv beta iota in Hg |- *. rewrite Hnp in *. destruct Hg as (Hok1 & _ & _).
  eexists. split; [reflexivity|]. split_and!; [done| |done|by apply lookup_insert_eq].
  intros j Hj. assert (Hcj : closed_conn p j).
  { destruct (Hp j) as [Hj'|Hj']; [exact Hj|by apply Hrc|by apply Hall]. }
  destruct Hcj as (c & Hc & H0). exists c. split; [|done]. cbn. rewrite Hs.
  rewrite lookup_insert_ne; [done|]. intros <-.
  pose proof (proj1 (po_alloc _ _ _ _ Hok (next_ptr p)) (ex_intro _ c Hc)). lia.
Qed.

(** After the call: its connection is let go of and closed. *)
Lemma after_call_ok sz t protocol addr i stream err p :
  pool_ok sz t p [i] -> all_closed p ->
  exists p', ((if stream : bool then release protocol addr i err else ret tt) ;;; or_zero tt (poolConn_Close i)) p
      = (Ret tt, p')
    /\ pool_ok sz t p' [] /\ all_closed p' /\ next_ptr p' = next_ptr p.
Proof.
  intros Hok1 Hall1. unfold bind.
  destruct (drop_ok sz t i p [] [] Hok1) as (Hok1' & _ & _ & c & Hc & _ & Hi & _ & Hon).
  assert (exists p2, (if stream then release protocol addr i err else ret tt) p = (Ret tt, p2)
    /\ pool_ok sz t p2 [] /\ frames i p p2) as (p2 & -> & Hok2 & Hf2).
  { destruct stream; [|exists p; split_and!; [done|done|apply frames_refl]].
    destruct (release_ok sz t protocol addr i err p [] [] Hok1) as (p2 & E & Hok2).
    exists p2. split_and!; [done|done|]. pose proof (release_frames protocol addr i err p c Hc Hon) as Hf.
    by rewrite E in Hf. }
  assert (exists c2, store p2 !! i = Some c2) as [c2 Hc2].
  { apply (po_alloc _ _ _ _ Hok2). by destruct Hf2 as [-> _]. }
  pose proof (poolConn_Close_ok sz t i p2 [] Hok2) as Hok3.
  destruct (Close_frames i c2 p2 Hc2 (po_once _ _ _ _ Hok2 i c2 Hc2)) as [Hf3 Hi3].
  pose proof (frames_trans i _ _ _ Hf2 Hf3) as Hf.
  unfold or_zero. assert (Hr : exists o, poolConn_Close i p2 = (o, (poolConn_Close i p2).2)
     /\ (o = Ret tt \/ exists e, o = Fail e)).
  { unfold poolConn_Close. rewrite Hc2. destruct (once c2); eexists; split; try reflexivity; eauto. }
  destruct Hr as (o & -> & Ho). exists (poolConn_Close i p2).2.
  split_and!; [destruct Ho as [->|[e ->]]; reflexivity|done|by eapply all_closed_frames|].
  by destruct Hf as [-> _].
Qed.

(** The transport's connection of an open one has then been closed, once or
    twice. *)
Lemma after_call_closes protocol addr i stream err p c p' :
  store p !! i = Some c -> client c = i -> once c = false -> created c <> 0 ->
  ((if stream : bool then release protocol addr i err else ret tt) ;;; or_zero tt (poolConn_Close i)) p = (Ret tt, p') ->
  exists n, closes p' = closes p ++ repeat i (S n).
Proof.
  intros Hc Hcl Hon Hcr E. unfold bind, or_zero in E. apply Z.eqb_neq in Hcr.
  destruct stream; [unfold release in E; rewrite Hc, Hcr in E; destruct err as [e|]|].
  - unfold or_zero, poolConn_Close in E. rewrite Hc, Hon in E. cbn in E. rewrite lookup_insert_eq in E. injection E as <-. exists 0%nat. cbn. by rewrite Hcl.
  - cbv zeta in E. destruct (_ <=? _); unfold poolConn_Close in E; cbn [close_client set_conns store] in E; rewrite Hc, Hon in E; injection E as <-; cbn; rewrite Hcl.
    + exists 1%nat. by rewrite <- app_assoc.
    + by exists 0%nat.
  - cbn in E. unfold poolConn_Close in E. rewrite Hc, Hon in E. injection E as <-. exists 0%nat. cbn. by rewrite Hcl.
Qed.

Lemma call_pool_fresh sz t protocol addr now now' stream err p :
  pool_ok sz t p [] -> all_closed p -> t < now -> is_i64 now -> 0 < now' ->
  exists p', call_pool protocol addr now now' None stream err p = (Ret (next_ptr p), p')
    /\ pool_ok sz t p' [] /\ all_closed p' /\ next_ptr p' = S (next_ptr p).
Proof.
  intros Hok Hall Ht Hi Hn. unfold call_pool. unfold bind at 1.
  destruct (getConn_dials sz t protocol addr now now' p Hok Hall Ht Hi Hn) as (p1 & -> & Hok1 & Hall1 & Hn1 & _).
  destruct (after_call_ok sz t protocol addr (next_ptr p) stream err p1 Hok1 Hall1) as (p' & E & H1 & H2 & H3).
  exists p'. split_and!; [|done|done|congruence]. unfold bind in *.
  destruct ((if stream then release protocol addr (next_ptr p) err else ret tt) p1) as [[[]|e| |] p2]; try done.
  destruct (or_zero tt _ p2) as [[[]|e| |] p3]; try done. by injection E as ->.
Qed.

Record pcall := mkPCall {
  pc_protocol : bytes; pc_addr : bytes; pc_now : Z; pc_now' : Z;
  pc_stream : bool; pc_err : option goerr
}.

(** Calls that each begin when [gc] has done with the one before; every [Dial]
    succeeds. *)
Fixpoint calls (l : list pcall) : ST pool (list nat) :=
  match l with
  | [] => ret []
  | c :: l =>
      i <- call_pool (pc_protocol c) (pc_addr c) (pc_now c) (pc_now' c) None (pc_stream c) (pc_err c) ;;
      ptrs <- calls l ;;
      ret (i :: ptrs)
  end.

(** The pool is of no use to calls made one after the other: whatever its
    size, each of them dials a new connection, because the collection of the
    call's stream closes the connection the call has just put back. *)
Lemma calls_dial sz t l :
  Forall (fun c => t < pc_now c /\ is_i64 (pc_now c) /\ 0 < pc_now' c) l ->
  exists p', calls l (newPool sz t) = (Ret (seq 0 (length l)), p').
Proof.
  intros Hl. assert (H : forall p, pool_ok sz t p [] -> all_closed p ->
    exists p', calls l p = (Ret (seq (next_ptr p) (length l)), p')).
  { induction Hl as [|c l (Ht & Hi & Hn) _ IH]; intros p Hok Hall; [by exists p|].
    cbn [calls length seq]. unfold bind at 1.
    destruct (call_pool_fresh sz t (pc_protocol c) (pc_addr c) (pc_now c) (pc_now' c) (pc_stream c)
      (pc_err c) p Hok Hall Ht Hi Hn) as (p1 & -> & Hok1 & Hall1 & Hn1).
    unfold bind. destruct (IH p1 Hok1 Hall1) as (p2 & ->). rewrite Hn1. by exists p2. }
  apply (H (newPool sz t) (newPool_ok sz t)). intros i (k & l' & Hk & _). cbn in Hk; by rewrite lookup_empty in Hk.
Qed.

(** The collection of one call's stream can close a connection that another
    call is using: a call releases the connection, a second one gets it from the
    pool, and then the first one's stream is collected. *)
Lemma gc_closes_in_use :
  exists s i, reachable 1 60 s /\ i ∈ s.2 /\ i ∈ closes s.1.
Proof.
  eexists (_, _), 0%nat. split.
  - eapply reach_step; [eapply reach_step; [eapply reach_step; [eapply reach_step; [apply reach_new|]|]|]|].
    + eapply (step_get [] [] 100 100 None); [vm_compute; reflexivity|lia|lia].
    + eapply (step_release [] [] 0 None _ [] []). vm_compute. reflexivity.
    + eapply (step_get [] [] 110 110 None); [vm_compute; reflexivity|lia|lia].
    + eapply (step_gc 0). vm_compute. reflexivity.
  - split; apply list_elem_of_singleton; reflexivity.
Qed.

(** ** Witnesses *)


