(* ===== verification/Registry.v ===== *)
(** * Service descriptions

    [registry/config.go] and [registry/service_url.go]: what a consumer asks
    for, what a provider offers, and the URL a provider is known by.  Strings
    are byte lists; [url.Values] is a map of lists. *)
From S2P Require Import Prelude.

(** ** Strings *)

(** [strings.Split(s, sep)] for a separator of one byte. *)
Fixpoint Split (sep : Z) (s : bytes) : list bytes :=
  match s with
  | [] => [[]]
  | c :: s =>
      if c =? sep then [] :: Split sep s
      else match Split sep s with
           | [] => [[c]]
           | w :: ws => (c :: w) :: ws
           end
  end.

(** [strings.Join(ws, sep)]. *)
Fixpoint Join (sep : Z) (ws : list bytes) : bytes :=
  match ws with
  | [] => []
  | [w] => w
  | w :: ws => w ++ sep :: Join sep ws
  end.

Definition comma : Z := 44.
Definition at_sign : Z := 64.

(** ** URLs *)

Abbreviation Values := (gmap bytes (list bytes)).

(** [url.Values.Get]: the first value, the empty string when there is none. *)
Definition Get (v : Values) (key : bytes) : bytes :=
  match v !! key with
  | Some (s :: _) => s
  | _ => []
  end.

Inductive ServiceURLEventType := ServiceURLAdd | ServiceURLDel | ServiceURLUpdate.

#[export] Instance event_type_eq_dec : EqDecision ServiceURLEventType.
Proof. solve_decision. Defined.

Definition ServiceURLEventType_String (t : ServiceURLEventType) : bytes :=
  match t with
  | ServiceURLAdd => lit "add service url"
  | ServiceURLDel => lit "delete service url"
  | ServiceURLUpdate => lit "update service url"
  end.

Record ServiceURL := mkURL {
  Protocol : bytes;
  Location : bytes;
  Path : bytes;
  Ip : bytes;
  Port : bytes;
  Version : bytes;
  Group : bytes;
  Query : Values;
  Weight : Z;
  PrimitiveURL : bytes
}.

#[export] Instance ServiceURL_eq_dec : EqDecision ServiceURL.
Proof. solve_decision. Defined.

(** [Service] is a pointer, [None] when nil. *)
Record ServiceURLEvent := mkEvent {
  Action : ServiceURLEventType;
  Service : option ServiceURL
}.

(** ** What is asked for *)

Record ServiceConfig := mkConfig {
  sc_Protocol : bytes;
  sc_Service : bytes;
  sc_Group : bytes;
  sc_Version : bytes
}.

#[export] Instance ServiceConfig_eq_dec : EqDecision ServiceConfig.
Proof. solve_decision. Defined.

Definition Key (c : ServiceConfig) : bytes := sc_Service c ++ at_sign :: sc_Protocol c.

Definition ServiceConfig_String (c : ServiceConfig) : bytes :=
  sc_Service c ++ lit "@" ++ sc_Protocol c ++ lit "-" ++ sc_Group c ++ lit "-" ++ sc_Version c.

Definition ServiceEqual (c : ServiceConfig) (url : ServiceURL) : bool :=
  if bool_decide (sc_Protocol c <> Protocol url) then false
  else if bool_decide (sc_Service c <> Get (Query url) (lit "interface")) then false
  else if bool_decide (sc_Group c <> Group url) then false
  else if bool_decide (sc_Version c <> Version url) then false
  else true.

(** [(s *ServiceURL) ServiceConfig()]. *)
Definition URL_ServiceConfig (s : ServiceURL) : ServiceConfig :=
  mkConfig (Protocol s) (Get (Query s) (lit "interface")) (Group s) (Version s).

Definition CheckMethod (s : ServiceURL) (method : bytes) : bool :=
  existsb (fun m => bool_decide (m = method)) (Split comma (Get (Query s) (lit "methods"))).

Record ProviderServiceConfig := mkProvider {
  ps_config : ServiceConfig;
  ps_Path : bytes;
  ps_Methods : bytes
}.

(** [ServiceConfigIf]: what implements the interface. *)
Inductive ServiceConfigIf :=
| IfConfig (c : ServiceConfig)
| IfProvider (c : ProviderServiceConfig).

Definition ProviderServiceConfig_String (c : ProviderServiceConfig) : bytes :=
  sc_Service (ps_config c) ++ lit "@" ++ sc_Protocol (ps_config c) ++ lit "-" ++ sc_Group (ps_config c)
    ++ lit "-" ++ sc_Version (ps_config c) ++ lit "-" ++ ps_Path c ++ lit "/" ++ ps_Methods c.

Definition Provider_ServiceEqual (c : ProviderServiceConfig) (url : ServiceURL) : bool :=
  let sc := ps_config c in
  if bool_decide (sc_Protocol sc <> Protocol url) then false
  else if bool_decide (sc_Service sc <> Get (Query url) (lit "interface")) then false
  else if bool_decide (sc_Group sc <> [] /\ sc_Group sc <> Group url) then false
  else if bool_decide (sc_Version sc <> [] /\ sc_Version sc <> Version url) then false
  else if bool_decide (ps_Path c <> Path url) then false
  else if bool_decide (ps_Methods c <> Get (Query url) (lit "methods")) then false
  else true.

(** ** Lemmas *)

Lemma Split_not_nil sep s : Split sep s <> [].
Proof. destruct s as [|c s]; cbn; [done|]. destruct (c =? sep); [done|]. by destruct (Split sep s). Qed.

Lemma Join_Split sep s : Join sep (Split sep s) = s.
Proof.
  induction s as [|c s IH]; [done|]. cbn [Split]. pose proof (Split_not_nil sep s) as Hn.
  destruct (c =? sep) eqn:E; zify_bool.
  - subst. rewrite <- IH at 2. cbn. by destruct (Split sep s).
  - rewrite <- IH at 2. destruct (Split sep s) as [|w [|w' ws]]; done.
Qed.

Lemma Split_no_sep sep w : sep ∉ w -> Split sep w = [w].
Proof.
  induction w as [|c w IH]; intros Hw; [done|]. cbn [Split].
  apply not_elem_of_cons in Hw as [Hc Hw]. apply not_eq_sym, Z.eqb_neq in Hc as ->. by rewrite IH.
Qed.

Lemma Split_app sep w s : sep ∉ w -> Split sep (w ++ sep :: s) = w :: Split sep s.
Proof.
  induction w as [|c w IH]; intros Hw; cbn [app Split]; [by rewrite Z.eqb_refl|].
  apply not_elem_of_cons in Hw as [Hc Hw]. apply not_eq_sym, Z.eqb_neq in Hc as ->. by rewrite IH.
Qed.

Lemma Split_Join sep ws : ws <> [] -> Forall (fun w => sep ∉ w) ws -> Split sep (Join sep ws) = ws.
Proof.
  induction ws as [|w ws IH]; intros Hn Hws; [done|]. inversion_clear Hws as [|? ? Hw Hws'].
  destruct ws as [|w' ws]; [by apply Split_no_sep|].
  change (Join sep (w :: w' :: ws)) with (w ++ sep :: Join sep (w' :: ws)).
  rewrite Split_app by done. by rewrite IH.
Qed.

Lemma Key_inj c1 c2 :
  at_sign ∉ sc_Protocol c1 -> at_sign ∉ sc_Protocol c2 -> Key c1 = Key c2 ->
  sc_Service c1 = sc_Service c2 /\ sc_Protocol c1 = sc_Protocol c2.
Proof.
  unfold Key. intros H1 H2 E. apply (f_equal reverse) in E.
  rewrite !reverse_app, !reverse_cons in E. rewrite <- !app_assoc in E. cbn in E.
  assert (Hcut : forall a b x y : bytes, at_sign ∉ a -> at_sign ∉ b ->
    a ++ at_sign :: x = b ++ at_sign :: y -> a = b /\ x = y).
  { induction a as [|z a IH]; intros [|z' b] x y Ha Hb Hab; cbn in Hab; simplify_eq; try done.
    - by apply not_elem_of_cons in Hb as [].
    - by apply not_elem_of_cons in Ha as [].
    - apply not_elem_of_cons in Ha as [_ Ha]. apply not_elem_of_cons in Hb as [_ Hb].
      destruct (IH b x y Ha Hb) as [-> ->]; done. }
  rewrite <- elem_of_reverse in H1, H2. destruct (Hcut _ _ _ _ H1 H2 E) as [Ha Hb].
  split; by apply (inj reverse).
Qed.

(** ** Properties *)

(** A consumer's configuration equals exactly the URLs it is the
    configuration of: an empty group or version is no wildcard. *)
Lemma ServiceEqual_iff c url : ServiceEqual c url = true <-> c = URL_ServiceConfig url.
Proof.
  unfold ServiceEqual, URL_ServiceConfig. destruct c as [p s g v]; cbn [sc_Protocol sc_Service sc_Group sc_Version].
  repeat case_bool_decide; split; intros H'; simplify_eq; try done.
Qed.

(** The cache's key tells two services or two protocols apart, and nothing
    else: configurations that differ in group or version only share a key. *)
Theorem Key_iff c1 c2 :
  at_sign ∉ sc_Protocol c1 -> at_sign ∉ sc_Protocol c2 ->
  Key c1 = Key c2 <-> sc_Service c1 = sc_Service c2 /\ sc_Protocol c1 = sc_Protocol c2.
Proof.
  intros H1 H2. split; [by apply Key_inj|]. intros [Hs Hp]. unfold Key. by rewrite Hs, Hp.
Qed.

(** A provider checks group and version only where its configuration names
    them; the rest must be equal. *)
Theorem Provider_ServiceEqual_iff c url :
  Provider_ServiceEqual c url = true <->
  let sc := ps_config c in
  sc_Protocol sc = Protocol url /\ sc_Service sc = Get (Query url) (lit "interface")
  /\ (sc_Group sc = [] \/ sc_Group sc = Group url) /\ (sc_Version sc = [] \/ sc_Version sc = Version url)
  /\ ps_Path c = Path url /\ ps_Methods c = Get (Query url) (lit "methods").
Proof.
  unfold Provider_ServiceEqual. cbv zeta.
  repeat case_bool_decide; split; intros H'; try done; try tauto.
  assert (Hor : forall a b : bytes, ~ (a <> [] /\ a <> b) -> a = [] \/ a = b).
  { intros a b Hab. destruct (decide (a = [])); [by left|right; apply dec_stable; tauto]. }
  split_and!; auto.
Qed.

(** A URL has the methods its query names between commas. *)
Lemma CheckMethod_iff s ms method :
  ms <> [] -> Forall (fun m => comma ∉ m) ms -> Get (Query s) (lit "methods") = Join comma ms ->
  CheckMethod s method = true <-> method ∈ ms.
Proof.
  intros Hn Hms E. unfold CheckMethod. rewrite E, Split_Join by done. rewrite existsb_exists. split.
  - intros (m & Hm & Heq). apply bool_decide_eq_true in Heq as ->. by apply list_elem_of_In.
  - intros Hm. exists method. split; [by apply list_elem_of_In|by apply bool_decide_eq_true].
Qed.
