(* ===== verification/Url.v ===== *)
(** * URLs

    What [registry/service_url.go] and [registry/zk/] use of Go's [net/url] and
    [net]: escaping, queries, [url.Parse] and [net.SplitHostPort], as of Go
    1.11; and [NewServiceURL], which reads a provider's node with them. *)
From stdpp Require Import sorting.
From S2P Require Import Prelude.
From S2P Require Import Registry.

(** ** Bytes *)

Definition is_upper (c : Z) : bool := between 65 90 c.
Definition is_lower (c : Z) : bool := between 97 122 c.
Definition is_alpha (c : Z) : bool := is_upper c || is_lower c.

(** [c] is one of the characters of [s]. *)
Definition one_of (s : string) (c : Z) : bool := existsb (Z.eqb c) (lit s).

Definition ishex (c : Z) : bool := is_digit c || between 97 102 c || between 65 70 c.

Definition unhex (c : Z) : Z :=
  if is_digit c then c - 48
  else if between 97 102 c then c - 97 + 10
  else if between 65 70 c then c - 65 + 10
  else 0.

(** ["0123456789ABCDEF"[n]]. *)
Definition upperhex (n : Z) : Z := if n <? 10 then 48 + n else 55 + n.

(** [strings.Index(s, sep)] for one byte, with the parts of [s] before and after
    it. *)
Fixpoint cut (sep : Z) (s : bytes) : option (bytes * bytes) :=
  match s with
  | [] => None
  | c :: s =>
      if c =? sep then Some ([], s)
      else match cut sep s with
           | Some (a, b) => Some (c :: a, b)
           | None => None
           end
  end.

(** The same for [strings.LastIndex]. *)
Fixpoint cut_last (sep : Z) (s : bytes) : option (bytes * bytes) :=
  match s with
  | [] => None
  | c :: s =>
      match cut_last sep s with
      | Some (a, b) => Some (c :: a, b)
      | None => if c =? sep then Some ([], s) else None
      end
  end.

(** [strings.ToLower] of ASCII. *)
Definition ToLower (s : bytes) : bytes := map (fun c => if is_upper c then c + 32 else c) s.

Fixpoint HasPrefix (s p : bytes) {struct p} : bool :=
  match p, s with
  | [], _ => true
  | x :: p, c :: s => (c =? x) && HasPrefix s p
  | _ :: _, [] => false
  end.

(** ** Escaping *)

Inductive encoding :=
| encodePath
| encodeHost
| encodeZone
| encodeUserPassword
| encodeQueryComponent
| encodeFragment.

Definition is_host (mode : encoding) : bool :=
  match mode with encodeHost | encodeZone => true | _ => false end.

Definition shouldEscape (c : Z) (mode : encoding) : bool :=
  if is_alpha c || is_digit c then false
  else if is_host mode && (one_of "!$&'()*+,;=:[]<>" c || (c =? 34)) then false
  else if one_of "-_.~" c then false
  else if one_of "$&+,/:;=?@" c then
    match mode with
    | encodePath => c =? 63
    | encodeUserPassword => one_of "@/?:" c
    | encodeFragment => false
    | encodeQueryComponent | encodeHost | encodeZone => true
    end
  else match mode with
       | encodeFragment => negb (one_of "!()*" c)
       | _ => true
       end.

Definition QueryEscape (s : bytes) : bytes :=
  flat_map (fun c =>
    if shouldEscape c encodeQueryComponent
    then if c =? 32 then [43] else [37; upperhex (c / 16); upperhex (c mod 16)]
    else [c]) s.

Definition EscapeError : goerr := Errorf "invalid URL escape %q".
Definition InvalidHostError : goerr := Errorf "invalid character %q in host name".

(** The escapes that a host name or a zone may not have. *)
Definition escape_refused (mode : encoding) (h l : Z) : bool :=
  let percent := (h =? 50) && (l =? 53) in
  let v := unhex h * 16 + unhex l in
  match mode with
  | encodeHost => (unhex h <? 8) && negb percent
  | encodeZone => negb percent && negb (v =? 32) && shouldEscape v encodeHost
  | _ => false
  end.

Fixpoint unescape (mode : encoding) (s : bytes) : result bytes :=
  match s with
  | [] => inr []
  | c :: t =>
      if c =? 37 then
        match t with
        | h :: l :: t =>
            if negb (ishex h && ishex l) then inl EscapeError
            else if escape_refused mode h l then inl EscapeError
            else r <~ unescape mode t ;; inr (unhex h * 16 + unhex l :: r)
        | _ => inl EscapeError
        end
      else if is_host mode && (c <? 128) && shouldEscape c mode then inl InvalidHostError
      else
        let c := match mode with
                 | encodeQueryComponent => if c =? 43 then 32 else c
                 | _ => c
                 end in
        r <~ unescape mode t ;; inr (c :: r)
  end.

Definition QueryUnescape : bytes -> result bytes := unescape encodeQueryComponent.

(** ** Queries *)

Definition amp : Z := 38.
Definition equals : Z := 61.

(** The order of strings, in which [Encode] sorts the keys. *)
Fixpoint bytes_le (a b : bytes) : bool :=
  match a, b with
  | [], _ => true
  | _ :: _, [] => false
  | x :: a, y :: b => (x <? y) || ((x =? y) && bytes_le a b)
  end.

(** [url.Values.Add]. *)
Definition Add (key value : bytes) (v : Values) : Values :=
  <[key := default [] (v !! key) ++ [value]]> v.

Definition sorted_keys (v : Values) : list bytes :=
  merge_sort (fun a b => Is_true (bytes_le a b)) (map_to_list v).*1.

Definition pair_text (k x : bytes) : bytes := QueryEscape k ++ equals :: QueryEscape x.

Definition Encode (v : Values) : bytes :=
  Join amp (flat_map (fun k => map (pair_text k) (default [] (v !! k))) (sorted_keys v)).

(** The pieces of a query between [&] and [;]. *)
Fixpoint pieces (s : bytes) : list bytes :=
  match s with
  | [] => [[]]
  | c :: s =>
      if one_of "&;" c then [] :: pieces s
      else match pieces s with
           | [] => [[c]]
           | w :: ws => (c :: w) :: ws
           end
  end.

Definition parse_piece (m : Values) (err : option goerr) (piece : bytes) : Values * option goerr :=
  match piece with
  | [] => (m, err)
  | _ =>
      let '(key, value) := default (piece, []) (cut equals piece) in
      match QueryUnescape key with
      | inl e => (m, Some (default e err))
      | inr key =>
          match QueryUnescape value with
          | inl e => (m, Some (default e err))
          | inr value => (Add key value m, err)
          end
      end
  end.

(** The values and the first error. *)
Definition parseQuery (s : bytes) : Values * option goerr :=
  fold_left (fun st p => parse_piece st.1 st.2 p) (pieces s) (∅, None).

Definition ParseQuery (s : bytes) : result Values :=
  match parseQuery s with
  | (m, None) => inr m
  | (_, Some e) => inl e
  end.

(** ** [url.Parse] *)

Record URL := mkRawURL {
  Scheme : bytes;
  Opaque : bytes;
  User : option (bytes * option bytes);
  Host : bytes;
  URL_Path : bytes;
  RawQuery : bytes;
  Fragment : bytes
}.

(** The part before the first colon, when it is a scheme. *)
Fixpoint getscheme_from (first : bool) (s : bytes) : result (option (bytes * bytes)) :=
  match s with
  | [] => inr None
  | c :: s =>
      if is_alpha c then
        r <~ getscheme_from false s ;;
        inr (match r with Some (a, b) => Some (c :: a, b) | None => None end)
      else if is_digit c || one_of "+-." c then
        if first then inr None
        else r <~ getscheme_from false s ;;
             inr (match r with Some (a, b) => Some (c :: a, b) | None => None end)
      else if c =? 58 then
        if first then inl (Errorf "missing protocol scheme") else inr (Some ([], s))
      else inr None
  end.

Definition getscheme (s : bytes) : result (bytes * bytes) :=
  r <~ getscheme_from true s ;; inr (default ([], s) r).

(** [split(s, c, true)]. *)
Definition split (c : Z) (s : bytes) : bytes * bytes := default (s, []) (cut c s).

Definition validOptionalPort (p : bytes) : bool :=
  match p with
  | [] => true
  | c :: ds => (c =? 58) && forallb is_digit ds
  end.

(** [strings.Index(host, ZONE)] for [%25]. *)
Fixpoint cut_zone (s : bytes) : option (bytes * bytes) :=
  if HasPrefix s (lit "%25") then Some ([], s)
  else match s with
       | [] => None
       | c :: s => match cut_zone s with
                   | Some (a, b) => Some (c :: a, b)
                   | None => None
                   end
       end.

Definition parseHost (host : bytes) : result bytes :=
  if HasPrefix host [91] then
    match cut_last 93 host with
    | None => inl (Errorf "missing ']' in host")
    | Some (addr, colonPort) =>
        if negb (validOptionalPort colonPort) then inl (Errorf "invalid port %q after host")
        else match cut_zone addr with
             | Some (host1, zone) =>
                 h1 <~ unescape encodeHost host1 ;;
                 h2 <~ unescape encodeZone zone ;;
                 h3 <~ unescape encodeHost (93 :: colonPort) ;;
                 inr (h1 ++ h2 ++ h3)
             | None => unescape encodeHost host
             end
    end
  else unescape encodeHost host.

Definition validUserinfo (s : bytes) : bool :=
  forallb (fun c => is_alpha c || is_digit c || one_of "-._:~!$&'()*+,;=%@" c) s.

Definition parseAuthority (authority : bytes) : result (option (bytes * option bytes) * bytes) :=
  match cut_last 64 authority with
  | None => host <~ parseHost authority ;; inr (None, host)
  | Some (userinfo, host) =>
      host <~ parseHost host ;;
      if negb (validUserinfo userinfo) then inl (Errorf "net/url: invalid userinfo")
      else match cut 58 userinfo with
           | None =>
               u <~ unescape encodeUserPassword userinfo ;; inr (Some (u, None), host)
           | Some (username, password) =>
               u <~ unescape encodeUserPassword username ;;
               p <~ unescape encodeUserPassword password ;;
               inr (Some (u, Some p), host)
           end
  end.

(** The rest and the query: a lone [?] at the end is no query. *)
Definition cut_query (rest : bytes) : bytes * bytes := split 63 rest.

Definition has_byte (c : Z) (s : bytes) : bool := existsb (Z.eqb c) s.

(** The first segment of a relative path has a colon. *)
Definition colon_in_first_segment (rest : bytes) : bool := has_byte 58 (split 47 rest).1.

Definition parse (rawurl : bytes) : result URL :=
  if bool_decide (rawurl = [42]) then inr (mkRawURL [] [] None [] [42] [] [])
  else
    sr <~ getscheme rawurl ;;
    let scheme := ToLower sr.1 in
    let '(rest, query) := cut_query sr.2 in
    if negb (HasPrefix rest [47]) && bool_decide (scheme <> []) then
      inr (mkRawURL scheme rest None [] [] query [])
    else if negb (HasPrefix rest [47]) && colon_in_first_segment rest then
      inl (Errorf "first path segment in URL cannot contain colon")
    else if (bool_decide (scheme <> []) || negb (HasPrefix rest [47; 47; 47])) && HasPrefix rest [47; 47] then
      let after := drop 2 rest in
      let '(authority, path) := match cut 47 after with
                                | Some (a, p) => (a, 47 :: p)
                                | None => (after, [])
                                end in
      uh <~ parseAuthority authority ;;
      path <~ unescape encodePath path ;;
      inr (mkRawURL scheme [] uh.1 uh.2 path query [])
    else
      path <~ unescape encodePath rest ;;
      inr (mkRawURL scheme [] None [] path query []).

Definition Parse (rawurl : bytes) : result URL :=
  let '(u, frag) := split 35 rawurl in
  url <~ parse u ;;
  match frag with
  | [] => inr url
  | _ =>
      f <~ unescape encodeFragment frag ;;
      inr (mkRawURL (Scheme url) (Opaque url) (User url) (Host url) (URL_Path url) (RawQuery url) f)
  end.

(** ** [net.SplitHostPort] *)

Definition missingPort : goerr := Errorf "missing port in address".
Definition tooManyColons : goerr := Errorf "too many colons in address".

Definition SplitHostPort (hostport : bytes) : result (bytes * bytes) :=
  match cut_last 58 hostport with
  | None => inl missingPort
  | Some (before, port) =>
      if HasPrefix hostport [91] then
          let inner := drop 1 hostport in
          match cut 93 inner with
          | None => inl (Errorf "missing ']' in address")
          | Some (host, after) =>
              match after with
              | [] => inl missingPort
              | c :: _ =>
                  if (length after =? S (length port))%nat then
                    if has_byte 91 inner then inl (Errorf "unexpected '[' in address")
                    else if has_byte 93 after then inl (Errorf "unexpected ']' in address")
                    else inr (host, port)
                  else if c =? 58 then inl tooManyColons else inl missingPort
              end
          end
      else
          if has_byte 58 before then inl tooManyColons
          else if has_byte 91 hostport then inl (Errorf "unexpected '[' in address")
          else if has_byte 93 hostport then inl (Errorf "unexpected ']' in address")
          else inr (before, port)
  end.

(** ** [NewServiceURL] *)

Definition NewServiceURL (urlString : bytes) : result ServiceURL :=
  match QueryUnescape urlString with
  | inl _ => inl (Errorf "url.QueryUnescape(%s),  error{%v}")
  | inr rawUrlString =>
      match Parse rawUrlString with
      | inl _ => inl (Errorf "url.Parse(url string{%s}),  error{%v}")
      | inr serviceUrl =>
          match ParseQuery (RawQuery serviceUrl) with
          | inl _ => inl (Errorf "url.ParseQuery(raw url string{%s}),  error{%v}")
          | inr query =>
              let url ip port :=
                mkURL (Scheme serviceUrl) (Host serviceUrl) (URL_Path serviceUrl) ip port
                  (Get query (lit "version")) (Get query (lit "group")) query 0 urlString in
              if has_byte 58 (Host serviceUrl) then
                match SplitHostPort (Host serviceUrl) with
                | inl _ => inl (Errorf "net.SplitHostPort(Url.Host{%s}), error{%v}")
                | inr (ip, port) => inr (url ip port)
                end
              else inr (url [] [])
          end
      end
  end.

(** ** Escaping and back *)

Lemma QueryEscape_app a b : QueryEscape (a ++ b) = QueryEscape a ++ QueryEscape b.
Proof. apply flat_map_app. Qed.

Lemma upperhex_ok n :
  0 <= n < 16 ->
  ishex (upperhex n) = true /\ unhex (upperhex n) = n /\ shouldEscape (upperhex n) encodeQueryComponent = false.
Proof.
  intros Hn.
  assert (Hall : forallb (fun n => ishex (upperhex n) && (unhex (upperhex n) =? n)
    && negb (shouldEscape (upperhex n) encodeQueryComponent)) (seqZ 0 16) = true) by (vm_compute; reflexivity).
  rewrite forallb_forall in Hall. specialize (Hall n).
  rewrite !andb_true_iff, Z.eqb_eq, negb_true_iff in Hall.
  destruct Hall as [[? ?] ?]; [|done]. apply list_elem_of_In, elem_of_seqZ. lia.
Qed.

Lemma nibbles c : is_byte c -> 0 <= c / 16 < 16 /\ 0 <= c mod 16 < 16.
Proof. unfold is_byte. intros Hc. Z.to_euclidean_division_equations. lia. Qed.

Lemma unescape_escaped c t :
  is_byte c ->
  QueryUnescape (QueryEscape [c] ++ t) = (r <~ QueryUnescape t ;; inr (c :: r)).
Proof.
  intros Hc. unfold QueryEscape. cbn [flat_map]. destruct (shouldEscape c encodeQueryComponent) eqn:E.
  - destruct (c =? 32) eqn:E2; zify_bool; [by subst|]. cbn [app QueryUnescape unescape].
    destruct (nibbles c Hc) as [Hh Hl].
    destruct (upperhex_ok _ Hh) as (H1 & H1' & _). destruct (upperhex_ok _ Hl) as (H2 & H2' & _).
    unfold QueryUnescape. cbn. rewrite H1, H2, H1', H2'. cbn.
    rewrite (Z.mul_comm (c / 16)), <- Z.div_mod by done. done.
  - cbn [app QueryUnescape unescape].
    assert (c <> 37) as ->%Z.eqb_neq by (by intros ->). unfold QueryUnescape. cbn.
    assert (c <> 43) as ->%Z.eqb_neq by (by intros ->). done.
Qed.

Lemma QueryEscape_cons c s : QueryEscape (c :: s) = QueryEscape [c] ++ QueryEscape s.
Proof. apply (QueryEscape_app [c]). Qed.

Lemma unescape_escape s : Forall is_byte s -> QueryUnescape (QueryEscape s) = inr s.
Proof.
  induction 1 as [|c s Hc _ IH]; [done|].
  rewrite QueryEscape_cons, unescape_escaped, IH by done. done.
Qed.

(** The characters that come out of [QueryEscape]. *)
Lemma QueryEscape_out s c :
  Forall is_byte s -> c ∈ QueryEscape s -> shouldEscape c encodeQueryComponent = false \/ c = 37 \/ c = 43.
Proof.
  intros Hs Hc. apply list_elem_of_In, in_flat_map in Hc as (x & Hx & Hc).
  assert (Hb : is_byte x) by (by eapply (proj1 (Forall_forall _ _) Hs), list_elem_of_In).
  destruct (shouldEscape x encodeQueryComponent) eqn:E; [|destruct Hc as [->|[]]; by left].
  destruct (x =? 32); [destruct Hc as [<-|[]]; auto|].
  destruct (nibbles x Hb). destruct Hc as [<-|[<-|[<-|[]]]]; [auto|left; by apply upperhex_ok..].
Qed.

Lemma QueryEscape_lacks s c :
  Forall is_byte s -> shouldEscape c encodeQueryComponent = true -> c <> 37 -> c <> 43 -> c ∉ QueryEscape s.
Proof. intros Hs E H1 H2 Hc. apply QueryEscape_out in Hc as [?|[?|?]]; congruence. Qed.

(** ** Cutting *)

Lemma cut_none sep s : sep ∉ s -> cut sep s = None.
Proof.
  induction s as [|c s IH]; intros Hs; [done|]. apply not_elem_of_cons in Hs as [Hc Hs].
  cbn. by rewrite (proj2 (Z.eqb_neq c sep) (not_eq_sym Hc)), IH.
Qed.

Lemma cut_app sep a b : sep ∉ a -> cut sep (a ++ sep :: b) = Some (a, b).
Proof.
  induction a as [|c a IH]; intros Ha; cbn; [by rewrite Z.eqb_refl|].
  apply not_elem_of_cons in Ha as [Hc Ha]. by rewrite (proj2 (Z.eqb_neq c sep) (not_eq_sym Hc)), IH.
Qed.

Lemma cut_last_none sep s : sep ∉ s -> cut_last sep s = None.
Proof.
  induction s as [|c s IH]; intros Hs; [done|]. apply not_elem_of_cons in Hs as [Hc Hs].
  cbn. by rewrite IH, (proj2 (Z.eqb_neq c sep) (not_eq_sym Hc)).
Qed.

Lemma cut_last_app sep a b : sep ∉ b -> cut_last sep (a ++ sep :: b) = Some (a, b).
Proof.
  intros Hb. induction a as [|c a IH]; cbn; [by rewrite cut_last_none, Z.eqb_refl|by rewrite IH].
Qed.

Lemma has_byte_spec c s : has_byte c s = bool_decide (c ∈ s).
Proof.
  unfold has_byte. case_bool_decide as Hc.
  - apply existsb_exists. exists c. rewrite Z.eqb_refl. split; [by apply list_elem_of_In|done].
  - apply not_true_iff_false. rewrite existsb_exists. intros (x & Hx & E). zify_bool. subst.
    by apply list_elem_of_In in Hx.
Qed.

(** ** Queries and back *)

Definition plain_query (s : bytes) : Prop := (amp ∉ s) /\ (59 ∉ s).

Lemma QueryEscape_plain s : Forall is_byte s -> plain_query (QueryEscape s) /\ (equals ∉ QueryEscape s) /\ (35 ∉ QueryEscape s).
Proof. intros Hs. repeat split; by apply QueryEscape_lacks. Qed.

Lemma pieces_not_nil s : pieces s <> [].
Proof. destruct s as [|c s]; [done|]. cbn [pieces]. destruct (one_of "&;" c); [done|]. by destruct (pieces s). Qed.

Lemma one_of_amp c : one_of "&;" c = true <-> c = amp \/ c = 59.
Proof. unfold one_of. cbn. rewrite !orb_true_iff, !Z.eqb_eq. unfold amp. intuition congruence. Qed.

Lemma pieces_plain w s :
  plain_query w -> pieces (w ++ s) = match pieces s with p :: ps => (w ++ p) :: ps | [] => [] end.
Proof.
  intros [Ha Hs]. pose proof (pieces_not_nil s). induction w as [|c w IH]; [cbn; by destruct (pieces s)|].
  apply not_elem_of_cons in Ha as [Hc Ha]. apply not_elem_of_cons in Hs as [Hc' Hs]. cbn [app pieces].
  assert (one_of "&;" c = false) as ->.
  { apply not_true_iff_false. intros Hone. apply one_of_amp in Hone as [->| ->]; done. }
  rewrite IH by done. by destruct (pieces s).
Qed.

Lemma pieces_Join ws : ws <> [] -> Forall plain_query ws -> pieces (Join amp ws) = ws.
Proof.
  induction ws as [|w ws IH]; intros Hn Hws; [done|]. apply Forall_cons in Hws as [Hw Hws].
  destruct ws as [|w' ws].
  - cbn. rewrite <- (app_nil_r w) at 1. rewrite pieces_plain by done. cbn. by rewrite app_nil_r.
  - change (Join amp (w :: w' :: ws)) with (w ++ amp :: Join amp (w' :: ws)). rewrite pieces_plain by done.
    cbn [pieces]. change (one_of "&;" amp) with true. cbn [app].
    rewrite IH by done. by rewrite app_nil_r.
Qed.

(** Keys and values are bytes and no key has an empty list. *)
Definition values_ok (v : Values) : Prop :=
  map_Forall (fun k xs => Forall is_byte k /\ xs <> [] /\ Forall (Forall is_byte) xs) v.

Lemma pair_text_plain k x :
  Forall is_byte k -> Forall is_byte x -> plain_query (pair_text k x) /\ 35 ∉ pair_text k x.
Proof.
  intros Hk Hx. destruct (QueryEscape_plain k Hk) as ([? ?] & _ & ?), (QueryEscape_plain x Hx) as ([? ?] & _ & ?).
  unfold pair_text, plain_query, amp, equals in *. rewrite !elem_of_app, !elem_of_cons. intuition lia.
Qed.

Lemma parse_pair m k x :
  Forall is_byte k -> Forall is_byte x -> parse_piece m None (pair_text k x) = (Add k x m, None).
Proof.
  intros Hk Hx. unfold parse_piece.
  assert (Hcut : cut equals (pair_text k x) = Some (QueryEscape k, QueryEscape x)).
  { apply cut_app. by destruct (QueryEscape_plain k Hk) as (_ & ? & _). }
  destruct (pair_text k x) as [|c t] eqn:E; [by destruct (QueryEscape k)|]. rewrite Hcut. cbn.
  by rewrite !unescape_escape.
Qed.

Definition parse_pieces (ws : list bytes) (st : Values * option goerr) : Values * option goerr :=
  fold_left (fun st p => parse_piece st.1 st.2 p) ws st.

Lemma parse_key k xs m :
  Forall is_byte k -> Forall (Forall is_byte) xs -> xs <> [] ->
  parse_pieces (map (pair_text k) xs) (m, None) = (<[k := default [] (m !! k) ++ xs]> m, None).
Proof.
  intros Hk Hxs Hn. revert m. induction Hxs as [|x xs Hx Hxs IH]; [done|]. intros m. cbn.
  rewrite parse_pair by done. destruct xs as [|x' xs]; [done|].
  fold (parse_pieces (map (pair_text k) (x' :: xs)) (Add k x m, None)). rewrite IH by done. unfold Add.
  rewrite lookup_insert_eq, insert_insert_eq. cbn. by rewrite <- app_assoc.
Qed.

Lemma parse_keys v ks m :
  values_ok v -> NoDup ks -> Forall (fun k => is_Some (v !! k) /\ m !! k = None) ks ->
  exists m', parse_pieces (flat_map (fun k => map (pair_text k) (default [] (v !! k))) ks) (m, None) = (m', None)
    /\ forall k, m' !! k = if bool_decide (k ∈ ks) then v !! k else m !! k.
Proof.
  intros Hv Hnd. revert m. induction Hnd as [|k ks Hk Hnd IH]; intros m Hks.
  - exists m. split; [done|]. intros k. by rewrite bool_decide_eq_false_2 by set_solver.
  - apply Forall_cons in Hks as [[[xs Hxs] Hm] Hks]. destruct (Hv _ _ Hxs) as (Hb & Hne & Hbs).
    cbn [flat_map]. rewrite Hxs. cbn [default]. unfold parse_pieces. rewrite fold_left_app.
    fold (parse_pieces (map (pair_text k) xs) (m, None)). rewrite parse_key, Hm by done.
    destruct (IH (<[k := xs]> m)) as (m' & E & Hm').
    { apply Forall_forall. intros k' Hk'. destruct (proj1 (Forall_forall _ _) Hks k' Hk') as [? ?].
      split; [done|]. by rewrite lookup_insert_ne by (intros ->; done). }
    exists m'. split; [exact E|]. intros k'. rewrite Hm'.
    destruct (decide (k' = k)) as [->|Hne'].
    + rewrite bool_decide_eq_false_2 by done. rewrite bool_decide_eq_true_2 by (by left).
      by rewrite lookup_insert_eq.
    + rewrite lookup_insert_ne by done.
      rewrite (bool_decide_ext (k' ∈ k :: ks) (k' ∈ ks)); [done|]. rewrite elem_of_cons. tauto.
Qed.

Lemma sorted_keys_ok v : NoDup (sorted_keys v) /\ forall k, k ∈ sorted_keys v <-> is_Some (v !! k).
Proof.
  assert (HP : sorted_keys v ≡ₚ (map_to_list v).*1) by apply merge_sort_Permutation.
  split; [rewrite HP; apply NoDup_fst_map_to_list|]. intros k. rewrite HP, list_elem_of_fmap. split.
  - intros ([k' x] & -> & Hx). apply elem_of_map_to_list in Hx. by exists x.
  - intros [x Hx]. exists (k, x). split; [done|]. by apply elem_of_map_to_list.
Qed.

Lemma pairs_plain v ks :
  values_ok v -> Forall (fun w => plain_query w /\ 35 ∉ w) (flat_map (fun k => map (pair_text k) (default [] (v !! k))) ks).
Proof.
  intros Hv. apply Forall_forall. intros w Hw. apply list_elem_of_In, in_flat_map in Hw as (k & _ & Hw).
  apply in_map_iff in Hw as (x & <- & Hx). destruct (v !! k) as [xs|] eqn:E; [|done].
  destruct (Hv _ _ E) as (Hk & _ & Hxs). apply pair_text_plain; [done|].
  eapply (proj1 (Forall_forall _ _) Hxs). by apply list_elem_of_In.
Qed.

Lemma pairs_nil v : values_ok v ->
  flat_map (fun k => map (pair_text k) (default [] (v !! k))) (sorted_keys v) = [] -> v = ∅.
Proof.
  intros Hv E. apply map_eq. intros k. rewrite lookup_empty. apply eq_None_not_Some. intros [xs Hxs].
  destruct (Hv _ _ Hxs) as (_ & Hn & _). destruct xs as [|x xs]; [done|].
  assert (Hin : In (pair_text k x) []); [|done]. rewrite <- E. apply in_flat_map. exists k. split.
  - apply list_elem_of_In, sorted_keys_ok. by exists (x :: xs).
  - rewrite Hxs. by left.
Qed.

Lemma parse_encode v : values_ok v -> ParseQuery (Encode v) = inr v.
Proof.
  intros Hv. destruct (sorted_keys_ok v) as [Hnd Hks]. unfold ParseQuery, parseQuery, Encode.
  pose proof (pairs_nil v Hv) as Hnil.
  destruct (flat_map _ _) as [|w ws] eqn:E.
  { rewrite Hnil by done. done. }
  rewrite pieces_Join; [|done|].
  2:{ rewrite <- E. eapply Forall_impl; [by apply pairs_plain|]. by intros w' []. }
  rewrite <- E. fold (parse_pieces (flat_map (fun k => map (pair_text k) (default [] (v !! k))) (sorted_keys v)) (∅, None)).
  destruct (parse_keys v (sorted_keys v) ∅ Hv Hnd) as (m' & -> & Hm').
  { apply Forall_forall. intros k Hk. split; [by apply Hks|apply lookup_empty]. }
  f_equal. apply map_eq. intros k. rewrite Hm'. case_bool_decide as Hk; [done|].
  rewrite lookup_empty. symmetry. apply eq_None_not_Some. by rewrite <- Hks.
Qed.

Lemma Encode_no_hash v : values_ok v -> 35 ∉ Encode v.
Proof.
  intros Hv. unfold Encode. pose proof (pairs_plain v (sorted_keys v) Hv) as Hws.
  induction Hws as [|w ws [_ Hw] _ IH]; [set_solver|]. destruct ws as [|w' ws]; [done|].
  change (Join amp (w :: w' :: ws)) with (w ++ amp :: Join amp (w' :: ws)).
  rewrite elem_of_app, elem_of_cons. intros [?|[?|?]]; done.
Qed.

(** ** A provider's URL read *)

Definition host_char (c : Z) : bool := between 0 127 c && negb (shouldEscape c encodeHost) && negb (c =? 91).
Definition scheme_ok (p : bytes) : bool :=
  match p with
  | [] => false
  | c :: _ => is_lower c && forallb (fun c => is_lower c || is_digit c || one_of "+-." c) p
  end.
Definition path_char (c : Z) : bool := between 0 255 c && negb (one_of "#%?" c).

Definition url_text (proto host path query : bytes) : bytes :=
  proto ++ lit "://" ++ host ++ lit "/" ++ path ++ lit "?" ++ query.

Lemma forallb_lacks (f : Z -> bool) s c : forallb f s = true -> f c = false -> c ∉ s.
Proof. intros Hs Hc Hin. rewrite forallb_forall in Hs. rewrite Hs in Hc; [done|]. by apply list_elem_of_In. Qed.

Lemma forallb_bytes (f : Z -> bool) s :
  (forall c, f c = true -> is_byte c) -> forallb f s = true -> Forall is_byte s.
Proof. intros Hf Hs. apply Forall_forall. intros c Hc. rewrite forallb_forall in Hs. by apply Hf, Hs, list_elem_of_In. Qed.


Lemma unescape_host s : forallb host_char s = true -> unescape encodeHost s = inr s.
Proof.
  induction s as [|c s IH]; [done|]. intros Hs. apply andb_true_iff in Hs as [Hc Hs].
  unfold host_char in Hc. rewrite !andb_true_iff, !negb_true_iff in Hc. destruct Hc as [[_ Hc] _].
  cbn [unescape is_host]. rewrite Hc, !andb_false_r, IH by done.
  assert (c <> 37) as ->%Z.eqb_neq by (by intros ->). done.
Qed.

Lemma unescape_path s : 37 ∉ s -> unescape encodePath s = inr s.
Proof.
  induction s as [|c s IH]; intros Hs; [done|]. apply not_elem_of_cons in Hs as [Hc Hs].
  cbn [unescape is_host]. rewrite IH, (proj2 (Z.eqb_neq c 37) (not_eq_sym Hc)) by done. done.
Qed.

Lemma lower_alpha c : is_lower c = true -> is_alpha c = true.
Proof. unfold is_alpha. intros ->. apply orb_true_r. Qed.

Lemma getscheme_tail p rest :
  forallb (fun c => is_lower c || is_digit c || one_of "+-." c) p = true ->
  getscheme_from false (p ++ 58 :: rest) = inr (Some (p, rest)).
Proof.
  induction p as [|c p IH]; [done|]. intros Hp. apply andb_true_iff in Hp as [Hc Hp]. cbn [app getscheme_from].
  rewrite IH by done. cbn [rbind].
  destruct (is_alpha c) eqn:E1; [done|]. rewrite <- orb_assoc in Hc.
  apply orb_true_iff in Hc as [Hc%lower_alpha|Hc]; [congruence|]. by rewrite Hc.
Qed.

Lemma getscheme_ok p rest : scheme_ok p = true -> getscheme (p ++ 58 :: rest) = inr (p, rest).
Proof.
  destruct p as [|c p]; [done|]. intros Hp. apply andb_true_iff in Hp as [Hc Hp]. apply andb_true_iff in Hp as [_ Hp].
  unfold getscheme. cbn [app getscheme_from]. rewrite lower_alpha, getscheme_tail by done. done.
Qed.

Lemma scheme_lower p : scheme_ok p = true -> ToLower p = p.
Proof.
  intros Hp. assert (Hall : forallb (fun c => is_lower c || is_digit c || one_of "+-." c) p = true).
  { destruct p; [done|]. by apply andb_true_iff in Hp as [_ Hp]. }
  clear Hp. induction p as [|c p IH]; [done|]. apply andb_true_iff in Hall as [Hc Hp]. cbn. f_equal; [|by apply IH].
  destruct (is_upper c) eqn:E; [|done]. apply between_spec in E. exfalso.
  rewrite !orb_true_iff in Hc. unfold is_lower, is_digit in Hc. rewrite !between_spec in Hc. cbn in Hc.
  rewrite !orb_true_iff, !Z.eqb_eq in Hc. lia.
Qed.

Lemma host_not_bracket h s : forallb host_char h = true -> HasPrefix (h ++ 47 :: s) [91] = false /\ HasPrefix h [91] = false.
Proof.
  destruct h as [|c h]; [done|]. intros Hh. apply andb_true_iff in Hh as [Hc _].
  unfold host_char in Hc. rewrite !andb_true_iff, !negb_true_iff in Hc. destruct Hc as [_ Hc].
  cbn. by rewrite Hc.
Qed.

Lemma parse_text proto host path query :
  scheme_ok proto = true -> forallb host_char host = true -> forallb path_char path = true ->
  parse (url_text proto host path query) = inr (mkRawURL proto [] None host (47 :: path) query []).
Proof.
  intros Hp Hh Hpath. unfold parse, url_text. rewrite bool_decide_eq_false_2 by (destruct proto as [|? [|]]; done).
  change (lit "://" ++ ?r) with (58 :: 47 :: 47 :: r). rewrite getscheme_ok by done. cbn [rbind fst snd].
  rewrite scheme_lower by done. unfold cut_query, split.
  change (lit "/" ++ ?r) with (47 :: r). change (lit "?" ++ query) with (63 :: query).
  assert (Hq : 63 ∉ 47 :: 47 :: host ++ 47 :: path).
  { rewrite !not_elem_of_cons, not_elem_of_app, not_elem_of_cons.
    repeat split; [done..|by eapply forallb_lacks|done|by eapply forallb_lacks]. }
  replace (47 :: 47 :: host ++ 47 :: path ++ 63 :: query) with ((47 :: 47 :: host ++ 47 :: path) ++ 63 :: query)
    by (cbn; by rewrite <- app_assoc).
  rewrite cut_app by done. cbn [from_option id].
  rewrite (bool_decide_eq_true_2 (proto <> [])) by (by destruct proto).
  cbn [HasPrefix negb andb orb drop]. change (47 =? 47) with true. cbn [HasPrefix negb andb orb].
  rewrite drop_0, cut_app by (by eapply forallb_lacks). unfold parseAuthority.
  rewrite cut_last_none by (by eapply forallb_lacks). unfold parseHost.
  rewrite (proj2 (host_not_bracket host [] Hh)), unescape_host by done. cbn [rbind].
  rewrite unescape_path; [done|]. apply not_elem_of_cons. split; [done|]. by eapply forallb_lacks.
Qed.

Lemma Parse_text proto host path query :
  scheme_ok proto = true -> forallb host_char host = true -> forallb path_char path = true -> 35 ∉ query ->
  Parse (url_text proto host path query) = inr (mkRawURL proto [] None host (47 :: path) query []).
Proof.
  intros Hp Hh Hpath Hq. unfold Parse, split. rewrite cut_none.
  - cbn. by rewrite parse_text.
  - unfold url_text. rewrite !not_elem_of_app.
    assert (35 ∉ proto).
    { destruct proto; [done|]. apply andb_true_iff in Hp as [_ Hp]. by eapply forallb_lacks. }
    repeat split; try done; try (by eapply forallb_lacks); by apply (bool_decide_unpack _).
Qed.

Lemma SplitHostPort_ok ip port :
  forallb host_char ip = true -> forallb host_char port = true ->
  58 ∉ ip -> 58 ∉ port -> 93 ∉ ip -> 93 ∉ port ->
  SplitHostPort (ip ++ 58 :: port) = inr (ip, port).
Proof.
  intros Hi Hp Hic Hpc Hib Hpb. unfold SplitHostPort. rewrite cut_last_app by done.
  assert (H91 : forall s, forallb host_char s = true -> 91 ∉ s) by (intros s Hs; by eapply forallb_lacks).
  replace (HasPrefix (ip ++ 58 :: port) [91]) with false.
  2:{ pose proof (H91 ip Hi) as Hn. destruct ip as [|c ip]; [done|]. apply not_elem_of_cons in Hn as [Hn _].
      cbn. by rewrite (proj2 (Z.eqb_neq c 91) (not_eq_sym Hn)). }
  rewrite !has_byte_spec, !bool_decide_eq_false_2; [done|..].
  - rewrite not_elem_of_app, not_elem_of_cons. by repeat split.
  - rewrite not_elem_of_app, not_elem_of_cons. by repeat split; [apply H91| |apply H91].
  - done.
Qed.

(** What [NewServiceURL] makes of a node that a provider has registered. *)
Lemma NewServiceURL_text proto host path v :
  scheme_ok proto = true -> forallb host_char host = true -> forallb path_char path = true -> values_ok v ->
  let node := QueryEscape (url_text proto host path (Encode v)) in
  Forall is_byte (url_text proto host path (Encode v)) ->
  NewServiceURL node =
    (ipport <~ (if has_byte 58 host then
                  match SplitHostPort host with
                  | inl _ => inl (Errorf "net.SplitHostPort(Url.Host{%s}), error{%v}")
                  | inr r => inr r
                  end
                else inr ([], [])) ;;
     inr (mkURL proto host (47 :: path) ipport.1 ipport.2 (Get v (lit "version")) (Get v (lit "group")) v 0 node)).
Proof.
  intros Hp Hh Hpath Hv node Hb. unfold NewServiceURL. unfold node at 1. rewrite unescape_escape by done.
  rewrite Parse_text by (done || by apply Encode_no_hash). cbn [RawQuery]. rewrite parse_encode by done.
  cbn [Scheme Host URL_Path]. destruct (has_byte 58 host); [|done].
  destruct (SplitHostPort host) as [e|[ip port]]; done.
Qed.

(** ** Properties *)

(** What [QueryEscape] makes of a string, [QueryUnescape] takes back. *)
Lemma QueryUnescape_QueryEscape s : Forall is_byte s -> QueryUnescape (QueryEscape s) = inr s.
Proof. apply unescape_escape. Qed.

(** A query that [Encode] writes is parsed to the values it was written
    from, whatever their characters. *)
Lemma ParseQuery_Encode v : values_ok v -> ParseQuery (Encode v) = inr v.
Proof. apply parse_encode. Qed.

