(* ===== verification/Common.v ===== *)
(** * Paths and numbers as text

    [common/misc.go], [version/version.go], and what the registry uses of Go's
    [path] and [strconv]: [path.Clean], [path.Join], [strconv.Itoa]. *)
From S2P Require Import Prelude.
From S2P Require Import Registry.

(** ** [common/misc.go] *)

Definition TimeSecondDuration (sec : Z) : Z := i64 (i64 sec * 10 ^ 9).

Fixpoint Contains (s : list bytes) (e : bytes) : bool :=
  match s with
  | [] => false
  | a :: s => if bool_decide (a = e) then true else Contains s e
  end.

(** [strings.HasSuffix(s, suffix)] with the rest of [s]. *)
Definition cut_suffix (s suffix : bytes) : option bytes :=
  let n := (length s - length suffix)%nat in
  if (length suffix <=? length s)%nat && bool_decide (drop n s = suffix) then Some (take n s) else None.

Definition TrimSuffix (s suffix : bytes) : bytes := default s (cut_suffix s suffix).

Definition TrimPrefix (s prefix : bytes) : bytes :=
  if bool_decide (take (length prefix) s = prefix) then drop (length prefix) s else s.

(** [version/version.go]. *)
Definition version_Version : bytes := lit "0.2.0".
Definition version_Name : bytes := lit "dubbogo".

(** ** [strconv.Itoa] *)

Fixpoint digits (fuel : nat) (n : Z) (acc : bytes) : bytes :=
  match fuel with
  | O => acc
  | S fuel =>
      let acc := 48 + n mod 10 :: acc in
      if n <? 10 then acc else digits fuel (n / 10) acc
  end.

(** An [int] has at most 19 digits. *)
Definition Itoa (n : Z) : bytes := if n <? 0 then 45 :: digits 20 (- n) [] else digits 20 n [].

(** ** [strconv.Atoi], [strconv.ParseUint] *)

Definition digits_value (s : bytes) : Z := fold_left (fun n b => 10 * n + (b - 48)) s 0.

(** [strconv.Atoi]; [None] for an error. *)
Definition Atoi (s : bytes) : option Z :=
  let '(neg, ds) :=
    match s with
    | c :: t => if c =? 45 then (true, t) else if c =? 43 then (false, t) else (false, s)
    | [] => (false, [])
    end in
  if (length ds =? 0)%nat || negb (forallb is_digit ds) then None
  else
    let n := if neg : bool then - digits_value ds else digits_value ds in
    if (- 2 ^ 63 <=? n) && (n <? 2 ^ 63) then Some n else None.

(** [strconv.ParseUint(s, 10, 64)]. *)
Definition ParseUint (s : bytes) : option Z :=
  if (length s =? 0)%nat || negb (forallb is_digit s) then None
  else if digits_value s <? 2 ^ 64 then Some (digits_value s) else None.

(** ** [path] *)

Definition slash : Z := 47.

(** One element of a path, with those before it in reverse. *)
Definition clean_step (rooted : bool) (st : list bytes) (e : bytes) : list bytes :=
  if bool_decide (e = []) || bool_decide (e = [46]) then st
  else if bool_decide (e = [46; 46]) then
    match st with
    | x :: st' => if bool_decide (x = [46; 46]) then e :: st else st'
    | [] => if rooted then [] else [e]
    end
  else e :: st.

Definition Clean (path : bytes) : bytes :=
  match path with
  | [] => [46]
  | c :: _ =>
      let rooted := c =? slash in
      let out := Join slash (reverse (fold_left (clean_step rooted) (Split slash path) [])) in
      if rooted then slash :: out
      else match out with [] => [46] | _ => out end
  end.

Fixpoint path_Join (elems : list bytes) : bytes :=
  match elems with
  | [] => []
  | [] :: rest => path_Join rest
  | _ => Clean (Join slash elems)
  end.

(** ** Maps

    The order in which Go ranges over a map is not specified. *)
Class MapRange := {
  range : forall {A}, gmap bytes A -> list (bytes * A);
  range_perm {A} (m : gmap bytes A) : range m ≡ₚ map_to_list m
}.

#[export] Instance sorted_range : MapRange := {|
  range A m := map_to_list m;
  range_perm A m := Permutation_refl (map_to_list m)
|}.

(** ** Lemmas *)

Lemma Contains_spec s e : Contains s e = bool_decide (e ∈ s).
Proof.
  induction s as [|a s IH]; cbn; [done|]. rewrite IH. destruct (decide (a = e)) as [->|Hne].
  - rewrite !bool_decide_eq_true_2; [done|by left|done].
  - rewrite (bool_decide_eq_false_2 (a = e)) by done. apply bool_decide_ext. rewrite elem_of_cons.
    intuition congruence.
Qed.

Lemma TrimSuffix_app s suffix : TrimSuffix (s ++ suffix) suffix = s.
Proof.
  unfold TrimSuffix, cut_suffix. rewrite length_app.
  replace (length s + length suffix - length suffix)%nat with (length s) by lia.
  rewrite drop_app_length, bool_decide_eq_true_2 by done.
  rewrite (proj2 (Nat.leb_le _ _)) by lia. cbn. apply take_app_length.
Qed.

(** An element of a path that names one node. *)
Definition plain_name (s : bytes) : Prop := s <> [] /\ (slash ∉ s) /\ s <> [46] /\ s <> [46; 46].

#[export] Instance plain_name_dec s : Decision (plain_name s).
Proof. unfold plain_name. apply _. Defined.

(** The absolute path with these elements. *)
Definition abs_path (names : list bytes) : bytes := slash :: Join slash names.

Lemma clean_plain rooted st s : plain_name s -> clean_step rooted st s = s :: st.
Proof. intros (H1 & _ & H2 & H3). unfold clean_step. by rewrite !bool_decide_eq_false_2. Qed.

Lemma clean_names rooted names st :
  Forall plain_name names -> fold_left (clean_step rooted) names st = reverse names ++ st.
Proof.
  intros Hn. revert st. induction Hn as [|n names Hn _ IH]; intros st; [done|]. cbn [fold_left].
  by rewrite IH, reverse_cons, <- app_assoc, clean_plain.
Qed.

Lemma plain_no_slash names : Forall plain_name names -> Forall (fun w => slash ∉ w) names.
Proof. intros Hn. eapply Forall_impl; [exact Hn|]. by intros n (_ & ? & _). Qed.

Lemma Split_cat names s :
  names <> [] -> Forall plain_name names -> Split slash (Join slash names ++ slash :: s) = names ++ Split slash s.
Proof.
  induction names as [|n names IH]; intros Hne Hn; [done|]. inversion_clear Hn as [|? ? (_ & Hs & _) Hns].
  destruct names as [|n' names]; [cbn; by rewrite Split_app|].
  change (Join slash (n :: n' :: names)) with (n ++ slash :: Join slash (n' :: names)).
  rewrite <- app_assoc. cbn [app]. rewrite Split_app by done. rewrite IH by done. done.
Qed.

Lemma clean_skip rooted st l : fold_left (clean_step rooted) ([] :: l) st = fold_left (clean_step rooted) l st.
Proof. done. Qed.

Lemma Clean_abs names : Forall plain_name names -> Clean (abs_path names) = abs_path names.
Proof.
  intros Hn. unfold Clean, abs_path. change (slash =? slash) with true. cbn [Split]. change (slash =? slash) with true.
  cbv iota. rewrite clean_skip. destruct names as [|n names]; [done|].
  rewrite Split_Join by (done || by apply plain_no_slash). rewrite clean_names, app_nil_r, reverse_involutive by done. done.
Qed.

(** The loop of [Create] extends the path by one element. *)
Lemma Join_root s : plain_name s -> path_Join [[]; [slash]; s] = abs_path [s].
Proof.
  intros Hs. cbn [path_Join].
  unfold Clean. cbn [Join app]. change (slash =? slash) with true. cbv iota.
  cbn [Split]. change (slash =? slash) with true. cbv iota. rewrite !clean_skip, Split_no_sep by apply Hs.
  cbn [fold_left]. by rewrite clean_plain.
Qed.

Lemma Join_abs names s :
  names <> [] -> Forall plain_name names -> plain_name s ->
  path_Join [abs_path names; [slash]; s] = abs_path (names ++ [s]).
Proof.
  intros Hne Hn Hs. unfold path_Join, abs_path. cbn [Join].
  unfold Clean. change (slash =? slash) with true. cbn [app Split]. change (slash =? slash) with true. cbv iota zeta.
  rewrite clean_skip, Split_cat by done. cbn [Split]. change (slash =? slash) with true. cbv iota.
  rewrite Split_no_sep by apply Hs.
  rewrite fold_left_app, (clean_names _ names) by done. rewrite ?clean_skip. cbn [fold_left].
  by rewrite clean_plain, app_nil_r, reverse_cons, reverse_involutive by done.
Qed.

Lemma abs_path_snoc names s : names <> [] -> abs_path (names ++ [s]) = abs_path names ++ slash :: s.
Proof.
  intros Hne. unfold abs_path. cbn. f_equal. induction names as [|n names IH]; [done|].
  destruct names as [|n' names]; [done|]. change ((n :: n' :: names) ++ [s]) with (n :: ((n' :: names) ++ [s])).
  change (Join slash (n :: n' :: names)) with (n ++ slash :: Join slash (n' :: names)).
  rewrite <- app_assoc. cbn [app]. rewrite <- IH by done. done.
Qed.

(** *** Numbers *)

Lemma digits_all (P : Z -> Prop) fuel n acc :
  (forall d, 0 <= d < 10 -> P (48 + d)) -> 0 <= n -> Forall P acc -> Forall P (digits fuel n acc).
Proof.
  intros HP. revert n acc. induction fuel as [|fuel IH]; intros n acc Hn Ha; [done|]. cbn [digits].
  assert (Hd : Forall P (48 + n mod 10 :: acc)) by (constructor; [apply HP, Z.mod_pos_bound; lia|done]).
  destruct (n <? 10); [done|]. apply IH; [|done]. by apply Z.div_pos.
Qed.

Lemma Itoa_all (P : Z -> Prop) n : (forall d, 0 <= d < 10 -> P (48 + d)) -> P 45 -> Forall P (Itoa n).
Proof.
  intros HP H45. unfold Itoa. destruct (n <? 0) eqn:E; zify_bool.
  - constructor; [done|]. apply digits_all; [done|lia|constructor].
  - by apply digits_all.
Qed.

Lemma digits_fold fuel : forall n acc,
  0 <= n < 10 ^ Z.of_nat fuel -> (0 < fuel)%nat ->
  fold_left (fun n b => 10 * n + (b - 48)) (digits fuel n acc) 0 = fold_left (fun n b => 10 * n + (b - 48)) acc n.
Proof.
  induction fuel as [|fuel IH]; intros n acc Hn Hf; [lia|]. cbn [digits]. pose proof (Z.div_mod n 10 ltac:(lia)) as Hd.
  destruct (n <? 10) eqn:E; zify_bool.
  - cbn [fold_left]. f_equal. rewrite Z.mod_small by lia. lia.
  - rewrite Nat2Z.inj_succ, Z.pow_succ_r in Hn by lia. destruct fuel as [|fuel]; [cbn in Hn; lia|].
    rewrite IH; [|split; [apply Z.div_pos; lia|apply Z.div_lt_upper_bound; lia]|lia]. cbn [fold_left]. f_equal. lia.
Qed.

Lemma digits_length fuel : forall n acc, (Nat.min 1 fuel + length acc <= length (digits fuel n acc))%nat.
Proof.
  induction fuel as [|fuel IH]; intros n acc; [done|]. cbn [digits]. destruct (n <? 10); [done|].
  specialize (IH (n / 10) (48 + n mod 10 :: acc)). cbn in *. lia.
Qed.

Lemma ParseUint_Itoa n : 0 <= n < 2 ^ 64 -> ParseUint (Itoa n) = Some n.
Proof.
  intros Hn. unfold Itoa. replace (n <? 0) with false by lia. unfold ParseUint.
  assert (Hd : digits_value (digits 20 n []) = n) by (apply digits_fold; lia).
  pose proof (digits_length 20 n []) as Hl. change (Nat.min 1 20 + length [])%nat with 1%nat in Hl.
  rewrite (proj2 (Nat.eqb_neq _ _)) by lia.
  assert (Hall : forallb is_digit (digits 20 n []) = true).
  { apply forallb_forall. intros d Hd'. apply list_elem_of_In in Hd'. revert d Hd'. apply Forall_forall, digits_all; [|lia|done].
    intros d Hd'. apply between_spec. lia. }
  rewrite Hall, Hd. cbn [negb orb]. by replace (n <? 2 ^ 64) with true by lia.
Qed.

Lemma Itoa_digits n : 0 <= n -> forallb is_digit (Itoa n) = true.
Proof.
  intros Hn. unfold Itoa. replace (n <? 0) with false by lia. apply forallb_forall. intros d Hd. apply list_elem_of_In in Hd.
  revert d Hd. apply Forall_forall, digits_all; [|lia|done]. intros d Hd. apply between_spec. lia.
Qed.

Lemma Atoi_Itoa n : 0 <= n < 2 ^ 63 -> Atoi (Itoa n) = Some n.
Proof.
  intros Hn. pose proof (ParseUint_Itoa n ltac:(lia)) as E. pose proof (Itoa_digits n ltac:(lia)) as Hall.
  unfold ParseUint in E. rewrite Hall in E. unfold Atoi. destruct (Itoa n) as [|c t] eqn:Ei; [done|].
  cbn [forallb] in Hall. apply andb_true_iff in Hall as [Hc Ht]. apply between_spec in Hc as Hc'.
  replace (c =? 45) with false by lia. replace (c =? 43) with false by lia. cbn [forallb]. rewrite Hc, Ht.
  cbn [length Nat.eqb orb negb andb] in E |- *. destruct (digits_value (c :: t) <? 2 ^ 64); [|done]. injection E as ->.
  by replace ((- 2 ^ 63 <=? n) && (n <? 2 ^ 63)) with true by lia.
Qed.
