(* ===== verification/Zookeeper.v ===== *)
(** * The zookeeper client

    [registry/zk/zk_client.go]: a connection of [github.com/samuel/go-zookeeper],
    which is the class [Zookeeper] here, with what the registry does on it.
    [ZkTree] has what zookeeper documents about its tree of nodes; [Tree] is a
    server that does so. *)
From S2P Require Import Prelude.
From S2P Require Import Registry Url Common.

(** ** The library *)

(** The calls on a connection; the world [W] has the servers.  The boolean of
    [zk_Children] says that the [Stat] is not nil; [Wch] are the channels on
    which a watch's event comes. *)
Class Zookeeper (W Conn Wch : Type) := {
  zk_Connect : list bytes -> Z -> ST W Conn;
  zk_Create : Conn -> bytes -> bytes -> Z -> ST W bytes;
  zk_Delete : Conn -> bytes -> Z -> ST W unit;
  zk_Children : Conn -> bytes -> ST W (list bytes * bool);
  zk_ChildrenW : Conn -> bytes -> ST W (list bytes * bool * Wch);
  zk_ExistsW : Conn -> bytes -> ST W (bool * Wch);
  zk_Close : Conn -> W -> W;
  ErrNodeExists : goerr;
  ErrNoNode : goerr;
  FlagEphemeral : Z;
  FlagSequence : Z
}.

(** The numbers of its states and types of events. *)
Class ZkConstants := {
  StateDisconnected : Z;
  StateConnecting : Z;
  StateConnected : Z;
  StateHasSession : Z;
  StateAuthFailed : Z;
  StateConnectedReadOnly : Z;
  StateSaslAuthenticated : Z;
  StateExpired : Z;
  StateUnknown : Z;
  EventNodeCreated : Z;
  EventNodeDeleted : Z;
  EventNodeDataChanged : Z;
  EventNodeChildrenChanged : Z;
  EventNotWatching : Z;
  State_String : Z -> bytes
}.

Record zk_Event := mkZkEvent {
  ev_Type : Z;
  ev_State : Z;
  ev_Path : bytes
}.

(** ** The client *)

Definition ZK_CLIENT_CONN_NIL_ERR : goerr := Errorf "zookeeperclient{conn} is nil".
Definition MAX_TIMES : Z := 15.
Definition ZKCLIENT_EVENT_CHANNEL_SIZE : nat := 4.

(** The channels of [eventRegistry] are known by their number; [exit] is
    true when the channel is closed. *)
Record zookeeperClient (Conn : Type) := mkZkClient {
  z_name : bytes;
  zkAddrs : list bytes;
  conn : option Conn;
  z_timeout : Z;
  z_exit : bool;
  eventRegistry : gmap bytes (list nat)
}.
Arguments mkZkClient {Conn}.
Arguments z_name {Conn}.
Arguments zkAddrs {Conn}.
Arguments conn {Conn}.
Arguments z_timeout {Conn}.
Arguments z_exit {Conn}.
Arguments eventRegistry {Conn}.

Definition stateToString `{ZkConstants} (state : Z) : bytes :=
  if state =? StateDisconnected then lit "zookeeper disconnected"
  else if state =? StateConnecting then lit "zookeeper connecting"
  else if state =? StateAuthFailed then lit "zookeeper auth failed"
  else if state =? StateConnectedReadOnly then lit "zookeeper connect readonly"
  else if state =? StateSaslAuthenticated then lit "zookeeper sasl authenticaed"
  else if state =? StateExpired then lit "zookeeper connection expired"
  else if state =? StateConnected then lit "zookeeper conneced"
  else if state =? StateHasSession then lit "zookeeper has session"
  else if state =? StateUnknown then lit "zookeeper unknown state"
  else if state =? EventNodeDeleted then lit "zookeeper node deleted"
  else if state =? EventNodeDataChanged then lit "zookeeper node data changed"
  else State_String state.

Section Client.
Context {W Conn Wch : Type} `{ZK : Zookeeper W Conn Wch}.

Abbreviation client := (zookeeperClient Conn).

Definition set_conn (c : option Conn) (z : client) : client :=
  mkZkClient (z_name z) (zkAddrs z) c (z_timeout z) (z_exit z) (eventRegistry z).

Definition set_exit (e : bool) (z : client) : client :=
  mkZkClient (z_name z) (zkAddrs z) (conn z) (z_timeout z) e (eventRegistry z).

Definition set_registry (r : gmap bytes (list nat)) (z : client) : client :=
  mkZkClient (z_name z) (zkAddrs z) (conn z) (z_timeout z) (z_exit z) r.

Definition newZookeeperClient (name : bytes) (addrs : list bytes) (timeout : Z) : ST W client := fun w =>
  match zk_Connect addrs (TimeSecondDuration timeout) w with
  | (Ret c, w) => (Ret (mkZkClient name addrs (Some c) timeout false ∅), w)
  | (Fail e, w) => (Fail (Traced e), w)
  | (Panic, w) => (Panic, w)
  | (NoFuel, w) => (NoFuel, w)
  end.

(** [if z.conn != nil { ... = z.conn.f(...) }], where [err] was set to
    [ZK_CLIENT_CONN_NIL_ERR]; under the client's lock. *)
Definition on_conn {X} (z : client) (f : Conn -> ST W X) : ST W X :=
  match conn z with
  | Some c => f c
  | None => fail ZK_CLIENT_CONN_NIL_ERR
  end.

(** *** Nodes *)

(** The rest of [Create]'s loop. *)
Fixpoint create_loop (z : client) (tmpPath : bytes) (strs : list bytes) : ST W unit :=
  match strs with
  | [] => ret tt
  | str :: strs =>
      let tmpPath := path_Join [tmpPath; [slash]; str] in
      on_err (on_conn z (fun c => zk_Create c tmpPath [] 0) ;;; ret tt)
        (fun err => if bool_decide (err = ErrNodeExists) then ret tt else fail (Traced err)) ;;;
      create_loop z tmpPath strs
  end.

Definition Create (z : client) (basePath : bytes) : ST W unit :=
  create_loop z [] (drop 1 (Split slash basePath)).

Definition Delete (z : client) (basePath : bytes) : ST W unit :=
  trace (on_conn z (fun c => zk_Delete c basePath (-1))).

Definition RegisterTemp (z : client) (basePath node : bytes) : ST W bytes :=
  let zkPath := path_Join [basePath] ++ slash :: node in
  trace (on_conn z (fun c => zk_Create c zkPath [] FlagEphemeral)).

Definition RegisterTempSeq (z : client) (basePath data : bytes) : ST W bytes :=
  trace (on_conn z (fun c =>
    zk_Create c (path_Join [basePath] ++ [slash]) data (Z.lor FlagEphemeral FlagSequence))).

Definition none_children : goerr := Errorf "path{%s} has none children".

Definition children_err {X} (err : goerr) : ST W X :=
  if bool_decide (err = ErrNoNode) then fail none_children else fail (Traced err).

Definition getChildren (z : client) (path : bytes) : ST W (list bytes) :=
  r <- on_err (on_conn z (fun c => zk_Children c path)) children_err ;;
  let '(children, stat) := r in
  if negb stat then fail none_children
  else match children with
       | [] => fail none_children
       | _ => ret children
       end.

Definition getChildrenW (z : client) (path : bytes) : ST W (list bytes * Wch) :=
  r <- on_err (on_conn z (fun c => zk_ChildrenW c path)) children_err ;;
  let '(children, stat, watch) := r in
  if negb stat then fail none_children
  else match children with
       | [] => fail none_children
       | _ => ret (children, watch)
       end.

Definition existW (z : client) (zkPath : bytes) : ST W Wch :=
  r <- trace (on_conn z (fun c => zk_ExistsW c zkPath)) ;;
  let '(found, watch) := r in
  if negb found then fail (Errorf "zkClient{%s} App zk path{%s} does not exist.")
  else ret watch.

(** *** Its end *)

(** The result says whether it was closed before. *)
Definition stop (z : client) : bool * client :=
  if z_exit z then (true, z) else (false, set_exit true z).

Definition zkConnValid (z : client) : bool :=
  if z_exit z then false
  else match conn z with
       | None => false
       | Some _ => true
       end.

(** [z.conn.Close()] and [z.conn = nil], under the lock. *)
Definition drop_conn (z : client) (w : W) : client * W :=
  match conn z with
  | Some c => (set_conn None z, zk_Close c w)
  | None => (z, w)
  end.

(** [Close] waits for [handleZkEvent], which ends when [exit] is closed. *)
Definition zk_client_Close (z : client) (w : W) : client * W :=
  drop_conn (stop z).2 w.

(** *** Who wants to know of changes *)

Definition registerEvent (zkPath : bytes) (event : option nat) (z : client) : client :=
  match zkPath, event with
  | [], _ | _, None => z
  | _, Some event =>
      set_registry (<[zkPath := default [] (eventRegistry z !! zkPath) ++ [event]]> (eventRegistry z)) z
  end.

(** [for i, e := range a { if e == event { arr := a; a = append(arr[:i], arr[i+1:]...) } }]:
    the range reads the array, whose elements the append moves, over the length
    that [a] had at first; [m] is the length that it has now.  [None] is the
    panic of [arr[i+1:]]. *)
Fixpoint unregister_loop (event : nat) (i n : nat) (array : list nat) (m : nat) : option (list nat) :=
  match n with
  | O => Some (take m array)
  | S n =>
      if bool_decide (array !! i = Some event) then
        if (m <? i + 1)%nat then None
        else
          let array := take i array ++ take (m - (i + 1)) (drop (i + 1) array) ++ drop (m - 1) array in
          unregister_loop event (S i) n array (m - 1)
      else unregister_loop event (S i) n array m
  end.

Definition unregisterEvent (zkPath : bytes) (event : nat) : ST client unit := fun z =>
  match zkPath with
  | [] => (Ret tt, z)
  | _ =>
      match eventRegistry z !! zkPath with
      | None => (Ret tt, z)
      | Some a =>
          match unregister_loop event 0 (length a) a (length a) with
          | None => (Panic, z)
          | Some [] => (Ret tt, set_registry (delete zkPath (eventRegistry z)) z)
          | Some a => (Ret tt, set_registry (<[zkPath := a]> (eventRegistry z)) z)
          end
      end
  end.

(** ** The session's events

    The notifications that wait in the channels; a send to a full one blocks,
    with the client's lock held: the answer is [None]. *)
Abbreviation channels := (gmap nat nat).

Definition send (e : nat) (chans : channels) : option channels :=
  let n := default 0%nat (chans !! e) in
  if (n <? ZKCLIENT_EVENT_CHANNEL_SIZE)%nat then Some (<[e := S n]> chans) else None.

Fixpoint send_all (es : list nat) (chans : channels) : option channels :=
  match es with
  | [] => Some chans
  | e :: es => match send e chans with
               | Some chans => send_all es chans
               | None => None
               end
  end.

Context {C : ZkConstants} {R : MapRange}.

Definition notify_changed (path : bytes) (z : client) (chans : channels) : option channels :=
  send_all (flat_map (fun pa : bytes * list nat => if HasPrefix pa.1 path then pa.2 else []) (range (eventRegistry z))) chans.

Inductive handled :=
| Handled (state : Z) (z : client) (w : W) (chans : channels)    (* and on with the loop *)
| Stopped (z : client) (w : W)
| Blocked.

(** One event of the loop of [handleZkEvent]. *)
Definition handle_event (state : Z) (event : zk_Event) (z : client) (w : W) (chans : channels) : handled :=
  let st := ev_State event in
  if st =? StateDisconnected then
    let '(z, w) := drop_conn (stop z).2 w in Stopped z w
  else if (st =? EventNodeDataChanged) || (st =? EventNodeChildrenChanged) then
    match notify_changed (ev_Path event) z chans with
    | Some chans => Handled st z w chans
    | None => Blocked
    end
  else if (st =? StateConnecting) || (st =? StateConnected) || (st =? StateHasSession) then
    if negb (state =? StateConnecting) || negb (state =? StateDisconnected) then Handled state z w chans
    else match eventRegistry z !! ev_Path event with
         | Some a => match send_all a chans with
                     | Some chans => Handled st z w chans
                     | None => Blocked
                     end
         | None => Handled st z w chans
         end
  else Handled st z w chans.

(** What [select] takes: [None] is the closed [exit]. *)
Fixpoint handleZkEvent (state : Z) (script : list (option zk_Event)) (z : client) (w : W) (chans : channels) : handled :=
  match script with
  | [] => Handled state z w chans
  | None :: _ => Stopped z w
  | Some event :: script =>
      match handle_event state event z w chans with
      | Handled state z w chans => handleZkEvent state script z w chans
      | r => r
      end
  end.

End Client.

(** ** The tree of nodes

    What zookeeper documents: paths are names below the root; a node is created
    below an existing one that is not ephemeral; an ephemeral node belongs to
    the session that made it and goes with it.  [alive] is a session that has
    not ended; calls on it are answered. *)
Class ZkTree (W Conn Wch : Type) `{ZK : Zookeeper W Conn Wch} := {
  tree : W -> gmap (list bytes) (option Conn);
  alive : W -> Conn -> Prop;
  flags_differ : FlagEphemeral <> 0;
  errors_differ : ErrNodeExists <> ErrNoNode;
  tree_root w : tree w !! [] = Some None;
  tree_create w c names n data flags :
    alive w c -> Forall plain_name (names ++ [n]) -> flags = 0 \/ flags = FlagEphemeral ->
    tree w !! names = Some None -> tree w !! (names ++ [n]) = None ->
    exists w', zk_Create c (abs_path (names ++ [n])) data flags w = (Ret (abs_path (names ++ [n])), w')
      /\ tree w' = <[names ++ [n] := if bool_decide (flags = 0) then None else Some c]> (tree w)
      /\ (forall c', alive w' c' <-> alive w c');
  tree_exists w c names data flags :
    alive w c -> Forall plain_name names -> flags = 0 \/ flags = FlagEphemeral -> is_Some (tree w !! names) ->
    exists w', zk_Create c (abs_path names) data flags w = (Fail ErrNodeExists, w')
      /\ tree w' = tree w /\ (forall c', alive w' c' <-> alive w c');
  tree_children w c names :
    alive w c -> Forall plain_name names -> is_Some (tree w !! names) ->
    exists ls w', zk_Children c (abs_path names) w = (Ret (ls, true), w')
      /\ NoDup ls /\ (forall n, n ∈ ls <-> is_Some (tree w !! (names ++ [n])))
      /\ tree w' = tree w /\ (forall c', alive w' c' <-> alive w c');
  tree_no_children w c names :
    alive w c -> Forall plain_name names -> tree w !! names = None ->
    exists w', zk_Children c (abs_path names) w = (Fail ErrNoNode, w')
      /\ tree w' = tree w /\ (forall c', alive w' c' <-> alive w c');
  tree_connect w addrs timeout c w' :
    zk_Connect addrs timeout w = (Ret c, w') ->
    alive w' c /\ ~ alive w c /\ tree w' = tree w /\ (forall c', c' <> c -> alive w' c' <-> alive w c');
  tree_close w c names :
    (tree w !! names = Some (Some c) -> tree (zk_Close c w) !! names = None)
      /\ (tree w !! names <> Some (Some c) -> tree (zk_Close c w) !! names = tree w !! names)
      /\ (forall c', alive (zk_Close c w) c' <-> alive w c' /\ c' <> c)
}.

(** ** A server

    Sessions are numbers.  A watch's channel is its path. *)
Record server := mkServer {
  sv_nodes : gmap (list bytes) (option nat);
  sv_sessions : gset nat;
  sv_next : nat
}.

Definition names_of (path : bytes) : list bytes :=
  match drop 1 (Split slash path) with
  | [[]] => []
  | names => names
  end.

(** The root is always there. *)
Definition sv_tree (sv : server) : gmap (list bytes) (option nat) := <[ [] := None ]> (sv_nodes sv).

Definition set_nodes (t : gmap (list bytes) (option nat)) (sv : server) : server :=
  mkServer t (sv_sessions sv) (sv_next sv).

(** The node's parent. *)
Definition parent_of (names : list bytes) : list bytes := take (length names - 1) names.

Definition children_of (t : gmap (list bytes) (option nat)) (names : list bytes) : list bytes :=
  omap (fun k : list bytes => if bool_decide (parent_of k = names) then last k else None) (map_to_list t).*1.

Definition err_NodeExists : goerr := Errorf "zk: node already exists".
Definition err_NoNode : goerr := Errorf "zk: node does not exist".
Definition err_Closed : goerr := Errorf "zk: connection closed".
Definition err_Ephemeral : goerr := Errorf "zk: ephemeral nodes may not have children".
Definition err_BadArguments : goerr := Errorf "zk: invalid path".
Definition err_NotEmpty : goerr := Errorf "zk: node has children".

Definition in_session {X} (c : nat) (f : ST server X) : ST server X := fun sv =>
  if bool_decide (c ∈ sv_sessions sv) then f sv else (Fail err_Closed, sv).

(** A sequence node's number has ten digits. *)
Definition sv_Create (c : nat) (path data : bytes) (flags : Z) : ST server bytes :=
  in_session c (fun sv =>
    let seq := Z.testbit flags 1 in
    let path := if seq then path ++ take (10 - length (Itoa (Z.of_nat (sv_next sv)))) (replicate 10 48) ++ Itoa (Z.of_nat (sv_next sv)) else path in
    let sv := if seq then mkServer (sv_tree sv) (sv_sessions sv) (S (sv_next sv)) else sv in
    let names := names_of path in
    if negb (bool_decide (Forall plain_name names)) then (Fail err_BadArguments, sv)
    else match sv_tree sv !! names with
         | Some _ => (Fail err_NodeExists, sv)
         | None =>
             match sv_tree sv !! parent_of names with
             | None => (Fail err_NoNode, sv)
             | Some (Some _) => (Fail err_Ephemeral, sv)
             | Some None =>
                 (Ret path, set_nodes (<[names := if Z.testbit flags 0 then Some c else None]> (sv_tree sv)) sv)
             end
         end).

Definition sv_Delete (c : nat) (path : bytes) (version : Z) : ST server unit :=
  in_session c (fun sv =>
    let names := names_of path in
    match sv_tree sv !! names with
    | None => (Fail err_NoNode, sv)
    | Some _ =>
        match names, children_of (sv_tree sv) names with
        | _ :: _, [] => (Ret tt, set_nodes (delete names (sv_tree sv)) sv)
        | _, _ => (Fail err_NotEmpty, sv)
        end
    end).

Definition sv_Children (c : nat) (path : bytes) : ST server (list bytes * bool) :=
  in_session c (fun sv =>
    match sv_tree sv !! names_of path with
    | None => (Fail err_NoNode, sv)
    | Some _ => (Ret (children_of (sv_tree sv) (names_of path), true), sv)
    end).

Definition sv_Close (c : nat) (sv : server) : server :=
  mkServer (filter (fun kv => kv.2 <> Some c) (sv_tree sv)) (sv_sessions sv ∖ {[ c ]}) (sv_next sv).

Definition sv_Connect (addrs : list bytes) (timeout : Z) : ST server nat := fun sv =>
  match addrs with
  | [] => (Fail err_BadArguments, sv)
  | _ => (Ret (fresh (sv_sessions sv)), mkServer (sv_nodes sv) ({[ fresh (sv_sessions sv) ]} ∪ sv_sessions sv) (sv_next sv))
  end.

#[export] Instance Server : Zookeeper server nat bytes := {|
  zk_Connect := sv_Connect;
  zk_Create := sv_Create;
  zk_Delete := sv_Delete;
  zk_Children := sv_Children;
  zk_ChildrenW c path := r <- sv_Children c path ;; ret (r.1, r.2, path);
  zk_ExistsW c path := in_session c (fun sv => (Ret (bool_decide (is_Some (sv_tree sv !! names_of path)), path), sv));
  zk_Close := sv_Close;
  ErrNodeExists := err_NodeExists;
  ErrNoNode := err_NoNode;
  FlagEphemeral := 1;
  FlagSequence := 2
|}.

Lemma names_abs names : Forall plain_name names -> names_of (abs_path names) = names.
Proof.
  intros Hn. unfold names_of, abs_path. cbn [Split]. change (slash =? slash) with true. cbn [drop].
  destruct names as [|n names]; [done|]. rewrite Split_Join by (done || by apply plain_no_slash).
  inversion_clear Hn as [|? ? (Hne & _) _]. destruct n; [done|]. by destruct names.
Qed.

Lemma parent_snoc names n : parent_of (names ++ [n]) = names.
Proof. unfold parent_of. rewrite length_app. cbn. by rewrite Nat.add_sub, take_app_length. Qed.

Lemma last_parent k n : last k = Some n -> k = parent_of k ++ [n].
Proof.
  intros H. apply last_Some in H as [k' ->]. by rewrite parent_snoc.
Qed.

Lemma elem_children t names n : n ∈ children_of t names <-> is_Some (t !! (names ++ [n])).
Proof.
  unfold children_of. rewrite list_elem_of_omap. split.
  - intros (k & Hk & E). case_bool_decide as Hp; [|done]. apply last_parent in E. rewrite Hp in E.
    apply list_elem_of_fmap in Hk as ([k' x] & Ek & Hk). apply elem_of_map_to_list in Hk. cbn in Ek. exists x. congruence.
  - intros [x Hx]. exists (names ++ [n]). split.
    + apply list_elem_of_fmap. exists (names ++ [n], x). split; [done|]. by apply elem_of_map_to_list.
    + rewrite bool_decide_eq_true_2 by apply parent_snoc. apply last_snoc.
Qed.

Lemma NoDup_children t names : NoDup (children_of t names).
Proof.
  unfold children_of. pose proof (NoDup_fst_map_to_list t) as Hnd. induction Hnd as [|k ks Hk _ IH]; [constructor|].
  cbn. case_bool_decide as Hp; [|done]. destruct (last k) as [n|] eqn:E; [|done]. constructor; [|done].
  rewrite list_elem_of_omap. intros (k' & Hk' & E'). case_bool_decide as Hp'; [|done].
  apply last_parent in E, E'. apply Hk. by rewrite E, Hp, <- Hp', <- E'.
Qed.

Lemma sv_tree_set t sv : t !! [] = Some None -> sv_tree (set_nodes t sv) = t.
Proof. intros H. unfold sv_tree. cbn. by apply insert_id. Qed.

Lemma sv_tree_root sv : sv_tree sv !! [] = Some None.
Proof. apply lookup_insert_eq. Qed.

Lemma sv_tree_close c sv :
  sv_tree (sv_Close c sv) = <[ [] := None ]> (filter (fun kv : list bytes * option nat => kv.2 <> Some c) (sv_tree sv)).
Proof. done. Qed.

#[export] Instance ServerTree : ZkTree server nat bytes.
Proof.
  refine {| tree := sv_tree; alive sv c := c ∈ sv_sessions sv |}.
  - done.
  - done.
  - apply sv_tree_root.
  - intros w c names n data flags Hc Hn Hf Hp Hnew. cbn. unfold sv_Create, in_session.
    rewrite bool_decide_eq_true_2 by done. assert (Z.testbit flags 1 = false) as -> by (by destruct Hf as [->| ->]).
    rewrite names_abs, (bool_decide_eq_true_2 (Forall _ _)) by done. cbn [negb].
    rewrite Hnew, parent_snoc, Hp. eexists. split; [done|]. rewrite sv_tree_set.
    + split; [|done]. by destruct Hf as [->| ->].
    + rewrite lookup_insert_ne by (by destruct names). apply sv_tree_root.
  - intros w c names data flags Hc Hn Hf [x Hx]. cbn. unfold sv_Create, in_session.
    rewrite bool_decide_eq_true_2 by done.
    assert (Z.testbit flags 1 = false) as -> by (by destruct Hf as [->| ->]).
    rewrite names_abs, (bool_decide_eq_true_2 (Forall _ _)), Hx by done. by eexists.
  - intros w c names Hc Hn [x Hx]. cbn. unfold sv_Children, in_session.
    rewrite bool_decide_eq_true_2, names_abs, Hx by done. eexists _, w. split; [done|].
    split; [apply NoDup_children|]. split; [|done]. intros n. apply elem_children.
  - intros w c names Hc Hn Hx. cbn. unfold sv_Children, in_session.
    rewrite bool_decide_eq_true_2, names_abs, Hx by done. by eexists.
  - intros w addrs timeout c w' E. cbn in E. unfold sv_Connect in E.
    destruct addrs; [done|]. injection E as <- <-. cbn. split; [by apply elem_of_union_l, elem_of_singleton|].
    split; [apply is_fresh|]. split; [done|]. intros c' Hc'. rewrite elem_of_union, elem_of_singleton. tauto.
  - intros w c names. change (zk_Close c w) with (sv_Close c w). rewrite sv_tree_close.
    split; [|split; [|intros c'; cbn; rewrite elem_of_difference, elem_of_singleton; done]].
    + intros H.
      destruct names as [|n names]; [by rewrite sv_tree_root in H|]. rewrite lookup_insert_ne by done.
      apply map_lookup_filter_None. right. intros x Hx. rewrite H in Hx. injection Hx as <-. cbn. tauto.
    + intros H.
      destruct names as [|n names]; [by rewrite sv_tree_root, lookup_insert_eq|]. rewrite lookup_insert_ne by done.
      destruct (sv_tree w !! (n :: names)) as [x|] eqn:E.
      * apply map_lookup_filter_Some. split; [done|]. cbn. congruence.
      * apply map_lookup_filter_None. by left.
Defined.

(** ** Lemmas *)

Section Lemmas.
Context {W Conn Wch : Type} `{ZT : ZkTree W Conn Wch}.
Abbreviation client := (zookeeperClient Conn).

(** The same tree and sessions. *)
Definition same_world (w w' : W) : Prop := tree w' = tree w /\ forall c, alive w' c <-> alive w c.

(** No node on the way to [names] is ephemeral. *)
Definition way_open (w : W) (names : list bytes) : Prop :=
  forall k o, k `prefix_of` names -> tree w !! k = Some o -> o = None.

(** The tree with the nodes down to [names]. *)
Definition with_path (names : list bytes) (t : gmap (list bytes) (option Conn)) (k : list bytes) : option (option Conn) :=
  if decide (k `prefix_of` names) then Some None else t !! k.

Definition tmp_path (names : list bytes) : bytes := match names with [] => [] | _ => abs_path names end.

Lemma prefix_snoc_iff (k l : list bytes) x : k `prefix_of` l ++ [x] -> k `prefix_of` l \/ k = l ++ [x].
Proof.
  intros [k' E]. destruct k' as [|y k' _] using rev_ind; [right; by rewrite app_nil_r in E|left].
  rewrite app_assoc in E. apply app_inj_tail in E as [-> _]. by apply prefix_app_r.
Qed.

Lemma tmp_snoc names s :
  Forall plain_name names -> plain_name s -> path_Join [tmp_path names; [slash]; s] = abs_path (names ++ [s]).
Proof. intros Hn Hs. destruct names as [|n names]; [by apply Join_root|by apply Join_abs]. Qed.

Lemma create_step z c w names s :
  conn z = Some c -> alive w c -> Forall plain_name (names ++ [s]) -> way_open w (names ++ [s]) ->
  is_Some (tree w !! names) ->
  exists w', on_err (on_conn z (fun c => zk_Create c (abs_path (names ++ [s])) [] 0) ;;; ret tt)
      (fun err => if bool_decide (err = ErrNodeExists) then ret tt else fail (Traced err)) w = (Ret tt, w')
    /\ (forall k, tree w' !! k = if decide (k = names ++ [s]) then Some None else tree w !! k)
    /\ (forall c', alive w' c' <-> alive w c').
Proof.
  intros Hc Ha Hn Hw [o Ho]. unfold on_err, on_conn, bind. rewrite Hc.
  destruct (tree w !! (names ++ [s])) as [o'|] eqn:E.
  - destruct (tree_exists w c (names ++ [s]) [] 0) as (w' & -> & Ht & Hal); [done|done|by left|by exists o'|].
    rewrite bool_decide_eq_true_2 by done. exists w'. split; [done|]. split; [|done]. intros k.
    rewrite Ht. destruct (decide _) as [->|]; [|done]. rewrite E. f_equal. by eapply Hw.
  - assert (o = None) as -> by (eapply Hw; [by apply prefix_app_r|done]).
    destruct (tree_create w c names s [] 0) as (w' & -> & Ht & Hal); [done|done|by left|done|done|].
    exists w'. split; [done|]. split; [|done]. intros k. rewrite Ht. destruct (decide _) as [->|].
    + by rewrite lookup_insert_eq.
    + by rewrite lookup_insert_ne.
Qed.

Lemma create_loop_ok z c names rest w :
  conn z = Some c -> alive w c -> Forall plain_name (names ++ rest) -> way_open w (names ++ rest) ->
  is_Some (tree w !! names) -> (forall k, k `prefix_of` names -> tree w !! k = Some None) ->
  exists w', create_loop z (tmp_path names) rest w = (Ret tt, w')
    /\ (forall k, tree w' !! k = with_path (names ++ rest) (tree w) k) /\ (forall c', alive w' c' <-> alive w c').
Proof.
  intros Hc. revert names w. induction rest as [|s rest IH]; intros names w Ha Hn Hw Hs Hp.
  - rewrite app_nil_r in *. exists w. split; [done|]. split; [|done]. intros k. unfold with_path.
    destruct (decide _); [by apply Hp|done].
  - assert (Hassoc : names ++ s :: rest = (names ++ [s]) ++ rest) by (by rewrite <- app_assoc).
    rewrite Hassoc in *. apply Forall_app in Hn as Hn'. destruct Hn' as [Hn1 _].
    apply Forall_app in Hn1 as Hn1'. destruct Hn1' as [Hnames Hs'].
    cbn [create_loop]. rewrite tmp_snoc by (done || by inversion Hs').
    assert (Hw1 : way_open w (names ++ [s])).
    { intros k o Hk. apply Hw. etrans; [exact Hk|]. by apply prefix_app_r. }
    destruct (create_step z c w names s Hc Ha Hn1 Hw1 Hs) as (w1 & E1 & Ht1 & Hal1).
    unfold bind at 1. cbv zeta. rewrite E1.
    assert (Hw2 : way_open w1 ((names ++ [s]) ++ rest)).
    { intros k o Hk. rewrite Ht1. destruct (decide _); [by intros [= <-]|]. by apply Hw. }
    assert (Hp1 : forall k, k `prefix_of` names ++ [s] -> tree w1 !! k = Some None).
    { intros k Hk. rewrite Ht1. destruct (decide _) as [|Hne]; [done|]. apply Hp.
      by apply prefix_snoc_iff in Hk as [?|?]. }
    destruct (IH (names ++ [s]) w1) as (w2 & E2 & Ht2 & Hal2); [by apply Hal1|done|done|by eexists; apply Hp1|done|].
    exists w2. split; [|split].
    + replace (abs_path (names ++ [s])) with (tmp_path (names ++ [s])) by (by destruct names). exact E2.
    + intros k. rewrite Ht2. unfold with_path. destruct (decide (k `prefix_of` _)) as [|Hk]; [done|].
      rewrite Ht1. destruct (decide _) as [->|]; [|done]. destruct Hk. by apply prefix_app_r.
    + intros c'. by rewrite Hal2.
Qed.

(** [Create] makes the missing nodes down to a path. *)
Lemma Create_ok z c names w :
  conn z = Some c -> alive w c -> names <> [] -> Forall plain_name names -> way_open w names ->
  exists w', Create z (abs_path names) w = (Ret tt, w')
    /\ (forall k, tree w' !! k = with_path names (tree w) k) /\ (forall c', alive w' c' <-> alive w c').
Proof.
  intros Hc Ha Hne Hn Hw. unfold Create, abs_path. cbn [Split]. change (slash =? slash) with true. cbn [drop].
  rewrite Split_Join by (done || by apply plain_no_slash).
  apply (create_loop_ok z c []); [done..| |].
  - rewrite tree_root. by eexists.
  - intros k Hk. apply prefix_nil_inv in Hk as ->. apply tree_root.
Qed.

Lemma RegisterTemp_ok z c names node w :
  conn z = Some c -> alive w c -> names <> [] -> Forall plain_name (names ++ [node]) ->
  tree w !! names = Some None -> tree w !! (names ++ [node]) = None ->
  exists w', RegisterTemp z (abs_path names) node w = (Ret (abs_path (names ++ [node])), w')
    /\ tree w' = <[names ++ [node] := Some c]> (tree w) /\ (forall c', alive w' c' <-> alive w c').
Proof.
  intros Hc Ha Hne Hn Hp Hnew. apply Forall_app in Hn as Hn'. destruct Hn' as [Hnames _].
  unfold RegisterTemp. change (path_Join [abs_path names]) with (Clean (abs_path names)).
  rewrite Clean_abs, <- abs_path_snoc by done.
  destruct (tree_create w c names node [] FlagEphemeral) as (w' & E & Ht & Hal); [done|done|by right|done|done|].
  exists w'. unfold trace, on_err, on_conn. rewrite Hc, E. split; [done|]. split; [|done].
  rewrite Ht. by rewrite bool_decide_eq_false_2 by apply flags_differ.
Qed.

Lemma RegisterTemp_exists z c names node w :
  conn z = Some c -> alive w c -> names <> [] -> Forall plain_name (names ++ [node]) ->
  is_Some (tree w !! (names ++ [node])) ->
  exists w', RegisterTemp z (abs_path names) node w = (Fail (Traced ErrNodeExists), w') /\ same_world w w'.
Proof.
  intros Hc Ha Hne Hn Hx. apply Forall_app in Hn as Hn'. destruct Hn' as [Hnames _].
  unfold RegisterTemp. change (path_Join [abs_path names]) with (Clean (abs_path names)).
  rewrite Clean_abs, <- abs_path_snoc by done.
  destruct (tree_exists w c (names ++ [node]) [] FlagEphemeral) as (w' & E & Ht & Hal); [done|done|by right|done|].
  exists w'. unfold trace, on_err, on_conn. rewrite Hc, E. by repeat split; try apply Hal.
Qed.

Lemma getChildren_ok z c names w :
  conn z = Some c -> alive w c -> Forall plain_name names -> is_Some (tree w !! names) ->
  exists ls w', getChildren z (abs_path names) w =
      (match ls with [] => Fail none_children | _ => Ret ls end, w')
    /\ NoDup ls /\ (forall n, n ∈ ls <-> is_Some (tree w !! (names ++ [n]))) /\ same_world w w'.
Proof.
  intros Hc Ha Hn Hx. destruct (tree_children w c names) as (ls & w' & E & Hnd & Hls & Ht & Hal); [done..|].
  exists ls, w'. split; [|by repeat split; try apply Hls; try apply Hal].
  unfold getChildren, bind, on_err, on_conn. rewrite Hc, E. cbn. by destruct ls.
Qed.

(** *** Notifications *)

Lemma unregister_last event a :
  event ∉ a -> unregister_loop event 0 (length (a ++ [event])) (a ++ [event]) (length (a ++ [event])) = Some a.
Proof.
  intros Hn. rewrite length_app. cbn [length].
  assert (Hgen : forall n i, (i + n = length a)%nat ->
    unregister_loop event i (n + 1) (a ++ [event]) (length a + 1) = Some a).
  { induction n as [|n IH]; intros i Hi.
    - cbn [Nat.add unregister_loop]. rewrite lookup_app_r by lia. replace (i - length a)%nat with 0%nat by lia.
      rewrite bool_decide_eq_true_2 by done. rewrite (proj2 (Nat.ltb_ge _ _)) by lia.
      replace i with (length a) by lia. rewrite take_app_length, Nat.sub_diag. cbn [take app].
      by rewrite Nat.add_sub, take_app_length.
    - cbn [Nat.add unregister_loop]. rewrite bool_decide_eq_false_2; [by apply IH; lia|].
      rewrite lookup_app_l by lia. intros E. by apply list_elem_of_lookup_2 in E. }
  by apply Hgen.
Qed.

End Lemmas.

(** ** Properties *)

Section Properties.
Context {W Conn Wch : Type} `{ZT : ZkTree W Conn Wch}.

(** [Create] makes every missing node on the way to a path and nothing
    else, and nodes that are there already are no error: made again, it changes
    nothing. *)
Lemma Create_makes (z : zookeeperClient Conn) c names w :
  conn z = Some c -> alive w c -> names <> [] -> Forall plain_name names -> way_open w names ->
  exists w', Create z (abs_path names) w = (Ret tt, w')
    /\ (forall k, tree w' !! k = with_path names (tree w) k) /\ (forall c', alive w' c' <-> alive w c')
    /\ exists w'', Create z (abs_path names) w' = (Ret tt, w'') /\ same_world w' w''.
Proof.
  intros Hc Ha Hne Hn Hw. destruct (Create_ok z c names w) as (w' & E & Ht & Hal); [done..|].
  exists w'. split; [done|]. split; [done|]. split; [done|].
  destruct (Create_ok z c names w') as (w'' & E' & Ht' & Hal'); [done|by apply Hal|done|done|..].
  - intros k o Hk. rewrite Ht. unfold with_path. rewrite decide_True by done. congruence.
  - exists w''. split; [done|]. split; [|done]. apply map_eq. intros k. rewrite Ht', !Ht. unfold with_path.
    rewrite Ht. unfold with_path. by destruct (decide _).
Qed.

(** The end of a client: once [Close] was called, or the session has told of
    its disconnection, [exit] is closed and the connection is given up, and
    nothing after it closes the connection again or uses it. *)
Lemma conn_closed_once `{ZkConstants} `{MapRange} (z : zookeeperClient Conn) w z' w' :
  (zk_client_Close z w = (z', w')
   \/ exists state event chans, ev_State event = StateDisconnected
        /\ handle_event state event z w chans = Stopped z' w') ->
  zkConnValid z' = false /\ zk_client_Close z' w' = (z', w')
  /\ (forall state event chans z'' w'', handle_event state event z' w' chans = Stopped z'' w'' -> w'' = w')
  /\ (forall X (f : Conn -> ST W X) w, on_conn z' f w = (Fail ZK_CLIENT_CONN_NIL_ERR, w))
  /\ w' = match conn z with Some c => zk_Close c w | None => w end.
Proof.
  intros Hor.
  assert (Hend : zk_client_Close z w = (z', w')).
  { destruct Hor as [?|(state & event & chans & Hs & E)]; [done|]. unfold handle_event in E. cbv zeta in E.
    rewrite Hs, Z.eqb_refl in E. unfold zk_client_Close. destruct (drop_conn _ _); congruence. }
  clear Hor. assert (Hz : z_exit z' = true /\ conn z' = None
    /\ w' = match conn z with Some c => zk_Close c w | None => w end).
  { unfold zk_client_Close, drop_conn, stop in Hend. destruct z as [nm ad [c|] t ex ev], ex; cbn in Hend; by simplify_eq. }
  destruct Hz as (Hex & Hcn & ->). unfold zkConnValid. rewrite Hex.
  assert (Hagain : forall w, drop_conn (stop z').2 w = (z', w)).
  { intros w0. unfold stop, drop_conn. rewrite Hex. cbn. by rewrite Hcn. }
  split; [done|]. split; [apply Hagain|]. split; [|split; [|done]].
  - intros state event chans z'' w'' E. unfold handle_event in E. rewrite Hagain in E.
    repeat case_match; simplify_eq; done.
  - intros X f w0. unfold on_conn. by rewrite Hcn.
Qed.

(** Unregistering a channel undoes its registration and touches no other:
    whatever else waits for changes of the path still does. *)
Lemma register_unregister zkPath event (z : zookeeperClient Conn) :
  (forall a, eventRegistry z !! zkPath = Some a -> a <> [] /\ event ∉ a) ->
  unregisterEvent zkPath event (registerEvent zkPath (Some event) z) = (Ret tt, z).
Proof.
  intros Ha. destruct zkPath as [|x p]; [done|]. unfold registerEvent, unregisterEvent. cbn [eventRegistry set_registry].
  rewrite lookup_insert_eq. set (a := default [] (eventRegistry z !! (x :: p))).
  assert (Hn : event ∉ a).
  { unfold a. destruct (eventRegistry z !! (x :: p)) as [a'|] eqn:E; [by apply Ha|]. set_solver. }
  rewrite unregister_last by done. destruct z as [nm ad cn t ex ev]. cbn in *. unfold a, set_registry in *. cbn in *.
  destruct (ev !! (x :: p)) as [a'|] eqn:E; cbn.
  - destruct (Ha a') as [Hne _]; [done|]. destruct a'; [done|].
    rewrite insert_insert_eq. by rewrite insert_id.
  - rewrite delete_insert_eq. by rewrite delete_id.
Qed.

(** A reconnection reaches no watcher: the handler compares the last state
    with two different ones and goes on when it differs from either, which it
    always does. *)
Lemma reconnect_never_notifies `{ZkConstants} `{MapRange} state event (z : zookeeperClient Conn) w chans :
  StateConnecting <> StateDisconnected ->
  ev_State event = StateConnecting \/ ev_State event = StateConnected \/ ev_State event = StateHasSession ->
  ev_State event <> StateDisconnected -> ev_State event <> EventNodeDataChanged ->
  ev_State event <> EventNodeChildrenChanged ->
  handle_event state event z w chans = Handled state z w chans.
Proof.
  intros Hd Hs H1 H2 H3. unfold handle_event. cbv zeta.
  rewrite (proj2 (Z.eqb_neq _ _) H1), (proj2 (Z.eqb_neq _ _) H2), (proj2 (Z.eqb_neq _ _) H3). cbn [orb].
  replace (_ || _ || _)%bool with true.
  - destruct (state =? StateConnecting) eqn:E; [|done].
    apply Z.eqb_eq in E. rewrite E, (proj2 (Z.eqb_neq _ _) Hd). done.
  - destruct Hs as [->|[->| ->]]; rewrite Z.eqb_refl, ?orb_true_r; done.
Qed.

End Properties.

(** The library's numbers. *)
#[export] Instance constants : ZkConstants := {|
  StateDisconnected := 0; StateConnecting := 1; StateConnected := 100; StateHasSession := 101;
  StateAuthFailed := 4; StateConnectedReadOnly := 5; StateSaslAuthenticated := 6; StateExpired := -112;
  StateUnknown := -1; EventNodeCreated := 1; EventNodeDeleted := 2; EventNodeDataChanged := 3;
  EventNodeChildrenChanged := 4; EventNotWatching := -2; State_String _ := lit "?"
|}.

(** A server with one session. *)
Definition server1 : server := mkServer ∅ {[ 0%nat ]} 0.
Definition client1 : zookeeperClient nat := mkZkClient (lit "c") [] (Some 0%nat) 1 false ∅.

Lemma server1_alive : alive server1 0%nat.
Proof. cbn. set_solver. Qed.

Lemma server1_new names : names <> [] -> tree server1 !! names = None.
Proof.
  intros Hn. change (tree server1) with (<[ [] := None ]> (∅ : gmap (list bytes) (option nat))).
  by rewrite lookup_insert_ne, lookup_empty.
Qed.

Lemma server1_open names : way_open server1 names.
Proof.
  intros k o _ E. destruct k as [|n k]; [|by rewrite server1_new in E].
  rewrite (tree_root server1) in E. congruence.
Qed.

