(* ===== verification/ZkRegistry.v ===== *)
(** * The zookeeper registry

    [registry/zk/registry.go], [provider.go] and [consumer.go]: what a provider
    writes below [/dubbo], what a consumer reads there, and what both do when
    the connection was lost. *)
From S2P Require Import Prelude.
From S2P Require Import Registry Url Common Zookeeper.

(** ** Configuration *)

Record ApplicationConfig := mkApp {
  a_Organization : bytes;
  a_Name : bytes;
  a_Module : bytes;
  a_Version : bytes;
  a_Owner : bytes
}.

Record RegistryConfig := mkRegistryConfig {
  rg_Address : list bytes;
  rg_UserName : bytes;
  rg_Password : bytes;
  rg_Timeout : Z
}.

(** [DubboType]. *)
Definition CONSUMER : nat := 0.
Definition CONFIGURATOR : nat := 1.
Definition ROUTER : nat := 2.
Definition PROVIDER : nat := 3.

Definition DubboNodes : list bytes := [lit "consumers"; lit "configurators"; lit "routers"; lit "providers"].
Definition DubboRole : list bytes := [lit "consumer"; []; []; lit "provider"].

Definition DubboType_String (t : nat) : outcome bytes :=
  match DubboNodes !! t with Some s => Ret s | None => Panic end.
Definition Role (t : nat) : outcome bytes :=
  match DubboRole !! t with Some s => Ret s | None => Panic end.

Definition DEFAULT_REGISTRY_TIMEOUT : Z := 1.
Definition REGISTRY_CONN_DELAY : Z := 3.
Definition RegistryZkClient : bytes := lit "zk registry".
Definition ProviderRegistryZkClient : bytes := lit "consumer zk registry".
Definition ConsumerRegistryZkClient : bytes := lit "consumer zk registry".
Definition WatcherZkClient : bytes := lit "watcher zk registry".

(** ** [zookeeperRegistry] *)

(** [services] is [None] when the map is nil; [done] is true when the channel
    is closed. *)
Record zookeeperRegistry (Conn : Type) := mkZkRegistry {
  app : ApplicationConfig;
  config : RegistryConfig;
  birth : Z;
  done : bool;
  client : option (zookeeperClient Conn);
  services : option (gmap bytes ServiceConfigIf)
}.
Arguments mkZkRegistry {Conn}.
Arguments app {Conn}.
Arguments config {Conn}.
Arguments birth {Conn}.
Arguments done {Conn}.
Arguments client {Conn}.
Arguments services {Conn}.

(** The process: [processID] and [localIP], set by [init]. *)
Class Process := {
  processID : bytes;
  localIP : bytes
}.

Definition or_default (s d : bytes) : bytes := match s with [] => d | _ => s end.

Section Registry.
Context {W Conn Wch : Type} `{ZK : Zookeeper W Conn Wch} `{PR : Process} `{R : MapRange}.

Abbreviation registry := (zookeeperRegistry Conn).

Definition set_client (z : option (zookeeperClient Conn)) (r : registry) : registry :=
  mkZkRegistry (app r) (config r) (birth r) (done r) z (services r).

Definition set_services (m : option (gmap bytes ServiceConfigIf)) (r : registry) : registry :=
  mkZkRegistry (app r) (config r) (birth r) (done r) (client r) m.

Definition set_done (r : registry) : registry :=
  mkZkRegistry (app r) (config r) (birth r) true (client r) (services r).

(** A call of the registry's client that does not change it; a nil client
    panics. *)
Definition with_client {X} (f : zookeeperClient Conn -> ST W X) : ST (registry * W) X := fun '(r, w) =>
  match client r with
  | None => (Panic, (r, w))
  | Some z => let '(o, w) := f z w in (o, (r, w))
  end.

(** The three [validateZookeeperClient] differ in the name they give. *)
Definition validateZookeeperClient (name : bytes) : ST (registry * W) unit := fun '(r, w) =>
  match client r with
  | Some _ => (Ret tt, (r, w))
  | None =>
      match newZookeeperClient name (rg_Address (config r)) (rg_Timeout (config r)) w with
      | (Ret z, w) => (Ret tt, (set_client (Some z) r, w))
      | (Fail e, w) => (Fail e, (r, w))
      | (Panic, w) => (Panic, (r, w))
      | (NoFuel, w) => (NoFuel, (r, w))
      end
  end.

(** [now] is [time.Now().Unix()]. *)
Definition newZookeeperRegistry (a : ApplicationConfig) (c : RegistryConfig) (now : Z) : ST W registry := fun w =>
  let a := mkApp (a_Organization a) (or_default (a_Name a) version_Name) (a_Module a)
             (or_default (a_Version a) version_Version) (a_Owner a) in
  let c := mkRegistryConfig (rg_Address c) (rg_UserName c) (rg_Password c)
             (if rg_Timeout c =? 0 then DEFAULT_REGISTRY_TIMEOUT else rg_Timeout c) in
  match trace (validateZookeeperClient RegistryZkClient) (mkZkRegistry a c now false None None, w) with
  | (Ret _, (r, w)) => (Ret (set_services (Some ∅) r), w)
  | (Fail e, (_, w)) => (Fail (Traced e), w)
  | (Panic, (_, w)) => (Panic, w)
  | (NoFuel, (_, w)) => (NoFuel, w)
  end.

Definition registerZookeeperNode (root data : bytes) : ST (registry * W) unit :=
  trace (with_client (fun z => Create z root)) ;;;
  trace (with_client (fun z => RegisterTempSeq z root data)) ;;;
  ret tt.

Definition registerTempZookeeperNode (root node : bytes) : ST (registry * W) unit :=
  trace (with_client (fun z => Create z root)) ;;;
  trace (with_client (fun z => RegisterTemp z root node)) ;;;
  ret tt.

Definition lookup_service (r : registry) (key : bytes) : option ServiceConfigIf :=
  match services r with Some m => m !! key | None => None end.

(** [s.services[key] = conf]: a write to a nil map panics. *)
Definition put_service (key : bytes) (conf : ServiceConfigIf) : ST (registry * W) unit := fun '(r, w) =>
  match services r with
  | None => (Panic, (r, w))
  | Some m => (Ret tt, (set_services (Some (<[key := conf]> m)) r, w))
  end.

Definition range_services (r : registry) : list ServiceConfigIf :=
  match services r with Some m => (range m).*2 | None => [] end.

(** The name a client is given after it was made. *)
Definition set_name (name : bytes) (r : registry) : registry :=
  match client r with
  | Some z => set_client (Some (mkZkClient name (zkAddrs z) (conn z) (z_timeout z) (z_exit z) (eventRegistry z))) r
  | None => r
  end.

(** [s.client.Close(); s.client = nil]. *)
Definition drop_client : ST (registry * W) unit := fun '(r, w) =>
  match client r with
  | None => (Panic, (r, w))
  | Some z => let '(_, w) := zk_client_Close z w in (Ret tt, (set_client None r, w))
  end.

(** [close(s.done)] panics the second time. *)
Definition close_done : ST (registry * W) unit := fun '(r, w) =>
  if done r then (Panic, (r, w)) else (Ret tt, (set_done r, w)).

Definition closeRegisters : ST (registry * W) unit :=
  drop_client ;;; (fun '(r, w) => (Ret tt, (set_services None r, w))).

(** [Close]: [restarted] is what [handleZkRestart], which [s.wg.Wait()] waits
    for, does until it sees [done]. *)
Definition registry_Close (restarted : ST (registry * W) unit) : ST (registry * W) unit :=
  close_done ;;; restarted ;;; closeRegisters.

Definition service_path (service kind : bytes) : bytes := lit "/dubbo/" ++ service ++ slash :: kind.

(** What both sides put first into the query. *)
Definition revision (a : ApplicationConfig) : bytes := or_default (a_Version a) (lit "0.1.0").

Definition add_if (key value : bytes) (v : Values) : Values :=
  match value with [] => v | _ => Add key value v end.

(** ** Providers *)

Record provider := mkProviderRegistry {
  p_registry : registry;
  zkPath : gmap bytes Z
}.

Definition on_registry {X} (f : ST (registry * W) X) : ST (provider * W) X := fun '(p, w) =>
  let '(o, (r, w)) := f (p_registry p, w) in (o, (mkProviderRegistry r (zkPath p), w)).

Definition provider_params (a : ApplicationConfig) (timeout born : Z) (conf : ProviderServiceConfig)
    (category role : bytes) : Values :=
  let sc := ps_config conf in
  let params : Values := ∅ in
  let params := Add (lit "interface") (sc_Service sc) params in
  let params := Add (lit "application") (a_Name a) params in
  let params := Add (lit "revision") (revision a) params in
  let params := add_if (lit "group") (sc_Group sc) params in
  let params := Add (lit "category") category params in
  let params := Add (lit "dubbo") (lit "dubbo-provider-golang-" ++ version_Version) params in
  let params := Add (lit "org") (a_Organization a) params in
  let params := Add (lit "module") (a_Module a) params in
  let params := Add (lit "owner") (a_Owner a) params in
  let params := Add (lit "side") role params in
  let params := Add (lit "pid") processID params in
  let params := Add (lit "ip") localIP params in
  let params := Add (lit "timeout") (Itoa timeout) params in
  let params := Add (lit "timestamp") (Itoa born) params in
  let params := add_if (lit "version") (sc_Version sc) params in
  add_if (lit "methods") (ps_Methods conf) params.

(** The path in the URL: a service that was registered before gets a suffix. *)
Definition next_path (service : bytes) (counts : gmap bytes Z) : bytes * gmap bytes Z :=
  let n := default 0 (counts !! service) in
  let urlPath := if n =? 0 then service else service ++ Itoa n in
  (urlPath, <[urlPath := i64 (default 0 (counts !! urlPath) + 1)]> counts).

(** The configuration is passed by its address, and comes back with its [Path]
    set. *)
Definition provider_register (conf : ProviderServiceConfig) : ST (provider * W) ProviderServiceConfig :=
  let sc := ps_config conf in
  if bool_decide (sc_Service sc = []) || bool_decide (ps_Methods conf = []) then
    fail (Errorf "conf{Service:%s, Methods:%s}")
  else
    trace (on_registry (trace (validateZookeeperClient ProviderRegistryZkClient))) ;;;
    kind <- of_outcome (DubboType_String PROVIDER) ;;
    trace (on_registry (with_client (fun z => Create z (service_path (sc_Service sc) kind)))) ;;;
    role <- of_outcome (Role PROVIDER) ;;
    s <- get ;;
    let '(p, w) := s in
    let params := provider_params (app (p_registry p)) (rg_Timeout (config (p_registry p)))
                    (birth (p_registry p)) conf kind role in
    let conf := mkProvider sc (or_default (ps_Path conf) localIP) (ps_Methods conf) in
    let '(urlPath, counts) := next_path (sc_Service sc) (zkPath p) in
    put (mkProviderRegistry (p_registry p) counts, w) ;;;
    trace (on_registry (registerTempZookeeperNode (service_path (sc_Service sc) kind)
      (QueryEscape (url_text (sc_Protocol sc) (ps_Path conf) urlPath (Encode params))))) ;;;
    ret conf.

(** [Register] of an [interface{}]. *)
Definition provider_Register (c : ServiceConfigIf) : ST (provider * W) unit :=
  match c with
  | IfConfig _ => fail (Errorf "@c{%v} type is not registry.ServiceConfig")
  | IfProvider conf => fun '(p, w) =>
      match lookup_service (p_registry p) (ProviderServiceConfig_String conf) with
      | Some _ => (Fail (Errorf "Service{%s} has been registered"), (p, w))
      | None =>
          (conf <- trace (provider_register conf) ;;
           on_registry (put_service (ProviderServiceConfig_String conf) (IfProvider conf))) (p, w)
      end
  end.

(** The goroutine [handleZkRestart] is started with it; on an error the answer
    is nil. *)
Definition NewProviderZookeeperRegistry (a : ApplicationConfig) (c : RegistryConfig) (now : Z) :
    ST W (option provider) := fun w =>
  match newZookeeperRegistry a c now w with
  | (Ret r, w) => (Ret (Some (mkProviderRegistry (set_name ProviderRegistryZkClient r) ∅)), w)
  | (Fail _, w) => (Ret None, w)
  | (Panic, w) => (Panic, w)
  | (NoFuel, w) => (NoFuel, w)
  end.

(** ** Restarts *)

(** What happens before a turn of the loop that reconnects: [done] is closed, or
    the time is over, and the world has changed meanwhile. *)
Inductive turn :=
| TurnDone
| TurnTimer (env : W -> W).

Inductive restarted :=
| Exited                    (* [done]: the goroutine ends *)
| Reconnected (services : list ServiceConfigIf)
| Waiting (services : list ServiceConfigIf) (failTimes : Z).

Definition restart_delay (failTimes : Z) : Z := TimeSecondDuration (i64 (failTimes * REGISTRY_CONN_DELAY)).

Section Restart.
(** The state of the provider or of the consumer, its registry in it, and its
    [register] of an element of [services]. *)
Context {S : Type} (lift : forall X, ST (registry * W) X -> ST (S * W) X).
Context (name : bytes) (reregister : ServiceConfigIf -> ST (S * W) unit).

(** The configurations until one fails. *)
Fixpoint register_all (confs : list ServiceConfigIf) : ST (S * W) bool := fun s =>
  match confs with
  | [] => (Ret true, s)
  | conf :: confs =>
      match reregister conf s with
      | (Ret _, s) => register_all confs s
      | (Fail _, s) => (Ret false, s)
      | (Panic, s) => (Panic, s)
      | (NoFuel, s) => (NoFuel, s)
      end
  end.

(** One turn after its wait: [services] is the slice of the goroutine, which is
    never emptied.  The log reads [s.client.zkAddrs]. *)
Definition restart_attempt (confs : list ServiceConfigIf) : ST (S * W) (bool * list ServiceConfigIf) := fun s =>
  match lift _ (validateZookeeperClient name) s with
  | (Ret _, s) =>
      (all <- lift _ (fun '(r, w) => (Ret (range_services r), (r, w))) ;;
       flag <- register_all (confs ++ all) ;;
       ret (flag, confs ++ all)) s
  | (Fail _, s) => (Panic, s)
  | (Panic, s) => (Panic, s)
  | (NoFuel, s) => (NoFuel, s)
  end.

Fixpoint reconnect (turns : list turn) (confs : list ServiceConfigIf) (failTimes : Z) :
    ST (S * W) restarted :=
  match turns with
  | [] => ret (Waiting confs failTimes)
  | TurnDone :: _ => ret Exited
  | TurnTimer env :: turns =>
      (fun '(s, w) => (Ret tt, (s, env w))) ;;;
      r <- restart_attempt confs ;;
      let '(flag, confs) := r in
      if flag then ret (Reconnected confs)
      else
        let failTimes := failTimes + 1 in
        reconnect turns confs (if MAX_TIMES <=? failTimes then MAX_TIMES else failTimes)
  end.

(** One [<-s.client.done()]. *)
Definition restart (turns : list turn) (confs : list ServiceConfigIf) : ST (S * W) restarted :=
  lift _ drop_client ;;; reconnect turns confs 0.

(** [handleZkRestart]: the turns of each time that the connection was lost, in
    order; [true] when it has returned. *)
Fixpoint handleZkRestart (losses : list (list turn)) (confs : list ServiceConfigIf) : ST (S * W) bool :=
  match losses with
  | [] => ret false
  | turns :: losses =>
      r <- restart turns confs ;;
      match r with
      | Exited => ret true
      | Reconnected confs => handleZkRestart losses confs
      | Waiting _ _ => ret false
      end
  end.
End Restart.

Definition provider_reregister (c : ServiceConfigIf) : ST (provider * W) unit :=
  match c with
  | IfConfig _ => panic
  | IfProvider conf => provider_register conf ;;; ret tt
  end.

Definition provider_restart : list turn -> list ServiceConfigIf -> ST (provider * W) restarted :=
  restart (@on_registry) ProviderRegistryZkClient provider_reregister.

Definition provider_handleZkRestart : list (list turn) -> list ServiceConfigIf -> ST (provider * W) bool :=
  handleZkRestart (@on_registry) ProviderRegistryZkClient provider_reregister.

(** ** Consumers *)

Definition NewConsumerZookeeperRegistry (a : ApplicationConfig) (c : RegistryConfig) (now : Z) :
    ST W (option registry) := fun w =>
  match newZookeeperRegistry a c now w with
  | (Ret r, w) => (Ret (Some (set_name ConsumerRegistryZkClient r)), w)
  | (Fail _, w) => (Ret None, w)
  | (Panic, w) => (Panic, w)
  | (NoFuel, w) => (NoFuel, w)
  end.

Definition consumer_params (a : ApplicationConfig) (timeout born : Z) (conf : ServiceConfig)
    (category role : bytes) : Values :=
  let params : Values := ∅ in
  let params := Add (lit "interface") (sc_Service conf) params in
  let params := Add (lit "application") (a_Name a) params in
  let params := Add (lit "revision") (revision a) params in
  let params := add_if (lit "group") (sc_Group conf) params in
  let params := Add (lit "category") category params in
  let params := Add (lit "dubbo") (lit "dubbo-consumer-golang-" ++ version_Version) params in
  let params := Add (lit "org") (a_Organization a) params in
  let params := Add (lit "module") (a_Module a) params in
  let params := Add (lit "owner") (a_Owner a) params in
  let params := Add (lit "side") role params in
  let params := Add (lit "pid") processID params in
  let params := Add (lit "ip") localIP params in
  let params := Add (lit "timeout") (Itoa timeout) params in
  let params := Add (lit "timestamp") (Itoa born) params in
  add_if (lit "version") (sc_Version conf) params.

Definition consumer_register (conf : ServiceConfig) : ST (registry * W) unit :=
  trace (validateZookeeperClient ConsumerRegistryZkClient) ;;;
  kind <- of_outcome (DubboType_String CONSUMER) ;;
  trace (with_client (fun z => Create z (service_path (sc_Service conf) kind))) ;;;
  kind' <- of_outcome (DubboType_String PROVIDER) ;;
  trace (with_client (fun z => Create z (service_path (sc_Service conf) kind'))) ;;;
  role <- of_outcome (Role CONSUMER) ;;
  s <- get ;;
  let params := consumer_params (app s.1) (rg_Timeout (config s.1)) (birth s.1) conf kind role in
  trace (registerTempZookeeperNode (service_path (sc_Service conf) kind)
    (QueryEscape (url_text (sc_Protocol conf) localIP (sc_Service conf ++ sc_Version conf) (Encode params)))).

Definition consumer_Register (sc : ServiceConfigIf) : ST (registry * W) unit :=
  match sc with
  | IfProvider _ => fail (Errorf "@c{%v} type is not registry.ServiceConfig")
  | IfConfig conf => fun '(r, w) =>
      match lookup_service r (Key conf) with
      | Some _ => (Fail (Errorf "Service{%s} has been registered"), (r, w))
      | None => (consumer_register conf ;;; put_service (Key conf) (IfConfig conf)) (r, w)
      end
  end.

Definition consumer_reregister (c : ServiceConfigIf) : ST (registry * W) unit :=
  match c with
  | IfConfig conf => consumer_register conf
  | IfProvider _ => panic
  end.

Definition consumer_handleZkRestart : list (list turn) -> list ServiceConfigIf -> ST (registry * W) bool :=
  handleZkRestart (fun _ f => f) ConsumerRegistryZkClient consumer_reregister.

(** The loop of [GetServices] over the nodes, with its map by location. *)
Fixpoint services_loop (serviceConf : ServiceConfig) (nodes : list bytes) (m : gmap bytes ServiceURL) :
    gmap bytes ServiceURL :=
  match nodes with
  | [] => m
  | n :: nodes =>
      match NewServiceURL n with
      | inl _ => services_loop serviceConf nodes m
      | inr url =>
          if negb (ServiceEqual serviceConf url) then services_loop serviceConf nodes m
          else match m !! Get (Query url) (Location url) with
               | None => services_loop serviceConf nodes (<[Location url := url]> m)
               | Some _ => services_loop serviceConf nodes m
               end
      end
  end.

Definition GetServices (i : ServiceConfigIf) : ST (registry * W) (list ServiceURL) :=
  match i with
  | IfProvider _ => fail (Errorf "@i:%#v is not of type registry.ServiceConfig type")
  | IfConfig sc => fun '(r, w) =>
      match lookup_service r (Key sc) with
      | None => (Fail (Errorf "Service{%s} has not been registered"), (r, w))
      | Some (IfProvider _) => (Fail (Errorf "Service{%s}: failed to get serviceConfigIf type"), (r, w))
      | Some (IfConfig serviceConf) =>
          (trace (validateZookeeperClient ConsumerRegistryZkClient) ;;;
           nodes <- trace (with_client (fun z => getChildren z (service_path (sc_Service sc) (lit "providers")))) ;;
           ret (range (services_loop serviceConf nodes ∅)).*2) (r, w)
      end
  end.

End Registry.
