(* ===== verification/ZkAgree.v ===== *)
(** * What providers write and consumers read

    Theorems about [ZkRegistry]: a registered provider is found by the consumers
    whose configuration is its own and by no others; the names under which a
    service is registered again; what happens after the connection was lost. *)
From S2P Require Import Prelude.
From S2P Require Import Registry Url Common Zookeeper ZkRegistry.

(** ** Queries *)

Lemma Add_lookup k v m : Add k v m !! k = Some (default [] (m !! k) ++ [v]).
Proof. apply lookup_insert_eq. Qed.

Lemma Add_lookup_ne k k' v m : k <> k' -> Add k v m !! k' = m !! k'.
Proof. apply lookup_insert_ne. Qed.

Lemma add_if_lookup_ne k k' v m : k <> k' -> add_if k v m !! k' = m !! k'.
Proof. intros Hk. destruct v; [done|]. by apply Add_lookup_ne. Qed.

Lemma Get_add_if k v m : m !! k = None -> Get (add_if k v m) k = v.
Proof. intros Hm. unfold Get. destruct v as [|c v]; cbn [add_if]; [by rewrite Hm|]. by rewrite Add_lookup, Hm. Qed.

Lemma values_ok_Add k v m : Forall is_byte k -> Forall is_byte v -> values_ok m -> values_ok (Add k v m).
Proof.
  intros Hk Hv Hm. apply map_Forall_insert_2; [|done]. split; [done|].
  split; [by destruct (default [] (m !! k))|]. apply Forall_app. split; [|by constructor].
  destruct (m !! k) as [xs|] eqn:E; [by apply (Hm k xs)|constructor].
Qed.

Lemma values_ok_add_if k v m : Forall is_byte k -> Forall is_byte v -> values_ok m -> values_ok (add_if k v m).
Proof. intros Hk Hv Hm. destruct v; [done|]. by apply values_ok_Add. Qed.

(** Keys of the query that differ. *)
Ltac other_keys :=
  repeat first [rewrite Add_lookup_ne by (vm_compute; congruence)
               |rewrite add_if_lookup_ne by (vm_compute; congruence)].

Lemma Itoa_bytes n : Forall is_byte (Itoa n).
Proof. apply Itoa_all; unfold is_byte; lia. Qed.

Lemma Itoa_path n : forallb path_char (Itoa n) = true.
Proof.
  apply forallb_forall. intros c Hc. apply list_elem_of_In in Hc. revert c Hc. apply Forall_forall, Itoa_all; [|done].
  intros d Hd. unfold path_char, one_of. cbn [existsb lit]. apply andb_true_iff. split; [apply between_spec; lia|].
  apply negb_true_iff. cbn. rewrite !orb_false_iff, !Z.eqb_neq. lia.
Qed.

Lemma upperhex_byte n : 0 <= n < 16 -> is_byte (upperhex n).
Proof. intros Hn. unfold upperhex, is_byte. destruct (n <? 10) eqn:E; zify_bool; lia. Qed.

Lemma QueryEscape_bytes s : Forall is_byte s -> Forall is_byte (QueryEscape s).
Proof.
  induction 1 as [|c s Hc _ IH]; [constructor|]. rewrite QueryEscape_cons. apply Forall_app. split; [|done].
  unfold QueryEscape. cbn [flat_map]. destruct (nibbles c Hc).
  destruct (shouldEscape _ _); [destruct (_ =? 32)|]; rewrite app_nil_r;
    repeat (apply Forall_cons; split); try apply Forall_nil; try done; by apply upperhex_byte.
Qed.

Lemma Join_all (P : Z -> Prop) sep ws : P sep -> Forall (Forall P) ws -> Forall P (Join sep ws).
Proof.
  intros Hs. induction 1 as [|w ws Hw _ IH]; [constructor|]. destruct ws as [|w' ws]; [done|].
  change (Join sep (w :: w' :: ws)) with (w ++ sep :: Join sep (w' :: ws)). apply Forall_app. by split; [|constructor].
Qed.

Lemma Encode_bytes v : values_ok v -> Forall is_byte (Encode v).
Proof.
  intros Hv. apply Join_all; [done|]. apply Forall_forall. intros w Hw.
  apply list_elem_of_In, in_flat_map in Hw as (k & _ & Hw). apply in_map_iff in Hw as (x & <- & Hx).
  destruct (v !! k) as [xs|] eqn:E; [|done]. destruct (Hv _ _ E) as (Hk & _ & Hxs).
  apply Forall_app. split; [by apply QueryEscape_bytes|]. constructor; [done|]. apply QueryEscape_bytes.
  eapply (proj1 (Forall_forall _ _) Hxs). by apply list_elem_of_In.
Qed.

Lemma QueryEscape_percent s c :
  c ∈ s -> shouldEscape c encodeQueryComponent = true -> c <> 32 -> 37 ∈ QueryEscape s.
Proof.
  intros Hc E Hne. apply list_elem_of_In, in_flat_map. exists c. split; [by apply list_elem_of_In|].
  rewrite E, (proj2 (Z.eqb_neq _ _) Hne). by left.
Qed.

(** A node's name is the escaped URL: it is one element of a path. *)
Lemma node_plain proto host path query :
  Forall is_byte (url_text proto host path query) -> plain_name (QueryEscape (url_text proto host path query)).
Proof.
  intros Hb. assert (H37 : 37 ∈ QueryEscape (url_text proto host path query)).
  { apply (QueryEscape_percent _ 58); [|done|done]. unfold url_text. rewrite !elem_of_app. right. left. by left. }
  split_and!.
  - intros E. rewrite E in H37. by apply not_elem_of_nil in H37.
  - by apply QueryEscape_lacks.
  - intros E. rewrite E in H37. by apply list_elem_of_singleton in H37.
  - intros E. rewrite E in H37. by repeat (apply elem_of_cons in H37 as [H37|H37]; [done|]); apply not_elem_of_nil in H37.
Qed.

Ltac literal := apply (bool_decide_unpack _); vm_compute; exact I.

Section Agree.
Context `{PR : Process}.

Definition app_bytes (a : ApplicationConfig) : Prop :=
  Forall is_byte (a_Organization a) /\ Forall is_byte (a_Name a) /\ Forall is_byte (a_Module a)
  /\ Forall is_byte (a_Version a) /\ Forall is_byte (a_Owner a).

Definition process_bytes : Prop := Forall is_byte processID /\ Forall is_byte localIP.

Definition config_bytes (c : ServiceConfig) : Prop :=
  Forall is_byte (sc_Protocol c) /\ Forall is_byte (sc_Service c)
  /\ Forall is_byte (sc_Group c) /\ Forall is_byte (sc_Version c).

Lemma revision_bytes a : app_bytes a -> Forall is_byte (revision a).
Proof.
  intros (_ & _ & _ & Hv & _). unfold revision. destruct (a_Version a) eqn:E; [|done]. cbn. literal.
Qed.

Lemma provider_params_ok a timeout born conf category role :
  app_bytes a -> process_bytes -> config_bytes (ps_config conf) -> Forall is_byte (ps_Methods conf) ->
  Forall is_byte category -> Forall is_byte role ->
  values_ok (provider_params a timeout born conf category role).
Proof.
  intros Ha [Hpid Hip] (_ & Hs & Hg & Hv) Hm Hc Hr. pose proof (revision_bytes a Ha).
  destruct Ha as (Ho & Hn & Hmo & _ & How). unfold provider_params. cbv zeta.
  repeat first [apply values_ok_add_if; [literal| |]|apply values_ok_Add; [literal| |]]; try done;
    try apply Itoa_bytes; try literal.
Qed.

Lemma provider_params_get a timeout born conf category role :
  let v := provider_params a timeout born conf category role in
  Get v (lit "interface") = sc_Service (ps_config conf) /\ Get v (lit "group") = sc_Group (ps_config conf)
  /\ Get v (lit "version") = sc_Version (ps_config conf) /\ Get v (lit "methods") = ps_Methods conf.
Proof.
  cbv zeta. unfold provider_params. cbv zeta. split_and!.
  - unfold Get. other_keys. rewrite Add_lookup, lookup_empty. done.
  - unfold Get. other_keys. apply (Get_add_if (lit "group")). other_keys. apply lookup_empty.
  - unfold Get. other_keys. apply (Get_add_if (lit "version")). other_keys. apply lookup_empty.
  - apply Get_add_if. other_keys. apply lookup_empty.
Qed.

(** ** A provider's node *)

(** A host, with the two parts of it that [NewServiceURL] reads. *)
Definition host_ok (host ip port : bytes) : Prop :=
  forallb host_char host = true
  /\ (((58 ∉ host) /\ ip = [] /\ port = [])
      \/ (host = ip ++ 58 :: port /\ (58 ∉ ip) /\ (58 ∉ port) /\ (93 ∉ ip) /\ (93 ∉ port))).

Record conf_ok (conf : ProviderServiceConfig) (ip port : bytes) : Prop := {
  conf_scheme : scheme_ok (sc_Protocol (ps_config conf)) = true;
  conf_host : host_ok (ps_Path conf) ip port;
  conf_service : plain_name (sc_Service (ps_config conf));
  conf_path : forallb path_char (sc_Service (ps_config conf)) = true;
  conf_bytes : config_bytes (ps_config conf);
  conf_methods : ps_Methods conf <> [] /\ Forall is_byte (ps_Methods conf);
  conf_given : ps_Path conf <> []
}.

Lemma host_url host ip port proto path v :
  host_ok host ip port -> scheme_ok proto = true -> forallb path_char path = true -> values_ok v ->
  Forall is_byte (url_text proto host path (Encode v)) ->
  let node := QueryEscape (url_text proto host path (Encode v)) in
  NewServiceURL node =
    inr (mkURL proto host (47 :: path) ip port (Get v (lit "version")) (Get v (lit "group")) v 0 node).
Proof.
  intros [Hh Hor] Hp Hpath Hv Hb node. unfold node. rewrite NewServiceURL_text by done. rewrite has_byte_spec.
  destruct Hor as [(Hno & -> & ->)|(-> & Hi & Hpo & Hib & Hpb)].
  - by rewrite bool_decide_eq_false_2.
  - rewrite bool_decide_eq_true_2 by (rewrite elem_of_app, elem_of_cons; auto).
    rewrite forallb_app in Hh. apply andb_true_iff in Hh as [Hi' Hh].
    apply andb_true_iff in Hh as [_ Hp']. by rewrite SplitHostPort_ok.
Qed.

(** The node that a registration makes, and the suffixes it has left. *)
Definition provider_node (a : ApplicationConfig) (timeout born : Z) (conf : ProviderServiceConfig) (path : bytes) : bytes :=
  QueryEscape (url_text (sc_Protocol (ps_config conf)) (ps_Path conf) path
    (Encode (provider_params a timeout born conf (lit "providers") (lit "provider")))).

(** The first registration of a service has its name as the path. *)
Lemma next_path_first service counts :
  counts !! service = None -> (next_path service counts).1 = service /\ (next_path service counts).2 !! service = Some 1.
Proof. intros Hc. unfold next_path. rewrite Hc. cbn. rewrite Hc. by rewrite lookup_insert_eq. Qed.

Lemma next_path_ok service counts :
  forallb path_char service = true -> forallb path_char (next_path service counts).1 = true.
Proof.
  intros Hs. unfold next_path. cbn. destruct (_ =? 0); [done|]. by rewrite forallb_app, Hs, Itoa_path.
Qed.

Lemma provider_text_bytes a timeout born conf ip port path :
  conf_ok conf ip port -> app_bytes a -> process_bytes -> forallb path_char path = true ->
  Forall is_byte (url_text (sc_Protocol (ps_config conf)) (ps_Path conf) path
    (Encode (provider_params a timeout born conf (lit "providers") (lit "provider")))).
Proof.
  intros Hc Ha Hp Hpath. unfold url_text. rewrite !Forall_app. split_and!.
  - apply (conf_bytes _ _ _ Hc).
  - literal.
  - apply (forallb_bytes host_char); [|apply (conf_host _ _ _ Hc)].
    intros c Hch. apply andb_true_iff in Hch as [Hch _]. apply andb_true_iff in Hch as [Hch _].
    apply between_spec in Hch. unfold is_byte. lia.
  - literal.
  - apply (forallb_bytes path_char); [|done]. intros c Hch. apply andb_true_iff in Hch as [Hch _].
    apply between_spec in Hch. unfold is_byte. lia.
  - literal.
  - apply Encode_bytes, provider_params_ok; [done|done|apply (conf_bytes _ _ _ Hc)|apply (conf_methods _ _ _ Hc)|literal|literal].
Qed.

(** The URL read from it is that of the provider, and has its configuration. *)
Lemma provider_node_url a timeout born conf ip port path :
  conf_ok conf ip port -> app_bytes a -> process_bytes -> forallb path_char path = true ->
  exists url, NewServiceURL (provider_node a timeout born conf path) = inr url
    /\ PrimitiveURL url = provider_node a timeout born conf path
    /\ Location url = ps_Path conf /\ Path url = 47 :: path /\ Ip url = ip /\ Port url = port
    /\ URL_ServiceConfig url = ps_config conf
    /\ Get (Query url) (lit "methods") = ps_Methods conf.
Proof.
  intros Hc Ha Hp Hpath. pose proof (provider_text_bytes a timeout born conf ip port path Hc Ha Hp Hpath) as Hb.
  eexists. split.
  - apply host_url; [apply (conf_host _ _ _ Hc)|apply (conf_scheme _ _ _ Hc)|done| |done].
    apply provider_params_ok; [done|done|apply (conf_bytes _ _ _ Hc)|apply (conf_methods _ _ _ Hc)|literal|literal].
  - cbn [PrimitiveURL Location Path Ip Port Query]. split_and!; try done.
    + unfold URL_ServiceConfig. cbn [Protocol Query Group Version].
      destruct (provider_params_get a timeout born conf (lit "providers") (lit "provider")) as (-> & -> & -> & _).
      by destruct (ps_config conf).
    + apply provider_params_get.
Qed.

Lemma service_path_abs service kind : service_path service kind = abs_path [lit "dubbo"; service; kind].
Proof. reflexivity. Qed.

End Agree.

(** ** Registering *)

Section Register.
Context {W Conn Wch : Type} `{ZT : ZkTree W Conn Wch} `{PR : Process} `{R : MapRange}.

Definition service_names (service kind : bytes) : list bytes := [lit "dubbo"; service; kind].

Lemma service_names_plain service kind :
  plain_name service -> plain_name kind -> Forall plain_name (service_names service kind).
Proof. intros Hs Hk. unfold service_names. rewrite !Forall_cons. split_and!; [literal|done|done|constructor]. Qed.

(** The registry has a session that is alive. *)
Definition connected (r : zookeeperRegistry Conn) (w : W) (z : zookeeperClient Conn) (c : Conn) : Prop :=
  client r = Some z /\ conn z = Some c /\ alive w c.

Lemma validate_connected name r w z c : connected r w z c -> validateZookeeperClient name (r, w) = (Ret tt, (r, w)).
Proof. intros (Hz & _ & _). unfold validateZookeeperClient. by rewrite Hz. Qed.

Lemma with_client_run {X} (f : zookeeperClient Conn -> ST W X) (r : zookeeperRegistry Conn) w z :
  client r = Some z -> with_client f (r, w) = (let '(o, w') := f z w in (o, (r, w'))).
Proof. intros Hz. unfold with_client. by rewrite Hz. Qed.

(** The two steps of a registration: the path, and the ephemeral node below it.
    [Some c] owns the node then. *)
Lemma register_temp_ok r w z c names node :
  connected r w z c -> names <> [] -> Forall plain_name (names ++ [node]) -> way_open w names ->
  tree w !! (names ++ [node]) = None ->
  exists w', registerTempZookeeperNode (abs_path names) node (r, w) = (Ret tt, (r, w'))
    /\ (forall k, tree w' !! k = if decide (k = names ++ [node]) then Some (Some c) else with_path names (tree w) k)
    /\ (forall c', alive w' c' <-> alive w c').
Proof.
  intros (Hz & Hc & Ha) Hne Hn Hw Hnew. apply Forall_app in Hn as Hn'. destruct Hn' as [Hnames _].
  destruct (Create_ok z c names w) as (w1 & E1 & Ht1 & Hal1); [done..|].
  assert (Hnot : ~ names ++ [node] `prefix_of` names) by apply prefix_snoc_not.
  destruct (RegisterTemp_ok z c names node w1) as (w2 & E2 & Ht2 & Hal2); [done|by apply Hal1|done|done|..].
  { rewrite Ht1. unfold with_path. by rewrite decide_True. }
  { rewrite Ht1. unfold with_path. by rewrite decide_False. }
  exists w2. unfold registerTempZookeeperNode, bind, trace, on_err.
  rewrite (with_client_run _ r w z Hz), E1, (with_client_run _ r w1 z Hz), E2. split; [done|]. split.
  - intros k. rewrite Ht2. destruct (decide _) as [->|]; [by rewrite lookup_insert_eq|].
    by rewrite lookup_insert_ne, Ht1 by done.
  - intros c'. by rewrite Hal2.
Qed.

(** The node is there already, its session lives. *)
Lemma register_temp_exists r w z c names node :
  connected r w z c -> names <> [] -> Forall plain_name (names ++ [node]) -> way_open w names ->
  is_Some (tree w !! (names ++ [node])) ->
  exists w', registerTempZookeeperNode (abs_path names) node (r, w) = (Fail (Traced (Traced ErrNodeExists)), (r, w'))
    /\ (forall k, tree w' !! k = with_path names (tree w) k) /\ (forall c', alive w' c' <-> alive w c').
Proof.
  intros (Hz & Hc & Ha) Hne Hn Hw Hx. apply Forall_app in Hn as Hn'. destruct Hn' as [Hnames _].
  destruct (Create_ok z c names w) as (w1 & E1 & Ht1 & Hal1); [done..|].
  destruct (RegisterTemp_exists z c names node w1) as (w2 & E2 & Ht2 & Hal2); [done|by apply Hal1|done|done|..].
  { rewrite Ht1. unfold with_path. by destruct (decide _). }
  exists w2. unfold registerTempZookeeperNode, bind, trace, on_err.
  rewrite (with_client_run _ r w z Hz), E1, (with_client_run _ r w1 z Hz), E2. split; [done|].
  split; [intros k; by rewrite Ht2, Ht1|]. intros c'. by rewrite Hal2.
Qed.

Definition node_of (r : zookeeperRegistry Conn) (conf : ProviderServiceConfig) (path : bytes) : bytes :=
  provider_node (app r) (rg_Timeout (config r)) (birth r) conf path.

Definition registry_ok (r : zookeeperRegistry Conn) : Prop := app_bytes (app r) /\ process_bytes.

Lemma node_of_plain r conf ip port path :
  conf_ok conf ip port -> registry_ok r -> forallb path_char path = true -> plain_name (node_of r conf path).
Proof. intros Hc [Ha Hp] Hpath. eapply node_plain, provider_text_bytes; done. Qed.

(** [register] up to its last step. *)
Lemma provider_register_steps r counts w z c conf ip port :
  connected r w z c -> conf_ok conf ip port -> way_open w (service_names (sc_Service (ps_config conf)) (lit "providers")) ->
  exists w1,
    (forall k, tree w1 !! k = with_path (service_names (sc_Service (ps_config conf)) (lit "providers")) (tree w) k)
    /\ (forall c', alive w1 c' <-> alive w c')
    /\ provider_register conf (mkProviderRegistry r counts, w) =
       let '(path, counts') := next_path (sc_Service (ps_config conf)) counts in
       (trace (on_registry (registerTempZookeeperNode
          (abs_path (service_names (sc_Service (ps_config conf)) (lit "providers"))) (node_of r conf path))) ;;;
        ret conf) (mkProviderRegistry r counts', w1).
Proof.
  intros Hcon Hc Hw. destruct Hcon as (Hz & Hcn & Ha).
  pose proof (service_names_plain _ (lit "providers") (conf_service _ _ _ Hc) ltac:(literal)) as Hn.
  destruct (Create_ok z c _ w Hcn Ha (not_eq_sym (@nil_cons _ _ _)) Hn Hw) as (w1 & E1 & Ht1 & Hal1).
  exists w1. split; [done|]. split; [done|]. unfold provider_register.
  destruct (conf_methods _ _ _ Hc) as [Hm _]. destruct (conf_service _ _ _ Hc) as (Hs & _).
  rewrite !bool_decide_eq_false_2 by done. cbn [orb].
  unfold bind at 1, trace at 1, on_err at 1, on_registry at 1, trace at 1, on_err at 1.
  rewrite (validate_connected _ _ _ z c) by done. cbn [p_registry zkPath].
  unfold bind at 1, of_outcome at 1. change (DubboType_String PROVIDER) with (Ret (lit "providers")).
  unfold bind at 1, trace at 1, on_err at 1, on_registry at 1. cbn [p_registry zkPath].
  rewrite (with_client_run _ r w z Hz), service_path_abs.
  rewrite E1.
  change (Role PROVIDER) with (Ret (lit "provider")).
  unfold bind at 1, of_outcome at 1. unfold bind at 1, get at 1. cbn [p_registry zkPath].
  assert (Hd : mkProvider (ps_config conf) (or_default (ps_Path conf) localIP) (ps_Methods conf) = conf).
  { pose proof (conf_given _ _ _ Hc). destruct conf as [sc pa me]. cbn in *. by destruct pa. }
  rewrite Hd. destruct (next_path _ counts) as [path counts']. reflexivity.
Qed.

Definition providers_of (conf : ProviderServiceConfig) : list bytes :=
  service_names (sc_Service (ps_config conf)) (lit "providers").

Lemma providers_plain r conf ip port path :
  conf_ok conf ip port -> registry_ok r -> forallb path_char path = true ->
  Forall plain_name (providers_of conf ++ [node_of r conf path]).
Proof.
  intros Hc Hr Hp. apply Forall_app. split.
  - apply service_names_plain; [apply (conf_service _ _ _ Hc)|literal].
  - apply Forall_singleton. by eapply node_of_plain.
Qed.

Lemma with_path_open names t (w : W) : (forall k, tree w !! k = with_path names t k) -> way_open w names.
Proof. intros Ht k o Hk. rewrite Ht. unfold with_path. rewrite decide_True by done. congruence. Qed.

Lemma with_path_again names t (w : W) k :
  (forall k, tree w !! k = with_path names t k) -> with_path names (tree w) k = with_path names t k.
Proof. intros Ht. unfold with_path at 1. rewrite Ht. unfold with_path. by destruct (decide _). Qed.

Lemma provider_register_ok r counts w z c conf ip port :
  let '(path, counts') := next_path (sc_Service (ps_config conf)) counts in
  connected r w z c -> conf_ok conf ip port -> registry_ok r -> way_open w (providers_of conf) ->
  tree w !! (providers_of conf ++ [node_of r conf path]) = None ->
  exists w', provider_register conf (mkProviderRegistry r counts, w) = (Ret conf, (mkProviderRegistry r counts', w'))
    /\ (forall k, tree w' !! k = if decide (k = providers_of conf ++ [node_of r conf path]) then Some (Some c)
                                 else with_path (providers_of conf) (tree w) k)
    /\ (forall c', alive w' c' <-> alive w c').
Proof.
  destruct (next_path _ counts) as [path counts'] eqn:Ep. intros Hcon Hc Hr Hw Hnew.
  assert (Hpath : forallb path_char path = true).
  { change path with (path, counts').1. rewrite <- Ep. apply next_path_ok, (conf_path _ _ _ Hc). }
  destruct (provider_register_steps r counts w z c conf ip port Hcon Hc Hw) as (w1 & Ht1 & Hal1 & ->).
  rewrite Ep. destruct Hcon as (Hz & Hcn & Ha).
  destruct (register_temp_ok r w1 z c (providers_of conf) (node_of r conf path)) as (w2 & E2 & Ht2 & Hal2).
  - split_and!; [done|done|by apply Hal1].
  - done.
  - by eapply providers_plain.
  - by eapply with_path_open.
  - rewrite Ht1. unfold with_path. rewrite decide_False; [done|]. apply prefix_snoc_not.
  - exists w2. unfold bind, trace, on_err, on_registry. cbn [p_registry zkPath].
    unfold providers_of in E2. rewrite E2. split; [done|]. split.
    + intros k. rewrite Ht2. destruct (decide _); [done|]. by apply with_path_again.
    + intros c'. by rewrite Hal2.
Qed.

Lemma provider_register_again r counts w z c conf ip port :
  let '(path, counts') := next_path (sc_Service (ps_config conf)) counts in
  connected r w z c -> conf_ok conf ip port -> registry_ok r -> way_open w (providers_of conf) ->
  is_Some (tree w !! (providers_of conf ++ [node_of r conf path])) ->
  exists w' e, provider_register conf (mkProviderRegistry r counts, w) = (Fail e, (mkProviderRegistry r counts', w'))
    /\ (forall k, tree w' !! k = with_path (providers_of conf) (tree w) k)
    /\ (forall c', alive w' c' <-> alive w c').
Proof.
  destruct (next_path _ counts) as [path counts'] eqn:Ep. intros Hcon Hc Hr Hw Hx.
  assert (Hpath : forallb path_char path = true).
  { change path with (path, counts').1. rewrite <- Ep. apply next_path_ok, (conf_path _ _ _ Hc). }
  destruct (provider_register_steps r counts w z c conf ip port Hcon Hc Hw) as (w1 & Ht1 & Hal1 & ->).
  rewrite Ep. destruct Hcon as (Hz & Hcn & Ha).
  destruct (register_temp_exists r w1 z c (providers_of conf) (node_of r conf path)) as (w2 & E2 & Ht2 & Hal2).
  - split_and!; [done|done|by apply Hal1].
  - done.
  - by eapply providers_plain.
  - by eapply with_path_open.
  - rewrite Ht1. unfold with_path. by destruct (decide _).
  - eexists w2, _. unfold bind, trace, on_err, on_registry. cbn [p_registry zkPath].
    unfold providers_of in E2. rewrite E2. split; [done|]. split.
    + intros k. rewrite Ht2. by apply with_path_again.
    + intros c'. by rewrite Hal2.
Qed.

End Register.

(** ** Reading the nodes of a service *)

(** The providers among the nodes that a configuration accepts. *)
Definition accepted (c : ServiceConfig) (n : bytes) : option ServiceURL :=
  match NewServiceURL n with
  | inr url => if ServiceEqual c url then Some url else None
  | inl _ => None
  end.

Definition at_location (loc : bytes) (u : ServiceURL) : Prop := Location u = loc.
#[export] Instance at_location_dec loc u : Decision (at_location loc u).
Proof. unfold at_location. apply _. Defined.

(** The query has no key that is the location. *)
Definition location_ok (u : ServiceURL) : Prop := Location u <> [] /\ Get (Query u) (Location u) = [].

Lemma services_loop_last c nodes m loc :
  Forall location_ok (omap (accepted c) nodes) -> m !! [] = None ->
  services_loop c nodes m !! loc =
    match last (filter (at_location loc) (omap (accepted c) nodes)) with
    | Some u => Some u
    | None => m !! loc
    end.
Proof.
  revert m. induction nodes as [|n nodes IH]; intros m Hok Hm; [done|]. cbn [services_loop]. cbn in Hok.
  destruct (accepted c n) as [u|] eqn:E.
  - unfold accepted in E. destruct (NewServiceURL n) as [e|url] eqn:En; [done|].
    destruct (ServiceEqual c url) eqn:Es; [|done]. injection E as ->. cbn [negb].
    apply Forall_cons in Hok as [[Hl Hq] Hok]. rewrite Hq, Hm, IH; [|done|by rewrite lookup_insert_ne].
    cbn [omap list_omap]. unfold accepted at 2. rewrite En, Es.
    destruct (decide (Location u = loc)) as [<-|Hne].
    + rewrite filter_cons_True by done. rewrite last_cons, lookup_insert_eq. by destruct (last _).
    + rewrite filter_cons_False by done. by rewrite lookup_insert_ne.
  - assert (Heq : services_loop c (n :: nodes) m = services_loop c nodes m).
    { cbn. unfold accepted in E. destruct (NewServiceURL n); [done|]. by destruct (ServiceEqual c s). }
    cbn [services_loop] in Heq. rewrite Heq, IH by done. cbn [omap list_omap]. by rewrite E.
Qed.

Section Lookup.
Context {W Conn Wch : Type} `{ZT : ZkTree W Conn Wch} `{PR : Process} `{R : MapRange}.

Lemma GetServices_run r w z c sc conf :
  connected r w z c -> lookup_service r (Key sc) = Some (IfConfig conf) -> plain_name (sc_Service sc) ->
  is_Some (tree w !! service_names (sc_Service sc) (lit "providers")) ->
  exists nodes w', GetServices (IfConfig sc) (r, w) =
      (match nodes with
       | [] => Fail (Traced none_children)
       | _ => Ret (range (services_loop conf nodes ∅)).*2
       end, (r, w'))
    /\ NoDup nodes
    /\ (forall n, n ∈ nodes <-> is_Some (tree w !! (service_names (sc_Service sc) (lit "providers") ++ [n])))
    /\ same_world w w'.
Proof.
  intros Hcon Hl Hs Hx. pose proof Hcon as (Hz & Hcn & Ha).
  destruct (getChildren_ok z c (service_names (sc_Service sc) (lit "providers")) w) as (ls & w' & E & Hnd & Hls & Hsame).
  { done. } { done. } { by apply service_names_plain; [|literal]. } { done. }
  exists ls, w'. split; [|done]. unfold GetServices. rewrite Hl.
  unfold bind at 1, trace at 1, on_err at 1. rewrite (validate_connected _ _ _ z c) by done.
  unfold bind, trace, on_err. rewrite (with_client_run _ r w z Hz), service_path_abs.
  fold (service_names (sc_Service sc) (lit "providers")). rewrite E. by destruct ls.
Qed.

(** A consumer that asks for the providers of a service gets, for each
    address, the last of the listed nodes that is a provider with the consumer's
    protocol, service, group and version, and no others. *)
Lemma GetServices_last r w z c sc conf :
  connected r w z c -> lookup_service r (Key sc) = Some (IfConfig conf) -> plain_name (sc_Service sc) ->
  is_Some (tree w !! service_names (sc_Service sc) (lit "providers")) ->
  (forall n u, accepted conf n = Some u -> is_Some (tree w !! (service_names (sc_Service sc) (lit "providers") ++ [n])) ->
    location_ok u) ->
  exists nodes o w', GetServices (IfConfig sc) (r, w) = (o, (r, w')) /\ same_world w w'
    /\ (forall n, n ∈ nodes <-> is_Some (tree w !! (service_names (sc_Service sc) (lit "providers") ++ [n])))
    /\ match nodes with
       | [] => o = Fail (Traced none_children)
       | _ => exists urls, o = Ret urls /\ NoDup (Location <$> urls)
                /\ forall u, u ∈ urls <-> last (filter (at_location (Location u)) (omap (accepted conf) nodes)) = Some u
       end.
Proof.
  intros Hcon Hl Hs Hx Hok. destruct (GetServices_run r w z c sc conf) as (nodes & w' & E & _ & Hn & Hsame); [done..|].
  assert (Hlast : forall loc, services_loop conf nodes ∅ !! loc = last (filter (at_location loc) (omap (accepted conf) nodes))).
  { intros loc. rewrite services_loop_last; [|apply Forall_forall|apply lookup_empty].
    - by rewrite lookup_empty; destruct (last _).
    - intros u Hu. apply list_elem_of_omap in Hu as (n & Hin & Hu). eapply Hok; [done|]. by apply Hn. }
  assert (Hloc : forall loc u, services_loop conf nodes ∅ !! loc = Some u -> Location u = loc).
  { intros loc u Hu. rewrite Hlast in Hu. apply last_Some_elem_of, list_elem_of_filter in Hu as [Hu _]. done. }
  eexists nodes, _, w'. split; [exact E|]. split; [done|]. split; [done|]. destruct nodes as [|n nodes]; [done|].
  eexists. split; [reflexivity|]. set (m := services_loop conf (n :: nodes) ∅) in *.
  assert (Hkeys : Location <$> (range m).*2 = (range m).*1).
  { rewrite <- list_fmap_compose. apply list_fmap_ext. intros i [loc u] Hi. cbn. apply Hloc.
    apply elem_of_map_to_list. rewrite <- range_perm. by eapply list_elem_of_lookup_2. }
  rewrite Hkeys. split; [rewrite range_perm; apply NoDup_fst_map_to_list|]. intros u. rewrite <- Hlast. split.
  - intros Hu. apply list_elem_of_fmap in Hu as ([loc u'] & -> & Hu). rewrite range_perm in Hu.
    apply elem_of_map_to_list in Hu. cbn. by rewrite (Hloc _ _ Hu).
  - intros Hu. apply list_elem_of_fmap. exists (Location u, u). split; [done|]. rewrite range_perm.
    by apply elem_of_map_to_list.
Qed.

(** [Register] of a configuration, and then [GetServices] of a consumer. *)
Lemma registered_url r counts w z c conf ip port m r2 z2 c2 cc :
  connected r w z c -> conf_ok conf ip port -> registry_ok r -> way_open w (providers_of conf) ->
  (forall n, tree w !! (providers_of conf ++ [n]) = None) ->
  services r = Some m -> m !! ProviderServiceConfig_String conf = None ->
  connected r2 w z2 c2 -> lookup_service r2 (Key cc) = Some (IfConfig cc) ->
  sc_Service cc = sc_Service (ps_config conf) ->
  exists p' w' w'' url,
    provider_Register (IfProvider conf) (mkProviderRegistry r counts, w) = (Ret tt, (p', w'))
    /\ services (p_registry p') = Some (<[ProviderServiceConfig_String conf := IfProvider conf]> m)
    /\ Location url = ps_Path conf /\ Ip url = ip /\ Port url = port
    /\ Path url = 47 :: (next_path (sc_Service (ps_config conf)) counts).1
    /\ Get (Query url) (lit "methods") = ps_Methods conf
    /\ GetServices (IfConfig cc) (r2, w') = (Ret (if decide (cc = ps_config conf) then [url] else []), (r2, w'')).
Proof.
  intros Hcon Hc Hr Hw Hnone Hm Hnew Hcon2 Hl2 Hsvc.
  pose proof (provider_register_ok r counts w z c conf ip port) as Hreg.
  destruct (next_path _ counts) as [path counts'] eqn:Ep.
  destruct (Hreg Hcon Hc Hr Hw (Hnone _)) as (w1 & E1 & Ht1 & Hal1). clear Hreg.
  assert (Hpath : forallb path_char path = true).
  { change path with (path, counts').1. rewrite <- Ep. apply next_path_ok, (conf_path _ _ _ Hc). }
  destruct Hr as [Hab Hpb].
  destruct (provider_node_url (app r) (rg_Timeout (config r)) (birth r) conf ip port path Hc Hab Hpb Hpath)
    as (url & Eu & _ & Hloc & Hpa & Hip & Hport & Hsc & Hmeth).
  assert (Htp : tree w1 !! providers_of conf = Some None).
  { rewrite Ht1. destruct (decide _) as [E|_]; [apply (f_equal length) in E; rewrite length_app in E; cbn in E; lia|].
    unfold with_path. by rewrite decide_True. }
  destruct (GetServices_run r2 w1 z2 c2 cc cc) as (nodes & w2 & E2 & Hnd & Hn & _).
  { destruct Hcon2 as (? & ? & ?). split_and!; [done|done|by apply Hal1]. }
  { done. } { rewrite Hsvc. apply (conf_service _ _ _ Hc). } { rewrite Hsvc. by eexists. }
  assert (Hnodes : nodes = [node_of r conf path]).
  { apply Permutation_singleton_r, NoDup_Permutation; [done|apply NoDup_singleton|]. intros n.
    rewrite Hn, Hsvc, list_elem_of_singleton. fold (providers_of conf). rewrite Ht1. split.
    - intros [o Ho]. destruct (decide _) as [E|_]; [by apply app_inj_tail in E as [_ ->]|].
      unfold with_path in Ho. rewrite decide_False in Ho by apply prefix_snoc_not. by rewrite Hnone in Ho.
    - intros ->. rewrite decide_True by done. by eexists. }
  eexists _, w1, w2, url. split; [|split; [|split; [exact Hloc|split; [exact Hip|split; [exact Hport|split; [exact Hpa|split; [exact Hmeth|]]]]]]].
  - unfold provider_Register, lookup_service. cbn [p_registry]. rewrite Hm, Hnew.
    unfold bind, trace, on_err. rewrite E1. unfold on_registry, put_service. cbn [p_registry]. rewrite Hm. reflexivity.
  - done.
  - rewrite E2, Hnodes. cbn [services_loop]. unfold node_of. rewrite Eu. do 2 f_equal.
    destruct (decide (cc = ps_config conf)) as [->|Hne].
    + rewrite (proj2 (ServiceEqual_iff _ _)) by done. cbn [negb]. rewrite lookup_empty.
      assert (Hp : range {[Location url := url]} = [(Location url, url)]).
      { apply Permutation_singleton_r. rewrite range_perm. by rewrite map_to_list_singleton. }
      change (<[Location url := url]> ∅) with ({[Location url := url]} : gmap bytes ServiceURL). by rewrite Hp.
    + destruct (ServiceEqual cc url) eqn:Es; [apply ServiceEqual_iff in Es; congruence|]. cbn [negb].
      pose proof (range_perm (∅ : gmap bytes ServiceURL)) as Hp. rewrite map_to_list_empty in Hp.
      by apply Permutation_nil_r in Hp as ->.
Qed.

(** C22. What a provider registers is what a consumer is given: after [Register]
    of a configuration, [GetServices] of a consumer that asks for the same
    service returns the provider's address if the consumer's protocol, group and
    version are those of the provider, and nothing otherwise. *)
Theorem registered_is_found r counts w z c conf ip port m r2 z2 c2 cc :
  connected r w z c -> conf_ok conf ip port -> registry_ok r -> way_open w (providers_of conf) ->
  (forall n, tree w !! (providers_of conf ++ [n]) = None) ->
  services r = Some m -> m !! ProviderServiceConfig_String conf = None ->
  connected r2 w z2 c2 -> lookup_service r2 (Key cc) = Some (IfConfig cc) ->
  sc_Service cc = sc_Service (ps_config conf) ->
  exists p' w' w'' url,
    provider_Register (IfProvider conf) (mkProviderRegistry r counts, w) = (Ret tt, (p', w'))
    /\ services (p_registry p') = Some (<[ProviderServiceConfig_String conf := IfProvider conf]> m)
    /\ Location url = ps_Path conf /\ Ip url = ip /\ Port url = port
    /\ GetServices (IfConfig cc) (r2, w') = (Ret (if decide (cc = ps_config conf) then [url] else []), (r2, w'')).
Proof.
  intros Hcon Hc Hr Hw Hnone Hm Hnew Hcon2 Hl2 Hsvc.
  destruct (registered_url r counts w z c conf ip port m r2 z2 c2 cc) as (p' & w' & w'' & url & E1 & E2 & ? & ? & ? & _ & _ & E3); try done.
  by exists p', w', w'', url.
Qed.

End Lookup.

(** ** A provider and a consumer *)

#[export] Instance process1 : Process := {| processID := lit "7"; localIP := lit "h" |}.

Definition app1 : ApplicationConfig := mkApp (lit "o") (lit "a") (lit "m") (lit "1") (lit "w").
Definition conf1 : ProviderServiceConfig := mkProvider (mkConfig (lit "jsonrpc") (lit "S") (lit "g") (lit "2")) (lit "h:1") (lit "M").
Definition registry1 (m : gmap bytes ServiceConfigIf) : zookeeperRegistry nat :=
  mkZkRegistry app1 (mkRegistryConfig [lit "z"] [] [] 1) 5 false (Some client1) (Some m).
Definition consumer1 : zookeeperRegistry nat := registry1 {[ Key (ps_config conf1) := IfConfig (ps_config conf1) ]}.

Lemma conf1_ok : conf_ok conf1 (lit "h") (lit "1").
Proof.
  split; first [vm_compute; reflexivity|literal].
Qed.

Lemma registry1_ok m : registry_ok (registry1 m).
Proof. split; split_and!; literal. Qed.

Lemma registry1_connected m : connected (registry1 m) server1 client1 0%nat.
Proof. split_and!; [done..|apply server1_alive]. Qed.

Lemma registered_is_found_witness :
  exists p' w' w'' url,
    provider_Register (IfProvider conf1) (mkProviderRegistry (registry1 ∅) ∅, server1) = (Ret tt, (p', w'))
    /\ Location url = lit "h:1"
    /\ GetServices (IfConfig (ps_config conf1)) (consumer1, w') = (Ret [url], (consumer1, w'')).
Proof.
  destruct (registered_is_found (registry1 ∅) ∅ server1 client1 0%nat conf1 (lit "h") (lit "1") ∅ consumer1 client1 0%nat
    (ps_config conf1)) as (p' & w' & w'' & url & E1 & _ & E2 & _ & _ & E3).
  - apply registry1_connected.
  - apply conf1_ok.
  - apply registry1_ok.
  - apply server1_open.
  - intros n. by apply server1_new.
  - reflexivity.
  - apply lookup_empty.
  - apply registry1_connected.
  - apply lookup_singleton_eq.
  - reflexivity.
  - exists p', w', w'', url. split; [exact E1|]. split; [exact E2|]. rewrite decide_True in E3 by done. exact E3.
Defined.

(** A server with a node that is no provider's. *)
Definition server2 : server := mkServer {[ service_names (lit "S") (lit "providers") ++ [lit "x"] := None;
  service_names (lit "S") (lit "providers") := None ]} {[ 0%nat ]} 0.

Lemma server2_nodes n : is_Some (tree server2 !! (service_names (lit "S") (lit "providers") ++ [n])) <-> n = lit "x".
Proof.
  split; [|intros ->; vm_compute; by eexists]. intros [o Ho]. change (tree server2) with (sv_tree server2) in Ho.
  unfold sv_tree, server2 in Ho. cbn [sv_nodes] in Ho.
  apply lookup_insert_Some in Ho as [[E _]|[_ Ho]]; [done|].
  apply lookup_insert_Some in Ho as [[E _]|[_ Ho]]; [by injection E as <-|].
  apply lookup_singleton_Some in Ho as [E _]. done.
Qed.

Lemma server2_none : accepted (ps_config conf1) (lit "x") = None.
Proof. vm_compute. reflexivity. Qed.

