(* ===== verification/ZkRestart.v ===== *)
(** * Providers that reconnect

    Theorems about [handleZkRestart] of the provider's registry: the first
    reconnection registers what was registered, under a second path; a later one
    never ends. *)
From S2P Require Import Prelude.
From S2P Require Import Registry Url Common Zookeeper ZkRegistry ZkAgree.

(** ** The suffix of a path *)

Lemma next_path_more service counts :
  counts !! service = Some 1 ->
  (next_path service counts).1 = service ++ lit "1" /\ (next_path service counts).2 !! service = Some 1.
Proof.
  intros Hc. unfold next_path. rewrite Hc. cbn. split; [done|]. rewrite lookup_insert_ne; [done|].
  intros E. apply (f_equal length) in E. rewrite length_app in E. cbn in E. lia.
Qed.

(** The counts after [n] registrations of a service. *)
Definition counts_after (service : bytes) (n : nat) : gmap bytes Z :=
  Nat.iter n (fun counts => (next_path service counts).2) ∅.

(** The paths that a service is registered under: its own name the first
    time, and with the suffix 1 every time after that; there is no 2. *)
Lemma suffix_never_grows service n :
  (next_path service (counts_after service n)).1 = (if (n =? 0)%nat then service else service ++ lit "1").
Proof.
  assert (Hn : forall n, counts_after service (S n) !! service = Some 1).
  { induction n0 as [|n0 IH]; [by apply next_path_first, lookup_empty|].
    change (counts_after service (S (S n0))) with ((next_path service (counts_after service (S n0))).2).
    by apply next_path_more. }
  destruct n as [|n]; [by apply next_path_first, lookup_empty|]. by apply next_path_more.
Qed.

Section Restart.
Context {W Conn Wch : Type} `{ZT : ZkTree W Conn Wch} `{PR : Process} `{R : MapRange}.

Abbreviation state := (provider (Conn := Conn) * W)%type.

Lemma next_path_again service counts :
  counts !! service = Some 1 ->
  exists counts', next_path service counts = (service ++ lit "1", counts') /\ counts' !! service = Some 1.
Proof.
  intros Hc. destruct (next_path_more service counts Hc) as [H1 H2].
  destruct (next_path service counts) as [path counts']. cbn in *. subst. by eexists.
Qed.

(** ** A list that has a configuration twice *)

Lemma way_open_with names t (w : W) : (forall k, tree w !! k = with_path names t k) -> way_open w names.
Proof. apply with_path_open. Qed.

Lemma way_open_node names n t (w : W) o :
  (forall k, tree w !! k = if decide (k = names ++ [n]) then o else with_path names t k) -> way_open w names.
Proof.
  intros Ht k o' Hk. rewrite Ht. destruct (decide _) as [->|]; [by apply prefix_snoc_not in Hk|].
  unfold with_path. rewrite decide_True by done. congruence.
Qed.

(** What stays true while the goroutine registers one service again. *)
Definition good (conf : ProviderServiceConfig) (r : zookeeperRegistry Conn) (z : zookeeperClient Conn) (c : Conn)
    (s : state) : Prop :=
  p_registry s.1 = r /\ zkPath s.1 !! sc_Service (ps_config conf) = Some 1
  /\ connected r s.2 z c /\ way_open s.2 (providers_of conf).

Definition node_one (r : zookeeperRegistry Conn) (conf : ProviderServiceConfig) : list bytes :=
  providers_of conf ++ [node_of r conf (sc_Service (ps_config conf) ++ lit "1")].

Lemma reregister_new conf ip port r z c s :
  conf_ok conf ip port -> registry_ok r -> good conf r z c s -> tree s.2 !! node_one r conf = None ->
  exists s', provider_reregister (IfProvider conf) s = (Ret tt, s') /\ good conf r z c s'
    /\ tree s'.2 !! node_one r conf = Some (Some c).
Proof.
  destruct s as [[r0 counts] w]. intros Hc Hr (Hr0 & Hcnt & Hcon & Hw) Hnew. cbn in Hr0, Hcnt, Hcon, Hw, Hnew. subst r0.
  destruct (next_path_again _ _ Hcnt) as (counts' & Ep & Hcnt').
  pose proof (provider_register_ok r counts w z c conf ip port) as H. rewrite Ep in H.
  destruct (H Hcon Hc Hr Hw Hnew) as (w' & E & Ht & Hal).
  exists (mkProviderRegistry r counts', w'). unfold provider_reregister, bind. rewrite E. split; [done|]. cbn [snd]. split.
  - split_and!; [done|done| |by eapply way_open_node]. destruct Hcon as (? & ? & ?). split_and!; [done|done|by apply Hal].
  - rewrite Ht. unfold node_one. by rewrite decide_True.
Qed.

Lemma reregister_fails conf ip port r z c s :
  conf_ok conf ip port -> registry_ok r -> good conf r z c s -> is_Some (tree s.2 !! node_one r conf) ->
  exists e s', provider_reregister (IfProvider conf) s = (Fail e, s') /\ good conf r z c s'.
Proof.
  destruct s as [[r0 counts] w]. intros Hc Hr (Hr0 & Hcnt & Hcon & Hw) Hx. cbn in Hr0, Hcnt, Hcon, Hw, Hx. subst r0.
  destruct (next_path_again _ _ Hcnt) as (counts' & Ep & Hcnt').
  pose proof (provider_register_again r counts w z c conf ip port) as H. rewrite Ep in H.
  destruct (H Hcon Hc Hr Hw Hx) as (w' & e & E & Ht & Hal).
  exists e, (mkProviderRegistry r counts', w'). unfold provider_reregister, bind. rewrite E. split; [done|].
  split_and!; [done|done| |by eapply way_open_with]. destruct Hcon as (? & ? & ?). split_and!; [done|done|by apply Hal].
Qed.

Lemma register_twice_fails conf ip port r z c rest s :
  conf_ok conf ip port -> registry_ok r -> good conf r z c s ->
  exists s', register_all provider_reregister (IfProvider conf :: IfProvider conf :: rest) s = (Ret false, s')
    /\ good conf r z c s'.
Proof.
  intros Hc Hr Hg. cbn [register_all]. destruct (tree s.2 !! node_one r conf) as [o|] eqn:E.
  - destruct (reregister_fails conf ip port r z c s) as (e & s' & -> & Hg'); [done..|by eexists|]. by exists s'.
  - destruct (reregister_new conf ip port r z c s) as (s1 & -> & Hg1 & Hnode); [done..|].
    destruct (reregister_fails conf ip port r z c s1) as (e & s' & -> & Hg'); [done..|by eexists|]. by exists s'.
Qed.

(** ** Reconnecting *)

(** What happens meanwhile neither ends a session nor blocks the way. *)
Definition calm (conf : ProviderServiceConfig) (t : turn (W := W)) : Prop :=
  match t with
  | TurnDone => False
  | TurnTimer env => forall w, (forall c, alive w c -> alive (env w) c)
      /\ (way_open w (providers_of conf) -> way_open (env w) (providers_of conf))
  end.

(** The goroutine between two turns: it has a client with a living session, or
    none. *)
Definition restarting (conf : ProviderServiceConfig) (s : state) : Prop :=
  let r := p_registry s.1 in
  (exists key, services r = Some {[key := IfProvider conf]})
  /\ zkPath s.1 !! sc_Service (ps_config conf) = Some 1 /\ registry_ok r /\ way_open s.2 (providers_of conf)
  /\ match client r with
     | None => True
     | Some z => exists c, conn z = Some c /\ alive s.2 c
     end.

Lemma range_one (r : zookeeperRegistry Conn) key conf :
  services r = Some {[key := conf]} -> range_services r = [conf].
Proof.
  intros Hm. unfold range_services. rewrite Hm.
  assert (Hp : range {[key := conf]} = [(key, conf)]); [|by rewrite Hp].
  apply Permutation_singleton_r. rewrite range_perm. by rewrite map_to_list_singleton.
Qed.

(** [validateZookeeperClient] leaves a client with a living session, or the log
    that follows panics. *)
Lemma validate_restarting conf (p : provider (Conn := Conn)) w :
  restarting conf (p, w) ->
  (exists r z c w', on_registry (validateZookeeperClient ProviderRegistryZkClient) (p, w) =
      (Ret tt, (mkProviderRegistry r (zkPath p), w'))
    /\ good conf r z c (mkProviderRegistry r (zkPath p), w') /\ registry_ok r
    /\ (exists key, services r = Some {[key := IfProvider conf]}))
  \/ (exists o s', on_registry (validateZookeeperClient ProviderRegistryZkClient) (p, w) = (o, s') /\ o <> Ret tt).
Proof.
  destruct p as [r counts]. intros (Hm & Hcnt & Hr & Hw & Hcl). cbn in Hm, Hcnt, Hr, Hw, Hcl.
  unfold on_registry. cbn [p_registry zkPath]. destruct (client r) as [z|] eqn:Ez.
  - left. destruct Hcl as (c & Hc & Ha). exists r, z, c, w. unfold validateZookeeperClient. by rewrite Ez.
  - unfold validateZookeeperClient, newZookeeperClient. rewrite Ez.
    destruct (zk_Connect _ _ w) as [[c|e| |] w'] eqn:E; [left|right; by eexists _, _..].
    destruct (tree_connect _ _ _ _ _ E) as (Ha & _ & Ht & _).
    eexists _, _, c, w'. split; [reflexivity|]. unfold good, connected. cbn. split_and!; try done.
    intros k o Hk. rewrite Ht. by apply Hw.
Qed.

Lemma attempt_twice conf ip port n (p : provider (Conn := Conn)) w :
  conf_ok conf ip port -> restarting conf (p, w) ->
  (exists s', restart_attempt (@on_registry W Conn) ProviderRegistryZkClient provider_reregister
      (replicate (S n) (IfProvider conf)) (p, w) = (Ret (false, replicate (S (S n)) (IfProvider conf)), s')
    /\ restarting conf s')
  \/ (exists o s', restart_attempt (@on_registry W Conn) ProviderRegistryZkClient provider_reregister
      (replicate (S n) (IfProvider conf)) (p, w) = (o, s') /\ forall x, o <> Ret x).
Proof.
  intros Hc Hst. unfold restart_attempt.
  destruct (validate_restarting conf p w Hst) as [(r & z & c & w' & -> & Hg & Hr & key & Hm)|(o & s' & -> & Hne)].
  - left. unfold bind at 1, on_registry at 1. cbn [p_registry zkPath]. rewrite (range_one r key (IfProvider conf) Hm).
    assert (Hl : replicate (S n) (IfProvider conf) ++ [IfProvider conf] = replicate (S (S n)) (IfProvider conf)).
    { rewrite (replicate_S_end (S n)). done. }
    rewrite Hl. unfold bind at 1.
    destruct (register_twice_fails conf ip port r z c (replicate n (IfProvider conf)) _ Hc Hr Hg) as (s' & E & Hg').
    change (replicate (S (S n)) (IfProvider conf)) with (IfProvider conf :: IfProvider conf :: replicate n (IfProvider conf)).
    rewrite E. exists s'. split; [done|]. destruct Hg' as (Hr' & Hcnt & (Hz & Hcn & Ha) & Hw).
    unfold restarting. rewrite Hr', Hz. split_and!; try done; by eexists.
  - right. destruct o as [[]|e| |]; [done|by eexists _, _..].
Qed.

Lemma calm_restarting conf env s w :
  calm conf (TurnTimer env) -> restarting conf (s, w) -> restarting conf (s, env w).
Proof.
  intros Hcalm (Hm & Hcnt & Hr & Hw & Hcl). destruct (Hcalm w) as [Ha Hw'].
  split_and!; [done|done|done|by apply Hw'|]. cbn in *. destruct (client _); [|done].
  destruct Hcl as (c & ? & ?). exists c. split; [done|by apply Ha].
Qed.

Lemma reconnect_never conf ip port turns n ft (s : state) confs s' :
  conf_ok conf ip port -> restarting conf s -> Forall (calm conf) turns ->
  reconnect (@on_registry W Conn) ProviderRegistryZkClient provider_reregister turns
    (replicate (S n) (IfProvider conf)) ft s <> (Ret (Reconnected confs), s').
Proof.
  intros Hc. revert n ft s. induction turns as [|t turns IH]; intros n ft [p w] Hst Ht; [done|].
  apply Forall_cons in Ht as [Ht Hts]. destruct t as [|env]; [done|]. cbn [reconnect].
  unfold bind at 1. apply (calm_restarting conf env) in Hst; [|done]. unfold bind at 1.
  destruct (attempt_twice conf ip port n p (env w) Hc Hst) as [([p1 w1] & -> & Hst')|(o & s1 & -> & Hne)].
  - by apply IH.
  - destruct o as [x|e| |]; [by destruct (Hne x)|done..].
Qed.

Lemma drop_restarting conf (p : provider (Conn := Conn)) w :
  restarting conf (p, w) -> client (p_registry p) <> None ->
  exists w', on_registry drop_client (p, w) =
      (Ret tt, (mkProviderRegistry (set_client None (p_registry p)) (zkPath p), w'))
    /\ restarting conf (mkProviderRegistry (set_client None (p_registry p)) (zkPath p), w').
Proof.
  destruct p as [r counts]. intros (Hm & Hcnt & Hr & Hw & Hcl) Hz. cbn in *.
  destruct (client r) as [z|] eqn:Ez; [|done]. unfold on_registry, drop_client. cbn [p_registry zkPath].
  destruct (zk_client_Close z w) as [z' w'] eqn:E. eexists. split; [reflexivity|]. split_and!; try done.
  intros k o Hk Hko. unfold zk_client_Close, drop_conn in E. destruct (conn (stop z).2) as [c|]; simplify_eq; [|by eapply Hw].
  cbn in Hko. destruct (tree_close w c k) as (H1 & H2 & _).
  destruct (tree w !! k) as [[c'|]|] eqn:Ek; [by specialize (Hw k (Some c') Hk Ek)|..].
  - rewrite H2 in Hko by done. congruence.
  - rewrite H2 in Hko by done. congruence.
Qed.

(** ** Properties *)

(** The first reconnection works: when zookeeper is back, the service is
    registered again in the new session, under its path with the suffix, and the
    goroutine waits for the next loss with the configuration in its slice. *)
Lemma first_restart_registers conf ip port (p : provider (Conn := Conn)) w env c w2 :
  conf_ok conf ip port -> restarting conf (p, w) -> client (p_registry p) <> None -> calm conf (TurnTimer env) ->
  (forall p1 w1, on_registry drop_client (p, w) = (Ret tt, (p1, w1)) ->
    zk_Connect (rg_Address (config (p_registry p))) (TimeSecondDuration (rg_Timeout (config (p_registry p)))) (env w1) = (Ret c, w2)
    /\ tree (env w1) !! node_one (p_registry p) conf = None) ->
  exists p' w', provider_restart [TurnTimer env] [] (p, w) = (Ret (Reconnected [IfProvider conf]), (p', w'))
    /\ tree w' !! node_one (p_registry p) conf = Some (Some c).
Proof.
  intros Hc Hst Hz Hcalm Hback. destruct (drop_restarting conf p w Hst Hz) as (w1 & E1 & Hst1).
  destruct (Hback _ _ E1) as [Econ Hnode]. apply (calm_restarting conf env) in Hst1; [|done].
  destruct Hst1 as ((key & Hm) & Hcnt & Hr & Hw & _). cbn in Hm, Hcnt, Hr, Hw.
  destruct (tree_connect _ _ _ _ _ Econ) as (Ha & _ & Ht & _).
  set (z := mkZkClient ProviderRegistryZkClient (rg_Address (config (p_registry p))) (Some c)
    (rg_Timeout (config (p_registry p))) false ∅). set (r := set_client (Some z) (p_registry p)).
  destruct (reregister_new conf ip port r z c (mkProviderRegistry r (zkPath p), w2)) as ([p' w'] & E & Hg & Hnode').
  { done. } { done. }
  { split_and!; [done|done|done|]. intros k o Hk. cbn [snd]. rewrite Ht. by apply Hw. }
  { cbn [snd]. rewrite Ht. exact Hnode. }
  exists p', w'. split; [|exact Hnode']. unfold provider_restart, restart. unfold bind at 1. rewrite E1.
  cbn [reconnect]. unfold bind at 1. unfold bind at 1. unfold restart_attempt, on_registry at 1. cbn [p_registry zkPath].
  unfold validateZookeeperClient, newZookeeperClient. cbn [client config set_client]. rewrite Econ.
  unfold bind at 1, on_registry at 1. cbn [p_registry zkPath].
  change (set_client _ (set_client None (p_registry p))) with r.
  rewrite (range_one r key (IfProvider conf)) by done.
  unfold bind at 1. change ([] ++ [IfProvider conf]) with [IfProvider conf]. cbn [register_all]. rewrite E. reflexivity.
Qed.

(** C29. The second reconnection never ends, whatever happens: the slice still
    has the configuration, which is registered twice in every attempt, and the
    second time its node is there. *)
Theorem second_restart_never_ends conf ip port turns n (p : provider (Conn := Conn)) w confs s' :
  conf_ok conf ip port -> restarting conf (p, w) -> client (p_registry p) <> None -> Forall (calm conf) turns ->
  provider_restart turns (replicate (S n) (IfProvider conf)) (p, w) <> (Ret (Reconnected confs), s').
Proof.
  intros Hc Hst Hz Ht. unfold provider_restart, restart. unfold bind at 1.
  destruct (drop_restarting conf p w Hst Hz) as (w1 & -> & Hst1). by eapply reconnect_never.
Qed.

(** A reconnection that zookeeper refuses ends the process: the log after it
    reads the addresses of the client that is nil. *)
Lemma failed_reconnect_panics turns env confs (p : provider (Conn := Conn)) w z e :
  client (p_registry p) = Some z ->
  (forall w1, exists w2, zk_Connect (rg_Address (config (p_registry p)))
    (TimeSecondDuration (rg_Timeout (config (p_registry p)))) w1 = (Fail e, w2)) ->
  (provider_restart (TurnTimer env :: turns) confs (p, w)).1 = Panic.
Proof.
  intros Hz He. destruct p as [r counts]. cbn in Hz, He. unfold provider_restart, restart, bind, on_registry, drop_client.
  cbn [p_registry zkPath]. rewrite Hz. destruct (zk_client_Close z w) as [z' w1]. cbn [reconnect]. unfold bind, restart_attempt.
  unfold on_registry, validateZookeeperClient, newZookeeperClient. cbn.
  destruct (He (env w1)) as (w2 & ->). reflexivity.
Qed.

End Restart.

(** ** A provider whose connection is lost *)

Definition provider1 : provider (Conn := nat) :=
  mkProviderRegistry (registry1 {[ ProviderServiceConfig_String conf1 := IfProvider conf1 ]}) {[ lit "S" := 1 ]}.

Lemma provider1_restarting : restarting conf1 (provider1, server1).
Proof.
  split; [by eexists|]. split; [apply lookup_singleton_eq|]. split; [apply registry1_ok|].
  split; [apply server1_open|].
  exists 0%nat. split; [done|apply server1_alive].
Qed.

Lemma calm_id : calm conf1 (TurnTimer (fun w : server => w)).
Proof. intros w. by split. Qed.

Lemma second_restart_never_ends_witness :
  ~ exists confs s', provider_restart [TurnTimer (fun w : server => w)] [IfProvider conf1] (provider1, server1) =
    (Ret (Reconnected confs), s').
Proof.
  intros (confs & s' & E). revert E. apply (second_restart_never_ends conf1 (lit "h") (lit "1") _ 0).
  - apply conf1_ok.
  - apply provider1_restarting.
  - done.
  - apply Forall_singleton, calm_id.
Defined.

