(* ===== verification/Selector.v ===== *)
(** * Choosing a provider

    [selector/mode.go].  A [Next] is a closure over the providers and, for
    [roundRobin], a counter: here the counter is the closure's state, the
    providers are what their slice holds when the closure is called, and the
    result of [rand.Int()] is an argument. *)
From S2P Require Import Prelude.
From S2P Require Import Registry.

Definition ErrNotFound : goerr := Errorf "not found".
Definition ErrNoneAvailable : goerr := Errorf "none available".
Definition ErrRunOutAllServiceNodes : goerr := Errorf "has used out all provider nodes".

(** [services[i]] for an [int64] index. *)
Definition index {A} (services : list A) (i : Z) : outcome A :=
  if i <? 0 then Panic
  else match services !! Z.to_nat i with
       | Some s => Ret s
       | None => Panic
       end.

(** The state of a [Next]: [roundRobin]'s [i]; [random] has none. *)
Abbreviation counter := Z.

Definition random {A} (services : list A) (rand : Z) (ID : Z) : ST counter A := fun i =>
  if (length services =? 0)%nat then (Fail ErrNoneAvailable, i)
  else (index services (Z.rem (i64 (i64 rand + ID)) (Z.of_nat (length services))), i).

Definition roundRobin {A} (services : list A) (ID : Z) : ST counter A := fun i =>
  if (length services =? 0)%nat then (Fail ErrNoneAvailable, i)
  else
    match index services (Z.rem (i64 (ID + i)) (Z.of_nat (length services))) with
    | Ret node => (Ret node, i64 (i + 1))
    | o => (o, i)
    end.

(** [Mode] is an [int]. *)
Definition SM_BEGIN : Z := 0.
Definition SM_Random : Z := 1.
Definition SM_RoundRobin : Z := 2.
Definition SM_END : Z := 3.

Definition selectorModeStrings : list bytes := [lit "Begin"; lit "Random"; lit "RoundRobin"; lit "End"].

Definition Mode_String (s : Z) : bytes :=
  if (SM_BEGIN <? s) && (s <? SM_END) then default [] (selectorModeStrings !! Z.to_nat s) else [].

(** A [ModeFunc] applied to providers and called. *)
Inductive ModeFunc := MRandom | MRoundRobin.

Definition selectorModeFuncs : list ModeFunc := [MRandom; MRandom; MRoundRobin; MRandom].

Definition SelectorNext (mode : Z) : outcome ModeFunc :=
  let mode := if (mode <? SM_BEGIN) || (SM_END <? mode) then SM_Random else mode in
  index selectorModeFuncs mode.

Definition next_of {A} (f : ModeFunc) (services : list A) (rand ID : Z) : ST counter A :=
  match f with
  | MRandom => random services rand ID
  | MRoundRobin => roundRobin services ID
  end.

(** The retries of one request: the same [ID] every time. *)
Fixpoint retries {A} (services : list A) (ID : Z) (n : nat) : ST counter (list A) :=
  match n with
  | O => ret []
  | S n =>
      node <- roundRobin services ID ;;
      nodes <- retries services ID n ;;
      ret (node :: nodes)
  end.

(** ** Lemmas *)

Lemma index_lookup {A} (l : list A) i x : 0 <= i -> l !! Z.to_nat i = Some x -> index l i = Ret x.
Proof. intros Hi Hx. unfold index. apply Z.ltb_ge in Hi as ->. by rewrite Hx. Qed.

(** [j] positions further in a circle. *)
Definition rotation {A} (l : list A) (k : nat) : list A := drop k l ++ take k l.

Lemma rotation_lookup {A} (l : list A) (k j : nat) :
  (k < length l)%nat -> (j < length l)%nat ->
  rotation l k !! j = l !! ((k + j) mod length l)%nat.
Proof.
  intros Hk Hj. unfold rotation. destruct (decide (j < length l - k)%nat).
  - rewrite lookup_app_l by (rewrite length_drop; lia). rewrite lookup_drop. by rewrite Nat.mod_small by lia.
  - rewrite lookup_app_r by (rewrite length_drop; lia). rewrite length_drop.
    rewrite lookup_take_lt by lia. f_equal.
    replace (k + j)%nat with (j - (length l - k) + 1 * length l)%nat by lia.
    rewrite Nat.Div0.mod_add, Nat.mod_small; lia.
Qed.

Lemma rotation_perm {A} (l : list A) k : rotation l k ≡ₚ l.
Proof. unfold rotation. rewrite Permutation_app_comm. by rewrite take_drop. Qed.

Lemma rem_nonneg_mod a n : 0 <= a -> 0 < n -> Z.rem a n = a mod n.
Proof. intros. apply Z.rem_mod_nonneg; lia. Qed.

Lemma roundRobin_spec {A} (services : list A) ID i :
  services <> [] -> 0 <= ID -> 0 <= i -> ID + i < 2 ^ 63 - 1 ->
  exists node, services !! Z.to_nat ((ID + i) mod Z.of_nat (length services)) = Some node
    /\ roundRobin services ID i = (Ret node, i + 1).
Proof.
  intros Hn HI Hi Hb. unfold roundRobin.
  assert (Hlen : 0 < Z.of_nat (length services)) by (destruct services; [done|cbn; lia]).
  destruct (Nat.eqb_spec (length services) 0) as [H0|_]; [lia|].
  rewrite i64_id by (unfold is_i64; lia). rewrite rem_nonneg_mod by lia.
  pose proof (Z.mod_pos_bound (ID + i) _ Hlen) as Hm.
  destruct (lookup_lt_is_Some_2 services (Z.to_nat ((ID + i) mod Z.of_nat (length services)))) as [node Hx]; [lia|].
  exists node. split; [done|]. rewrite (index_lookup _ _ node) by (lia || done).
  by rewrite i64_id by (unfold is_i64; lia).
Qed.

Lemma retries_spec {A} (services : list A) ID n i :
  services <> [] -> 0 <= ID -> 0 <= i -> ID + i + Z.of_nat n < 2 ^ 63 ->
  exists nodes, retries services ID n i = (Ret nodes, i + Z.of_nat n) /\ length nodes = n
    /\ forall j, (j < n)%nat ->
       nodes !! j = services !! Z.to_nat ((ID + i + Z.of_nat j) mod Z.of_nat (length services)).
Proof.
  intros Hn HI. revert i. induction n as [|n IH]; intros i Hi Hb.
  - exists []. cbn. split_and!; [by rewrite Z.add_0_r|done|lia].
  - destruct (roundRobin_spec services ID i Hn HI Hi ltac:(lia)) as (node & Hx & E).
    destruct (IH (i + 1)) as (nodes & Es & Hlen & Hj); [lia|lia|].
    exists (node :: nodes). cbn [retries]. unfold bind. rewrite E, Es. cbn [ret length].
    split_and!; [f_equal; lia|lia|]. intros [|j] Hjn; cbn.
    + by rewrite Z.add_0_r, Hx.
    + rewrite Hj by lia. do 3 f_equal. lia.
Qed.

Lemma random_pick {A} (services : list A) rand ID i :
  services <> [] -> 0 <= rand -> 0 <= ID -> rand + ID < 2 ^ 63 ->
  exists node, services !! Z.to_nat ((rand + ID) mod Z.of_nat (length services)) = Some node
    /\ random services rand ID i = (Ret node, i).
Proof.
  intros Hn Hr HI Hb. unfold random.
  assert (Hlen : 0 < Z.of_nat (length services)) by (destruct services; [done|cbn; lia]).
  destruct (Nat.eqb_spec (length services) 0) as [H0|_]; [lia|].
  rewrite (i64_id rand), i64_id by (unfold is_i64; lia). rewrite rem_nonneg_mod by lia.
  pose proof (Z.mod_pos_bound (rand + ID) _ Hlen) as Hm.
  destruct (lookup_lt_is_Some_2 services (Z.to_nat ((rand + ID) mod Z.of_nat (length services)))) as [node Hx]; [lia|].
  exists node. split; [done|]. by rewrite (index_lookup _ _ node) by (lia || done).
Qed.

(** ** Properties *)

(** C36. The retries of a request visit the providers in a circle: as many
    attempts as there are providers, from any state of the counter, reach each
    of them exactly once, the first being number [(ID + i) mod n]. *)
Theorem roundRobin_fair {A} (services : list A) ID i :
  services <> [] -> 0 <= ID -> 0 <= i -> ID + i + Z.of_nat (length services) < 2 ^ 63 ->
  exists nodes, retries services ID (length services) i = (Ret nodes, i + Z.of_nat (length services))
    /\ nodes = rotation services (Z.to_nat ((ID + i) mod Z.of_nat (length services)))
    /\ nodes ≡ₚ services.
Proof.
  intros Hn HI Hi Hb. set (n := length services) in *.
  destruct (retries_spec services ID n i Hn HI Hi Hb) as (nodes & E & Hlen & Hj). fold n in Hj.
  set (k := Z.to_nat ((ID + i) mod Z.of_nat n)).
  assert (Hn0 : 0 < Z.of_nat n) by (unfold n; destruct services; [done|cbn; lia]).
  pose proof (Z.mod_pos_bound (ID + i) _ Hn0) as Hm.
  assert (nodes = rotation services k) as Hr.
  { apply list_eq_same_length with n.
    - by rewrite (rotation_perm services k).
    - done.
    - intros j x y Hjn Hx Hy. rewrite Hj in Hx by done.
      rewrite rotation_lookup in Hy by (fold n; lia). fold n in Hy.
      assert ((k + j) mod n = Z.to_nat ((ID + i + Z.of_nat j) mod Z.of_nat n))%nat as Hk.
      { apply Nat2Z.inj. rewrite Nat2Z.inj_mod, Nat2Z.inj_add. unfold k.
        rewrite !Z2Nat.id by (apply Z.mod_pos_bound || lia; lia). by rewrite Zplus_mod_idemp_l. }
      rewrite Hk in Hy. congruence. }
  exists nodes. split_and!; [done|done|]. rewrite Hr. apply rotation_perm.
Qed.

(** A random choice is in range as long as the sum with the request's
    [ID] fits [int64]. *)
Theorem random_selects {A} (services : list A) rand ID i :
  services <> [] -> 0 <= rand -> 0 <= ID -> rand + ID < 2 ^ 63 ->
  exists node, services !! Z.to_nat ((rand + ID) mod Z.of_nat (length services)) = Some node
    /\ random services rand ID i = (Ret node, i).
Proof. apply random_pick. Qed.

(** Where the sum overflows, the remainder is negative or zero: the choice
    panics unless the number of providers divides the wrapped sum. *)
Lemma random_overflows {A} (services : list A) rand ID i :
  services <> [] -> 0 <= rand < 2 ^ 63 -> 0 <= ID < 2 ^ 63 -> 2 ^ 63 <= rand + ID ->
  (rand + ID - 2 ^ 64) mod Z.of_nat (length services) <> 0 ->
  random services rand ID i = (Panic, i).
Proof.
  intros Hn Hr HI Hb Hd. unfold random.
  assert (Hlen : 0 < Z.of_nat (length services)) by (destruct services; [done|cbn; lia]).
  destruct (Nat.eqb_spec (length services) 0) as [H0|_]; [lia|].
  rewrite (i64_id rand) by (unfold is_i64; lia).
  assert (i64 (rand + ID) = rand + ID - 2 ^ 64) as ->.
  { unfold i64, swrap. replace (rand + ID + 2 ^ (64 - 1)) with (rand + ID - 2 ^ 63 + 1 * 2 ^ 64) by lia.
    rewrite Z_mod_plus_full, Z.mod_small; lia. }
  unfold index. destruct (_ <? 0) eqn:E; [done|]. zify_bool. exfalso. apply Hd.
  pose proof (Z.rem_nonpos (rand + ID - 2 ^ 64) (Z.of_nat (length services)) ltac:(lia) ltac:(lia)) as Hneg.
  apply Z.rem_mod_eq_0; lia.
Qed.

(** Every mode has a strategy: round robin for [SM_RoundRobin], and the
    random choice for all others, in and out of range. *)
Theorem SelectorNext_total mode :
  SelectorNext mode = Ret (if mode =? SM_RoundRobin then MRoundRobin else MRandom).
Proof.
  unfold SelectorNext. destruct ((mode <? SM_BEGIN) || (SM_END <? mode)) eqn:E.
  - destruct (Z.eqb_spec mode SM_RoundRobin) as [->|_]; [done|reflexivity].
  - zify_bool. unfold SM_BEGIN, SM_END in *.
    assert (mode = 0 \/ mode = 1 \/ mode = 2 \/ mode = 3) as [->|[->|[->| ->]]] by lia; reflexivity.
Qed.

Lemma roundRobin_fair_witness :
  exists nodes, retries [7; 8; 9]%nat 100 3 0 = (Ret nodes, 3) /\ nodes ≡ₚ [7; 8; 9]%nat.
Proof.
  destruct (roundRobin_fair [7; 8; 9]%nat 100 0) as (nodes & E & _ & Hp).
  - discriminate.
  - lia.
  - lia.
  - cbn. lia.
  - by exists nodes.
Defined.

