(* ===== verification/Cache.v ===== *)
(** * The selector's cache of providers

    [selector/cache/cache.go].  Slices of providers share their arrays, and the
    cache filters and extends them in place, so the state has a heap of arrays:
    a slice is an array and a length (all of the code's slices begin at 0).
    Providers are never written to and are values.  Time is in nanoseconds. *)
From S2P Require Import Prelude.
From S2P Require Import Registry.
From S2P Require Import Selector.

(** The capacity that the runtime's [append] gives a new array, by the old one's
    and the length it needs. *)
Class Runtime := growslice : nat -> nat -> nat.

#[export] Instance doubling : Runtime := fun old need => Nat.max (2 * old) need.

Record slice := mkSlice { arr : nat; len : nat }.

(** The nil slice; array 0 has no elements. *)
Definition nil_slice : slice := mkSlice 0 0.

Abbreviation array := (list (option ServiceURL)).

Record cacheSelector := mkCache {
  so_Mode : Z;
  ttl : Z;
  cache : gmap bytes slice;
  ttls : gmap bytes Z;
  exit : bool;             (* [exit] is closed *)
  heap : gmap nat array;
  next_arr : nat
}.

Definition set_heap (h : gmap nat array) (c : cacheSelector) : cacheSelector :=
  mkCache (so_Mode c) (ttl c) (cache c) (ttls c) (exit c) h (next_arr c).

(** The value of the cache and its times for a key. *)
Definition put_key (key : bytes) (s : slice) (t : Z) (c : cacheSelector) : cacheSelector :=
  mkCache (so_Mode c) (ttl c) (<[key := s]> (cache c)) (<[key := t]> (ttls c)) (exit c) (heap c) (next_arr c).

Definition delete_key (key : bytes) (c : cacheSelector) : cacheSelector :=
  mkCache (so_Mode c) (ttl c) (delete key (cache c)) (delete key (ttls c)) (exit c) (heap c) (next_arr c).

Definition array_of (c : cacheSelector) (a : nat) : array := default [] (heap c !! a).

(** What a slice holds. *)
Definition cells (c : cacheSelector) (s : slice) : array := take (len s) (array_of c (arr s)).
Definition contents (c : cacheSelector) (s : slice) : list ServiceURL := omap id (cells c s).

(** [time.Time.Sub] saturates. *)
Definition Sub (t u : Z) : Z := Z.max (- 2 ^ 63) (Z.min (2 ^ 63 - 1) (t - u)).

Section Cache.
Context {R : Runtime}.

(** A new array. *)
Definition alloc (a : array) (n : nat) (c : cacheSelector) : slice * cacheSelector :=
  (mkSlice (next_arr c) n,
   mkCache (so_Mode c) (ttl c) (cache c) (ttls c) (exit c)
     (<[next_arr c := a]> (heap c)) (S (next_arr c))).

(** [append(s, x)]. *)
Definition append (s : slice) (x : ServiceURL) (c : cacheSelector) : slice * cacheSelector :=
  let a := array_of c (arr s) in
  if (len s <? length a)%nat
  then (mkSlice (arr s) (S (len s)), set_heap (<[arr s := <[len s := Some x]> a]> (heap c)) c)
  else
    let cap := growslice (length a) (S (len s)) in
    alloc (take (len s) a ++ Some x :: replicate (cap - S (len s)) None) (S (len s)) c.

(** The loop of [copy] over the rest of [current]. *)
Fixpoint copy_loop (current : slice) (i n : nat) (services : slice) : ST cacheSelector slice := fun c =>
  match n with
  | O => (Ret services, c)
  | S n =>
      match array_of c (arr current) !! i with
      | Some (Some service) =>
          let '(services, c) := append services service c in
          copy_loop current (S i) n services c
      | _ => (Panic, c)
      end
  end.

Definition copy (current : slice) : ST cacheSelector slice :=
  copy_loop current 0 (len current) nil_slice.

(** A slice the registry has made for its caller. *)
Definition fresh_slice (ss : list ServiceURL) : ST cacheSelector slice := fun c =>
  let '(s, c) := alloc (Some <$> ss) (length ss) c in (Ret s, c).

(** [since] is the time of [time.Since], [now] of [time.Now()]; [reg] is the
    answer of [GetServices]. *)
Definition get (s : ServiceConfigIf) (since now : Z) (reg : goerr + list ServiceURL) : ST cacheSelector slice :=
  match s with
  | IfProvider _ => fail (Errorf "illegal @s:%#v")
  | IfConfig serviceConf => fun c =>
      let key := Key serviceConf in
      let o := cache c !! key in
      let services := default nil_slice o in
      let has := (0 <? len services)%nat in
      let in_time := match ttls c !! key with
                     | Some t => Sub since t <? ttl c
                     | None => false
                     end in
      if has && in_time then copy services c
      else
        match reg with
        | inl err =>
            if has then (Ret services, c)
            else (Fail (Traced err), c)
        | inr ss =>
            (ss <- fresh_slice ss ;;
             services <- copy ss ;;
             (fun c => (Ret ss, put_key key services (now + ttl c) c))) c
        end
  end.

Definition set (service : bytes) (services : slice) (now : Z) (c : cacheSelector) : cacheSelector :=
  if (0 <? len services)%nat then put_key service services (now + ttl c) c
  else delete_key service c.

(** [append(s[:i], s[i+1:]...)] moves the elements in the array. *)
Definition filterServices (s : slice) (i : nat) (c : cacheSelector) : slice * cacheSelector :=
  if (len s <=? i)%nat then (s, c)
  else
    let a := array_of c (arr s) in
    let a' := take i a ++ take (len s - S i) (drop (S i) a) ++ drop (len s - 1) a in
    (mkSlice (arr s) (len s - 1), set_heap (<[arr s := a']> (heap c)) c).

(** The loop of [update]: it ranges over [orig] as it was, and reads the
    elements from its array as they come. *)
Fixpoint update_loop (url : bytes) (orig : slice) (i n : nat) (services : slice) : ST cacheSelector slice := fun c =>
  match n with
  | O => (Ret services, c)
  | S n =>
      match array_of c (arr orig) !! i with
      | Some (Some s) =>
          let '(services, c) :=
            if bool_decide (PrimitiveURL s = url) then filterServices services i c else (services, c) in
          update_loop url orig (S i) n services c
      | _ => (Panic, c)
      end
  end.

Definition update (res : option ServiceURLEvent) (now : Z) : ST cacheSelector unit := fun c =>
  match res with
  | Some (mkEvent action (Some service)) =>
      let sname := Key (URL_ServiceConfig service) in
      let services := default nil_slice (cache c !! sname) in
      match update_loop (PrimitiveURL service) services 0 (len services) services c with
      | (Ret services, c) =>
          let '(services, c) :=
            match action with
            | ServiceURLAdd | ServiceURLUpdate => append services service c
            | ServiceURLDel => (services, c)
            end in
          (Ret tt, set sname services now c)
      | (Fail e, c) => (Fail e, c)
      | (Panic, c) => (Panic, c)
      | (NoFuel, c) => (NoFuel, c)
      end
  | _ => (Ret tt, c)
  end.

(** What [w.Next()] returns, with [w.Valid()] after it and the time of the
    update. *)
Inductive next_result :=
| NextErr (e : goerr)
| NextRes (res : ServiceURLEvent) (valid : bool) (now : Z).

(** [watch]: [None] when it still waits for the next event. *)
Fixpoint watch (events : list next_result) : ST cacheSelector (option goerr) :=
  match events with
  | [] => ret None
  | NextErr e :: _ => ret (Some (Traced e))
  | NextRes res valid now :: events =>
      if bool_decide (Action res = ServiceURLDel) && negb valid then watch events
      else update (Some res) now ;;; watch events
  end.

Definition quit (c : cacheSelector) : bool := exit c.

(** What happens to [run]: the registry answers [Watch()], and [Close] may
    have been called before it does. *)
Inductive run_event :=
| RunWatch (closed : bool) (w : goerr + list next_result).

Definition close_exit (c : cacheSelector) : cacheSelector :=
  mkCache (so_Mode c) (ttl c) (cache c) (ttls c) true (heap c) (next_arr c).

(** [true] when the loop has returned. *)
Fixpoint run (events : list run_event) : ST cacheSelector bool := fun c =>
  if quit c then (Ret true, c)
  else
    match events with
    | [] => (Ret false, c)
    | RunWatch closed w :: events =>
        let c := if closed then close_exit c else c in
        match w with
        | inl _ => if quit c then (Ret true, c) else run events c
        | inr nexts =>
            match watch nexts c with
            | (Ret (Some _), c) => run events c
            | (Ret None, c) => (Ret false, c)
            | (Fail e, c) => (Fail e, c)
            | (Panic, c) => (Panic, c)
            | (NoFuel, c) => (NoFuel, c)
            end
        end
    end.

Definition Select (service : ServiceConfigIf) (since now : Z) (reg : goerr + list ServiceURL) :
    ST cacheSelector (ModeFunc * slice) := fun c =>
  match get service since now reg c with
  | (Ret services, c) =>
      if (len services =? 0)%nat then (Fail ErrNoneAvailable, c)
      else match SelectorNext (so_Mode c) with
           | Ret f => (Ret (f, services), c)
           | Fail e => (Fail e, c)
           | Panic => (Panic, c)
           | NoFuel => (NoFuel, c)
           end
  | (Fail _, c) => (Fail ErrNotFound, c)
  | (Panic, c) => (Panic, c)
  | (NoFuel, c) => (NoFuel, c)
  end.

(** The [Next] that [Select] returned, called: it reads its slice then. *)
Definition call_next (f : ModeFunc) (services : slice) (rand ID : Z) (c : cacheSelector) : ST counter ServiceURL :=
  next_of f (contents c services) rand ID.

Definition Close : ST cacheSelector unit := fun c =>
  let c := mkCache (so_Mode c) (ttl c) ∅ (ttls c) (exit c) (heap c) (next_arr c) in
  if quit c then (Ret tt, c) else (Ret tt, close_exit c).

Definition DefaultTTL : Z := 10 * 60 * 10 ^ 9.

(** [NewSelector]: [mode] and [context] are the options', [None] where none sets
    them; [Registry] is not nil. *)
Definition NewSelector (mode context : option Z) : cacheSelector :=
  mkCache (default SM_Random mode) (default DefaultTTL context) ∅ ∅ false {[ 0%nat := [] ]} 1.

End Cache.

Definition differs (url : bytes) (u : ServiceURL) : Prop := PrimitiveURL u <> url.
#[export] Instance differs_dec url u : Decision (differs url u).
Proof. unfold differs. apply _. Defined.

(** ** Slices and what they hold *)

Definition holds (c : cacheSelector) (s : slice) (l : list ServiceURL) : Prop :=
  cells c s = Some <$> l /\ length l = len s.

Lemma omap_id_Some {A} (l : list A) : omap id (Some <$> l) = l.
Proof. induction l as [|x l IH]; [done|]. cbn. by f_equal. Qed.

Lemma holds_contents c s l : holds c s l -> contents c s = l.
Proof. intros [H _]. unfold contents. rewrite H. apply omap_id_Some. Qed.

Lemma holds_len c s l : holds c s l -> (len s <= length (array_of c (arr s)))%nat.
Proof.
  intros [H Hl]. unfold cells in H. apply (f_equal length) in H.
  rewrite length_take, length_fmap in H. lia.
Qed.

Lemma holds_array c s l :
  holds c s l -> array_of c (arr s) = (Some <$> l) ++ drop (len s) (array_of c (arr s)).
Proof. intros [H _]. rewrite <- H. symmetry. apply take_drop. Qed.

Lemma array_holds c s l rest :
  array_of c (arr s) = (Some <$> l) ++ rest -> length l = len s -> holds c s l.
Proof.
  intros H Hl. split; [|done]. unfold cells. rewrite H. apply take_app_length'.
  by rewrite length_fmap.
Qed.

Lemma filter_id {A} (P : A -> Prop) `{forall x, Decision (P x)} l : Forall P l -> filter P l = l.
Proof. induction 1 as [|x l Hx _ IH]; [done|]. rewrite filter_cons_True by done. by rewrite IH. Qed.

Lemma NoDup_key_split url l :
  NoDup (PrimitiveURL <$> l) -> ~ Forall (differs url) l ->
  exists l1 x l2, l = l1 ++ x :: l2 /\ PrimitiveURL x = url /\ Forall (differs url) l1 /\ Forall (differs url) l2.
Proof.
  intros Hnd Hex. apply not_Forall_Exists in Hex; [|intros u; unfold differs; apply _].
  apply Exists_exists in Hex as (x & Hx & Hxu). apply dec_stable in Hxu.
  apply list_elem_of_split in Hx as (l1 & l2 & ->). exists l1, x, l2.
  rewrite fmap_app, fmap_cons in Hnd. apply NoDup_app in Hnd as (_ & Hd & Hn2).
  apply NoDup_cons in Hn2 as [Hn2 _]. subst url. split_and!; [done|done|..]; apply Forall_forall; intros u Hu E.
  - apply (Hd (PrimitiveURL u)); [by apply list_elem_of_fmap_2|]. rewrite E. by left.
  - apply Hn2. rewrite <- E. by apply list_elem_of_fmap_2.
Qed.

(** Only array [a] and new arrays change. *)
Record ext (a : nat) (c c' : cacheSelector) : Prop := {
  ext_fields : so_Mode c' = so_Mode c /\ ttl c' = ttl c /\ cache c' = cache c /\ ttls c' = ttls c /\ exit c' = exit c;
  ext_next : (next_arr c <= next_arr c')%nat;
  ext_arrays : forall b, (b < next_arr c)%nat -> b <> a -> array_of c' b = array_of c b
}.

Lemma ext_trans a c1 c2 c3 : ext a c1 c2 -> ext a c2 c3 -> ext a c1 c3.
Proof.
  intros [(?&?&?&?&?) Hn Ha] [(?&?&?&?&?) Hn' Ha']. split; [split_and!; congruence|lia|].
  intros b Hb Hne. rewrite Ha' by (lia || done). by apply Ha.
Qed.

Definition heap_ok (c : cacheSelector) : Prop := array_of c 0 = [] /\ (0 < next_arr c)%nat.

Lemma array_of_set a v h c : array_of (set_heap (<[a := v]> h) c) a = v.
Proof. unfold array_of. cbn. by rewrite lookup_insert_eq. Qed.

Lemma set_heap_ext a v c : ext a c (set_heap (<[a := v]> (heap c)) c).
Proof.
  split; [by split_and!|done|]. intros b Hb Hne. unfold array_of. cbn. by rewrite lookup_insert_ne.
Qed.

Lemma alloc_ext a v n c : ext a c (alloc v n c).2.
Proof.
  split; [by split_and!|cbn; lia|]. intros b Hb Hne. unfold array_of. cbn. rewrite lookup_insert_ne by lia. done.
Qed.

Lemma alloc_array v n c : array_of (alloc v n c).2 (alloc v n c).1.(arr) = v.
Proof. unfold array_of. cbn. by rewrite lookup_insert_eq. Qed.

Section Lemmas.
Context {R : Runtime}.

Lemma append_ok s l x c :
  holds c s l -> heap_ok c -> (arr s < next_arr c)%nat ->
  exists s' c', append s x c = (s', c') /\ holds c' s' (l ++ [x]) /\ ext (arr s) c c' /\ heap_ok c'
    /\ (arr s' = arr s /\ arr s <> 0%nat \/ (next_arr c <= arr s')%nat) /\ (arr s' < next_arr c')%nat.
Proof.
  intros Hs [Hz Hnx] Ha. pose proof (holds_len _ _ _ Hs) as Hlen. unfold append.
  pose proof Hs as [Hc Hl]. set (a := array_of c (arr s)) in *. fold a in Hlen.
  destruct (Nat.ltb_spec (len s) (length a)) as [Hlt|Hge]; cbv zeta.
  - assert (Hne : arr s <> 0%nat) by (intros E; unfold a in Hlt; rewrite E, Hz in Hlt; cbn in Hlt; lia).
    do 2 eexists. split; [reflexivity|]. split_and!; [|apply set_heap_ext| |by left|done].
    + apply (array_holds _ _ _ (drop (S (len s)) a)); cbn [arr len]; [|rewrite length_app, Hl; cbn; lia].
      rewrite array_of_set, fmap_app, <- app_assoc. rewrite <- Hc. unfold cells. fold a.
      by apply insert_take_drop.
    + split; [|done]. by rewrite (ext_arrays _ _ _ (set_heap_ext _ _ _)).
  - destruct (alloc _ _ c) as [s' c'] eqn:E. exists s', c'. split; [done|].
    pose proof (alloc_ext (arr s) (take (len s) a ++ Some x :: replicate (growslice (length a) (S (len s)) - S (len s)) None) (S (len s)) c) as He.
    pose proof (alloc_array (take (len s) a ++ Some x :: replicate (growslice (length a) (S (len s)) - S (len s)) None) (S (len s)) c) as Hv.
    rewrite E in He, Hv. cbn [fst snd] in He, Hv.
    unfold alloc in E. injection E as <- <-. split_and!; [|done| |by right|cbn; lia].
    + apply (array_holds _ _ _ (replicate (growslice (length a) (S (len s)) - S (len s)) None)); [|cbn; rewrite length_app, Hl; cbn; lia].
      rewrite Hv, fmap_app, <- app_assoc. by rewrite <- Hc.
    + split; [|cbn; lia]. unfold array_of. cbn. rewrite lookup_insert_ne by lia. exact Hz.
Qed.

(** What a chain of operations since [c0] has made is new or the nil slice. *)
Definition fresh (c0 : cacheSelector) (s : slice) : Prop := arr s = 0%nat \/ (next_arr c0 <= arr s)%nat.

Lemma ext_fresh c0 s c c' : ext 0 c0 c -> fresh c0 s -> ext (arr s) c c' -> ext 0 c0 c'.
Proof.
  intros [(?&?&?&?&?) Hn Ha] Hf [(?&?&?&?&?) Hn' Ha']. split; [split_and!; congruence|lia|].
  intros b Hb Hne. rewrite Ha'; [by apply Ha|lia|]. destruct Hf; lia.
Qed.

Lemma ext_holds a c c' s l : ext a c c' -> (arr s < next_arr c)%nat -> arr s <> a -> holds c s l -> holds c' s l.
Proof. intros [_ _ Ha] Hs Hne [Hc Hl]. split; [|done]. unfold cells. by rewrite Ha. Qed.

(** ... and every slice that was there still holds what it held. *)
Lemma ext0_holds c c' s l :
  ext 0 c c' -> heap_ok c -> heap_ok c' -> (arr s < next_arr c)%nat -> holds c s l -> holds c' s l.
Proof.
  intros He [Hz _] [Hz' _] Hs Hl. destruct (decide (arr s = 0%nat)) as [E|Hne]; [|by eapply ext_holds].
  destruct Hl as [Hc Hn]. split; [|done]. unfold cells in *. rewrite E in *. by rewrite Hz', <- Hz.
Qed.

Lemma copy_loop_ok c0 current l : forall n i services c,
  heap_ok c0 -> holds c0 current l -> (arr current < next_arr c0)%nat -> (i + n = length l)%nat ->
  heap_ok c -> ext 0 c0 c -> fresh c0 services -> (arr services < next_arr c)%nat ->
  holds c services (take i l) ->
  exists s' c', copy_loop current i n services c = (Ret s', c') /\ holds c' s' l /\ heap_ok c'
    /\ ext 0 c0 c' /\ fresh c0 s' /\ (arr s' < next_arr c')%nat.
Proof.
  induction n as [|n IH]; intros i services c Hok0 Hcur Hca Hin Hok He Hf Hsa Hs.
  - exists services, c. rewrite take_ge in Hs by lia. by split_and!.
  - assert (Hcur' : holds c current l) by (eapply ext0_holds; done).
    destruct (lookup_lt_is_Some_2 l i) as [x Hx]; [lia|].
    cbn [copy_loop]. rewrite (holds_array _ _ _ Hcur').
    rewrite lookup_app_l by (rewrite length_fmap; lia). rewrite list_lookup_fmap, Hx. cbn [fmap option_fmap option_map].
    destruct (append_ok services (take i l) x c Hs Hok Hsa) as (s1 & c1 & -> & Hs1 & He1 & Hok1 & Hf1 & Ha1).
    rewrite <- (take_S_r l i x Hx) in Hs1. apply (IH (S i)); try done; [lia|by eapply ext_fresh|].
    unfold fresh in *. pose proof (ext_next _ _ _ He). lia.
Qed.

Lemma copy_ok current l c :
  heap_ok c -> holds c current l -> (arr current < next_arr c)%nat ->
  exists s' c', copy current c = (Ret s', c') /\ holds c' s' l /\ heap_ok c'
    /\ ext 0 c c' /\ fresh c s' /\ (arr s' < next_arr c')%nat.
Proof.
  intros Hok Hcur Ha. unfold copy. apply copy_loop_ok; try done.
  - destruct Hcur as [_ Hl]. lia.
  - by left.
  - apply Hok.
Qed.

Lemma fresh_slice_ok ss c :
  heap_ok c ->
  exists s' c', fresh_slice ss c = (Ret s', c') /\ holds c' s' ss /\ heap_ok c'
    /\ ext 0 c c' /\ fresh c s' /\ (arr s' < next_arr c')%nat.
Proof.
  intros [Hz Hn]. unfold fresh_slice.
  destruct (alloc _ _ c) as [s' c'] eqn:E. exists s', c'. split; [done|].
  pose proof (alloc_ext 0 (Some <$> ss) (length ss) c) as He.
  pose proof (alloc_array (Some <$> ss) (length ss) c) as Hv. rewrite E in He, Hv. cbn in He, Hv.
  unfold alloc in E. injection E as <- <-. split_and!; [| |done|by right|cbn; lia].
  - apply (array_holds _ _ _ []); [|done]. by rewrite Hv, app_nil_r.
  - split; [|cbn; lia]. unfold array_of. cbn. rewrite lookup_insert_ne by lia. exact Hz.
Qed.

(** ** [filterServices] and the loop of [update] *)

Lemma filterServices_ok s l1 x l2 c :
  holds c s (l1 ++ x :: l2) -> heap_ok c ->
  exists s' c', filterServices s (length l1) c = (s', c') /\ holds c' s' (l1 ++ l2)
    /\ ext (arr s) c c' /\ heap_ok c' /\ arr s' = arr s /\ next_arr c' = next_arr c
    /\ array_of c' (arr s) = (Some <$> l1 ++ l2) ++ drop (len s - 1) (array_of c (arr s)).
Proof.
  intros Hs [Hz Hn]. pose proof (holds_array _ _ _ Hs) as Ha. pose proof (holds_len _ _ _ Hs) as Hlen.
  destruct Hs as [Hc Hl]. unfold filterServices. set (a := array_of c (arr s)) in *.
  rewrite length_app in Hl. cbn in Hl.
  destruct (Nat.leb_spec (len s) (length l1)) as [|Hlt]; [lia|]. cbv zeta.
  assert (Hv : take (length l1) a ++ take (len s - S (length l1)) (drop (S (length l1)) a) ++ drop (len s - 1) a
    = (Some <$> l1 ++ l2) ++ drop (len s - 1) a).
  { rewrite app_assoc. f_equal. rewrite Ha, !fmap_app, fmap_cons, <- app_assoc. f_equal.
    - by rewrite take_app_length' by by rewrite length_fmap.
    - rewrite drop_app_ge by (rewrite length_fmap; lia). rewrite length_fmap.
      replace (S (length l1) - length l1)%nat with 1%nat by lia. cbn [app drop].
      rewrite drop_0. rewrite take_app_length' by (rewrite length_fmap; lia). done. }
  do 2 eexists. split; [reflexivity|]. rewrite Hv.
  assert (Hne : arr s <> 0%nat) by (intros E; unfold a in Hlen; rewrite E, Hz in Hlen; cbn in Hlen; lia).
  split_and!; [|apply set_heap_ext| |done|done|apply array_of_set].
  - apply (array_holds _ _ _ (drop (len s - 1) a)); cbn [arr len]; [by rewrite array_of_set|].
    rewrite length_app. lia.
  - split; [|done]. by rewrite (ext_arrays _ _ _ (set_heap_ext _ _ _)).
Qed.



Lemma update_loop_skip url orig services c : forall n i m,
  (forall j, (i <= j < i + n)%nat -> exists u, array_of c (arr orig) !! j = Some (Some u) /\ differs url u) ->
  update_loop url orig i (n + m) services c = update_loop url orig (i + n) m services c.
Proof.
  induction n as [|n IH]; intros i m H; [by rewrite Nat.add_0_r|].
  cbn [Nat.add update_loop]. destruct (H i) as (u & -> & Hu); [lia|].
  rewrite bool_decide_eq_false_2 by done. rewrite IH; [by rewrite Nat.add_succ_r|].
  intros j Hj. apply H. lia.
Qed.

Lemma update_loop_ok url s l c :
  holds c s l -> heap_ok c -> (arr s < next_arr c)%nat -> NoDup (PrimitiveURL <$> l) ->
  exists s' c', update_loop url s 0 (len s) s c = (Ret s', c')
    /\ holds c' s' (filter (differs url) l) /\ ext (arr s) c c' /\ heap_ok c'
    /\ arr s' = arr s /\ next_arr c' = next_arr c.
Proof.
  intros Hs Hok Ha Hnd. pose proof (holds_array _ _ _ Hs) as Harr. pose proof Hs as [_ Hlen].
  assert (Hcell : forall j u, l !! j = Some u -> array_of c (arr s) !! j = Some (Some u)).
  { intros j u Hj. rewrite Harr. apply lookup_app_l_Some. by rewrite list_lookup_fmap, Hj. }
  destruct (decide (Forall (differs url) l)) as [Hall|Hex].
  - rewrite filter_id by done. exists s, c. rewrite <- Hlen. rewrite <- (Nat.add_0_r (length l)).
    rewrite update_loop_skip.
    + by split_and!.
    + intros j Hj. destruct (lookup_lt_is_Some_2 l j) as [u Hu]; [lia|]. exists u. split; [by apply Hcell|].
      rewrite Forall_lookup in Hall. by apply (Hall j).
  - destruct (NoDup_key_split url l Hnd Hex) as (l1 & x & l2 & -> & Hx & H1 & H2).
    rewrite filter_app, filter_cons_False by (by unfold differs; intros []).
    rewrite !filter_id by done.
    destruct (filterServices_ok s l1 x l2 c Hs Hok) as (s' & c' & Ef & Hs' & He & Hok' & Has & Hnx & Harr').
    exists s', c'. split; [|done]. rewrite length_app in Hlen. cbn in Hlen.
    replace (len s) with (length l1 + S (length l2))%nat by done. rewrite update_loop_skip.
    + cbn [update_loop Nat.add]. rewrite (Hcell (length l1) x) by (by apply list_lookup_middle).
      rewrite bool_decide_eq_true_2 by done. rewrite Ef.
      rewrite <- (Nat.add_0_r (length l2)), update_loop_skip; [done|].
      intros j Hj. rewrite Harr'. destruct (decide (j < len s - 1)%nat) as [Hlt|Hge].
      * destruct (lookup_lt_is_Some_2 l2 (j - length l1)) as [u Hu]; [lia|]. exists u. split.
        -- apply lookup_app_l_Some. rewrite list_lookup_fmap, lookup_app_r by lia. by rewrite Hu.
        -- rewrite Forall_lookup in H2. by apply (H2 _ _ Hu).
      * destruct (lookup_lt_is_Some_2 l2 (length l2 - 1)) as [u Hu]; [lia|]. exists u. split.
        -- rewrite lookup_app_r by (rewrite length_fmap, length_app; lia). rewrite length_fmap, length_app, lookup_drop.
           apply Hcell. rewrite lookup_app_r by lia. rewrite lookup_cons_ne_0 by lia. rewrite <- Hu. f_equal. lia.
        -- rewrite Forall_lookup in H2. by apply (H2 _ _ Hu).
    + intros j Hj. destruct (lookup_lt_is_Some_2 l1 j) as [u Hu]; [lia|]. exists u. split.
      * apply Hcell. by apply lookup_app_l_Some.
      * rewrite Forall_lookup in H1. by apply (H1 _ _ Hu).
Qed.

End Lemmas.

(** ** The invariant and the abstract cache *)

(** Every cached slice holds providers, no two with one [PrimitiveURL]; no two
    keys share an array. *)
Record cache_ok (c : cacheSelector) : Prop := {
  co_heap : heap_ok c;
  co_slices : forall key s, cache c !! key = Some s ->
    (arr s < next_arr c)%nat /\ exists l, holds c s l /\ NoDup (PrimitiveURL <$> l);
  co_sep : forall k1 k2 s1 s2, cache c !! k1 = Some s1 -> cache c !! k2 = Some s2 ->
    arr s1 = arr s2 -> arr s1 = 0%nat \/ k1 = k2
}.

(** The providers by key, without the slices. *)
Definition abs (c : cacheSelector) : gmap bytes (list ServiceURL) := contents c <$> cache c.

Definition providers (key : bytes) (m : gmap bytes (list ServiceURL)) : list ServiceURL := default [] (m !! key).

Lemma abs_lookup c key s l : cache c !! key = Some s -> holds c s l -> abs c !! key = Some l.
Proof. intros Hs Hl. unfold abs. rewrite lookup_fmap, Hs. cbn. by rewrite (holds_contents c s l). Qed.

(** The slice of a key, nil when there is none. *)
Lemma slice_of c key :
  cache_ok c ->
  exists l, holds c (default nil_slice (cache c !! key)) l /\ NoDup (PrimitiveURL <$> l)
    /\ providers key (abs c) = l /\ (arr (default nil_slice (cache c !! key)) < next_arr c)%nat
    /\ (len (default nil_slice (cache c !! key)) <> 0%nat -> abs c !! key = Some l).
Proof.
  intros [[Hz Hn] Hs _]. destruct (cache c !! key) as [s|] eqn:E; cbn [default].
  - destruct (Hs key s E) as [Ha (l & Hl & Hnd)]. exists l. unfold providers.
    rewrite (abs_lookup c key s l E Hl). by split_and!.
  - exists []. unfold providers, abs. rewrite lookup_fmap, E. split_and!; try done; apply NoDup_nil_2.
Qed.

(** Operations that touch only array [a] and new ones keep the other keys. *)
Lemma others_keep c c' a key k s :
  cache_ok c -> heap_ok c' -> ext a c c' ->
  (forall k s, k <> key -> cache c !! k = Some s -> arr s <> 0%nat -> arr s <> a) ->
  k <> key -> cache c !! k = Some s ->
  (arr s < next_arr c')%nat /\ exists l, holds c s l /\ holds c' s l /\ NoDup (PrimitiveURL <$> l).
Proof.
  intros [[Hz _] Hs _] [Hz' _] He Ho Hne Hk. destruct (Hs k s Hk) as [Ha (l & Hl & Hnd)].
  pose proof (ext_next _ _ _ He). split; [lia|]. exists l. split_and!; [done| |done].
  destruct (decide (arr s = 0%nat)) as [E|Hn].
  - destruct Hl as [Hc Hlen]. split; [|done]. unfold cells in *. rewrite E in *. by rewrite Hz', <- Hz.
  - eapply ext_holds; try done. by apply (Ho k).
Qed.

Lemma put_ok c c' a key s l t :
  cache_ok c -> heap_ok c' -> ext a c c' -> holds c' s l -> NoDup (PrimitiveURL <$> l) ->
  (arr s < next_arr c')%nat ->
  (forall k s', k <> key -> cache c !! k = Some s' -> arr s' <> 0%nat -> arr s' <> a /\ arr s' <> arr s) ->
  cache_ok (put_key key s t c') /\ abs (put_key key s t c') = <[key := l]> (abs c)
  /\ ttls (put_key key s t c') = <[key := t]> (ttls c).
Proof.
  intros Hok Hh He Hs Hnd Ha Ho. pose proof (ext_fields _ _ _ He) as (Hm & Httl & Hca & Hts & Hex).
  assert (Ho' : forall k s', k <> key -> cache c !! k = Some s' -> arr s' <> 0%nat -> arr s' <> a)
    by (intros k s' H1 H2 H3; by apply (Ho k s')).
  split_and!.
  - split; [done|..]; cbn [put_key cache next_arr].
    + intros k s' [[<- <-]|[Hne Hk]]%lookup_insert_Some; [by eauto|]. rewrite Hca in Hk.
      destruct (others_keep c c' a key k s') as [? (l' & _ & ? & ?)]; eauto.
    + intros k1 k2 s1 s2 [[<- <-]|[Hn1 H1]]%lookup_insert_Some [[<- <-]|[Hn2 H2]]%lookup_insert_Some E;
        rewrite ?Hca in *; [by right|..].
      * destruct (decide (arr s2 = 0%nat)); [left; congruence|]. by destruct (Ho k2 s2) as [_ []].
      * destruct (decide (arr s1 = 0%nat)); [by left|]. by destruct (Ho k1 s1) as [_ []].
      * by apply (co_sep c Hok k1 k2 s1 s2).
  - apply map_eq. intros k. unfold abs at 1. rewrite lookup_fmap. cbn [put_key cache].
    destruct (decide (k = key)) as [->|Hne].
    + rewrite !lookup_insert_eq. cbn. f_equal. by apply (holds_contents c').
    + rewrite !lookup_insert_ne by done. rewrite Hca. unfold abs. rewrite lookup_fmap.
      destruct (cache c !! k) as [s'|] eqn:E; [|done]. cbn. f_equal.
      destruct (others_keep c c' a key k s') as [_ (l' & H1 & H2 & _)]; eauto.
      transitivity l'; [by apply (holds_contents c')|symmetry; by apply holds_contents].
  - cbn. by rewrite Hts.
Qed.

Lemma delete_ok c c' a key :
  cache_ok c -> heap_ok c' -> ext a c c' ->
  (forall k s', k <> key -> cache c !! k = Some s' -> arr s' <> 0%nat -> arr s' <> a) ->
  cache_ok (delete_key key c') /\ abs (delete_key key c') = delete key (abs c)
  /\ ttls (delete_key key c') = delete key (ttls c).
Proof.
  intros Hok Hh He Ho. pose proof (ext_fields _ _ _ He) as (Hm & Httl & Hca & Hts & Hex).
  split_and!.
  - split; [done|..]; cbn [delete_key cache next_arr].
    + intros k s' [Hne Hk]%lookup_delete_Some. rewrite Hca in Hk.
      destruct (others_keep c c' a key k s') as [? (l' & _ & ? & ?)]; eauto.
    + intros k1 k2 s1 s2 [_ H1]%lookup_delete_Some [_ H2]%lookup_delete_Some. rewrite Hca in *.
      by apply (co_sep c Hok k1 k2 s1 s2).
  - apply map_eq. intros k. unfold abs at 1. rewrite lookup_fmap. cbn [delete_key cache].
    destruct (decide (k = key)) as [->|Hne].
    + by rewrite !lookup_delete_eq.
    + rewrite !lookup_delete_ne by done. rewrite Hca. unfold abs. rewrite lookup_fmap.
      destruct (cache c !! k) as [s'|] eqn:E; [|done]. cbn. f_equal.
      destruct (others_keep c c' a key k s') as [_ (l' & H1 & H2 & _)]; eauto.
      transitivity l'; [by apply (holds_contents c')|symmetry; by apply holds_contents].
  - cbn. by rewrite Hts.
Qed.

(** What [update] is to do to the providers of the event's key. *)
Definition spec_list (action : ServiceURLEventType) (u : ServiceURL) (l : list ServiceURL) : list ServiceURL :=
  let rest := filter (differs (PrimitiveURL u)) l in
  match action with
  | ServiceURLDel => rest
  | _ => rest ++ [u]
  end.

Definition spec_put (key : bytes) (l : list ServiceURL) (m : gmap bytes (list ServiceURL)) :=
  match l with
  | [] => delete key m
  | _ => <[key := l]> m
  end.

Definition spec_update (action : ServiceURLEventType) (u : ServiceURL) (m : gmap bytes (list ServiceURL)) :=
  let key := Key (URL_ServiceConfig u) in
  spec_put key (spec_list action u (providers key m)) m.

Lemma spec_list_NoDup action u l : NoDup (PrimitiveURL <$> l) -> NoDup (PrimitiveURL <$> spec_list action u l).
Proof.
  intros Hl.
  assert (H : NoDup (PrimitiveURL <$> filter (differs (PrimitiveURL u)) l)).
  { induction l as [|x l IH]; [done|]. rewrite fmap_cons in Hl. apply NoDup_cons in Hl as [Hx Hl].
    rewrite filter_cons. destruct (decide _); [|by apply IH]. rewrite fmap_cons. apply NoDup_cons.
    split; [|by apply IH]. intros (y & Hy & Hyl)%list_elem_of_fmap_1. apply Hx. rewrite Hy.
    apply list_elem_of_fmap_2. by apply list_elem_of_filter in Hyl as [_ ?]. }
  assert (H' : NoDup (PrimitiveURL <$> filter (differs (PrimitiveURL u)) l ++ [u])).
  { rewrite fmap_app. apply NoDup_app. split_and!; [done| |apply NoDup_singleton].
    intros k (y & -> & [Hy _]%list_elem_of_filter)%list_elem_of_fmap_1 E%list_elem_of_singleton. by apply Hy. }
  by destruct action.
Qed.

(** ** Operations against the abstract cache *)

Section Refinement.
Context {R : Runtime}.

Lemma set_refines c c' a key s l now :
  cache_ok c -> heap_ok c' -> ext a c c' -> holds c' s l -> NoDup (PrimitiveURL <$> l) ->
  (arr s < next_arr c')%nat ->
  (forall k s', k <> key -> cache c !! k = Some s' -> arr s' <> 0%nat -> arr s' <> a /\ arr s' <> arr s) ->
  cache_ok (set key s now c') /\ abs (set key s now c') = spec_put key l (abs c).
Proof.
  intros Hok Hh He Hs Hnd Ha Ho. unfold set. pose proof Hs as [_ Hlen].
  destruct (Nat.ltb_spec 0 (len s)).
  - destruct (put_ok c c' a key s l (now + ttl c') Hok Hh He Hs Hnd Ha Ho) as (H1 & H2 & _).
    split; [done|]. rewrite H2. by destruct l; [cbn in Hlen; lia|].
  - destruct (delete_ok c c' a key Hok Hh He) as (H1 & H2 & _); [by intros k s' ? ? ?; apply (Ho k s')|].
    split; [done|]. rewrite H2. by destruct l; [|cbn in Hlen; lia].
Qed.

Lemma update_ok action u now c :
  cache_ok c ->
  exists c', update (Some (mkEvent action (Some u))) now c = (Ret tt, c')
    /\ cache_ok c' /\ abs c' = spec_update action u (abs c).
Proof.
  intros Hok. cbn [update]. cbv zeta. unfold spec_update. set (key := Key (URL_ServiceConfig u)).
  destruct (slice_of c key Hok) as (l & Hl & Hnd & -> & Ha & _).
  set (s := default nil_slice (cache c !! key)) in *. pose proof (co_heap _ Hok) as Hh.
  destruct (update_loop_ok (PrimitiveURL u) s l c Hl Hh Ha Hnd) as (s1 & c1 & -> & Hs1 & He1 & Hh1 & Has & Hnx).
  assert (Hsep : forall k s', k <> key -> cache c !! k = Some s' -> arr s' <> 0%nat -> arr s' <> arr s).
  { intros k s' Hne Hk Hz E. unfold s in E. destruct (cache c !! key) as [s0|] eqn:E0; [|done].
    cbn in E. by destruct (co_sep _ Hok k key s' s0 Hk E0 E). }
  pose proof (spec_list_NoDup action u l Hnd) as Hnd'.
  assert (Hadd : forall l', l' = filter (differs (PrimitiveURL u)) l ++ [u] -> NoDup (PrimitiveURL <$> l') ->
    exists c', (let '(services, c2) := append s1 u c1 in (Ret tt, set key services now c2)) = (Ret tt, c')
    /\ cache_ok c' /\ abs c' = spec_put key l' (abs c)).
  { intros l' -> Hn'. destruct (append_ok s1 _ u c1 Hs1 Hh1) as (s2 & c2 & -> & Hs2 & He2 & Hh2 & Hf & Ha2); [lia|].
    eexists. split; [reflexivity|]. rewrite Has in He2.
    apply (set_refines c c2 (arr s)); try done; [by eapply ext_trans|].
    intros k s' Hne Hk Hz. split; [by apply (Hsep k)|]. destruct (co_slices _ Hok k s' Hk) as [Hlt _].
    destruct Hf as [[-> _]|Hf]; [rewrite Has; by apply (Hsep k)|lia]. }
  destruct action; [by apply Hadd| |by apply Hadd].
  eexists. split; [reflexivity|]. apply (set_refines c c1 (arr s)); try done; [lia|].
  intros k s' Hne Hk Hz. rewrite Has. by split; apply (Hsep k).
Qed.

(** The age of a key's entry is below [ttl]. *)
Definition in_time (key : bytes) (since : Z) (c : cacheSelector) : bool :=
  match ttls c !! key with
  | Some t => Sub since t <? ttl c
  | None => false
  end.

(** What [get] is to answer and to store. *)
Definition spec_get (l : list ServiceURL) (intime : bool) (reg : goerr + list ServiceURL) :
    outcome (list ServiceURL) * option (list ServiceURL) :=
  match l, intime, reg with
  | _ :: _, true, _ => (Ret l, None)
  | _ :: _, false, inl _ => (Ret l, None)
  | [], _, inl e => (Fail (Traced e), None)
  | _, _, inr ss => (Ret ss, Some ss)
  end.

Definition answers (o : outcome slice) (c : cacheSelector) (o' : outcome (list ServiceURL)) : Prop :=
  match o, o' with
  | Ret s, Ret l => holds c s l
  | Fail e, Fail e' => e = e'
  | _, _ => False
  end.

(** The slice is the caller's own unless it is the old one of an expired entry. *)
Definition own (c : cacheSelector) (s : slice) : Prop :=
  (arr s < next_arr c)%nat /\
  (arr s <> 0%nat -> forall k s', cache c !! k = Some s' -> arr s' <> arr s).

Lemma fresh_own c c' s :
  cache_ok c -> ext 0 c c' -> fresh c s -> (arr s < next_arr c')%nat -> own c' s.
Proof.
  intros Hok [(_ & _ & Hca & _) _ _] Hf Ha. split; [done|]. intros Hz k s' Hk. rewrite Hca in Hk.
  destruct (co_slices _ Hok k s' Hk) as [Hlt _]. destruct Hf; lia.
Qed.

(** Making new arrays leaves the cache as it is. *)
Lemma ext0_ok c c' : cache_ok c -> heap_ok c' -> ext 0 c c' -> cache_ok c' /\ abs c' = abs c.
Proof.
  intros [Hh Hsl Hsep] Hh' He. pose proof (ext_fields _ _ _ He) as (_ & _ & Hca & _).
  pose proof (ext_next _ _ _ He). split.
  - split; [done|..]; rewrite Hca; [|done]. intros k s Hk. destruct (Hsl k s Hk) as [Hlt (l & H1 & H2)].
    split; [lia|]. exists l. split; [by eapply ext0_holds|done].
  - unfold abs. rewrite Hca. apply map_eq. intros k. rewrite !lookup_fmap.
    destruct (cache c !! k) as [s|] eqn:E; [|done]. cbn. f_equal.
    destruct (Hsl k s E) as [Hlt (l & H1 & H2)].
    transitivity l; [apply (holds_contents c'); by eapply ext0_holds|symmetry; by apply holds_contents].
Qed.

Lemma get_ok conf since now reg c :
  let key := Key conf in
  let spec := spec_get (providers key (abs c)) (in_time key since c) reg in
  cache_ok c -> (forall ss, reg = inr ss -> NoDup (PrimitiveURL <$> ss)) ->
  exists o c', get (IfConfig conf) since now reg c = (o, c') /\ cache_ok c' /\ answers o c' spec.1
    /\ abs c' = (match spec.2 with Some ss => <[key := ss]> (abs c) | None => abs c end)
    /\ forall s, o = Ret s -> (in_time key since c = true \/ exists ss, reg = inr ss) -> own c' s.
Proof.
  cbv zeta. set (key := Key conf). intros Hok Hreg. cbn [get]. cbv zeta. fold key.
  destruct (slice_of c key Hok) as (l & Hl & Hnd & -> & Ha & _).
  set (s := default nil_slice (cache c !! key)) in *. pose proof (co_heap _ Hok) as Hh.
  pose proof Hl as [_ Hlen]. fold (in_time key since c).
  assert (Hmiss : forall ss, NoDup (PrimitiveURL <$> ss) ->
    exists s1 c1, (ss1 <- fresh_slice ss ;; services <- copy ss1 ;;
      (fun c => (Ret ss1, put_key key services (now + ttl c) c))) c = (Ret s1, c1)
      /\ cache_ok c1 /\ holds c1 s1 ss /\ abs c1 = <[key := ss]> (abs c) /\ own c1 s1).
  { intros ss Hss. destruct (fresh_slice_ok ss c Hh) as (s1 & c1 & E1 & Hs1 & Hh1 & He1 & Hf1 & Ha1).
    destruct (copy_ok s1 ss c1 Hh1 Hs1 Ha1) as (s2 & c2 & E2 & Hs2 & Hh2 & He2 & Hf2 & Ha2).
    unfold bind. rewrite E1, E2. do 2 eexists. split; [reflexivity|].
    pose proof (ext_next _ _ _ He1). pose proof (ext_next _ _ _ He2).
    assert (He : ext 0 c c2) by by eapply ext_trans.
    destruct (put_ok c c2 0 key s2 ss (now + ttl c2) Hok Hh2 He Hs2 Hss Ha2) as (H1 & H2 & _).
    { intros k s' Hne Hk Hz. split; [done|]. destruct (co_slices _ Hok k s' Hk) as [Hlt _].
      destruct Hf2; lia. }
    split_and!; [done|by eapply (ext0_holds c1 c2)|done|]. split; [cbn; lia|].
    intros Hz k s' Hk. cbn [put_key cache] in Hk. apply lookup_insert_Some in Hk as [[_ <-]|[_ Hk]].
    - destruct Hf2; lia.
    - destruct He as [(_ & _ & Hca & _) _ _]. rewrite Hca in Hk.
      destruct (co_slices _ Hok k s' Hk) as [Hlt _]. destruct Hf1; lia. }
  destruct (Nat.ltb_spec 0 (len s)) as [Hpos|Hz].
  - destruct l as [|u l]; [cbn in Hlen; lia|]. destruct (in_time key since c); cbn [andb spec_get].
    + destruct (copy_ok s _ c Hh Hl Ha) as (s1 & c1 & -> & Hs1 & Hh1 & He1 & Hf1 & Ha1).
      do 2 eexists. split; [reflexivity|]. split_and!; [|done| |].
      * apply (ext0_ok c); done.
      * apply (ext0_ok c); done.
      * intros s' [= <-] _. by eapply fresh_own.
    + destruct reg as [e|ss]; cbn [fst snd].
      * do 2 eexists. split; [reflexivity|]. split_and!; [done|done|done|].
        intros s' _ [Hf|[ss Hs]]; done.
      * destruct (Hmiss ss (Hreg ss eq_refl)) as (s1 & c1 & E & H1 & H2 & H3 & H4). unfold spec_get.
        exists (Ret s1), c1. split_and!; [exact E|done|done|done|]. by intros s' [= <-] _.
  - destruct l as [|u l]; [|cbn in Hlen; lia]. cbn [andb spec_get].
    destruct reg as [e|ss]; cbn [fst snd].
    + do 2 eexists. split; [reflexivity|]. by split_and!.
    + destruct (Hmiss ss (Hreg ss eq_refl)) as (s1 & c1 & E & H1 & H2 & H3 & H4).
      exists (Ret s1), c1. split_and!; [exact E|done|done|done|]. by intros s' [= <-] _.
Qed.

End Refinement.

(** ** Runs

    Every operation holds the lock for its whole length, so that the calls and
    the events from the registry follow one another.  The providers that the
    registry returns have different URLs. *)
Inductive step {R : Runtime} : cacheSelector -> cacheSelector -> Prop :=
| step_get s since now reg c o c' :
    (forall ss, reg = inr ss -> NoDup (PrimitiveURL <$> ss)) ->
    get s since now reg c = (o, c') -> step c c'
| step_update res now c o c' : update res now c = (o, c') -> step c c'
| step_close c o c' : Close c = (o, c') -> step c c'.

Definition steps {R : Runtime} : cacheSelector -> cacheSelector -> Prop := rtc step.

Section Runs.
Context {R : Runtime}.

Lemma NewSelector_ok mode context : cache_ok (NewSelector mode context).
Proof.
  split.
  - split; cbn; [done|lia].
  - intros key s. cbn. by rewrite lookup_empty.
  - intros k1 k2 s1 s2. cbn. by rewrite lookup_empty.
Qed.

(** The slices that callers own stay theirs and keep their contents. *)
Definition keeps (c c' : cacheSelector) : Prop :=
  forall s l, own c s -> holds c s l -> own c' s /\ holds c' s l.

Lemma keeps_refl c : keeps c c.
Proof. by intros s l. Qed.

Lemma keeps_trans c1 c2 c3 : keeps c1 c2 -> keeps c2 c3 -> keeps c1 c3.
Proof. intros H1 H2 s l Ho Hl. destruct (H1 s l Ho Hl) as [Ho' Hl']. by apply H2. Qed.

(** An array that the cache uses. *)
Definition cached (c : cacheSelector) (a : nat) : Prop := exists k s, cache c !! k = Some s /\ arr s = a.

Lemma ext_keeps a c c' c'' :
  heap_ok c -> heap_ok c' -> ext a c c' -> a = 0%nat \/ cached c a ->
  heap c'' = heap c' -> next_arr c'' = next_arr c' ->
  (forall k s, cache c'' !! k = Some s -> arr s = 0%nat \/ cached c (arr s) \/ (next_arr c <= arr s)%nat) ->
  keeps c c''.
Proof.
  intros [Hz _] [Hz' _] He Ha Hheap Hnext Hnew s l [Hs Ho] Hl.
  assert (Hl' : holds c' s l).
  { destruct (decide (arr s = 0%nat)) as [E|Hne].
    - destruct Hl as [Hc Hn]. split; [|done]. unfold cells in *. rewrite E in Hc |- *. by rewrite Hz', <- Hz.
    - apply (ext_holds a c); try done. intros E. destruct Ha as [|(k & s' & Hk & E')]; [congruence|].
      apply (Ho Hne k s' Hk). congruence. }
  split.
  - split; [rewrite Hnext; pose proof (ext_next _ _ _ He); lia|]. intros Hne k s' Hk E.
    destruct (Hnew k s' Hk) as [H|[(k' & s'' & Hk' & E')|H]]; [congruence| |lia].
    apply (Ho Hne k' s'' Hk'). congruence.
  - destruct Hl' as [Hc Hn]. split; [|done]. unfold cells, array_of in *. by rewrite Hheap.
Qed.

Lemma set_keeps a c c' key s now :
  heap_ok c -> heap_ok c' -> ext a c c' -> a = 0%nat \/ cached c a ->
  arr s = 0%nat \/ cached c (arr s) \/ (next_arr c <= arr s)%nat ->
  keeps c (set key s now c') /\ forall t, keeps c (put_key key s t c').
Proof.
  intros Hh Hh' He Ha Hs. pose proof (ext_fields _ _ _ He) as (_ & _ & Hca & _).
  assert (Hput : forall t, keeps c (put_key key s t c')).
  { intros t. apply (ext_keeps a c c'); try done. cbn [put_key cache].
    intros k s' [[_ <-]|[_ Hk]]%lookup_insert_Some; [done|]. rewrite Hca in Hk. right. left. by exists k, s'. }
  split; [|done]. unfold set. destruct (_ <? _)%nat; [apply Hput|].
  apply (ext_keeps a c c'); try done. cbn [delete_key cache].
  intros k s' [_ Hk]%lookup_delete_Some. rewrite Hca in Hk. right. left. by exists k, s'.
Qed.

Lemma update_keeps res now c : cache_ok c -> keeps c (update res now c).2.
Proof.
  intros Hok. destruct res as [[action [u|]]|]; try apply keeps_refl.
  cbn [update]. cbv zeta. set (key := Key (URL_ServiceConfig u)).
  destruct (slice_of c key Hok) as (l & Hl & Hnd & _ & Ha & _).
  set (s := default nil_slice (cache c !! key)) in *. pose proof (co_heap _ Hok) as Hh.
  destruct (update_loop_ok (PrimitiveURL u) s l c Hl Hh Ha Hnd) as (s1 & c1 & -> & Hs1 & He1 & Hh1 & Has & Hnx).
  assert (Hc : arr s = 0%nat \/ cached c (arr s)).
  { unfold s. destruct (cache c !! key) as [s0|] eqn:E; [right; by exists key, s0|by left]. }
  assert (Hadd : keeps c (let '(services, c2) := append s1 u c1 in (Ret tt, set key services now c2)).2).
  { destruct (append_ok s1 _ u c1 Hs1 Hh1) as (s2 & c2 & -> & Hs2 & He2 & Hh2 & Hf & Ha2); [lia|]. cbn [snd].
    rewrite Has in He2, Hf. apply (set_keeps (arr s) c c2); try done; [by eapply ext_trans|].
    destruct Hf as [[-> _]|Hf]; [tauto|right; right; lia]. }
  destruct action; [exact Hadd| |exact Hadd].
  cbn [snd]. apply (set_keeps (arr s) c c1); try done. rewrite Has. tauto.
Qed.

Lemma get_keeps s since now reg c : cache_ok c -> keeps c (get s since now reg c).2.
Proof.
  intros Hok. destruct s as [conf|]; [|apply keeps_refl]. cbn [get]. cbv zeta. set (key := Key conf).
  destruct (slice_of c key Hok) as (l & Hl & Hnd & _ & Ha & _).
  set (s := default nil_slice (cache c !! key)) in *. pose proof (co_heap _ Hok) as Hh.
  destruct (_ && _).
  - destruct (copy_ok s l c Hh Hl Ha) as (s1 & c1 & -> & Hs1 & Hh1 & He1 & _). cbn [snd].
    apply (ext_keeps 0 c c1); try done; [by left|].
    pose proof (ext_fields _ _ _ He1) as (_ & _ & -> & _). intros k s' Hk. right. left. by exists k, s'.
  - destruct reg as [e|ss]; [by destruct (_ <? _)%nat; apply keeps_refl|].
    destruct (fresh_slice_ok ss c Hh) as (s1 & c1 & E1 & Hs1 & Hh1 & He1 & Hf1 & Ha1).
    destruct (copy_ok s1 ss c1 Hh1 Hs1 Ha1) as (s2 & c2 & E2 & Hs2 & Hh2 & He2 & Hf2 & Ha2).
    unfold bind. rewrite E1, E2. cbn [snd]. apply (set_keeps 0 c c2); try done.
    + by eapply ext_trans.
    + by left.
    + pose proof (ext_next _ _ _ He1). destruct Hf2; [by left|right; right; lia].
Qed.

Lemma Close_ok c : cache_ok c -> cache_ok (Close c).2 /\ keeps c (Close c).2 /\ abs (Close c).2 = ∅.
Proof.
  intros Hok. unfold Close. set (c1 := mkCache _ _ _ _ _ _ _).
  assert (H : forall c2, heap c2 = heap c -> next_arr c2 = next_arr c -> cache c2 = ∅ ->
    cache_ok c2 /\ keeps c c2 /\ abs c2 = ∅).
  { intros c2 H1 H2 H3. assert (Hh : heap_ok c2) by (unfold heap_ok, array_of; rewrite H1, H2; apply Hok).
    split_and!.
    - split; [done|..]; rewrite H3; intros *; by rewrite lookup_empty.
    - apply (ext_keeps 0 c c); try done; [apply Hok|apply Hok|by left|]. rewrite H3. intros *. by rewrite lookup_empty.
    - unfold abs. by rewrite H3, fmap_empty. }
  destruct (quit c1); by apply H.
Qed.

Lemma step_ok c c' : cache_ok c -> step c c' -> cache_ok c' /\ keeps c c'.
Proof.
  intros Hok Hs. destruct Hs as [s since now reg c o c' Hreg E|res now c o c' E|c o c' E].
  - pose proof (get_keeps s since now reg c Hok) as Hk. rewrite E in Hk. split; [|done].
    destruct s as [conf|]; [|by injection E as _ <-].
    destruct (get_ok conf since now reg c Hok Hreg) as (o' & c'' & E' & Hok' & _).
    rewrite E in E'. by injection E' as _ ->.
  - pose proof (update_keeps res now c Hok) as Hk. rewrite E in Hk. split; [|done].
    destruct res as [[a [u|]]|]; try by injection E as _ <-.
    destruct (update_ok a u now c Hok) as (c'' & E' & Hok' & _).
    rewrite E in E'. by injection E' as _ ->.
  - destruct (Close_ok c Hok) as (H1 & H2 & _). by rewrite E in H1, H2.
Qed.

Lemma steps_ok c c' : cache_ok c -> steps c c' -> cache_ok c' /\ keeps c c'.
Proof.
  intros Hok Hs. revert Hok. induction Hs as [c|c c1 c' Hs _ IH]; intros Hok; [split; [done|apply keeps_refl]|].
  destruct (step_ok c c1 Hok Hs) as [Hok1 Hk1]. destruct (IH Hok1) as [Hok' Hk']. split; [done|by eapply keeps_trans].
Qed.

End Runs.

(** ** Following the registry *)

Definition urls (key : bytes) (m : gmap bytes (list ServiceURL)) : list bytes := PrimitiveURL <$> providers key m.

(** The events that [watch] hands to [update], before the first error. *)
Fixpoint effective (events : list next_result) : list (ServiceURLEventType * ServiceURL) :=
  match events with
  | [] | NextErr _ :: _ => []
  | NextRes res valid _ :: events =>
      if bool_decide (Action res = ServiceURLDel) && negb valid then effective events
      else match Service res with
           | None => effective events
           | Some u => (Action res, u) :: effective events
           end
  end.

(** The last thing said of a URL under a key. *)
Fixpoint last_said (key url : bytes) (evs : list (ServiceURLEventType * ServiceURL))
    (before : option ServiceURLEventType) : option ServiceURLEventType :=
  match evs with
  | [] => before
  | (a, u) :: evs =>
      last_said key url evs
        (if bool_decide (Key (URL_ServiceConfig u) = key /\ PrimitiveURL u = url) then Some a else before)
  end.

Lemma providers_put K key l m : providers K (spec_put key l m) = if decide (K = key) then l else providers K m.
Proof.
  unfold providers, spec_put. destruct (decide (K = key)) as [->|Hne].
  - destruct l; [by rewrite lookup_delete_eq|by rewrite lookup_insert_eq].
  - destruct l; [by rewrite lookup_delete_ne|by rewrite lookup_insert_ne].
Qed.

Lemma elem_of_filter_differs url u (l : list ServiceURL) :
  u ∈ PrimitiveURL <$> filter (differs url) l <-> u <> url /\ u ∈ PrimitiveURL <$> l.
Proof.
  rewrite !list_elem_of_fmap. split.
  - intros (y & -> & [Hy Hyl]%list_elem_of_filter). split; [done|by exists y].
  - intros (Hne & y & -> & Hyl). exists y. split; [done|]. by apply list_elem_of_filter.
Qed.

Lemma urls_update K url a u m :
  url ∈ urls K (spec_update a u m) <->
  if decide (Key (URL_ServiceConfig u) = K /\ PrimitiveURL u = url) then a <> ServiceURLDel else url ∈ urls K m.
Proof.
  unfold urls, spec_update. cbv zeta. rewrite providers_put. destruct (decide (K = _)) as [->|Hne].
  - set (K := Key (URL_ServiceConfig u)). unfold spec_list. cbv zeta.
    assert (Happ : url ∈ PrimitiveURL <$> filter (differs (PrimitiveURL u)) (providers K m) ++ [u]
      <-> url = PrimitiveURL u \/ url ∈ PrimitiveURL <$> providers K m).
    { rewrite fmap_app, elem_of_app, elem_of_filter_differs. cbn [fmap list_fmap]. rewrite list_elem_of_singleton.
      destruct (decide (url = PrimitiveURL u)); tauto. }
    destruct (decide _) as [[_ <-]|Hn]; destruct a; rewrite ?Happ, ?elem_of_filter_differs; intuition congruence.
  - destruct (decide _) as [[<- _]|_]; done.
Qed.

Lemma urls_fold K url evs : forall m,
  url ∈ urls K (fold_left (fun m e => spec_update e.1 e.2 m) evs m) <->
  match last_said K url evs None with
  | Some a => a <> ServiceURLDel
  | None => url ∈ urls K m
  end.
Proof.
  enough (H : forall m before, (match before with Some a => a <> ServiceURLDel <-> url ∈ urls K m | None => True end) ->
    url ∈ urls K (fold_left (fun m e => spec_update e.1 e.2 m) evs m) <->
    match last_said K url evs before with
    | Some a => a <> ServiceURLDel
    | None => url ∈ urls K m
    end) by (intros m; by apply (H m None)).
  induction evs as [|[a u] evs IH]; intros m before Hb.
  - cbn. by destruct before.
  - cbn [fold_left last_said]. pose proof (urls_update K url a u m) as Hu. cbn [fst snd] in *.
    destruct (decide (Key (URL_ServiceConfig u) = K /\ PrimitiveURL u = url)) as [Hd|Hd].
    + rewrite bool_decide_eq_true_2 by done. rewrite (IH _ (Some a)) by (symmetry; exact Hu).
      destruct (last_said _ _ _ _) eqn:E; [done|]. exfalso. revert E. clear.
      assert (forall b : ServiceURLEventType, last_said K url evs (Some b) <> None) as H.
      { induction evs as [|[a' u'] evs IH]; intros b; cbn; [done|]. by destruct (bool_decide _). }
      apply H.
    + rewrite bool_decide_eq_false_2 by done. rewrite (IH _ before); [|by destruct before; rewrite ?Hu].
      destruct (last_said _ _ _ _); [done|]. exact Hu.
Qed.

Section Properties.
Context {R : Runtime}.

Lemma reachable_ok mode context c : steps (NewSelector mode context) c -> cache_ok c.
Proof. intros Hs. by apply (steps_ok _ _ (NewSelector_ok mode context)). Qed.

Lemma watch_ok events : forall c, cache_ok c ->
  exists o c', watch events c = (Ret o, c') /\ cache_ok c'
    /\ abs c' = fold_left (fun m e => spec_update e.1 e.2 m) (effective events) (abs c)
    /\ (o = None <-> forall e, NextErr e ∉ events).
Proof.
  induction events as [|[e|res valid now] events IH]; intros c Hok; cbn [watch effective].
  - do 2 eexists. split; [reflexivity|]. split_and!; [done|done|]. split; [|done]. intros _ e He. by apply not_elem_of_nil in He.
  - do 2 eexists. split; [reflexivity|]. split_and!; [done|done|]. split; [done|]. intros H. exfalso. apply (H e). by left.
  - assert (Htail : forall o : option goerr, (o = None <-> forall e, NextErr e ∉ events) <->
       (o = None <-> forall e, NextErr e ∉ NextRes res valid now :: events)).
    { intros o. assert (H : (forall e, NextErr e ∉ events) <-> (forall e, NextErr e ∉ NextRes res valid now :: events)).
      { split; intros H e; specialize (H e); [by apply not_elem_of_cons|by apply not_elem_of_cons in H as []]. }
      by rewrite H. }
    destruct (_ && _).
    + destruct (IH c Hok) as (o & c' & H1 & H2 & H3 & H4). exists o, c'. by rewrite <- Htail.
    + destruct res as [a [u|]]; cbn [Action Service].
      * destruct (update_ok a u now c Hok) as (c1 & E & Hok1 & Ha1). unfold bind. rewrite E.
        destruct (IH c1 Hok1) as (o & c' & H1 & H2 & H3 & H4). exists o, c'. rewrite <- Htail.
        split_and!; [done|done| |done]. cbn [fold_left fst snd]. by rewrite <- Ha1.
      * destruct (IH c Hok) as (o & c' & H1 & H2 & H3 & H4). exists o, c'. unfold bind. cbn [update]. by rewrite <- Htail.
Qed.

(** C6. The cache follows the registry: whatever has happened before, after
    [watch] has seen some events a URL is listed under a service exactly if the
    last event about it was no deletion or, if no event was about it, if it was
    listed before; deletions that come while the connection to the registry is
    down do not count, and [watch] returns only when [Next] fails. *)
Theorem watch_follows mode context c events :
  steps (NewSelector mode context) c ->
  exists o c', watch events c = (Ret o, c') /\ (o = None <-> forall e, NextErr e ∉ events)
    /\ forall key url, url ∈ urls key (abs c') <->
       match last_said key url (effective events) None with
       | Some a => a <> ServiceURLDel
       | None => url ∈ urls key (abs c)
       end.
Proof.
  intros Hs. pose proof (reachable_ok mode context c Hs) as Hok.
  destruct (watch_ok events c Hok) as (o & c' & E & _ & Ha & Ho). exists o, c'. split_and!; [done|done|].
  intros key url. rewrite Ha. apply urls_fold.
Qed.

(** C17. [update] does to the cache, in place and in shared arrays, what its
    specification does to a map of lists: it takes the event's URL out, puts it
    at the end unless it is deleted, and forgets the key when nothing is left.
    No URL is listed twice. *)
Theorem update_refines mode context c action u now :
  steps (NewSelector mode context) c ->
  exists c', update (Some (mkEvent action (Some u))) now c = (Ret tt, c')
    /\ abs c' = spec_update action u (abs c)
    /\ forall key, NoDup (urls key (abs c')).
Proof.
  intros Hs. pose proof (reachable_ok mode context c Hs) as Hok.
  destruct (update_ok action u now c Hok) as (c' & E & Hok' & Ha). exists c'. split_and!; [done|done|].
  intros key. destruct (slice_of c' key Hok') as (l & _ & Hnd & E' & _). unfold urls. by rewrite E'.
Qed.

(** C18. [get] answers from the cache what is listed and young enough; else what
    the registry says, which it stores; else, when the registry fails, the old
    list if there is one; and fails only when there is none. *)
Theorem get_refines mode context c conf since now reg :
  steps (NewSelector mode context) c ->
  (forall ss, reg = inr ss -> NoDup (PrimitiveURL <$> ss)) ->
  let spec := spec_get (providers (Key conf) (abs c)) (in_time (Key conf) since c) reg in
  exists o c', get (IfConfig conf) since now reg c = (o, c')
    /\ match o, spec.1 with
       | Ret s, Ret l => contents c' s = l /\ len s = length l
       | Fail e, Fail e' => e = e'
       | _, _ => False
       end
    /\ abs c' = match spec.2 with Some ss => <[Key conf := ss]> (abs c) | None => abs c end.
Proof.
  intros Hs Hreg. cbv zeta. pose proof (reachable_ok mode context c Hs) as Hok.
  destruct (get_ok conf since now reg c Hok Hreg) as (o & c' & E & _ & Hans & Ha & _).
  exists o, c'. split_and!; [done| |done]. unfold answers in Hans.
  destruct o; try done; destruct (spec_get _ _ _).1; try done. split; [by apply holds_contents|]. by destruct Hans as [_ <-].
Qed.

(** C19. What a caller got from [get] is its own: unless it is the old list of a
    registry that fails, no later call, event or [Close] changes it. *)
Theorem get_isolated mode context c conf since now reg s c' c'' :
  steps (NewSelector mode context) c ->
  (forall ss, reg = inr ss -> NoDup (PrimitiveURL <$> ss)) ->
  get (IfConfig conf) since now reg c = (Ret s, c') ->
  in_time (Key conf) since c = true \/ (exists ss, reg = inr ss) ->
  steps c' c'' ->
  contents c'' s = contents c' s.
Proof.
  intros Hs Hreg E Hown Hs'. pose proof (reachable_ok mode context c Hs) as Hok.
  destruct (get_ok conf since now reg c Hok Hreg) as (o & c1 & E1 & Hok1 & Hans & _ & Ho).
  rewrite E in E1. injection E1 as <- <-. destruct (steps_ok c' c'' Hok1 Hs') as [_ Hk].
  unfold answers in Hans. destruct (spec_get _ _ _).1 as [l|e| |]; try done.
  destruct (Hk s l (Ho s eq_refl Hown) Hans) as [_ Hl]. by rewrite (holds_contents _ _ _ Hl), (holds_contents _ _ _ Hans).
Qed.

Lemma spec_get_miss l intime ss :
  l = [] \/ intime = false -> spec_get l intime (inr ss) = (Ret ss, Some ss).
Proof. by destruct l, intime; intros []. Qed.

(** ** Ages *)

Lemma Sub_lt since t d : 0 <= d < 2 ^ 63 -> (Sub since t <? d) = (since - t <? d).
Proof. intros Hd. unfold Sub. apply eq_true_iff_eq. rewrite !Z.ltb_lt. lia. Qed.

(** Until when an entry stored at [now] is used. *)
Lemma in_time_stored key since now c :
  0 <= ttl c < 2 ^ 63 -> ttls c !! key = Some (now + ttl c) ->
  in_time key since c = (since <? now + 2 * ttl c).
Proof.
  intros Ht E. unfold in_time. rewrite E, Sub_lt by done. apply eq_true_iff_eq. rewrite !Z.ltb_lt. lia.
Qed.

Lemma get_miss_stores conf since now ss c :
  cache_ok c -> providers (Key conf) (abs c) = [] \/ in_time (Key conf) since c = false ->
  ttls (get (IfConfig conf) since now (inr ss) c).2 !! Key conf = Some (now + ttl c)
  /\ ttl (get (IfConfig conf) since now (inr ss) c).2 = ttl c.
Proof.
  intros Hok Hmiss. cbn [get]. cbv zeta. set (key := Key conf) in *. fold (in_time key since c).
  destruct (slice_of c key Hok) as (l & [_ Hl] & _ & E & _). rewrite E in Hmiss.
  set (s := default nil_slice (cache c !! key)) in *. pose proof (co_heap _ Hok) as Hh.
  assert ((0 <? len s)%nat && in_time key since c = false) as ->.
  { destruct Hmiss as [->| ->]; [rewrite <- Hl; done|apply andb_false_r]. }
  destruct (fresh_slice_ok ss c Hh) as (s1 & c1 & E1 & Hs1 & Hh1 & He1 & Hf1 & Ha1).
  destruct (copy_ok s1 ss c1 Hh1 Hs1 Ha1) as (s2 & c2 & E2 & Hs2 & Hh2 & He2 & Hf2 & Ha2).
  unfold bind. rewrite E1, E2. cbn [snd put_key ttls ttl].
  destruct He1 as [(_ & H1 & _) _ _]. destruct He2 as [(_ & H2 & _) _ _]. rewrite H2, H1.
  by rewrite lookup_insert_eq.
Qed.

Lemma update_adds_stores action u now c :
  cache_ok c -> action <> ServiceURLDel ->
  let c' := (update (Some (mkEvent action (Some u))) now c).2 in
  ttls c' !! Key (URL_ServiceConfig u) = Some (now + ttl c) /\ ttl c' = ttl c.
Proof.
  intros Hok Ha. cbn [update]. cbv zeta. set (key := Key (URL_ServiceConfig u)).
  destruct (slice_of c key Hok) as (l & Hl & Hnd & _ & Har & _).
  set (s := default nil_slice (cache c !! key)) in *. pose proof (co_heap _ Hok) as Hh.
  destruct (update_loop_ok (PrimitiveURL u) s l c Hl Hh Har Hnd) as (s1 & c1 & -> & Hs1 & He1 & Hh1 & Has & Hnx).
  destruct (append_ok s1 _ u c1 Hs1 Hh1) as (s2 & c2 & E2 & Hs2 & He2 & _); [lia|].
  destruct He1 as [(_ & H1 & _) _ _]. destruct He2 as [(_ & H2 & _) _ _].
  destruct Hs2 as [_ Hlen]. rewrite length_app in Hlen. cbn in Hlen.
  assert (Hset : ttls (set key s2 now c2) !! key = Some (now + ttl c) /\ ttl (set key s2 now c2) = ttl c).
  { unfold set. destruct (Nat.ltb_spec 0 (len s2)); [|lia]. cbn [put_key ttls ttl]. rewrite lookup_insert_eq. split; congruence. }
  destruct action; [by rewrite E2|done|by rewrite E2].
Qed.

(** An entry lives for twice its [ttl]: its time of creation is set one
    [ttl] ahead and compared with [ttl] again.  What [get] stores at [now] is
    its answer before [now + 2 * ttl], whatever the registry would say, and
    from then on the registry is asked. *)
Lemma entry_lifetime mode context c conf since now ss s c' since' now' reg :
  steps (NewSelector mode context) c -> 0 <= ttl c < 2 ^ 63 ->
  providers (Key conf) (abs c) = [] \/ in_time (Key conf) since c = false ->
  ss <> [] -> NoDup (PrimitiveURL <$> ss) -> (forall ss', reg = inr ss' -> NoDup (PrimitiveURL <$> ss')) ->
  get (IfConfig conf) since now (inr ss) c = (Ret s, c') ->
  exists s' c'', get (IfConfig conf) since' now' reg c' = (Ret s', c'')
    /\ contents c'' s' = (if since' <? now + 2 * ttl c then ss else match reg with inr ss' => ss' | inl _ => ss end).
Proof.
  intros Hs Ht Hmiss Hne Hnd Hreg E. pose proof (reachable_ok mode context c Hs) as Hok.
  destruct (get_ok conf since now (inr ss) c Hok) as (o & c1 & E1 & Hok1 & Hans & Habs & _); [by intros ? [= <-]|].
  rewrite E in E1. injection E1 as <- <-.
  pose proof (get_miss_stores conf since now ss c Hok Hmiss) as [Hts Htt]. rewrite E in Hts, Htt. cbn [snd] in *.
  assert (Hp : providers (Key conf) (abs c') = ss).
  { rewrite Habs, spec_get_miss by done. unfold providers. cbn [snd]. by rewrite lookup_insert_eq. }
  destruct (get_ok conf since' now' reg c' Hok1 Hreg) as (o & c'' & E2 & _ & Hans2 & _ & _).
  rewrite Hp, (in_time_stored (Key conf) since' now c') in Hans2; [|by rewrite Htt|by rewrite Htt].
  rewrite Htt in Hans2. unfold answers in Hans2. destruct ss as [|u ss]; [done|]. cbn [spec_get fst] in Hans2.
  destruct (since' <? now + 2 * ttl c); [|destruct reg as [e|ss']]; destruct o as [s'|e'| |]; try done;
    exists s', c''; (split; [done|by apply holds_contents]).
Qed.

(** A provider that the registry announces is served from the cache at once
    and for [2 * ttl], to every configuration with its service and protocol:
    also to those of another group or version, which the registry itself would
    not have given it to. *)
Lemma update_served mode context c action u now conf since now' reg :
  steps (NewSelector mode context) c -> 0 <= ttl c < 2 ^ 63 -> action <> ServiceURLDel ->
  Key conf = Key (URL_ServiceConfig u) -> since < now + 2 * ttl c ->
  (forall ss', reg = inr ss' -> NoDup (PrimitiveURL <$> ss')) ->
  exists s c', (update (Some (mkEvent action (Some u))) now ;;; get (IfConfig conf) since now' reg) c = (Ret s, c')
    /\ u ∈ contents c' s.
Proof.
  intros Hs Ht Ha Hk Hsince Hreg. pose proof (reachable_ok mode context c Hs) as Hok.
  destruct (update_ok action u now c Hok) as (c1 & E & Hok1 & Habs).
  pose proof (update_adds_stores action u now c Hok Ha) as [Hts Htt]. rewrite E in Hts, Htt. cbn [snd] in *.
  unfold bind. rewrite E.
  destruct (get_ok conf since now' reg c1 Hok1 Hreg) as (o & c2 & E2 & _ & Hans & _ & _). rewrite E2.
  rewrite Hk in Hans. set (key := Key (URL_ServiceConfig u)) in *.
  rewrite (in_time_stored key since now c1) in Hans by (by rewrite Htt). rewrite Htt in Hans.
  apply Z.ltb_lt in Hsince. rewrite Hsince in Hans.
  assert (exists l, providers key (abs c1) = l ++ [u]) as [l Hl].
  { rewrite Habs. unfold spec_update. cbv zeta. fold key. rewrite providers_put. destruct (decide _); [|done].
    unfold spec_list. cbv zeta. destruct action; [eauto|done|eauto]. }
  rewrite Hl in Hans. unfold answers in Hans.
  assert (Hg : forall reg, spec_get (l ++ [u]) true reg = (Ret (l ++ [u]), None)) by (by intros r; destruct l).
  rewrite Hg in Hans. cbn [fst] in Hans. destruct o as [s|e'| |]; try done. exists s, c2. split; [done|].
  rewrite (holds_contents _ _ _ Hans). apply elem_of_app. right. by apply list_elem_of_singleton.
Qed.

(** [Select] gives a [Next] over the providers that [get] answers, which
    returns one of them; it fails with [ErrNotFound] exactly when the registry
    fails and nothing is listed, and with [ErrNoneAvailable] when the registry
    has none. *)
Lemma Select_next mode context c conf since now reg rand ID :
  steps (NewSelector mode context) c ->
  (forall ss, reg = inr ss -> NoDup (PrimitiveURL <$> ss)) ->
  0 <= rand -> 0 <= ID -> rand + ID < 2 ^ 63 - 1 ->
  let spec := (spec_get (providers (Key conf) (abs c)) (in_time (Key conf) since c) reg).1 in
  match Select (IfConfig conf) since now reg c with
  | (Ret (f, s), c') => exists l u i, spec = Ret l /\ call_next f s rand ID c' 0 = (Ret u, i) /\ u ∈ l
  | (Fail e, _) => e = ErrNotFound /\ (exists e', spec = Fail e') \/ e = ErrNoneAvailable /\ spec = Ret []
  | _ => False
  end.
Proof.
  intros Hs Hreg Hr HI Hb. cbv zeta. pose proof (reachable_ok mode context c Hs) as Hok. unfold Select.
  destruct (get_ok conf since now reg c Hok Hreg) as (o & c' & -> & _ & Hans & _ & _).
  unfold answers in Hans. destruct o as [s|e| |]; try done; destruct (spec_get _ _ _).1 as [l|e'| |]; try done; [|left; eauto].
  pose proof Hans as [_ Hlen]. destruct (Nat.eqb_spec (len s) 0) as [H0|H0].
  - right. split; [done|]. destruct l; [done|cbn in Hlen; lia].
  - rewrite SelectorNext_total. assert (Hl : l <> []) by (destruct l; [cbn in Hlen; lia|done]).
    unfold call_next. rewrite (holds_contents _ _ _ Hans). destruct (_ =? _).
    + destruct (roundRobin_spec l ID 0) as (u & Hu & E); [done|lia|lia|lia|]. exists l, u, 1. cbn [next_of].
      split_and!; [done|exact E|by eapply list_elem_of_lookup_2].
    + destruct (random_pick l rand ID 0) as (u & Hu & E); [done|lia|lia|lia|]. exists l, u, 0. cbn [next_of].
      split_and!; [done|exact E|by eapply list_elem_of_lookup_2].
Qed.


End Properties.

(** ** Examples *)

Module Sample.

Definition provider (host : string) (group : string) : ServiceURL :=
  mkURL (lit "dubbo") (lit host) (lit "/User") (lit host) (lit "20000") (lit "")
    (lit group) {[ lit "interface" := [lit "User"] ]} 0 (lit host).

Definition a := provider "10.0.0.1" "".
Definition b := provider "10.0.0.2" "".
Definition conf := mkConfig (lit "dubbo") (lit "User") [] [].

Definition c0 : cacheSelector := NewSelector (Some SM_RoundRobin) (Some 10).

(** Both providers are announced at time 0. *)
Definition c2 : cacheSelector :=
  (update (Some (mkEvent ServiceURLAdd (Some b))) 0
     (update (Some (mkEvent ServiceURLAdd (Some a))) 0 c0).2).2.

Lemma c2_steps : steps c0 c2.
Proof.
  eapply rtc_l; [eapply (step_update (Some (mkEvent ServiceURLAdd (Some a))) 0), surjective_pairing|].
  eapply rtc_l; [eapply (step_update (Some (mkEvent ServiceURLAdd (Some b))) 0), surjective_pairing|].
  apply rtc_refl.
Qed.

End Sample.

(** The old list that [get] returns when the registry fails is the cache's
    own slice: deleting the first of its two providers afterwards leaves the
    caller with the second one twice. *)
Lemma stale_alias :
  exists c s c', steps Sample.c0 c
    /\ get (IfConfig Sample.conf) 25 25 (inl EOF) c = (Ret s, c') /\ contents c' s = [Sample.a; Sample.b]
    /\ exists c'', update (Some (mkEvent ServiceURLDel (Some Sample.a))) 26 c' = (Ret tt, c'')
       /\ abs c'' !! Key Sample.conf = Some [Sample.b]
       /\ contents c'' s = [Sample.b; Sample.b].
Proof.
  exists Sample.c2, (mkSlice 2 2), Sample.c2. split; [apply Sample.c2_steps|].
  split; [by vm_compute|]. split; [by vm_compute|].
  exists (update (Some (mkEvent ServiceURLDel (Some Sample.a))) 26 Sample.c2).2.
  split; [by vm_compute|]. split; by vm_compute.
Qed.

Lemma watch_follows_witness :
  exists o c', watch [NextRes (mkEvent ServiceURLDel (Some Sample.a)) true 5; NextErr EOF] Sample.c2 = (Ret o, c')
    /\ (PrimitiveURL Sample.a ∉ urls (Key Sample.conf) (abs c')).
Proof.
  destruct (watch_follows (Some SM_RoundRobin) (Some 10) Sample.c2
    [NextRes (mkEvent ServiceURLDel (Some Sample.a)) true 5; NextErr EOF] Sample.c2_steps) as (o & c' & E & _ & H).
  exists o, c'. split; [exact E|]. rewrite H. vm_compute. intros Hn. by apply Hn.
Defined.

Lemma update_refines_witness :
  exists c', update (Some (mkEvent ServiceURLUpdate (Some Sample.a))) 7 Sample.c2 = (Ret tt, c')
    /\ abs c' !! Key Sample.conf = Some [Sample.b; Sample.a].
Proof.
  destruct (update_refines (Some SM_RoundRobin) (Some 10) Sample.c2 ServiceURLUpdate Sample.a 7 Sample.c2_steps)
    as (c' & E & Ha & _).
  exists c'. split; [exact E|]. rewrite Ha. by vm_compute.
Defined.

Lemma get_refines_witness :
  exists s c', get (IfConfig Sample.conf) 5 5 (inl EOF) Sample.c2 = (Ret s, c')
    /\ contents c' s = [Sample.a; Sample.b].
Proof.
  destruct (get_refines (Some SM_RoundRobin) (Some 10) Sample.c2 Sample.conf 5 5 (inl EOF) Sample.c2_steps)
    as (o & c' & E & H & _); [done|].
  assert (spec_get (providers (Key Sample.conf) (abs Sample.c2)) (in_time (Key Sample.conf) 5 Sample.c2) (inl EOF)
    = (Ret [Sample.a; Sample.b], None)) as Hs by by vm_compute.
  rewrite Hs in H. clear Hs. destruct o as [s|e| |]; [|destruct H..]. exists s, c'. split; [exact E|apply H].
Defined.

Lemma get_isolated_witness :
  let r := get (IfConfig Sample.conf) 5 5 (inl EOF) Sample.c2 in
  let s := mkSlice 4 2 in
  r.1 = Ret s
  /\ contents (update (Some (mkEvent ServiceURLDel (Some Sample.a))) 26 r.2).2 s = contents r.2 s.
Proof.
  intros r s. split; [by vm_compute|].
  apply (get_isolated (Some SM_RoundRobin) (Some 10) Sample.c2 Sample.conf 5 5 (inl EOF)).
  - apply Sample.c2_steps.
  - done.
  - by vm_compute.
  - left. by vm_compute.
  - eapply rtc_once, (step_update (Some (mkEvent ServiceURLDel (Some Sample.a))) 26), surjective_pairing.
Defined.

