(* ===== verification/Watch.v ===== *)
(** * Watching providers come and go

    [registry/zk/watch.go] and [Watch] of [consumer.go]: the goroutines that
    watch the nodes of a service and tell the selector of them, and how the
    selector's cache follows. *)
From S2P Require Import Prelude.
From S2P Require Import Registry Url Common Zookeeper ZkRegistry ZkAgree.
From S2P Require Import Selector Cache.

(** ** What a goroutine does besides its calls *)

(** [Send] is [w.events <- event{...}]; [GoNode] starts a goroutine that watches
    its own node, [GoVar] one that watches the node which the variable
    [dubboPath] has when it runs, [SetVar] assigns to that variable, [GoDir]
    starts [watchDir]. *)
Inductive effect :=
| Send (e : ServiceURLEvent)
| GoNode (node : bytes) (url : ServiceURL)
| GoVar (url : ServiceURL)
| SetVar (dubboPath : bytes)
| GoDir (zkPath : bytes) (conf : ServiceConfig).

Definition Wactch_Event_Channel_Size : nat := 32.

Record wstate (W Conn : Type) := mkWState {
  w_client : zookeeperClient Conn;
  w_world : W;
  w_chans : gmap nat nat;
  w_effects : list effect
}.
Arguments mkWState {W Conn}.
Arguments w_client {W Conn}.
Arguments w_world {W Conn}.
Arguments w_chans {W Conn}.
Arguments w_effects {W Conn}.

(** What [select] takes in [watchServiceNode], after the world has changed. *)
Inductive node_sel := NodeEvent (e : zk_Event) | NodeDone.

(** The same in [watchDir]. *)
Inductive dir_sel := DirTimeout | DirDone | DirNotified | DirEvent (e : zk_Event).

Section Watch.
Context {W Conn Wch : Type} `{ZK : Zookeeper W Conn Wch} `{C : ZkConstants}.

Abbreviation state := (wstate W Conn).

Definition emit (e : effect) : ST state unit := fun s =>
  (Ret tt, mkWState (w_client s) (w_world s) (w_chans s) (w_effects s ++ [e])).

Definition on_zk {X} (f : zookeeperClient Conn -> ST W X) : ST state X := fun s =>
  let '(o, w) := f (w_client s) (w_world s) in
  (o, mkWState (w_client s) w (w_chans s) (w_effects s)).

Definition on_zclient {X} (f : ST (zookeeperClient Conn) X) : ST state X := fun s =>
  let '(o, z) := f (w_client s) in (o, mkWState z (w_world s) (w_chans s) (w_effects s)).

(** Others run. *)
Definition meanwhile (env : state -> state) : ST state unit := fun s => (Ret tt, env s).

(** [true] when the node was deleted, [None] while it waits. *)
Fixpoint watchServiceNode (zkPath : bytes) (turns : list ((state -> state) * node_sel)) : ST state (option bool) := fun s =>
  match on_zk (fun z => existW z zkPath) s with
  | (Fail _, s) => (Ret (Some false), s)
  | (Panic, s) => (Panic, s)
  | (NoFuel, s) => (NoFuel, s)
  | (Ret _, s) =>
      match turns with
      | [] => (Ret None, s)
      | (env, sel) :: turns =>
          let s := env s in
          match sel with
          | NodeEvent e => if ev_Type e =? EventNodeDeleted then (Ret (Some true), s) else watchServiceNode zkPath turns s
          | NodeDone => (Ret (Some false), s)
          end
      end
  end.

(** The goroutine around it. *)
Definition node_goroutine (node : bytes) (url : ServiceURL) (turns : list ((state -> state) * node_sel)) : ST state unit :=
  r <- watchServiceNode node turns ;;
  match r with
  | Some true => emit (Send (mkEvent ServiceURLDel (Some url)))
  | _ => ret tt
  end.

(** The new children. *)
Fixpoint add_loop (zkPath : bytes) (children : list bytes) (conf : ServiceConfig) (newChildren : list bytes) : ST state unit :=
  match newChildren with
  | [] => ret tt
  | n :: newChildren =>
      if Contains children n then add_loop zkPath children conf newChildren
      else
        let newNode := path_Join [zkPath; n] in
        match NewServiceURL n with
        | inl _ => add_loop zkPath children conf newChildren
        | inr serviceURL =>
            if negb (ServiceEqual conf serviceURL) then add_loop zkPath children conf newChildren
            else
              emit (Send (mkEvent ServiceURLAdd (Some serviceURL))) ;;;
              emit (GoNode newNode serviceURL) ;;;
              add_loop zkPath children conf newChildren
        end
  end.

(** Those that are gone: [ServiceEqual] reads the URL before the error is
    looked at. *)
Fixpoint del_loop (newChildren : list bytes) (conf : ServiceConfig) (children : list bytes) : ST state unit :=
  match children with
  | [] => ret tt
  | n :: children =>
      if Contains newChildren n then del_loop newChildren conf children
      else
        match NewServiceURL n with
        | inl _ => panic
        | inr serviceURL =>
            if negb (ServiceEqual conf serviceURL) then del_loop newChildren conf children
            else
              emit (Send (mkEvent ServiceURLDel (Some serviceURL))) ;;;
              del_loop newChildren conf children
        end
  end.

Definition handleZkNodeEvent (zkPath : bytes) (children : list bytes) (conf : ServiceConfig) : ST state unit := fun s =>
  match on_zk (fun z => getChildren z zkPath) s with
  | (Ret newChildren, s) =>
      (add_loop zkPath children conf newChildren ;;; del_loop newChildren conf children) s
  | (Fail _, s) => (Ret tt, s)
  | (Panic, s) => (Panic, s)
  | (NoFuel, s) => (NoFuel, s)
  end.

(** The loop [CLEAR]. *)
Definition clear_channel (event : nat) : ST state unit := fun s =>
  (Ret tt, mkWState (w_client s) (w_world s) (delete event (w_chans s)) (w_effects s)).

Definition take_channel (event : nat) : ST state unit := fun s =>
  (Ret tt, mkWState (w_client s) (w_world s) (alter Nat.pred event (w_chans s)) (w_effects s)).

Definition register (zkPath : bytes) (event : nat) : ST state unit :=
  on_zclient (fun z => (Ret tt, registerEvent zkPath (Some event) z)).

Definition unregister (zkPath : bytes) (event : nat) : ST state unit :=
  on_zclient (unregisterEvent zkPath event).

Definition add_fail (failTimes : Z) : Z :=
  if MAX_TIMES <=? failTimes + 1 then MAX_TIMES else failTimes + 1.

(** The wait of [watchDir] after an error, in nanoseconds. *)
Definition watch_delay (failTimes : Z) : Z := TimeSecondDuration (i64 (failTimes * REGISTRY_CONN_DELAY)).

(** [event] is the channel made at its start; [true] when it has returned.  A
    turn that the [select] does not have leaves it waiting. *)
Fixpoint watchDir (zkPath : bytes) (conf : ServiceConfig) (event : nat)
    (turns : list ((state -> state) * dir_sel)) (failTimes : Z) : ST state bool := fun s =>
  match on_zk (fun z => getChildrenW z zkPath) s with
  | (Fail _, s) =>
      let failTimes := add_fail failTimes in
      (clear_channel event ;;;
       register zkPath event ;;;
       match turns with
       | [] => ret false
       | (env, sel) :: turns =>
           meanwhile env ;;;
           match sel with
           | DirTimeout => unregister zkPath event ;;; watchDir zkPath conf event turns failTimes
           | DirDone => unregister zkPath event ;;; ret true
           | DirNotified =>
               take_channel event ;;;
               unregister zkPath event ;;;
               handleZkNodeEvent zkPath [] conf ;;;
               watchDir zkPath conf event turns failTimes
           | DirEvent _ => ret false
           end
       end) s
  | (Ret (children, _), s) =>
      match turns with
      | [] => (Ret false, s)
      | (env, sel) :: turns =>
          (meanwhile env ;;;
           match sel with
           | DirEvent e =>
               if negb (ev_Type e =? EventNodeChildrenChanged) then watchDir zkPath conf event turns 0
               else handleZkNodeEvent (ev_Path e) children conf ;;; watchDir zkPath conf event turns 0
           | DirDone => ret true
           | DirTimeout | DirNotified => ret false
           end) s
      end
  | (Panic, s) => (Panic, s)
  | (NoFuel, s) => (NoFuel, s)
  end.

(** The providers that are there when a service begins to be watched. *)
Fixpoint service_loop (zkPath : bytes) (conf : ServiceConfig) (children : list bytes) : ST state unit :=
  match children with
  | [] => ret tt
  | c :: children =>
      match NewServiceURL c with
      | inl _ => service_loop zkPath conf children
      | inr serviceURL =>
          if negb (ServiceEqual conf serviceURL) then service_loop zkPath conf children
          else
            emit (Send (mkEvent ServiceURLAdd (Some serviceURL))) ;;;
            emit (SetVar (path_Join [zkPath; c])) ;;;
            emit (GoVar serviceURL) ;;;
            service_loop zkPath conf children
      end
  end.

Definition watchService (zkPath : bytes) (conf : ServiceConfig) : ST state unit :=
  children <- or_zero [] (on_zk (fun z => getChildren z zkPath)) ;;
  service_loop zkPath conf children ;;;
  emit (GoDir zkPath conf).

(** The variable's last value, which the goroutines read that run when the loop
    is over, and what they watch then. *)
Fixpoint last_var (p : bytes) (es : list effect) : bytes :=
  match es with
  | [] => p
  | SetVar p :: es => last_var p es
  | _ :: es => last_var p es
  end.

Fixpoint goroutine_urls (es : list effect) : list ServiceURL :=
  match es with
  | [] => []
  | GoVar url :: es => url :: goroutine_urls es
  | _ :: es => goroutine_urls es
  end.

Definition started_late (es : list effect) : list (bytes * ServiceURL) :=
  (fun url => (last_var [] es, url)) <$> goroutine_urls es.

(** [Next] on the channel's events: [done_first] is the choice of [select] when
    both are ready; [None] while it waits. *)
Definition Next (done_first : bool) (z : zookeeperClient Conn) (events : list ServiceURLEvent) :
    option (result ServiceURLEvent * list ServiceURLEvent) :=
  match events with
  | [] => if z_exit z then Some (inl (Errorf "watcher stopped"), []) else None
  | e :: rest => if z_exit z && done_first then Some (inl (Errorf "watcher stopped"), events) else Some (inr e, rest)
  end.

Definition Valid (z : zookeeperClient Conn) : bool := zkConnValid z.

(** [stopped] is the [once]. *)
Definition Stop (stopped : bool) (z : zookeeperClient Conn) (w : W) : zookeeperClient Conn * W :=
  if stopped then (z, w) else zk_client_Close z w.

(** [Watch] of a consumer: the new client, and the services that goroutines
    begin to watch on it. *)
Definition consumer_Watch `{MapRange} : ST (zookeeperRegistry Conn * W) (zookeeperClient Conn * list (bytes * ServiceConfig)) :=
  fun '(r, w) =>
    match newZookeeperClient WatcherZkClient (rg_Address (config r)) (rg_Timeout (config r)) w with
    | (Ret z, w) =>
        (Ret (z, omap (fun service => match service with
                                      | IfConfig c => Some (service_path (sc_Service c) (lit "providers"), c)
                                      | IfProvider _ => None
                                      end) (range_services r)), (r, w))
    | (Fail e, w) => (Fail (Traced e), (r, w))
    | (Panic, w) => (Panic, (r, w))
    | (NoFuel, w) => (NoFuel, (r, w))
    end.

End Watch.

(** ** What the loops emit *)

Lemma NewServiceURL_primitive n u : NewServiceURL n = inr u -> PrimitiveURL u = n.
Proof.
  unfold NewServiceURL. destruct (QueryUnescape n) as [|raw]; [done|]. destruct (Parse raw) as [|url]; [done|].
  destruct (ParseQuery _) as [|q]; [done|]. cbv zeta. destruct (has_byte 58 _).
  - destruct (SplitHostPort _) as [|[ip port]]; [done|]. by intros [= <-].
  - by intros [= <-].
Qed.

Lemma accepted_spec c n u :
  accepted c n = Some u <-> NewServiceURL n = inr u /\ ServiceEqual c u = true.
Proof.
  unfold accepted. destruct (NewServiceURL n) as [e|u']; [by split; [|intros []]|].
  destruct (ServiceEqual c u') eqn:E; split; try (intros; simplify_eq; done); intros [? ?]; congruence.
Qed.

Lemma accepted_key c n u : accepted c n = Some u -> PrimitiveURL u = n /\ Key (URL_ServiceConfig u) = Key c.
Proof.
  intros (Hn & He)%accepted_spec. split; [by apply NewServiceURL_primitive|].
  apply ServiceEqual_iff in He. by subst c.
Qed.

(** The children that are new, resp. gone, and of the configuration. *)
Definition changes (c : ServiceConfig) (old new : list bytes) : list ServiceURL :=
  omap (accepted c) (filter (fun n => n ∉ old) new).

Definition sends (es : list effect) : list ServiceURLEvent :=
  omap (fun e => match e with Send e => Some e | _ => None end) es.

Lemma sends_app es es' : sends (es ++ es') = sends es ++ sends es'.
Proof. apply omap_app. Qed.

Definition node_events (c : ServiceConfig) (old new : list bytes) : list ServiceURLEvent :=
  ((fun u => mkEvent ServiceURLAdd (Some u)) <$> changes c old new)
  ++ ((fun u => mkEvent ServiceURLDel (Some u)) <$> changes c new old).

Section Loops.
Context {W Conn Wch : Type} `{ZK : Zookeeper W Conn Wch} `{C : ZkConstants}.
Abbreviation state := (wstate W Conn).

(** Only effects were added. *)
Definition emits (s s' : state) (es : list effect) : Prop :=
  s' = mkWState (w_client s) (w_world s) (w_chans s) (w_effects s ++ es).

Lemma emits_nil s : emits s s [].
Proof. destruct s. unfold emits. cbn. by rewrite app_nil_r. Qed.

Lemma emits_app s s1 s2 es1 es2 : emits s s1 es1 -> emits s1 s2 es2 -> emits s s2 (es1 ++ es2).
Proof. unfold emits. intros -> ->. cbn. by rewrite <- app_assoc. Qed.

Lemma emit_emits (e : effect) (s : state) : exists s', emit e s = (Ret tt, s') /\ emits s s' [e].
Proof. eexists. split; reflexivity. Qed.

Lemma add_loop_ok zkPath children conf news : forall s : state,
  exists s' es, add_loop zkPath children conf news s = (Ret tt, s') /\ emits s s' es
    /\ sends es = (fun u => mkEvent ServiceURLAdd (Some u)) <$> changes conf children news.
Proof.
  induction news as [|n news IH]; intros s; [exists s, []; split; [done|]; split; [apply emits_nil|done]|].
  cbn [add_loop]. unfold changes. rewrite Contains_spec. destruct (decide (n ∈ children)) as [Hin|Hin].
  - rewrite bool_decide_eq_true_2, filter_cons_False by (done || tauto). apply IH.
  - rewrite bool_decide_eq_false_2, filter_cons_True by done. cbn [omap list_omap].
    destruct (accepted conf n) as [u|] eqn:E.
    + apply accepted_spec in E as [-> ->]. cbn [negb]. unfold bind.
      destruct (emit_emits (Send (mkEvent ServiceURLAdd (Some u))) s) as (s1 & -> & H1).
      destruct (emit_emits (GoNode (path_Join [zkPath; n]) u) s1) as (s2 & -> & H2).
      destruct (IH s2) as (s3 & es & E3 & H3 & Hs). exists s3, ([Send (mkEvent ServiceURLAdd (Some u))] ++ [GoNode (path_Join [zkPath; n]) u] ++ es).
      split; [exact E3|]. split; [eapply emits_app; [exact H1|]; by eapply emits_app|]. by rewrite !sends_app, Hs.
    + destruct (NewServiceURL n) as [e|u] eqn:En; [apply IH|].
      unfold accepted in E. rewrite En in E. destruct (ServiceEqual conf u); [done|]. apply IH.
Qed.

Lemma del_loop_ok news conf children : forall s : state,
  Forall (fun n => n ∈ news \/ exists u, NewServiceURL n = inr u) children ->
  exists s' es, del_loop news conf children s = (Ret tt, s') /\ emits s s' es
    /\ sends es = (fun u => mkEvent ServiceURLDel (Some u)) <$> changes conf news children.
Proof.
  induction children as [|n children IH]; intros s Hok; [exists s, []; split; [done|]; split; [apply emits_nil|done]|].
  apply Forall_cons in Hok as [Hn Hok].
  cbn [del_loop]. unfold changes. rewrite Contains_spec. destruct (decide (n ∈ news)) as [Hin|Hin].
  - rewrite bool_decide_eq_true_2, filter_cons_False by (done || tauto). by apply IH.
  - rewrite bool_decide_eq_false_2, filter_cons_True by done. cbn [omap list_omap]. destruct Hn as [|[u Hu]]; [done|].
    unfold accepted at 1. rewrite Hu. destruct (ServiceEqual conf u) eqn:Es; cbn [negb]; [|by apply IH].
    unfold bind. destruct (emit_emits (Send (mkEvent ServiceURLDel (Some u))) s) as (s1 & -> & H1).
    destruct (IH s1 Hok) as (s2 & es & E2 & H2 & Hs). exists s2, ([Send (mkEvent ServiceURLDel (Some u))] ++ es).
    split; [exact E2|]. split; [by eapply emits_app|]. by rewrite !sends_app, Hs.
Qed.

(** [handleZkNodeEvent] when the children are read. *)
Lemma handle_ok zkPath old conf news (s : state) w' :
  getChildren (w_client s) zkPath (w_world s) = (Ret news, w') ->
  Forall (fun n => n ∈ news \/ exists u, NewServiceURL n = inr u) old ->
  exists s' es, handleZkNodeEvent zkPath old conf s = (Ret tt, s')
    /\ w_effects s' = w_effects s ++ es /\ w_client s' = w_client s /\ w_world s' = w'
    /\ sends es = node_events conf old news.
Proof.
  intros E Hold. unfold handleZkNodeEvent, on_zk. rewrite E. set (s1 := mkWState _ _ _ _). unfold bind.
  destruct (add_loop_ok zkPath old conf news s1) as (s2 & es1 & -> & H2 & Hs1).
  destruct (del_loop_ok news conf old s2 Hold) as (s3 & es2 & -> & H3 & Hs2).
  pose proof (emits_app _ _ _ _ _ H2 H3) as H. exists s3, (es1 ++ es2). split; [done|]. rewrite H. cbn.
  split; [done|]. split; [done|]. split; [done|]. by rewrite sends_app, Hs1, Hs2.
Qed.

Lemma service_loop_ok zkPath conf children : forall s : state,
  exists s' es, service_loop zkPath conf children s = (Ret tt, s') /\ emits s s' es
    /\ sends es = (fun u => mkEvent ServiceURLAdd (Some u)) <$> omap (accepted conf) children
    /\ goroutine_urls es = omap (accepted conf) children
    /\ forall p, last_var p es = match last (omap (accepted conf) children) with
                                 | Some u => path_Join [zkPath; PrimitiveURL u]
                                 | None => p
                                 end.
Proof.
  induction children as [|c children IH]; intros s.
  { exists s, []. split; [done|]. split; [apply emits_nil|done]. }
  cbn [service_loop omap list_omap]. destruct (accepted conf c) as [u|] eqn:E.
  - pose proof (accepted_key _ _ _ E) as [Hp _]. apply accepted_spec in E as [-> ->]. cbn [negb]. unfold bind.
    destruct (emit_emits (Send (mkEvent ServiceURLAdd (Some u))) s) as (s1 & -> & H1).
    destruct (emit_emits (SetVar (path_Join [zkPath; c])) s1) as (s2 & -> & H2).
    destruct (emit_emits (GoVar u) s2) as (s3 & -> & H3).
    destruct (IH s3) as (s4 & es & E4 & H4 & Hs & Hg & Hv).
    exists s4, ([Send (mkEvent ServiceURLAdd (Some u))] ++ [SetVar (path_Join [zkPath; c])] ++ [GoVar u] ++ es).
    split; [exact E4|]. split; [eapply emits_app; [exact H1|]; eapply emits_app; [exact H2|]; by eapply emits_app|].
    split; [by rewrite !sends_app, Hs|]. split; [cbn; by rewrite Hg|]. intros p. change (last_var p _) with (last_var (path_Join [zkPath; c]) es). rewrite Hv, last_cons.
    destruct (last _); [done|]. by rewrite Hp.
  - destruct (NewServiceURL c) as [e|u] eqn:En; [apply IH|].
    unfold accepted in E. rewrite En in E. destruct (ServiceEqual conf u); [done|]. apply IH.
Qed.

Lemma last_var_app p es es' : last_var p (es ++ es') = last_var (last_var p es) es'.
Proof. revert p. induction es as [|e es IH]; intros p; [done|]. destruct e; cbn; apply IH. Qed.

Lemma goroutine_urls_app es es' : goroutine_urls (es ++ es') = goroutine_urls es ++ goroutine_urls es'.
Proof. induction es as [|e es IH]; [done|]. destruct e; cbn; rewrite ?IH; done. Qed.

End Loops.

(** ** The cache after the events *)

Lemma last_said_app K url a b x : last_said K url (a ++ b) x = last_said K url b (last_said K url a x).
Proof. revert x. induction a as [|[t u] a IH]; intros x; [done|]. cbn. apply IH. Qed.

Lemma last_said_all K url t us x :
  last_said K url ((fun u => (t, u)) <$> us) x =
  if decide (Exists (fun u => Key (URL_ServiceConfig u) = K /\ PrimitiveURL u = url) us) then Some t else x.
Proof.
  revert x. induction us as [|u us IH]; intros x.
  - cbn. rewrite decide_False; [done|]. by intros H%Exists_nil.
  - cbn [fmap list_fmap last_said]. rewrite IH. destruct (decide (Exists _ us)) as [He|He].
    + rewrite decide_True; [done|]. by right.
    + destruct (decide (Key (URL_ServiceConfig u) = K /\ PrimitiveURL u = url)) as [Hu|Hu].
      * rewrite bool_decide_eq_true_2, decide_True by (done || by left). done.
      * rewrite bool_decide_eq_false_2 by done. rewrite decide_False; [done|]. by intros [?|?]%Exists_cons.
Qed.

(** What [watch] gets from [Next] while the watcher is valid. *)
Definition delivered (now : Z) (evs : list ServiceURLEvent) : list next_result := (fun e => NextRes e true now) <$> evs.

Lemma effective_delivered now t us rest :
  effective (delivered now ((fun u => mkEvent t (Some u)) <$> us) ++ rest) = ((fun u => (t, u)) <$> us) ++ effective rest.
Proof.
  induction us as [|u us IH]; [done|].
  change (effective (NextRes (mkEvent t (Some u)) true now :: (delivered now ((fun u => mkEvent t (Some u)) <$> us) ++ rest))
    = (t, u) :: (((fun u => (t, u)) <$> us) ++ effective rest)).
  cbn [effective negb]. rewrite andb_false_r. cbn [Service Action]. by rewrite IH.
Qed.

Lemma changes_said c old new K url n :
  accepted c n = Some url ->
  Exists (fun u => Key (URL_ServiceConfig u) = K /\ PrimitiveURL u = n) (changes c old new)
  <-> K = Key c /\ n ∈ new /\ n ∉ old.
Proof.
  intros Hn. rewrite Exists_exists. unfold changes. split.
  - intros (u & Hu & Hk & Hp). apply list_elem_of_omap in Hu as (n' & Hn' & Ha).
    destruct (accepted_key _ _ _ Ha) as [Hp' Hk']. apply list_elem_of_filter in Hn' as [Ho Hw]. rewrite <- Hp, Hp'.
    split; [congruence|]. done.
  - intros (-> & Hw & Ho). exists url. destruct (accepted_key _ _ _ Hn) as [Hp Hk]. split; [|done].
    apply list_elem_of_omap. exists n. split; [|done]. by apply list_elem_of_filter.
Qed.

Lemma changes_other c old new K n :
  accepted c n = None \/ K <> Key c ->
  ~ Exists (fun u => Key (URL_ServiceConfig u) = K /\ PrimitiveURL u = n) (changes c old new).
Proof.
  intros Hor (u & Hu & Hk & Hp)%Exists_exists. unfold changes in Hu.
  apply list_elem_of_omap in Hu as (n' & Hn' & Ha). destruct (accepted_key _ _ _ Ha) as [Hp' Hk'].
  destruct Hor as [Hor|Hor]; congruence.
Qed.

(** ** Properties *)

Section Properties.
Context {W Conn Wch : Type} `{ZK : Zookeeper W Conn Wch} `{C : ZkConstants} {RT : Runtime}.
Abbreviation state := (wstate W Conn).

(** C15. The selector's cache follows the nodes: when the children of a service
    have changed from [old] to [new] and the cache listed the accepted ones of
    [old], then after the events that [handleZkNodeEvent] sends were read by the
    cache's [watch], it lists the accepted ones of [new]; what is listed for
    other services, groups or protocols is as before. *)
Theorem cache_follows_children zkPath old new conf (s : state) w' mode context c now :
  getChildren (w_client s) zkPath (w_world s) = (Ret new, w') ->
  Forall (fun n => n ∈ new \/ exists u, NewServiceURL n = inr u) old ->
  steps (NewSelector mode context) c ->
  (forall n u, accepted conf n = Some u -> n ∈ urls (Key conf) (abs c) <-> n ∈ old) ->
  exists s' es c', handleZkNodeEvent zkPath old conf s = (Ret tt, s') /\ w_effects s' = w_effects s ++ es
    /\ watch (delivered now (sends es)) c = (Ret None, c')
    /\ (forall n u, accepted conf n = Some u -> n ∈ urls (Key conf) (abs c') <-> n ∈ new)
    /\ (forall key n, accepted conf n = None \/ key <> Key conf -> n ∈ urls key (abs c') <-> n ∈ urls key (abs c)).
Proof.
  intros Hch Hold Hst Hc.
  destruct (handle_ok zkPath old conf new s w' Hch Hold) as (s' & es & E & He & _ & _ & Hes).
  destruct (watch_ok (delivered now (sends es)) c (reachable_ok mode context c Hst)) as (o & c' & Ew & _ & Habs & Ho).
  assert (o = None) as ->.
  { apply Ho. intros e He'. apply list_elem_of_fmap in He' as (x & Hx & _). done. }
  exists s', es, c'. split; [done|]. split; [done|]. split; [done|].
  assert (Heff : effective (delivered now (sends es)) =
    ((fun u => (ServiceURLAdd, u)) <$> changes conf old new) ++ ((fun u => (ServiceURLDel, u)) <$> changes conf new old)).
  { rewrite Hes. unfold node_events, delivered. rewrite fmap_app.
    fold (delivered now ((fun u => mkEvent ServiceURLAdd (Some u)) <$> changes conf old new)).
    rewrite effective_delivered. f_equal. rewrite <- (app_nil_r (_ <$> (_ <$> _))).
    fold (delivered now ((fun u => mkEvent ServiceURLDel (Some u)) <$> changes conf new old)).
    rewrite effective_delivered. apply app_nil_r. }
  assert (Hurl : forall K n, n ∈ urls K (abs c') <-> match last_said K n (effective (delivered now (sends es))) None with
    Some a => a <> ServiceURLDel | None => n ∈ urls K (abs c) end) by (intros K n; rewrite Habs; apply urls_fold).
  rewrite Heff in Hurl. split.
  - intros n u Hn. rewrite Hurl, last_said_app, !last_said_all.
    destruct (decide (Exists _ (changes conf new old))) as [Hd|Hd].
    { eapply (changes_said conf new old (Key conf) u n Hn) in Hd as (_ & Ho' & Hw'). by split. }
    destruct (decide (Exists _ (changes conf old new))) as [Ha|Ha].
    { eapply (changes_said conf old new (Key conf) u n Hn) in Ha as (_ & Hw' & _). by split. }
    rewrite (changes_said conf new old (Key conf) u n Hn) in Hd.
    rewrite (changes_said conf old new (Key conf) u n Hn) in Ha. rewrite (Hc n u Hn).
    destruct (decide (n ∈ new)), (decide (n ∈ old)); tauto.
  - intros key n Hor. rewrite Hurl, last_said_app, !last_said_all, !decide_False; [done|..]; by apply changes_other.
Qed.

(** A node that is no URL stops the process when it is deleted. *)
Lemma malformed_child_panics zkPath old conf (s : state) new w' n e :
  getChildren (w_client s) zkPath (w_world s) = (Ret new, w') ->
  n ∈ old -> n ∉ new -> NewServiceURL n = inl e -> (handleZkNodeEvent zkPath old conf s).1 = Panic.
Proof.
  intros E Hin Hnew Hn. unfold handleZkNodeEvent, on_zk. rewrite E. set (s1 := mkWState _ _ _ _). unfold bind.
  destruct (add_loop_ok zkPath old conf new s1) as (s2 & es & -> & _). clear E s1. revert s2.
  induction old as [|x old IH]; intros s2; [by apply not_elem_of_nil in Hin|]. cbn [del_loop]. rewrite Contains_spec.
  destruct (decide (x ∈ new)) as [Hx|Hx].
  - rewrite bool_decide_eq_true_2 by done. apply IH. apply elem_of_cons in Hin as [->|]; done.
  - rewrite bool_decide_eq_false_2 by done. apply elem_of_cons in Hin as [<-|Hin]; [by rewrite Hn|].
    destruct (NewServiceURL x) as [|u]; [done|]. destruct (ServiceEqual conf u); cbn [negb]; [|by apply IH].
    unfold bind. destruct (emit_emits (Send (mkEvent ServiceURLDel (Some u))) s2) as (s3 & -> & _). by apply IH.
Qed.

(** C30. The goroutines of [watchService] share the variable with the path: those
    that begin to run when its loop is over all watch the node of the last
    provider.  When that node is deleted each tells the selector that its own
    provider is gone, and the cache forgets all of them. *)
Theorem one_node_watched_for_all zkPath conf children (s : state) w' :
  getChildren (w_client s) zkPath (w_world s) = (Ret children, w') ->
  exists s' es, watchService zkPath conf s = (Ret tt, s') /\ w_effects s' = w_effects s ++ es
    /\ started_late es = (fun u => (default [] ((fun v => path_Join [zkPath; PrimitiveURL v]) <$> last (omap (accepted conf) children)), u))
                           <$> omap (accepted conf) children
    /\ (forall node u turns s1 s2, (node, u) ∈ started_late es -> watchServiceNode node turns s1 = (Ret (Some true), s2) ->
          exists s3, node_goroutine node u turns s1 = (Ret tt, s3)
            /\ w_effects s3 = w_effects s2 ++ [Send (mkEvent ServiceURLDel (Some u))])
    /\ (forall mode context c now, steps (NewSelector mode context) c ->
          exists c', watch (delivered now ((fun nu => mkEvent ServiceURLDel (Some nu.2)) <$> started_late es)) c = (Ret None, c')
            /\ forall n u, n ∈ children -> accepted conf n = Some u -> n ∉ urls (Key conf) (abs c')).
Proof.
  intros E. unfold watchService, or_zero, on_zk. unfold bind at 1. rewrite E. set (s1 := mkWState _ _ _ _). unfold bind.
  destruct (service_loop_ok zkPath conf children s1) as (s2 & es & -> & H2 & _ & Hg & Hv).
  destruct (emit_emits (GoDir zkPath conf) s2) as (s3 & -> & H3).
  pose proof (emits_app _ _ _ _ _ H2 H3) as H. exists s3, (es ++ [GoDir zkPath conf]). split; [done|]. split; [by rewrite H|].
  assert (Hs : started_late (es ++ [GoDir zkPath conf]) =
    (fun u => (default [] ((fun v => path_Join [zkPath; PrimitiveURL v]) <$> last (omap (accepted conf) children)), u))
      <$> omap (accepted conf) children).
  { unfold started_late. rewrite goroutine_urls_app, Hg, last_var_app. cbn [goroutine_urls last_var].
    rewrite app_nil_r, Hv. by destruct (last _). }
  split; [exact Hs|]. split.
  - intros node u turns s4 s5 _ Hw. unfold node_goroutine, bind. rewrite Hw.
    destruct (emit_emits (Send (mkEvent ServiceURLDel (Some u))) s5) as (s6 & -> & H6). exists s6. by rewrite H6.
  - intros mode context c now Hst. rewrite Hs.
    destruct (watch_ok (delivered now ((fun nu => mkEvent ServiceURLDel (Some nu.2)) <$> ((fun u => (default [] ((fun v => path_Join [zkPath; PrimitiveURL v]) <$> last (omap (accepted conf) children)), u))
      <$> omap (accepted conf) children))) c (reachable_ok mode context c Hst)) as (o & c' & Ew & _ & Habs & Ho).
    assert (o = None) as ->.
    { apply Ho. intros e He'. apply list_elem_of_fmap in He' as (x & Hx & _). done. }
    exists c'. split; [done|]. intros n u Hin Hn. rewrite Habs, urls_fold.
    rewrite <- list_fmap_compose, <- (app_nil_r (delivered _ _)).
    change (compose _ _) with (fun u => mkEvent ServiceURLDel (Some u)). rewrite effective_delivered, app_nil_r, last_said_all.
    rewrite decide_True; [tauto|]. apply Exists_exists. exists u. destruct (accepted_key _ _ _ Hn). split; [|done].
    apply list_elem_of_omap. by exists n.
Qed.

End Properties.

(** When the last provider of a service is gone, its watcher says nothing:
    zookeeper lists no children, which [getChildren] takes for an error; so the
    cache keeps what it listed. *)
Lemma last_provider_unreported {W Conn Wch : Type} `{ZT : ZkTree W Conn Wch} names old conf (s : wstate W Conn) c :
  conn (w_client s) = Some c -> alive (w_world s) c -> Forall plain_name names ->
  (forall n, tree (w_world s) !! (names ++ [n]) = None) ->
  exists s', handleZkNodeEvent (abs_path names) old conf s = (Ret tt, s') /\ w_effects s' = w_effects s
    /\ same_world (w_world s) (w_world s').
Proof.
  intros Hc Ha Hn Hnone. unfold handleZkNodeEvent, on_zk. destruct (tree (w_world s) !! names) as [o|] eqn:E.
  - destruct (getChildren_ok (w_client s) c names (w_world s)) as (ls & w' & -> & _ & Hls & Hsame); [done|done|done|by eexists|].
    destruct ls as [|n ls]; [by eexists|]. exfalso. assert (Hin : n ∈ n :: ls) by (by left).
    apply Hls in Hin as [x Hx]. by rewrite Hnone in Hx.
  - destruct (tree_no_children (w_world s) c names Ha Hn E) as (w' & Ek & Hsame).
    unfold getChildren, bind, on_err, on_conn. rewrite Hc, Ek. unfold children_err.
    rewrite bool_decide_eq_true_2 by done. by eexists.
Qed.

(** The waits between two attempts to read the children, or to reconnect,
    grow by three seconds up to forty-five, and do not overflow. *)
Lemma delay_bounded n :
  let failTimes := Nat.iter n add_fail 0 in
  failTimes = Z.min (Z.of_nat n) MAX_TIMES /\ watch_delay failTimes = failTimes * 3 * 10 ^ 9
  /\ restart_delay failTimes = watch_delay failTimes.
Proof.
  cbv zeta. assert (Hn : Nat.iter n add_fail 0 = Z.min (Z.of_nat n) MAX_TIMES).
  { induction n as [|n IH]; [done|]. rewrite Nat.iter_succ, IH. clear IH. unfold add_fail, MAX_TIMES in *. destruct (_ <=? _) eqn:E; zify_bool; lia. }
  rewrite Hn. split; [done|]. split; [|done]. unfold watch_delay, TimeSecondDuration, REGISTRY_CONN_DELAY, MAX_TIMES.
  set (k := Z.min (Z.of_nat n) 15 * 3). assert (Hk : is_i64 k) by (unfold is_i64, k; lia).
  rewrite !(i64_id k) by done. rewrite i64_id; [done|]. unfold is_i64, k. lia.
Qed.

(** ** A small service

    Its configuration is empty, and the node [x] has it; the node [%] is no
    URL. *)
Definition conf0 : ServiceConfig := mkConfig [] [] [] [].
Definition wstate2 : wstate server nat := mkWState client1 server2 ∅ [].
Definition path2 : bytes := abs_path (service_names (lit "S") (lit "providers")).

Lemma children2 : getChildren client1 path2 server2 = (Ret [lit "x"], server2).
Proof. vm_compute. reflexivity. Qed.

Lemma cache_follows_children_witness :
  exists s' es c', handleZkNodeEvent path2 [] conf0 wstate2 = (Ret tt, s') /\ w_effects s' = es
    /\ watch (delivered 5 (sends es)) (NewSelector None None) = (Ret None, c')
    /\ lit "x" ∈ urls (Key conf0) (abs c').
Proof.
  destruct (cache_follows_children path2 [] [lit "x"] conf0 wstate2 server2 None None (NewSelector None None) 5)
    as (s' & es & c' & E & He & Ew & Hin & _).
  - exact children2.
  - constructor.
  - apply rtc_refl.
  - intros n u _. split; intros Hn; [|by apply not_elem_of_nil in Hn]. vm_compute in Hn. by apply not_elem_of_nil in Hn.
  - exists s', es, c'. split; [exact E|]. split; [exact He|]. split; [exact Ew|].
    eapply (Hin (lit "x")); [vm_compute; reflexivity|by left].
Defined.

Lemma one_node_watched_for_all_witness :
  exists s' es, watchService path2 conf0 wstate2 = (Ret tt, s') /\ w_effects s' = es
    /\ (fst <$> started_late es) = [path_Join [path2; lit "x"]].
Proof.
  destruct (one_node_watched_for_all path2 conf0 [lit "x"] wstate2 server2) as (s' & es & E & He & Hs & _).
  - exact children2.
  - exists s', es. split; [exact E|]. split; [exact He|]. rewrite Hs. vm_compute. reflexivity.
Defined.

