(* ===== verification/Rpc.v ===== *)
(** * One request and its response

    [client/rpc_codec.go] and [client/rpc_stream.go]: a call's stream, which
    sends the request as one package of the transport and reads the response
    from the packages that come back.  The codec and the transport are interfaces, as
    in the source ([codec.Codec], [transport.Client]): the hessian codec and a queue of
    packages are instances. *)
From S2P Require Import Prelude.
From S2P Require Import Utf8 Bufio HessianEncode HessianValue Pojo HessianEncoder HessianDecoder.
From S2P Require Import HessianRequest HessianResponse HessianCodec.
From S2P Require Import Registry.

(** ** The transport *)

Abbreviation Header := (gmap bytes bytes).

(** [transport.Package]; a header may be nil. *)
Definition package : Type := option Header * bytes.

(** [transport.Client].  [tr_left] is no method: no more packages than that will
    be received. *)
Class TransportClient (T : Type) := {
  tr_Send : package -> ST T unit;
  tr_Recv : ST T package;
  tr_Close : ST T unit;
  tr_left : T -> nat
}.

(** A client whose peer's packages are known: what they and the errors will be, and
    what was sent.  When nothing more comes, the connection ends with [io.EOF]. *)
Record tclient := mkClient {
  inbox : list (goerr + bytes);
  outbox : list package;
  refuses : option goerr;
  hangups : nat              (* calls of [Close] *)
}.

Definition t_Send (pkg : package) : ST tclient unit := fun t =>
  match refuses t with
  | Some e => (Fail e, t)
  | None => (Ret tt, mkClient (inbox t) (outbox t ++ [pkg]) (refuses t) (hangups t))
  end.

Definition t_Recv : ST tclient package := fun t =>
  match inbox t with
  | [] => (Fail EOF, t)
  | x :: rest =>
      (match x with inl e => Fail e | inr b => Ret (None, b) end,
       mkClient rest (outbox t) (refuses t) (hangups t))
  end.

Definition t_Close : ST tclient unit := fun t =>
  (Ret tt, mkClient (inbox t) (outbox t) (refuses t) (S (hangups t))).

#[export] Instance QueueClient : TransportClient tclient := {|
  tr_Send := t_Send;
  tr_Recv := t_Recv;
  tr_Close := t_Close;
  tr_left t := length (inbox t)
|}.

(** ** The codec *)

(** [codec.Message] and its header. *)
Abbreviation message := (Message * Header)%type.

(** A codec over the two buffers of a [readWriteCloser], for values [V], of which
    [codec_nil] is [nil]: a [*Message] and a value that is read into are part of
    the state. *)
Class Codec (C V : Type) := {
  codec_Write : V -> ST (C * message) unit;
  codec_ReadHeader : Z -> ST (C * message) unit;
  codec_ReadBody : ST (C * V) unit;
  codec_Close : ST C unit;
  codec_nil : V;
  rbuf_Write : bytes -> C -> C;
  rbuf_Reset : C -> C;
  wbuf_Reset : C -> C;
  wbuf_Bytes : C -> bytes
}.

(** [ErrHeaderNotEnough], [ErrBodyNotEnough] and the like are the codec's;
    [errShutdown] is the stream's. *)
Definition errShutdown : goerr := Errorf "connection is shut down".
Definition lastStreamResponseError : bytes := lit "EOS".
Definition serverError (e : bytes) : goerr := Text e.

Record request := mkRequest {
  r_Version : bytes;
  r_ServicePath : bytes;
  r_Service : bytes;
  r_ServiceMethod : bytes;
  r_Seq : Z;
  r_Timeout : Z
}.

Record response := mkResponse {
  p_ServiceMethod : bytes;
  p_Seq : Z;
  p_Error : bytes
}.

Record rpcCodec (C T : Type) := mkRpcCodec {
  rc_client : T;
  rc_codec : C;
  rc_header : option Header    (* [pkg.Header] *)
}.
Arguments mkRpcCodec {C T}.
Arguments rc_client {C T}.
Arguments rc_codec {C T}.
Arguments rc_header {C T}.

(** The zero [codec.Message]. *)
Definition zero_message : message := (mkMessage 0 [] 0 [] [] [] 0 [] 0, ∅).

Record rpcRequest (V : Type) := mkRpcRequest {
  rq_group : bytes;
  rq_protocol : bytes;
  rq_version : bytes;
  rq_service : bytes;
  rq_method : bytes;
  rq_args : V;
  rq_contentType : bytes;
  rq_Stream : bool
}.
Arguments mkRpcRequest {V}.
Arguments rq_group {V}.
Arguments rq_protocol {V}.
Arguments rq_version {V}.
Arguments rq_service {V}.
Arguments rq_method {V}.
Arguments rq_args {V}.
Arguments rq_contentType {V}.
Arguments rq_Stream {V}.

Definition rpcRequest_ServiceConfig {V} (r : rpcRequest V) : ServiceConfig :=
  mkConfig (rq_protocol r) (rq_service r) (rq_group r) (rq_version r).

Section Rpc.
Context {C V T : Type} `{CC : Codec C V} `{TC : TransportClient T}.

Definition newRPCCodec (header : option Header) (client : T) (c : C) : rpcCodec C T :=
  mkRpcCodec client c header.

Definition on_client {X} (f : ST T X) : ST (rpcCodec C T) X := fun c =>
  let '(o, t) := f (rc_client c) in (o, mkRpcCodec t (rc_codec c) (rc_header c)).

Definition request_message (req : request) : message :=
  (mkMessage (r_Seq req) (r_Version req) MT_Request (r_ServicePath req) (r_Service req)
    (r_ServiceMethod req) (r_Timeout req) [] 0, ∅).

(** The entries of the message's header go into the package's, if it has one. *)
Definition add_header (hd : Header) (header : option Header) : option Header :=
  match header with Some h => Some (hd ∪ h) | None => None end.

Definition WriteRequest (req : request) (args : V) : ST (rpcCodec C T) unit := fun c =>
  match codec_Write args (wbuf_Reset (rc_codec c), request_message req) with
  | (Ret _, (k, m)) =>
      let header := add_header m.2 (rc_header c) in
      trace (on_client (tr_Send (header, wbuf_Bytes k))) (mkRpcCodec (rc_client c) k header)
  | (Fail e, (k, _)) => (Fail (Traced e), mkRpcCodec (rc_client c) k (rc_header c))
  | (Panic, (k, _)) => (Panic, mkRpcCodec (rc_client c) k (rc_header c))
  | (NoFuel, (k, _)) => (NoFuel, mkRpcCodec (rc_client c) k (rc_header c))
  end.

(** One [Recv] into [rbuf]. *)
Definition recv_package : ST (rpcCodec C T) unit := fun c =>
  match trace (on_client tr_Recv) c with
  | (Ret p, c) => (Ret tt, mkRpcCodec (rc_client c) (rbuf_Write p.2 (rc_codec c)) (rc_header c))
  | (Fail e, c) => (Fail e, c)
  | (Panic, c) => (Panic, c)
  | (NoFuel, c) => (NoFuel, c)
  end.

Definition on_first {X Y B} (f : ST X B) : ST (X * Y) B := fun '(x, y) =>
  let '(o, x) := f x in (o, (x, y)).

(** A method of the codec, with its second argument. *)
Definition on_codec {Y B} (f : ST (C * Y) B) : ST (rpcCodec C T * Y) B := fun '(c, y) =>
  let '(o, (k, y)) := f (rc_codec c, y) in (o, (mkRpcCodec (rc_client c) k (rc_header c), y)).

(** The loop of [ReadResponseHeader]; every turn takes a package. *)
Fixpoint header_loop (fuel : nat) : ST (rpcCodec C T * message) unit :=
  match fuel with
  | O => nofuel
  | S fuel =>
      on_first recv_package ;;;
      on_err (on_codec (codec_ReadHeader MT_Response))
        (fun e => if bool_decide (e = ErrHeaderNotEnough) then header_loop fuel else fail (Traced e))
  end.

Definition loop_fuel (c : rpcCodec C T) : nat := S (S (tr_left (rc_client c))).

Definition ReadResponseHeader : ST (rpcCodec C T) response := fun c =>
  let c := mkRpcCodec (rc_client c) (rbuf_Reset (rc_codec c)) (rc_header c) in
  match header_loop (loop_fuel c) (c, zero_message) with
  | (Ret _, (c, cm)) => (Ret (mkResponse (Method cm.1) (ID cm.1) (Error cm.1)), c)
  | (Fail e, (c, _)) => (Fail e, c)
  | (Panic, (c, _)) => (Panic, c)
  | (NoFuel, (c, _)) => (NoFuel, c)
  end.

Fixpoint body_loop (fuel : nat) : ST (rpcCodec C T * V) unit :=
  match fuel with
  | O => nofuel
  | S fuel =>
      on_err (on_codec codec_ReadBody)
        (fun e => if bool_decide (e = ErrBodyNotEnough)
                  then on_first recv_package ;;; body_loop fuel
                  else fail (Traced e))
  end.

Definition ReadResponseBody : ST (rpcCodec C T * V) unit := fun '(c, b) =>
  body_loop (loop_fuel c) (c, b).

(** [rpcCodec.Close]. *)
Definition rpcCodec_Close : ST (rpcCodec C T) unit := fun c =>
  let k := wbuf_Reset (rbuf_Reset (rc_codec c)) in
  on_client tr_Close (mkRpcCodec (rc_client c) (codec_Close k).2 (rc_header c)).

(** ** The stream *)

Record rpcStream := mkStream {
  s_seq : Z;
  s_closed : bool;
  s_err : option goerr;
  s_serviceURL : ServiceURL;
  s_request : rpcRequest V;
  s_codec : rpcCodec C T
}.

Definition set_err (e : option goerr) (s : rpcStream) : rpcStream :=
  mkStream (s_seq s) (s_closed s) e (s_serviceURL s) (s_request s) (s_codec s).

Definition set_codec (c : rpcCodec C T) (s : rpcStream) : rpcStream :=
  mkStream (s_seq s) (s_closed s) (s_err s) (s_serviceURL s) (s_request s) c.

Definition isClosed (s : rpcStream) : bool := s_closed s.

(** [strings.TrimPrefix(s, ...)] for a prefix of one byte. *)
Definition TrimPrefix (c : Z) (s : bytes) : bytes :=
  match s with
  | b :: t => if b =? c then t else s
  | [] => []
  end.

Definition Send (args : V) (timeout : Z) : ST rpcStream unit := fun s =>
  if isClosed s then (Fail errShutdown, set_err (Some errShutdown) s)
  else
    let seq := s_seq s in
    let s := mkStream (i64 (s_seq s + 1)) (s_closed s) (s_err s) (s_serviceURL s) (s_request s) (s_codec s) in
    let req := mkRequest (rq_version (s_request s)) (TrimPrefix 47 (Path (s_serviceURL s)))
                 (sc_Service (rpcRequest_ServiceConfig (s_request s))) (rq_method (s_request s)) seq timeout in
    match WriteRequest req args (s_codec s) with
    | (Ret _, c) => (Ret tt, set_codec c s)
    | (Fail e, c) => (Fail (Traced e), set_err (Some e) (set_codec c s))
    | (Panic, c) => (Panic, set_codec c s)
    | (NoFuel, c) => (NoFuel, set_codec c s)
    end.

(** The end of [Recv]: the body is read into the caller's [msg], or into [nil]. *)
Definition recv_body (skip : bool) : ST (rpcStream * V) unit := fun '(s, out) =>
  match ReadResponseBody (s_codec s, if skip then codec_nil else out) with
  | (Ret _, (c, out')) =>
      let out := if skip then out else out' in
      (match s_err s with None => Ret tt | Some e => Fail e end, (set_codec c s, out))
  | (Fail e, (c, out')) =>
      let out := if skip then out else out' in
      let e := Traced e in (Fail e, (set_err (Some e) (set_codec c s), out))
  | (Panic, (c, _)) => (Panic, (set_codec c s, out))
  | (NoFuel, (c, _)) => (NoFuel, (set_codec c s, out))
  end.

(** The state is the stream and the caller's [msg]. *)
Definition Recv : ST (rpcStream * V) unit := fun '(s, msg) =>
  if isClosed s then (Fail errShutdown, (set_err (Some errShutdown) s, msg))
  else
    match ReadResponseHeader (s_codec s) with
    | (Fail e, c) =>
        let s := set_codec c s in
        if bool_decide (e = EOF) && negb (isClosed s)
        then (Fail UnexpectedEOF, (set_err (Some UnexpectedEOF) s, msg))
        else (Fail (Traced e), (set_err (Some e) s, msg))
    | (Ret rsp, c) =>
        let s := set_codec c s in
        if (0 <? length (p_Error rsp))%nat then
          let e := if bool_decide (p_Error rsp <> lastStreamResponseError) then serverError (p_Error rsp) else EOF in
          recv_body true (set_err (Some e) s, msg)
        else recv_body false (s, msg)
    | (Panic, c) => (Panic, (set_codec c s, msg))
    | (NoFuel, c) => (NoFuel, (set_codec c s, msg))
    end.

Definition rpcStream_Close : ST rpcStream unit := fun s =>
  if isClosed s then (Ret tt, s)
  else
    let '(o, c) := rpcCodec_Close (s_codec s) in
    (o, mkStream (s_seq s) true (s_err s) (s_serviceURL s) (s_request s) c).

(** The request and the response, as the goroutine of [call] makes them. *)
Definition exchange (timeout : Z) : ST (rpcStream * V) unit := fun '(s, rsp) =>
  match Send (rq_args (s_request s)) timeout s with
  | (Ret _, s) => Recv (s, rsp)
  | (Fail e, s) => (Fail e, (s, rsp))
  | (Panic, s) => (Panic, (s, rsp))
  | (NoFuel, s) => (NoFuel, (s, rsp))
  end.

End Rpc.

Arguments rpcStream : clear implicits.

(** ** The hessian codec as an instance *)

(** The codec and the buffer that it writes to; its reader has the other one. *)
Abbreviation hessian_conn := (hessianCodec * bytes)%type.

Section Hessian.
Context `{GX : GxStrings} `{App : Application}.

Definition on_hessian {Y Z} (f : ST (hessianCodec * Y) unit) : ST (hessian_conn * (Y * Z)) unit := fun '((h, w), (y, z)) =>
  let '(o, (h, y)) := f (h, y) in (o, ((h, w), (y, z))).

Definition set_unread (u : bytes) (h : hessianCodec) : hessianCodec :=
  mkCodec (h_mt h) (mkReader u (nbuf (h_reader h)) (lastByte (h_reader h))) (h_rspBodyLen h).

(** [rbuf.Write] and [rbuf.Reset] leave alone what the reader has buffered. *)
Definition hessian_rbuf_Write (b : bytes) (h : hessianCodec) : hessianCodec :=
  set_unread (unread (h_reader h) ++ b) h.
Definition hessian_rbuf_Reset (h : hessianCodec) : hessianCodec :=
  set_unread (take (nbuf (h_reader h)) (unread (h_reader h))) h.

(** The order in which a map is ranged over, and the registry of classes, are
    those of the process. *)
Definition hessian_codec (range : list (value * value) -> list (value * value)) (g : POJORegistry) :
    Codec hessian_conn value := {|
  codec_Write a := fun '((h, w), m) =>
    match (Write range (fun b => (length b, None)) m.1 a (NewEncoder g)).1 with
    | Ret body => (Ret tt, ((h, w ++ body), m))
    | Fail e => (Fail e, ((h, w), m))
    | Panic => (Panic, ((h, w), m))
    | NoFuel => (NoFuel, ((h, w), m))
    end;
  codec_ReadHeader mt := on_hessian (ReadHeader mt);
  codec_ReadBody := fun '((h, w), b) => let '(o, (h, b)) := ReadBody g (h, b) in (o, ((h, w), b));
  codec_Close := fun '(h, w) => (Ret tt, (hessian_rbuf_Reset h, []));
  codec_nil := VNil;
  rbuf_Write b := fun '(h, w) => (hessian_rbuf_Write b h, w);
  rbuf_Reset := fun '(h, w) => (hessian_rbuf_Reset h, w);
  wbuf_Reset := fun '(h, w) => (h, []);
  wbuf_Bytes := fun '(h, w) => w
|}.

End Hessian.
