(* ===== verification/RpcFrame.v ===== *)
(** * What a call's stream delivers

    Theorems on [Rpc]: first for any codec that keeps the reading interface
    [CodecReads], then for the hessian codec, which does. *)
From S2P Require Import Prelude.
From S2P Require Import Utf8 Bufio HessianConst HessianEncode HessianValue Pojo HessianEncoder HessianDecoder.
From S2P Require Import HessianTree HessianScalar HessianRequest HessianResponse HessianCodec HessianFrame.
From S2P Require Import Registry Rpc.

(** ** The interface *)

(** What a codec promises to the stream: when it awaits the response to request
    [id], a package that holds it is read by one [ReadHeader] and one [ReadBody].
    [response_of pkg id err b b'] says that the package reports [err], and if that
    is empty, makes [b'] of [b]. *)
Class CodecReads (C V : Type) `{Codec C V} := {
  awaits : C -> Z -> Prop;
  response_of : bytes -> Z -> bytes -> V -> V -> Prop;
  reads_response c pkg id err b b' :
    awaits c id -> response_of pkg id err b b' ->
    exists c1 m1 c2 x,
      codec_ReadHeader MT_Response (rbuf_Write pkg (rbuf_Reset c), zero_message) = (Ret tt, (c1, m1))
      /\ ID m1.1 = id /\ Error m1.1 = err
      /\ codec_ReadBody (c1, match err with [] => b | _ => codec_nil end) = (Ret tt, (c2, x)) /\ (err = [] -> x = b')
}.

(** What the stream makes of an error in a response. *)
Definition stream_error (err : bytes) : goerr := if bool_decide (err <> lastStreamResponseError) then serverError err else EOF.

Section Stream.
Context {C V T : Type} `{CC : Codec C V} `{TC : TransportClient T}.

Definition client_of (s : rpcStream C V T) : T := rc_client (s_codec s).

(** A new stream on a connection: what [call] makes. *)
Definition new_stream (seq : Z) (url : ServiceURL) (req : rpcRequest V) (header : option Header) (t : T) (c : C) : rpcStream C V T :=
  mkStream seq false None url req (newRPCCodec header t c).

Definition stream_message (seq : Z) (url : ServiceURL) (req : rpcRequest V) (timeout : Z) : message :=
  request_message (mkRequest (rq_version req) (TrimPrefix 47 (Path url)) (rq_service req) (rq_method req) seq timeout).

(** A stream whose request is out. *)
Definition sent_stream (seq : Z) (url : ServiceURL) (req : rpcRequest V) (header : option Header) (t : T) (k : C) : rpcStream C V T :=
  mkStream (i64 (seq + 1)) false None url req (mkRpcCodec t k header).

Lemma exchange_Recv seq url req header t c timeout k m t1 b :
  codec_Write (rq_args req) (wbuf_Reset c, stream_message seq url req timeout) = (Ret tt, (k, m)) ->
  tr_Send (add_header m.2 header, wbuf_Bytes k) t = (Ret tt, t1) ->
  exchange timeout (new_stream seq url req header t c, b) = Recv (sent_stream seq url req (add_header m.2 header) t1 k, b).
Proof.
  intros Hw Hs. unfold exchange, Send. cbn [isClosed new_stream s_closed s_request s_seq s_err s_serviceURL s_codec].
  cbv zeta. unfold WriteRequest. cbn [newRPCCodec rc_client rc_codec rc_header rpcRequest_ServiceConfig sc_Service s_request s_serviceURL s_codec].
  fold (stream_message seq url req timeout). rewrite Hw. cbv zeta. unfold trace, on_err, on_client.
  cbn [rc_client rc_codec rc_header]. rewrite Hs. done.
Qed.

Lemma header_loop_S n :
  header_loop (S n) = (on_first recv_package ;;;
    on_err (on_codec (codec_ReadHeader MT_Response))
      (fun e => if bool_decide (e = ErrHeaderNotEnough) then header_loop n else fail (Traced e))).
Proof. reflexivity. Qed.

Lemma recv_package_gets t k header t2 p :
  tr_Recv t = (Ret p, t2) -> recv_package (mkRpcCodec t k header) = (Ret tt, mkRpcCodec t2 (rbuf_Write p.2 k) header).
Proof. intros Hr. unfold recv_package, trace, on_err, on_client. cbn [rc_client rc_codec rc_header]. by rewrite Hr. Qed.

Lemma recv_package_fails t k header t2 e :
  tr_Recv t = (Fail e, t2) -> recv_package (mkRpcCodec t k header) = (Fail (Traced e), mkRpcCodec t2 k header).
Proof. intros Hr. unfold recv_package, trace, on_err, on_client. cbn [rc_client rc_codec rc_header]. by rewrite Hr. Qed.

(** The first package goes to the codec. *)
Lemma header_loop_first n t k header t2 p :
  tr_Recv t = (Ret p, t2) ->
  header_loop (S n) (mkRpcCodec t k header, zero_message)
  = on_err (on_codec (codec_ReadHeader MT_Response))
      (fun e => if bool_decide (e = ErrHeaderNotEnough) then header_loop n else fail (Traced e))
      (mkRpcCodec t2 (rbuf_Write p.2 k) header, zero_message).
Proof. intros Hr. rewrite header_loop_S. unfold bind at 1, on_first. by rewrite (recv_package_gets _ _ _ _ _ Hr). Qed.

Lemma Recv_header seq url req header t k t2 p c1 m1 b :
  tr_Recv t = (Ret p, t2) ->
  codec_ReadHeader MT_Response (rbuf_Write p.2 (rbuf_Reset k), zero_message) = (Ret tt, (c1, m1)) ->
  Recv (sent_stream seq url req header t k, b)
  = match Error m1.1 with
    | [] => recv_body false (sent_stream seq url req header t2 c1, b)
    | err => recv_body true (set_err (Some (stream_error err)) (sent_stream seq url req header t2 c1), b)
    end.
Proof.
  intros Hr He. unfold Recv. cbn [isClosed sent_stream s_closed s_codec]. unfold ReadResponseHeader, loop_fuel.
  cbn [rc_client rc_codec rc_header]. rewrite (header_loop_first _ _ _ _ _ _ Hr).
  unfold on_err, on_codec at 1. cbn [rc_codec rc_client rc_header]. rewrite He. cbn [p_Error]. by destruct (Error m1.1).
Qed.

Lemma Recv_header_fails seq url req header t k t2 p s1 e b :
  tr_Recv t = (Ret p, t2) -> e <> ErrHeaderNotEnough ->
  codec_ReadHeader MT_Response (rbuf_Write p.2 (rbuf_Reset k), zero_message) = (Fail e, s1) ->
  exists s', Recv (sent_stream seq url req header t k, b) = (Fail (Traced (Traced e)), (s', b)) /\ client_of s' = t2.
Proof.
  intros Hr Hne He. unfold Recv. cbn [isClosed sent_stream s_closed s_codec]. unfold ReadResponseHeader, loop_fuel.
  cbn [rc_client rc_codec rc_header]. rewrite (header_loop_first _ _ _ _ _ _ Hr). destruct s1 as [k1 m1].
  unfold on_err, on_codec at 1. cbn [rc_codec rc_client rc_header]. rewrite He, bool_decide_eq_false_2 by done.
  cbn [fail]. rewrite bool_decide_eq_false_2 by done. cbn [andb]. by eexists.
Qed.

(** A body that is read at once. *)
Lemma recv_body_reads skip s b c2 x :
  codec_ReadBody (rc_codec (s_codec s), if skip : bool then codec_nil else b) = (Ret tt, (c2, x)) ->
  exists s', recv_body skip (s, b) = (match s_err s with None => Ret tt | Some e => Fail e end, (s', if skip then b else x))
    /\ client_of s' = client_of s.
Proof.
  intros E. unfold recv_body, ReadResponseBody, loop_fuel. cbn [body_loop]. unfold on_err, on_codec. rewrite E. by eexists.
Qed.

Lemma recv_body_fails skip s b c2 x e :
  e <> ErrBodyNotEnough ->
  codec_ReadBody (rc_codec (s_codec s), if skip : bool then codec_nil else b) = (Fail e, (c2, x)) ->
  exists s', recv_body skip (s, b) = (Fail (Traced (Traced e)), (s', if skip then b else x)) /\ client_of s' = client_of s.
Proof.
  intros Hne E. unfold recv_body, ReadResponseBody, loop_fuel. cbn [body_loop]. unfold on_err, on_codec. rewrite E.
  rewrite bool_decide_eq_false_2 by done. by eexists.
Qed.

(** From the package after its request, a stream receives the response that it
    holds: its value, or its error. *)
Lemma exchange_reads `{CR : !CodecReads C V} seq url req header t c timeout k m t1 t2 p id err b b' :
  codec_Write (rq_args req) (wbuf_Reset c, stream_message seq url req timeout) = (Ret tt, (k, m)) ->
  tr_Send (add_header m.2 header, wbuf_Bytes k) t = (Ret tt, t1) ->
  awaits k id -> response_of p.2 id err b b' -> tr_Recv t1 = (Ret p, t2) ->
  exists s', exchange timeout (new_stream seq url req header t c, b)
      = (match err with [] => Ret tt | _ => Fail (stream_error err) end, (s', match err with [] => b' | _ => b end))
    /\ client_of s' = t2.
Proof.
  intros Hw Hs Ha Hp Hr. rewrite (exchange_Recv _ _ _ _ _ _ _ _ _ _ _ Hw Hs).
  destruct (reads_response k p.2 id err b b' Ha Hp) as (c1 & m1 & c2 & x & E1 & _ & He & E2 & Hx).
  rewrite (Recv_header _ _ _ _ _ _ _ _ _ _ _ Hr E1), He. destruct err as [|e0 err].
  - destruct (recv_body_reads false (sent_stream seq url req (add_header m.2 header) t2 c1) b c2 x E2) as (s' & E & Hc).
    exists s'. rewrite E, (Hx eq_refl). done.
  - destruct (recv_body_reads true (set_err (Some (stream_error (e0 :: err))) (sent_stream seq url req (add_header m.2 header) t2 c1)) b c2 x E2)
      as (s' & E & Hc). exists s'. by rewrite E.
Qed.

(** The packages that still come, [n] of them, and the error that ends them. *)
Inductive drains : nat -> T -> goerr -> T -> Prop :=
| drains_end t e t' : tr_Recv t = (Fail e, t') -> drains 0 t e t'
| drains_next n t p t1 e t' : tr_Recv t = (Ret p, t1) -> drains n t1 e t' -> drains (S n) t e t'.

End Stream.

Arguments new_stream {C V T}.

(** ** The hessian codec keeps the interface *)

Section Hessian.
Context `{GX : GxStrings} {GXok : GxStringsOk} `{App : Application}.
Variable range : list (value * value) -> list (value * value).
Variable g : POJORegistry.

#[local] Instance the_codec : Codec hessian_conn value := hessian_codec range g.

Definition hessian_quiet (h : hessianCodec) : Prop := unread (h_reader h) = [] /\ nbuf (h_reader h) = 0%nat.

(** The package of a response without an exception: header and body. *)
Definition response_package (flags id : Z) (body : bytes) : bytes :=
  response_header flags Response_OK id (Z.of_nat (length body)) ++ body.

Definition flags_ok (flags : Z) : Prop := Z.land flags SERIAL_MASK <> 0 /\ Z.land flags FLAG_REQUEST = 0.

Definition hessian_response (pkg : bytes) (id : Z) (err : bytes) (b b' : value) : Prop :=
  exists flags body more, pkg = response_package flags id body ++ more /\ flags_ok flags /\ is_i64 id /\ err = []
    /\ (length body <= bufsize)%nat /\ b <> VNil /\ unpackResponseBody g body b = (Ret tt, b').

Lemma unpack_keeps_Error buf m : Error (unpackResponseHeaer buf m).2 = Error m.
Proof.
  unfold unpackResponseHeaer. repeat case_match; try done; cbn;
    repeat match goal with |- context [if ?b then _ else _] => destruct b end; done.
Qed.

Lemma ReadHeader_keeps_Error mt h m : Error (ReadHeader mt (h, m)).2.2 = Error m.
Proof.
  unfold ReadHeader. destruct (mt =? MT_Request); [done|]. destruct (_ || _); [|done].
  unfold bind at 1, on_reader at 1. destruct (Peek _ _) as [[[buf [e|]]|e| |] r]; try done.
  unfold bind at 1, trace, on_err at 1, on_reader.
  destruct (Discard _ _) as [[n|e| |] r1]; try done.
  unfold bind at 1, on_err, on_message.
  pose proof (unpack_keeps_Error buf m) as Hu. destruct (unpackResponseHeaer buf m) as [[[]|e| |] m1]; try done.
  cbn [snd] in Hu. unfold bind. destruct (bool_decide _); [|done]. unfold log_exception. cbn [h_reader h_mt h_rspBodyLen].
  destruct (_ <? _)%nat; [|done]. by destruct (Peek _ _).
Qed.

Lemma header_hessian h w o h1 m1 :
  ReadHeader MT_Response (h, zero_message.1) = (o, (h1, m1)) ->
  codec_ReadHeader MT_Response ((h, w), zero_message) = (o, ((h1, w), (m1, ∅))).
Proof. intros E. cbn [codec_ReadHeader the_codec hessian_codec]. unfold on_hessian, zero_message in *. cbn [fst] in E. by rewrite E. Qed.

Lemma hessian_reads (c : hessian_conn) pkg id err b b' :
  hessian_quiet c.1 -> hessian_response pkg id err b b' ->
  exists c1 m1 c2 x,
    codec_ReadHeader MT_Response (rbuf_Write pkg (rbuf_Reset c), zero_message) = (Ret tt, (c1, m1))
    /\ ID m1.1 = id /\ Error m1.1 = err
    /\ codec_ReadBody (c1, match err with [] => b | _ => codec_nil end) = (Ret tt, (c2, x)) /\ (err = [] -> x = b').
Proof.
  destruct c as [h0 w]. intros [Hu Hn] (flags & body & more & -> & [Hf1 Hf2] & Hid & -> & Hb & Hne & Hd). cbn [fst] in Hu, Hn.
  set (h := hessian_rbuf_Write (response_package flags id body ++ more) (hessian_rbuf_Reset h0)).
  assert (Hr : unread (h_reader h) = response_header flags Response_OK id (Z.of_nat (length body)) ++ body ++ more).
  { unfold h, response_package. cbn [hessian_rbuf_Write hessian_rbuf_Reset set_unread h_reader unread nbuf]. by rewrite Hu, Hn, <- app_assoc. }
  assert (Hok : buf_ok (h_reader h)) by (unfold buf_ok; unfold h at 1; cbn; lia).
  destruct (response_read g h zero_message.1 flags id body more b Hf1 Hf2 Hid Hb Hok Hr)
    as (h1 & m1 & h2 & E1 & Hid' & _ & _ & E2).
  exists (h1, w), (m1, ∅), (h2, w), b'. cbn [codec_ReadBody the_codec hessian_codec rbuf_Write rbuf_Reset].
  fold h. split_and!; [by apply header_hessian|exact Hid'| | |done].
  - pose proof (ReadHeader_keeps_Error MT_Response h zero_message.1) as He. rewrite E1 in He. exact He.
  - rewrite E2. unfold trace, on_err. rewrite Hd. by destruct b.
Qed.

#[local] Instance hessian_reads_ok : CodecReads hessian_conn value := {|
  awaits c _ := hessian_quiet c.1;
  response_of := hessian_response;
  reads_response := hessian_reads
|}.

(** The request's package, as the codec writes it. *)
Definition request_bytes (seq : Z) (url : ServiceURL) (req : rpcRequest value) (timeout : Z) : outcome bytes :=
  (Write range (fun b => (length b, None)) (stream_message seq url req timeout).1 (rq_args req) (NewEncoder g)).1.

Lemma hessian_writes seq url req timeout pkg (c : hessian_conn) :
  request_bytes seq url req timeout = Ret pkg ->
  codec_Write (rq_args req) (wbuf_Reset c, stream_message seq url req timeout) = (Ret tt, ((c.1, pkg), stream_message seq url req timeout)).
Proof. intros Hw. destruct c as [h w]. cbn [codec_Write wbuf_Reset the_codec hessian_codec]. unfold request_bytes in Hw. by rewrite Hw. Qed.

Lemma add_nothing (header : option Header) : add_header ∅ header = header.
Proof. destruct header as [h|]; [|done]. cbn. by rewrite (left_id_L ∅ union). Qed.

Section Transport.
Context {T : Type} `{TC : TransportClient T}.

Lemma exchange_value seq url req header (t t1 t2 : T) c timeout pkg flags id v v' ty old x g0 h more :
  request_bytes seq url req timeout = Ret pkg ->
  tr_Send (header, pkg) t = (Ret tt, t1) -> hessian_quiet c.1 -> flags_ok flags -> is_i64 id ->
  portable v v' -> direct v' -> set_value ty v' = Some x ->
  let body := e_buffer ((Encode (VInt Int32 RESPONSE_VALUE) ;;; Encode v) (NewEncoder g0)).2 in
  (length body <= bufsize)%nat -> tr_Recv t1 = (Ret (h, response_package flags id body ++ more), t2) ->
  exists s', exchange timeout (new_stream seq url req header t c, VPtr ty old) = (Ret tt, (s', VPtr ty x)) /\ client_of s' = t2.
Proof.
  intros Hw Hs Hq Hf Hid Hp Hdir Hset body Hlen Hr.
  destruct (response_delivers g g0 v v' ty old x Hp Hdir Hset) as (e & E & Hd).
  apply (exchange_reads seq url req header t c timeout (c.1, pkg) (stream_message seq url req timeout) t1 t2
    (h, response_package flags id body ++ more) id []).
  - by apply hessian_writes.
  - by rewrite add_nothing.
  - exact Hq.
  - exists flags, body, more. split_and!; try done. unfold body. by rewrite E.
  - exact Hr.
Qed.

(** C14. A whole call over the hessian codec, with any transport: the stream sends
    one package, the request as the codec writes it, and from a response that
    comes in one package, with a value that the codec can carry, the caller's
    variable gets that value; what the connection has after it is left for the
    next reader. *)
Theorem exchange_delivers seq url req header (t t1 t2 : T) c timeout pkg flags id v v' ty old x g0 h more :
  request_bytes seq url req timeout = Ret pkg ->
  tr_Send (header, pkg) t = (Ret tt, t1) -> hessian_quiet c.1 -> flags_ok flags -> is_i64 id ->
  portable v v' -> direct v' -> set_value ty v' = Some x ->
  let body := e_buffer ((Encode (VInt Int32 RESPONSE_VALUE) ;;; Encode v) (NewEncoder g0)).2 in
  (length body <= bufsize)%nat -> tr_Recv t1 = (Ret (h, response_package flags id body ++ more), t2) ->
  exists s', exchange timeout (new_stream seq url req header t c, VPtr ty old) = (Ret tt, (s', VPtr ty x)) /\ client_of s' = t2.
Proof. apply exchange_value. Qed.

End Transport.

(** ** Responses in pieces *)

(** Traced any number of times. *)
Fixpoint cause (e : goerr) : goerr := match e with Traced e => cause e | e => e end.

Lemma Peek_short n r :
  (n <= bufsize)%nat -> (length (unread r) < n)%nat -> buf_ok r ->
  exists bs r', Peek n r = (Ret (bs, Some EOF), r').
Proof.
  intros Hn Hl Hok. unfold Peek.
  set (r0 := if (nbuf r <? n)%nat && (nbuf r <? bufsize)%nat then fill r else r).
  assert (Hu : unread r0 = unread r) by (unfold r0; by case_match).
  assert (Hok0 : buf_ok r0) by (unfold r0; case_match; auto with go).
  cbv zeta. cbn [nbuf unread]. rewrite (proj2 (Nat.ltb_ge bufsize n)) by done.
  rewrite (proj2 (Nat.ltb_lt (nbuf r0) n)); [by do 2 eexists|]. unfold buf_ok in Hok0. rewrite Hu in Hok0. lia.
Qed.

Lemma ReadHeader_short h m :
  (length (unread (h_reader h)) < 16)%nat -> buf_ok (h_reader h) ->
  exists s, ReadHeader MT_Response (h, m) = (Fail (Traced EOF), s).
Proof.
  intros Hl Hok. unfold ReadHeader.
  change (MT_Response =? MT_Request) with false.
  change ((MT_Response =? MT_Heartbeat) || (MT_Response =? MT_Response)) with true. cbv iota.
  destruct (Peek_short 16 (h_reader h)) as (bs & r' & E); [unfold bufsize; lia|done|done|].
  unfold bind at 1, on_reader at 1. cbn [h_reader]. unfold HEADER_LENGTH. rewrite E. by eexists.
Qed.

(** What is read of a response of which at least the header has come. *)
Lemma ReadHeader_prefix h flags id len more :
  flags_ok flags -> is_i64 id -> 0 <= len < 2 ^ 32 -> buf_ok (h_reader h) ->
  unread (h_reader h) = response_header flags Response_OK id len ++ more ->
  exists h1 m1, ReadHeader MT_Response (h, zero_message.1) = (Ret tt, (h1, m1)) /\ Error m1 = []
    /\ h_mt h1 = MT_Response /\ h_rspBodyLen h1 = len /\ buf_ok (h_reader h1) /\ unread (h_reader h1) = more.
Proof.
  intros [Hs Hf] Hid Hlen Hok Hr. set (hdr := response_header flags Response_OK id len) in *.
  assert (Hh : length hdr = 16%nat) by done.
  destruct (Peek_reads 16 (h_reader h)) as (r1 & E1 & Hok1 & Hu1 & Hn1);
    [unfold bufsize; lia|rewrite Hr, length_app; lia|done|].
  destruct (Discard_reads 16 r1) as (r2 & E2 & Hok2 & Hu2); [done|done|].
  rewrite Hr in E1. rewrite Hu1, Hr in Hu2. rewrite take_app_length' in E1 by done.
  rewrite drop_app_length' in Hu2 by done.
  destruct (unpack_response_header flags id len zero_message.1 Hs Hf Hid Hlen) as (m1 & Em & _ & Hml). fold hdr in Em.
  exists (mkCodec MT_Response r2 (BodyLen m1)), m1.
  assert (E : ReadHeader MT_Response (h, zero_message.1) = (Ret tt, (mkCodec MT_Response r2 (BodyLen m1), m1))).
  { unfold ReadHeader. change (MT_Response =? MT_Request) with false.
    change ((MT_Response =? MT_Heartbeat) || (MT_Response =? MT_Response)) with true. cbv iota.
    unfold bind at 1, on_reader at 1. cbn [h_reader h_mt h_rspBodyLen]. unfold HEADER_LENGTH. rewrite E1.
    unfold bind at 1, trace, on_err at 1, on_reader. cbn [h_reader h_mt h_rspBodyLen].
    rewrite E2. unfold bind at 1, on_err, on_message. rewrite Em. done. }
  split; [exact E|]. pose proof (ReadHeader_keeps_Error MT_Response h zero_message.1) as He. rewrite E in He.
  by split_and!.
Qed.

Lemma ReadBody_big h b :
  h_mt h = MT_Response -> buf_ok (h_reader h) -> (bufsize < Z.to_nat (h_rspBodyLen h))%nat ->
  exists r, ReadBody g (h, b) = (Fail ErrBodyNotEnough, (mkCodec (h_mt h) r (h_rspBodyLen h), b)) /\ buf_ok r.
Proof.
  intros Hmt Hok Hb. unfold ReadBody. rewrite Hmt. cbn [Z.eqb orb]. unfold Peek.
  set (r0 := if (nbuf (h_reader h) <? Z.to_nat (h_rspBodyLen h))%nat && (nbuf (h_reader h) <? bufsize)%nat
             then fill (h_reader h) else h_reader h).
  assert (Hok0 : buf_ok r0) by (unfold r0; case_match; auto with go).
  cbv zeta. rewrite (proj2 (Nat.ltb_lt bufsize (Z.to_nat (h_rspBodyLen h)))) by done.
  eexists. split; [reflexivity|]. exact Hok0.
Qed.

Section Pieces.
Context {T : Type} `{TC : TransportClient T}.

Lemma body_loop_big b w : forall n t e t' fuel header h,
  drains n t e t' -> (n < fuel)%nat ->
  h_mt h = MT_Response -> buf_ok (h_reader h) -> (bufsize < Z.to_nat (h_rspBodyLen h))%nat ->
  exists c', body_loop fuel (mkRpcCodec t (h, w) header, b) = (Fail (Traced e), (c', b)) /\ rc_client c' = t'.
Proof.
  induction n as [|n IH]; intros t e t' fuel header h Hd Hf Hmt Hok Hb; (destruct fuel as [|fuel]; [lia|]).
  all: destruct (ReadBody_big h b Hmt Hok Hb) as (r & E & Hok').
  all: cbn [body_loop]; unfold on_err, on_codec; cbn [rc_codec codec_ReadBody the_codec hessian_codec]; rewrite E;
    rewrite bool_decide_eq_true_2 by done.
  all: unfold bind, on_first; cbn [rc_client rc_codec rc_header]; inversion Hd; subst.
  - erewrite recv_package_fails by done. by eexists.
  - erewrite recv_package_gets by done. eapply IH; try done; [lia|]. unfold buf_ok in *. cbn. rewrite length_app. lia.
Qed.

Section First.
Context (seq : Z) (url : ServiceURL) (req : rpcRequest value) (header : option Header) (t1 t2 : T) (c : hessian_conn) (b : value).
Context (flags id : Z) (body p : bytes) (h : option Header).
Context (Hq : hessian_quiet c.1) (Hf : flags_ok flags) (Hid : is_i64 id) (Hlen : Z.of_nat (length body) < 2 ^ 32).
Context (Hr : tr_Recv t1 = (Ret (h, p), t2)).

Let k : hessianCodec := hessian_rbuf_Write p (hessian_rbuf_Reset c.1).

Lemma first_unread : unread (h_reader k) = p /\ buf_ok (h_reader k).
Proof. destruct Hq as [Hu Hn]. unfold buf_ok, k. cbn. rewrite Hu, Hn. split; [done|cbn; lia]. Qed.

(** A piece that lacks a byte of the header fails the call. *)
Lemma short_header_fails : (length p < 16)%nat ->
  exists e s', Recv (sent_stream seq url req header t1 c, b) = (Fail e, (s', b)) /\ cause e = EOF /\ client_of s' = t2.
Proof.
  intros Hl. destruct first_unread as [Hu Hok]. destruct c as [h0 w].
  destruct (ReadHeader_short k zero_message.1) as ([h1 m1] & E); [by rewrite Hu|done|].
  destruct (Recv_header_fails seq url req header t1 (h0, w) t2 (h, p) ((h1, w), (m1, ∅)) (Traced EOF) b Hr) as (s' & -> & Hc);
    [done|by apply header_hessian|].
  eexists _, s'. split; [reflexivity|]. by split.
Qed.

Context (pre : bytes) (Hp : p = response_header flags Response_OK id (Z.of_nat (length body)) ++ pre).

(** After the header, the body is read. *)
Lemma Recv_body : exists h1, h_mt h1 = MT_Response /\ h_rspBodyLen h1 = Z.of_nat (length body) /\ buf_ok (h_reader h1)
  /\ unread (h_reader h1) = pre
  /\ Recv (sent_stream seq url req header t1 c, b) = recv_body false (sent_stream seq url req header t2 (h1, c.2), b).
Proof.
  destruct first_unread as [Hu Hok]. destruct c as [h0 w].
  destruct (ReadHeader_prefix k flags id (Z.of_nat (length body)) pre Hf Hid) as (h1 & m1 & E & He & Hmt & Hbl & Hok1 & Hu1);
    [lia|done|by rewrite Hu|].
  exists h1. split_and!; try done.
  erewrite Recv_header; [|exact Hr|by apply header_hessian]. cbn [fst]. by rewrite He.
Qed.

(** So does a piece that lacks a byte of a body that fits into the buffer. *)
Lemma short_body_fails : (length pre < length body <= bufsize)%nat ->
  exists e s', Recv (sent_stream seq url req header t1 c, b) = (Fail e, (s', b)) /\ cause e = EOF /\ client_of s' = t2.
Proof.
  intros Hl. destruct Recv_body as (h1 & Hmt & Hbl & Hok1 & Hu1 & ->).
  destruct (ReadBody_refuses g h1 b Hmt Hok1) as (h2 & E2 & Hu2); [lia|left; rewrite Hu1, Hbl; lia|].
  rewrite decide_False in E2 by (rewrite Hbl; lia).
  destruct (recv_body_fails false (sent_stream seq url req header t2 (h1, c.2)) b (h2, c.2) b (Traced EOF)) as (s' & -> & Hc);
    [done| |].
  { cbn [codec_ReadBody the_codec hessian_codec sent_stream s_codec rc_codec]. by rewrite E2. }
  eexists _, s'. split; [reflexivity|]. by split.
Qed.

(** A body that does not fit makes the call take all packages that still come. *)
Lemma big_body_waits n e t' : (bufsize < length body)%nat -> drains n t2 e t' -> (n <= tr_left t2)%nat ->
  exists e' s', Recv (sent_stream seq url req header t1 c, b) = (Fail e', (s', b)) /\ cause e' = cause e /\ client_of s' = t'.
Proof.
  intros Hl Hd Hn. destruct Recv_body as (h1 & Hmt & Hbl & Hok1 & Hu1 & ->).
  unfold recv_body, ReadResponseBody. cbn [sent_stream s_codec].
  destruct (body_loop_big b c.2 n t2 e t' (loop_fuel (mkRpcCodec t2 (h1, c.2) header)) header h1) as (c' & -> & Hc');
    [done|unfold loop_fuel; cbn; lia|done|done|rewrite Hbl; lia|].
  eexists _, _. split; [reflexivity|]. by split.
Qed.

End First.

(** A prefix of a response lacks a byte of the header, or is the header and a prefix
    of the body. *)
Lemma prefix_cases flags id body p more :
  p ++ more = response_package flags id body ->
  (length p < 16)%nat \/ exists pre, p = response_header flags Response_OK id (Z.of_nat (length body)) ++ pre /\ pre ++ more = body.
Proof.
  intros Hs. destruct (decide (length p < 16)%nat) as [|Hge]; [by left|]. right. exists (drop 16 p).
  assert (H16 : take 16 p = response_header flags Response_OK id (Z.of_nat (length body))).
  { apply (f_equal (take 16)) in Hs. rewrite take_app_le in Hs by lia. rewrite Hs. done. }
  split; [by rewrite <- H16, take_drop|]. apply (f_equal (drop 16)) in Hs. rewrite drop_app_le in Hs by lia. rewrite Hs. done.
Qed.

(** A response that comes in two pieces is lost: when the first package
    lacks a byte of it, the call fails at once with a traced [io.EOF] and the
    rest is not even read. *)
Lemma split_response_fails seq url req header (t t1 t2 : T) c timeout pkg flags id body p more b h :
  request_bytes seq url req timeout = Ret pkg ->
  tr_Send (header, pkg) t = (Ret tt, t1) -> hessian_quiet c.1 -> flags_ok flags -> is_i64 id ->
  (length body <= bufsize)%nat ->
  p ++ more = response_package flags id body -> more <> [] -> tr_Recv t1 = (Ret (h, p), t2) ->
  exists e s', exchange timeout (new_stream seq url req header t c, b) = (Fail e, (s', b)) /\ cause e = EOF /\ client_of s' = t2.
Proof.
  intros Hw Hs Hq Hf Hid Hlen Hsplit Hmore Hr. assert (Hl32 : Z.of_nat (length body) < 2 ^ 32) by (unfold bufsize in Hlen; lia).
  erewrite exchange_Recv; [|by apply hessian_writes|by rewrite add_nothing]. rewrite add_nothing.
  destruct (prefix_cases flags id body p more Hsplit) as [Hl|(pre & Hp & Hpre)].
  - by eapply (short_header_fails seq url req header t1 t2 (c.1, pkg) b).
  - eapply (short_body_fails seq url req header t1 t2 (c.1, pkg) b flags id body p h); try done.
    rewrite <- Hpre, length_app. destruct more; [done|cbn]. rewrite <- Hpre, length_app in Hlen. cbn in Hlen. lia.
Qed.

(** A response whose body is longer than the codec's buffer is never
    delivered, even when all of it has come at once: the call takes every
    package that still comes on the connection and fails as that does. *)
Lemma big_response_waits seq url req header (t t1 t2 : T) c timeout pkg flags id body b h n e t' :
  request_bytes seq url req timeout = Ret pkg ->
  tr_Send (header, pkg) t = (Ret tt, t1) -> hessian_quiet c.1 -> flags_ok flags -> is_i64 id ->
  (bufsize < length body)%nat -> Z.of_nat (length body) < 2 ^ 32 ->
  tr_Recv t1 = (Ret (h, response_package flags id body), t2) -> drains n t2 e t' -> (n <= tr_left t2)%nat ->
  exists e' s', exchange timeout (new_stream seq url req header t c, b) = (Fail e', (s', b)) /\ cause e' = cause e /\ client_of s' = t'.
Proof.
  intros Hw Hs Hq Hf Hid Hlen Hb32 Hr Hd Hn.
  erewrite exchange_Recv; [|by apply hessian_writes|by rewrite add_nothing]. rewrite add_nothing.
  by eapply (big_body_waits seq url req header t1 t2 (c.1, pkg) b flags id body _ h Hq Hf Hid Hb32 Hr body eq_refl).
Qed.

(** Whatever its length, a response of which a byte is missing in the first package
    fails the call, and the caller's variable is as it was. *)
Lemma partial_response_fails seq url req header (t t1 t2 : T) c timeout pkg flags id body p more b h n e t' :
  request_bytes seq url req timeout = Ret pkg ->
  tr_Send (header, pkg) t = (Ret tt, t1) -> hessian_quiet c.1 -> flags_ok flags -> is_i64 id -> Z.of_nat (length body) < 2 ^ 32 ->
  p ++ more = response_package flags id body -> more <> [] -> tr_Recv t1 = (Ret (h, p), t2) -> drains n t2 e t' -> (n <= tr_left t2)%nat ->
  exists e s', exchange timeout (new_stream seq url req header t c, b) = (Fail e, (s', b)) /\ (client_of s' = t2 \/ client_of s' = t').
Proof.
  intros Hw Hs Hq Hf Hid Hl32 Hsplit Hmore Hr Hd Hn.
  destruct (decide (length body <= bufsize)%nat) as [Hle|Hgt].
  { destruct (split_response_fails seq url req header t t1 t2 c timeout pkg flags id body p more b h) as (e' & s' & E & _ & Hc); try done.
    exists e', s'. auto. }
  erewrite exchange_Recv; [|by apply hessian_writes|by rewrite add_nothing]. rewrite add_nothing.
  destruct (prefix_cases flags id body p more Hsplit) as [Hl|(pre & Hp & Hpre)].
  - edestruct (short_header_fails seq url req header t1 t2 (c.1, pkg) b) as (e' & s' & E & _ & Hc); try done. exists e', s'. auto.
  - destruct (big_body_waits seq url req header t1 t2 (c.1, pkg) b flags id body p h Hq Hf Hid Hl32 Hr pre Hp n e t') as (e' & s' & E & _ & Hc);
      [lia|done|done|]. exists e', s'. auto.
Qed.

End Pieces.

End Hessian.

(** ** Witnesses *)

Module Sample.

Definition url : ServiceURL := mkURL (lit "dubbo") (lit "10.0.0.1:20000") (lit "/user") [] [] [] [] ∅ 0 [].

Definition req : rpcRequest value :=
  mkRpcRequest [] (lit "dubbo") (lit "1.0") (lit "com.ikurento.user.UserProvider") (lit "GetUser")
    (VSlice TIface [VString (lit "A003")]) (lit "application/dubbo") true.

Definition written : outcome bytes := @request_bytes plain_Slice sample_app id pojoRegistry 7 url req 1000000000.

Definition pkg : bytes := match written with Ret b => b | _ => [] end.

Definition codec : hessian_conn := (NewCodec [], []).

(** The encoded body of a response with the value ["ok"]. *)
Definition body : bytes :=
  e_buffer ((@Encode plain_Slice sample_app (VInt Int32 RESPONSE_VALUE) ;;;
             @Encode plain_Slice sample_app (VString (lit "ok"))) (NewEncoder pojoRegistry)).2.

Definition conn (l : list bytes) : tclient := mkClient (map inr l) [] None 0.

Lemma written_pkg : @request_bytes plain_Slice sample_app id pojoRegistry 7 url req 1000000000 = Ret pkg.
Proof. vm_compute. reflexivity. Qed.

End Sample.

Lemma exchange_delivers_witness : exists s',
  @exchange _ _ _ (@hessian_codec plain_Slice sample_app id pojoRegistry) _ 1000000000
    (new_stream 7 Sample.url Sample.req None (Sample.conn [response_package 2 7 Sample.body]) Sample.codec,
     VPtr TString (VString []))
  = (Ret tt, (s', VPtr TString (VString (lit "ok"))))
  /\ outbox (client_of s') = [(None, Sample.pkg)].
Proof.
  destruct (@exchange_delivers plain_Slice plain_Slice_ok sample_app id pojoRegistry tclient QueueClient 7 Sample.url Sample.req None
    (Sample.conn [response_package 2 7 Sample.body]) (mkClient [inr (response_package 2 7 Sample.body)] [(None, Sample.pkg)] None 0)
    (mkClient [] [(None, Sample.pkg)] None 0) Sample.codec 1000000000 Sample.pkg 2 7
    (VString (lit "ok")) (VString (lit "ok")) TString (VString []) (VString (lit "ok")) pojoRegistry None [])
    as (s' & E & Ho).
  - exact Sample.written_pkg.
  - reflexivity.
  - split; reflexivity.
  - split; vm_compute; [discriminate|reflexivity].
  - unfold is_i64. lia.
  - by apply portable_text, text_lit.
  - exact I.
  - reflexivity.
  - apply (bool_decide_unpack _). vm_compute. exact I.
  - reflexivity.
  - exists s'. split; [exact E|]. by rewrite Ho.
Defined.
