(* ===== verification/Client.v ===== *)
(** * The client

    [client/rpc_client.go], [client/options.go], [client/rpc_request.go] and
    [codec/const.go]: how a call finds its provider, its connection and its
    time limit, and how often it is tried. *)
From S2P Require Import Prelude.
From S2P Require Import HessianRequest.
From S2P Require Import Registry Common Selector Pool Rpc.

(** ** Codec types *)

Definition CODECTYPE_BEGIN : Z := 0.
Definition CODECTYPE_JSONRPC : Z := 1.
Definition CODECTYPE_DUBBO : Z := 2.
Definition CODECTYPE_UNKNOWN : Z := 3.

Definition codecTypeStrings : list bytes := [lit ""; lit "jsonrpc"; lit "dubbo"; lit ""].

Definition CodecType_String (c : Z) : bytes :=
  if (CODECTYPE_BEGIN <? c) && (c <? CODECTYPE_UNKNOWN) then default [] (codecTypeStrings !! Z.to_nat c) else [].

Definition GetCodecType (t : bytes) : Z :=
  if bool_decide (codecTypeStrings !! 1%nat = Some t) then CODECTYPE_JSONRPC
  else if bool_decide (codecTypeStrings !! 2%nat = Some t) then CODECTYPE_DUBBO
  else CODECTYPE_UNKNOWN.

Definition codec2ContentType (codecType : bytes) : bytes :=
  if bool_decide (codecType = lit "jsonrpc") then lit "application/json"
  else if bool_decide (codecType = lit "dubbo") then lit "application/dubbo"
  else [].

(** Transports have such a type too. *)
Definition TRANSPORTTYPE_BEGIN : Z := 0.
Definition TRANSPORT_TCP : Z := 1.
Definition TRANSPORT_HTTP : Z := 2.
Definition TRANSPORTTYPE_UNKNOWN : Z := 3.

Definition transportTypeStrings : list bytes := [lit ""; lit "TCP"; lit "HTTP"; lit ""].

Definition TransportType_String (t : Z) : bytes :=
  if (TRANSPORTTYPE_BEGIN <? t) && (t <? TRANSPORTTYPE_UNKNOWN) then default [] (transportTypeStrings !! Z.to_nat t) else [].

Definition GetTransportType (t : bytes) : Z :=
  if bool_decide (transportTypeStrings !! 1%nat = Some t) then TRANSPORT_TCP
  else if bool_decide (transportTypeStrings !! 2%nat = Some t) then TRANSPORT_HTTP
  else TRANSPORTTYPE_UNKNOWN.

(** The names are read back, and no other name is one. *)
Lemma type_names t :
  (CODECTYPE_BEGIN < t < CODECTYPE_UNKNOWN -> GetCodecType (CodecType_String t) = t)
  /\ (TRANSPORTTYPE_BEGIN < t < TRANSPORTTYPE_UNKNOWN -> GetTransportType (TransportType_String t) = t).
Proof.
  unfold CODECTYPE_BEGIN, CODECTYPE_UNKNOWN, TRANSPORTTYPE_BEGIN, TRANSPORTTYPE_UNKNOWN.
  split; intros Ht; assert (t = 1 \/ t = 2) as [-> | ->] by lia; vm_compute; reflexivity.
Qed.

(** The codec of a client uses TCP. *)
Definition transport_is_tcp (codecType : Z) : bool := codecType =? CODECTYPE_DUBBO.

(** ** Options *)

Definition Millisecond : Z := 10 ^ 6.
Definition Second : Z := 10 ^ 9.

Definition DefaultRetries : Z := 1.
Definition DefaultRequestTimeout : Z := 5 * Second.
Definition DefaultPoolSize : Z := 0.
Definition DefaultPoolTTL : Z := 60 * Second.

Record CallOptions := mkCallOptions {
  DialTimeout : Z;
  Retries : Z;
  RequestTimeout : Z;
  opt_Next : bool            (* [opts.Next] is set *)
}.

(** ** Requests *)

Definition newRPCRequest {V} (group protocol version service method : bytes) (args : V) (contentType : bytes)
    (stream : bool) : rpcRequest V :=
  mkRpcRequest group protocol version service method args contentType stream.

(** [stream]: the caller's own options ask for it. *)
Definition NewRequest {V} (codecType : Z) (group version service method : bytes) (args : V) (stream : bool) : rpcRequest V :=
  let protocol := CodecType_String codecType in
  newRPCRequest group protocol version service method args (codec2ContentType protocol)
    (stream || transport_is_tcp codecType).

(** ** Time limits *)

Definition request_timeout (service : ServiceURL) (reqTimeout : Z) : Z :=
  let q := Get (Query service) (lit "timeout") in
  let reqTimeout :=
    if (length q =? 0)%nat then reqTimeout
    else match Atoi q with
         | None => reqTimeout
         | Some timeout =>
             let timeoutDuration := i64 (timeout * Millisecond) in
             if timeoutDuration <? reqTimeout then timeoutDuration else reqTimeout
         end in
  if reqTimeout <=? 0 then DefaultRequestTimeout else reqTimeout.

(** ** One attempt *)

Definition NotFound : goerr := Coded "dubbogo.client" 404.
Definition InternalServerError : goerr := Coded "dubbogo.client" 500.
Definition RequestTimeoutError : goerr := Coded "dubbogo.client" 408.

(** The package's header: [md] is the map in the context, if there is one. *)
Definition package_header (codecType : Z) (md : option Header) (reqTimeout : Z) (contentType : bytes) : option Header :=
  if codecType =? CODECTYPE_DUBBO then None
  else
    Some (match md with
          | None => ∅
          | Some md =>
              <[lit "Accept" := contentType]> (<[lit "Content-Type" := contentType]> (<[lit "Timeout" := Itoa reqTimeout]> md))
          end).

(** The pool, and the transport's connections by their number. *)
Record cstate (T : Type) := mkState {
  cs_pool : pool;
  cs_conns : gmap nat T
}.
Arguments mkState {T}.
Arguments cs_pool {T}.
Arguments cs_conns {T}.

Section Client.
Context {C V T : Type} `{CC : Codec C V} `{TC : TransportClient T}.
Variable newCodec : C.              (* [newCodec] on empty buffers *)
Variable codecType : Z.

(** The transport closes the connections that the pool closes. *)
Definition close_all (l : list nat) (conns : gmap nat T) : gmap nat T :=
  fold_left (fun m i => alter (fun t => (tr_Close t).2) i m) l conns.

Definition on_pool {X} (f : ST pool X) : ST (cstate T) X := fun s =>
  let '(o, p) := f (cs_pool s) in
  (o, mkState p (close_all (drop (length (closes (cs_pool s))) (closes p)) (cs_conns s))).

(** [Dial] answers [dial]; a connection that the pool has reused is the one
    that was dialed for it. *)
Definition connect (service : ServiceURL) (now now' : Z) (dial : goerr + T) : ST (cstate T) nat := fun s =>
  let err := match dial with inl e => Some e | inr _ => None end in
  match on_pool (getConn (CodecType_String codecType) (Location service) now now' err) s with
  | (Ret i, s) =>
      let conns := match cs_conns s !! i, dial with
                   | None, inr t => <[i := t]> (cs_conns s)
                   | _, _ => cs_conns s
                   end in
      (Ret i, mkState (cs_pool s) conns)
  | (Fail e, s) => (Fail e, s)
  | (Panic, s) => (Panic, s)
  | (NoFuel, s) => (NoFuel, s)
  end.

(** What follows the exchange: the deferred function and, on its heels, [gc], which
    closes the stream and with it the connection. *)
Definition disconnect (req : rpcRequest V) (service : ServiceURL) (i : nat) (gerr : option goerr) : ST (cstate T) unit :=
  on_pool ((if rq_Stream req then release (rq_protocol req) (Location service) i gerr else ret tt) ;;;
           or_zero tt (poolConn_Close i)).

Definition set_client (i : nat) (t : T) (s : cstate T) : cstate T := mkState (cs_pool s) (<[i := t]> (cs_conns s)).

(** [call]; the caller's [rsp] is part of the state.  [md] is the metadata in the
    context.  [ctx] is the context's error if its end is seen before the
    exchange's. *)
Definition call (now now' : Z) (dial : goerr + T) (ctx : option goerr) (md : option Header) (reqID : Z)
    (service : ServiceURL) (req : rpcRequest V) (opts : CallOptions) : ST (cstate T * V) unit := fun '(s, rsp) =>
  let reqTimeout := request_timeout service (RequestTimeout opts) in
  let header := package_header codecType md reqTimeout (rq_contentType req) in
  match connect service now now' dial s with
  | (Ret i, s) =>
      match cs_conns s !! i with
      | None => (Panic, (s, rsp))
      | Some t =>
          match ctx with
          | Some e => let '(_, s) := disconnect req service i (Some e) s in (Fail RequestTimeoutError, (s, rsp))
          | None =>
              let stream := mkStream reqID false None service req (newRPCCodec header t newCodec) in
              let '(o, (stream, rsp)) := exchange reqTimeout (stream, rsp) in
              let s := set_client i (rc_client (s_codec stream)) s in
              match o with
              | NoFuel => (NoFuel, (s, rsp))
              | Ret _ =>
                  let '(_, s) := disconnect req service i None s in (Ret tt, (s, rsp))
              | Fail e =>
                  let '(_, s) := disconnect req service i (Some e) s in (Fail (Traced e), (s, rsp))
              | Panic =>
                  let '(_, s) := disconnect req service i (Some InternalServerError) s in
                  (Fail (Traced InternalServerError), (s, rsp))
              end
          end
      end
  | (Fail _, s) => (Fail InternalServerError, (s, rsp))
  | (Panic, s) => (Panic, (s, rsp))
  | (NoFuel, s) => (NoFuel, (s, rsp))
  end.

End Client.

(** ** [Call] *)

Section Call.
Context {S : Type}.
(** [next(reqID)], and [c.call] with the provider. *)
Variable next : ST S ServiceURL.
Variable one_call : ServiceURL -> ST S unit.

(** The function [call] of [Call]. *)
Definition attempt : ST S unit :=
  serviceURL <- on_err next (fun err =>
    if bool_decide (err = ErrNotFound) then fail NotFound else fail InternalServerError) ;;
  trace (one_call serviceURL).

(** The loop: [done i] when the context's end is seen in turn [i] before the
    attempt's. *)
Fixpoint retry_loop (done : nat -> bool) (n i : nat) (gerr : option goerr) : ST S unit :=
  match n with
  | O => match gerr with None => ret tt | Some e => fail e end
  | Datatypes.S n =>
      if done i then fail RequestTimeoutError
      else on_err attempt (fun err =>
             if error_empty err then ret tt
             else retry_loop done n (Datatypes.S i) (Some (Traced err)))
  end.

(** [sel] is the error of [c.next], [over] says that the context is over before
    the first attempt. *)
Definition Call (sel : option goerr) (over : bool) (done : nat -> bool) (retries : Z) : ST S unit :=
  match sel with
  | Some err => if bool_decide (err = ErrNotFound) then fail NotFound else fail InternalServerError
  | None =>
      if over then fail RequestTimeoutError
      else if retries <? 0 then panic
      else retry_loop done (Z.to_nat retries) 0 None
  end.

(** [n] attempts that all fail, one after the other, and the last error. *)
Inductive failing : nat -> S -> option goerr -> S -> Prop :=
| failing_none s : failing 0 s None s
| failing_one n s1 o s2 e s3 :
    failing n s1 o s2 -> attempt s2 = (Fail e, s3) -> error_empty e = false ->
    failing (Datatypes.S n) s1 (Some e) s3.

(** An attempt that ends the loop. *)
Inductive ending (s : S) : outcome unit -> S -> Prop :=
| ending_ok s' : attempt s = (Ret tt, s') -> ending s (Ret tt) s'
| ending_empty e s' : attempt s = (Fail e, s') -> error_empty e = true -> ending s (Ret tt) s'
| ending_panic s' : attempt s = (Panic, s') -> ending s Panic s'
| ending_nofuel s' : attempt s = (NoFuel, s') -> ending s NoFuel s'.

Lemma retry_loop_spec s0 : forall n i gerr s o s',
  failing i s0 gerr s ->
  retry_loop (fun _ => false) n i (Traced <$> gerr) s = (o, s') ->
  (exists j o1 s1, (i <= j < i + n)%nat /\ failing j s0 o1 s1 /\ ending s1 o s')
  \/ (failing (i + n) s0 None s' /\ o = Ret tt)
  \/ (exists e, failing (i + n) s0 (Some e) s' /\ o = Fail (Traced e)).
Proof.
  induction n as [|n IH]; intros i gerr s o s' Hf E.
  - rewrite Nat.add_0_r. right. cbn in E. destruct gerr as [e|]; cbn in E; unfold fail, ret in E; simplify_eq.
    + right. by exists e.
    + by left.
  - cbn [retry_loop] in E. unfold on_err in E. destruct (attempt s) as [[[]|e| |] s1] eqn:Ea.
    + injection E as <- <-. left. exists i, gerr, s. split_and!; [lia|lia|done|by apply ending_ok].
    + destruct (error_empty e) eqn:Ee.
      * injection E as <- <-. left. exists i, gerr, s. split_and!; [lia|lia|done|by eapply ending_empty].
      * destruct (IH (Datatypes.S i) (Some e) s1 o s') as [(j & o1 & s2 & Hj & H1 & H2)|H]; [by econstructor|done| |].
        -- left. exists j, o1, s2. split_and!; [lia|lia|done|done].
        -- right. by rewrite Nat.add_succ_r.
    + injection E as <- <-. left. exists i, gerr, s. split_and!; [lia|lia|done|by apply ending_panic].
    + injection E as <- <-. left. exists i, gerr, s. split_and!; [lia|lia|done|by apply ending_nofuel].
Qed.

(** C25. While its context lasts, [Call] makes attempts one after the other, no
    more than [Retries], up to the first that succeeds, and then succeeds; when
    all of them fail it returns the last error.  With [Retries = 0] it succeeds
    without having called anything. *)
Theorem Call_retries retries s o s' :
  0 <= retries -> Call None false (fun _ => false) retries s = (o, s') ->
  (exists j o1 s1, Z.of_nat j < retries /\ failing j s o1 s1 /\ ending s1 o s')
  \/ (exists e, failing (Z.to_nat retries) s (Some e) s' /\ o = Fail (Traced e))
  \/ retries = 0 /\ o = Ret tt /\ s' = s.
Proof.
  intros Hr E. unfold Call in E. apply Z.ltb_ge in Hr as Hb. rewrite Hb in E.
  destruct (retry_loop_spec s (Z.to_nat retries) 0 None s o s' (failing_none s) E)
    as [(j & o1 & s1 & Hj & H1 & H2)|[[Hf ->]|H]].
  - left. exists j, o1, s1. split_and!; [lia|done|done].
  - cbn [Nat.add] in Hf. right. right. inversion Hf as [s0 Hn|]; subst. split_and!; [lia|done|done].
  - right. left. exact H.
Qed.

End Call.

(** ** Lemmas and properties *)

Lemma request_timeout_positive service T : 0 < T ->
  let t := request_timeout service T in 0 < t /\ (t <= T \/ t = DefaultRequestTimeout).
Proof.
  intros HT. unfold request_timeout. cbv zeta. unfold DefaultRequestTimeout, Second.
  destruct (_ =? 0)%nat; [destruct (T <=? 0) eqn:E; zify_bool; lia|].
  destruct (Atoi _) as [n|].
  - destruct (i64 _ <? T) eqn:E; zify_bool.
    + destruct (i64 _ <=? 0) eqn:E'; zify_bool; lia.
    + destruct (T <=? 0) eqn:E'; zify_bool; lia.
  - destruct (T <=? 0) eqn:E; zify_bool; lia.
Qed.

Section Outcome.
Context {C V T : Type} `{CC : Codec C V} `{TC : TransportClient T}.

(** [t'] is [t] after one or more calls of [Close]. *)
Definition closed_from : T -> T -> Prop := tc (fun t t' => t' = (tr_Close t).2).

Lemma close_all_repeat i n : forall conns t,
  conns !! i = Some t -> exists t', close_all (repeat i (S n)) conns !! i = Some t' /\ closed_from t t'.
Proof.
  induction n as [|n IH]; intros conns t Ht.
  - exists (tr_Close t).2. split; [|by apply tc_once]. cbn. by rewrite lookup_alter_eq, Ht.
  - destruct (IH (alter (fun t => (tr_Close t).2) i conns) (tr_Close t).2) as (t' & E & Hc); [by rewrite lookup_alter_eq, Ht|].
    exists t'. split; [exact E|]. by eapply tc_l.
Qed.

Lemma close_all_None i l : forall conns : gmap nat T, conns !! i = None -> close_all l conns !! i = None.
Proof.
  induction l as [|j l IH]; intros conns Hi; [done|]. apply IH. destruct (decide (j = i)) as [->|Hne].
  - by rewrite lookup_alter_eq, Hi.
  - by rewrite lookup_alter_ne.
Qed.

(** A client whose calls are over: the pool has no open connection, and the next
    one is new. *)
Record at_rest (sz ttl : Z) (s : cstate T) : Prop := {
  ar_pool : pool_ok sz ttl (cs_pool s) [];
  ar_closed : all_closed (cs_pool s);
  ar_new i : (next_ptr (cs_pool s) <= i)%nat -> cs_conns s !! i = None
}.

Lemma new_client_at_rest sz ttl : at_rest sz ttl (mkState (newPool sz ttl) ∅).
Proof.
  split; [apply newPool_ok| |intros; apply lookup_empty]. intros i (k & l & Hk & _). cbn in Hk. by rewrite lookup_empty in Hk.
Qed.

(** The end of a call on an open connection. *)
Lemma disconnect_closes sz ttl (req : rpcRequest V) service i gerr (s : cstate T) t c :
  pool_ok sz ttl (cs_pool s) [i] -> all_closed (cs_pool s) -> (forall j, (next_ptr (cs_pool s) <= j)%nat -> cs_conns s !! j = None) ->
  store (cs_pool s) !! i = Some c -> client c = i -> once c = false -> created c <> 0 -> cs_conns s !! i = Some t ->
  exists s' t', disconnect req service i gerr s = (Ret tt, s') /\ at_rest sz ttl s'
    /\ cs_conns s' !! i = Some t' /\ closed_from t t'.
Proof.
  intros Hok Hall Hnew Hc Hcl Hon Hcr Ht. unfold disconnect, on_pool.
  destruct (after_call_ok sz ttl (rq_protocol req) (Location service) i (rq_Stream req) gerr (cs_pool s) Hok Hall) as (p' & E & H1 & H2 & H3).
  rewrite E. destruct (after_call_closes _ _ _ _ _ _ _ _ Hc Hcl Hon Hcr E) as [n ->]. rewrite drop_app_length.
  destruct (close_all_repeat i n (cs_conns s) t Ht) as (t' & E' & Hcf).
  eexists _, t'. split; [reflexivity|]. split; [|by split]. split; [done|done|]. cbn [cs_pool cs_conns]. intros j Hj.
  apply close_all_None, Hnew. lia.
Qed.

(** What a call answers when the exchange has ended. *)
Definition call_result (o : outcome unit) : outcome unit :=
  match o with
  | Ret _ => Ret tt
  | Fail e => Fail (Traced e)
  | Panic => Fail (Traced InternalServerError)
  | NoFuel => NoFuel
  end.

(** A call on a new connection, by its exchange. *)
Lemma call_runs (newCodec : C) codecType sz ttl now now' (tc : T) md reqID service (req : rpcRequest V) opts s rsp o stream rsp' :
  at_rest sz ttl s -> ttl < now -> is_i64 now -> 0 < now' ->
  let timeout := request_timeout service (RequestTimeout opts) in
  let header := package_header codecType md timeout (rq_contentType req) in
  exchange timeout (mkStream reqID false None service req (newRPCCodec header tc newCodec), rsp) = (o, (stream, rsp')) ->
  o <> NoFuel ->
  exists s' t', call newCodec codecType now now' (inr tc) None md reqID service req opts (s, rsp) = (call_result o, (s', rsp'))
    /\ at_rest sz ttl s' /\ cs_conns s' !! next_ptr (cs_pool s) = Some t' /\ closed_from (rc_client (s_codec stream)) t'.
Proof.
  intros [Hok Hall Hnew] Ht Hi Hn timeout header E Ho. unfold call, connect, on_pool at 1.
  destruct (getConn_dials sz ttl (CodecType_String codecType) (Location service) now now' (cs_pool s) Hok Hall Ht Hi Hn)
    as (p1 & -> & Hok1 & Hall1 & Hn1 & Hst). cbn [cs_conns cs_pool].
  rewrite close_all_None by (by apply Hnew). cbv zeta. cbn [cs_conns cs_pool]. rewrite lookup_insert_eq.
  fold timeout. fold header. rewrite E. set (i := next_ptr (cs_pool s)) in *.
  match goal with |- context [set_client i (rc_client (s_codec stream)) ?st] =>
    set (s1 := set_client i (rc_client (s_codec stream)) st) end.
  assert (Hd : forall gerr, exists s' t', disconnect req service i gerr s1 = (Ret tt, s') /\ at_rest sz ttl s'
    /\ cs_conns s' !! i = Some t' /\ closed_from (rc_client (s_codec stream)) t').
  { intros gerr. eapply disconnect_closes; [exact Hok1|exact Hall1| |exact Hst|done|done|cbn; lia|unfold s1; cbn; by rewrite lookup_insert_eq].
    intros j Hj. unfold s1 in *. cbn [cs_pool cs_conns set_client] in *. rewrite Hn1 in Hj. rewrite !lookup_insert_ne by lia.
    apply close_all_None, Hnew. unfold i in Hj. lia. }
  destruct o as [[]|e| |]; [|..|done].
  - destruct (Hd None) as (s' & t' & -> & H). by exists s', t'.
  - destruct (Hd (Some e)) as (s' & t' & -> & H). by exists s', t'.
  - destruct (Hd (Some InternalServerError)) as (s' & t' & -> & H). by exists s', t'.
Qed.

(** C24. A call by a client whose earlier calls are over dials a connection,
    exchanges the request and the response on it, with a time limit that is
    positive and no longer than the caller's or the default one, answers what
    the exchange answered (a panic in it becomes an error), closes the connection, and
    leaves the client as it was: its calls are over, and the pool has no open
    connection. *)
Theorem call_outcome (newCodec : C) codecType sz ttl now now' (tc : T) md reqID service (req : rpcRequest V) opts s rsp :
  at_rest sz ttl s -> ttl < now -> is_i64 now -> 0 < now' -> 0 < RequestTimeout opts ->
  exists timeout, 0 < timeout /\ (timeout <= RequestTimeout opts \/ timeout = DefaultRequestTimeout)
    /\ let header := package_header codecType md timeout (rq_contentType req) in
       let '(o, (stream, rsp')) := exchange timeout (mkStream reqID false None service req (newRPCCodec header tc newCodec), rsp) in
       o <> NoFuel ->
       exists s' t', call newCodec codecType now now' (inr tc) None md reqID service req opts (s, rsp) = (call_result o, (s', rsp'))
         /\ at_rest sz ttl s' /\ cs_conns s' !! next_ptr (cs_pool s) = Some t' /\ closed_from (rc_client (s_codec stream)) t'.
Proof.
  intros Hs Ht Hi Hn HT. exists (request_timeout service (RequestTimeout opts)).
  destruct (request_timeout_positive service (RequestTimeout opts) HT) as [Hp Hle]. split; [done|]. split; [done|].
  cbv zeta. destruct (exchange _ _) as [o [stream rsp']] eqn:E. intros Ho. by eapply call_runs.
Qed.

End Outcome.

(** ** Witnesses *)

(** A service that fails twice and then answers; the state counts the calls. *)
Definition flaky (url : ServiceURL) : ST nat unit := fun n =>
  if (n <? 2)%nat then (Fail (Traced EOF), S n) else (Ret tt, S n).

Definition one_provider : ServiceURL := mkURL (lit "dubbo") (lit "10.0.0.1:20000") [] [] [] [] [] ∅ 0 [].

Lemma Call_retries_witness :
  Call (ret one_provider) flaky None false (fun _ => false) 5 0%nat = (Ret tt, 3%nat)
  /\ exists j, (j <= 5)%nat /\ exists o s, failing (ret one_provider) flaky j 0%nat o s.
Proof.
  assert (E : Call (ret one_provider) flaky None false (fun _ => false) 5 0%nat = (Ret tt, 3%nat)) by reflexivity.
  split; [exact E|].
  destruct (Call_retries (ret one_provider) flaky 5 0%nat (Ret tt) 3%nat ltac:(lia) E)
    as [(j & o1 & s1 & Hj & H & _)|[(e & _ & H)|(H & _)]].
  - exists j. split; [lia|]. by exists o1, s1.
  - discriminate.
  - discriminate.
Defined.

(** A codec that refuses to write. *)
Definition mute : Codec unit unit := {|
  codec_Write _ := fail (Errorf "mute");
  codec_ReadHeader _ := ret tt;
  codec_ReadBody := ret tt;
  codec_Close := ret tt;
  codec_nil := tt;
  rbuf_Write _ c := c;
  rbuf_Reset c := c;
  wbuf_Reset c := c;
  wbuf_Bytes _ := []
|}.

Definition mute_request : rpcRequest unit := NewRequest CODECTYPE_DUBBO [] [] (lit "User") (lit "Get") tt false.
Definition mute_options : CallOptions := mkCallOptions 0 1 Second false.

Lemma call_outcome_witness :
  exists s' t, call (CC := mute) tt CODECTYPE_DUBBO 1500 1501 (inr (mkClient [] [] None 0)) None None 7 one_provider
      mute_request mute_options (mkState (newPool 2 60) ∅, tt)
    = (Fail (Traced (Traced (Traced (Errorf "mute")))), (s', tt))
    /\ at_rest 2 60 s' /\ cs_conns s' !! 0%nat = Some t /\ closed_from (mkClient [] [] None 0) t.
Proof.
  destruct (call_outcome (CC := mute) tt CODECTYPE_DUBBO 2 60 1500 1501 (mkClient [] [] None 0) None 7 one_provider
    mute_request mute_options (mkState (newPool 2 60) ∅) tt) as (timeout & _ & _ & H).
  - apply new_client_at_rest.
  - lia.
  - unfold is_i64. lia.
  - lia.
  - cbn. unfold Second. lia.
  - destruct H as (s' & t & E & Hs & Ht & Hc); [discriminate|]. exists s', t. split; [exact E|]. split; [exact Hs|]. by split.
Defined.
