(* ===== verification/Server.v ===== *)
(** * The server's dispatch

    [server/rpc_server.go], [server/rpc_codec.go], [server/rpc_stream.go]: the
    table of services with the methods that [reflect] shows, and the course of
    one request.  The codec is an interface, as in the source; the functions of
    the application are data. *)
From S2P Require Import Prelude.
From S2P Require Import Utf8 Registry Common.

Abbreviation Header := (gmap bytes bytes).

(** ** Types and methods as [reflect] shows them *)

(** What the server asks of a type besides its name: whether it is [error],
    implements [Streamer], and whether a context, resp. a stream of the server,
    may be passed for it. *)
Record traits := mkTraits {
  is_error : bool;
  implements_Streamer : bool;
  takes_context : bool;
  takes_stream : bool
}.

Inductive rtype :=
| TBase (name pkgPath : bytes) (tr : traits)
| TInterface (name pkgPath : bytes) (tr : traits)
| TPtr (elem : rtype) (tr : traits).

#[export] Instance traits_eq_dec : EqDecision traits.
Proof. solve_decision. Defined.
#[export] Instance rtype_eq_dec : EqDecision rtype.
Proof. solve_decision. Defined.

Definition traits_of (t : rtype) : traits :=
  match t with TBase _ _ tr | TInterface _ _ tr | TPtr _ tr => tr end.

(** [unicode.IsUpper] beyond Latin-1 is a table of the library. *)
Class UnicodeTable := upper_table : Z -> bool.

Definition IsUpper `{UnicodeTable} (r : Z) : bool :=
  if r <=? 0xFF then
    ((65 <=? r) && (r <=? 90)) || ((0xC0 <=? r) && (r <=? 0xDE) && negb (r =? 0xD7))
  else upper_table r.

Definition isExported `{UnicodeTable} (name : bytes) : bool := IsUpper (DecodeRune name).1.

Fixpoint isExportedOrBuiltinType `{UnicodeTable} (t : rtype) : bool :=
  match t with
  | TPtr elem _ => isExportedOrBuiltinType elem
  | TBase name pkgPath _ | TInterface name pkgPath _ => isExported name || bool_decide (pkgPath = [])
  end.

(** ** Requests and responses *)

Record request := mkReq { q_Service : bytes; q_Method : bytes; q_Seq : Z }.
Record response := mkRsp { p_Service : bytes; p_Method : bytes; p_Seq : Z; p_Error : bytes }.

Definition zero_request : request := mkReq [] [] 0.
Definition zero_response : response := mkRsp [] [] 0 [].

(** [codec.Message], as far as the server uses it. *)
Record codecMessage := mkCodecMessage {
  cm_Target : bytes;
  cm_Method : bytes;
  cm_ID : Z;
  cm_Error : bytes;
  cm_Type : Z;
  cm_Header : Header
}.

Definition codec_Request : Z := 0x02.
Definition codec_Response : Z := 0x04.

(** A codec over the two buffers of a [readWriteCloser]: values are [V].
    [sc_ReadBody] reads into a value, [None] is [nil]. *)
Class ServerCodec (C V : Type) := {
  sc_ReadHeader : Z -> ST (C * codecMessage) unit;
  sc_ReadBody : option V -> ST C V;
  sc_Write : V -> ST (C * codecMessage) unit;
  sc_Close : ST C unit;
  rbuf_Reset : C -> C;
  rbuf_Write : bytes -> C -> C;
  wbuf_Reset : C -> C;
  wbuf_Bytes : C -> bytes
}.

(** What [New] of a type makes, the placeholder of an invalid request, a nil
    interface, and whether a value is one. *)
Class Values := {
  value : Type;
  zero_of : rtype -> value;
  invalidRequest : value;
  nil_value : value;
  is_nil : value -> bool
}.

(** [err.Error()]: [error_text] has the texts that other packages format. *)
Class ErrorText := error_text : goerr -> bytes.

Fixpoint Error_ `{ErrorText} (e : goerr) : bytes :=
  match e with
  | EOF => lit "EOF"
  | UnexpectedEOF => lit "unexpected EOF"
  | Text s => s
  | Traced e => Error_ e
  | _ => error_text e
  end.

Definition lastStreamResponseError : bytes := lit "EOS".

(** ** The application *)

Record context := mkContext { ctx_header : Header; ctx_timeout : option Z }.

Record rpcRequest `{Values} := mkRpcRequest {
  r_service : bytes;
  r_method : bytes;
  r_contentType : bytes;
  r_request : option value;
  r_stream : bool
}.

(** What a method for streams does with its [Streamer], and then: the text of the
    error that it returns. *)
Inductive sprog (V : Type) :=
| SDone (err : option bytes)
| SPanic
| SSend (msg : V) (k : option goerr -> sprog V)
| SRecv (msg : V) (k : result V -> sprog V)
| SClose (k : option goerr -> sprog V).
Arguments SDone {V}.
Arguments SPanic {V}.
Arguments SSend {V}.
Arguments SRecv {V}.
Arguments SClose {V}.

(** A method's function over the application's state [A]: with an argument and
    a reply, which it changes, or with a stream. *)
Inductive func `{Values} (A : Type) :=
| FUnary (f : context -> value -> value -> A -> outcome (option bytes * value) * A)
| FStream (f : context -> rpcRequest -> A -> sprog value * A).
Arguments FUnary {_ A}.
Arguments FStream {_ A}.

(** [reflect.Method]: [m_In] begins with the receiver. *)
Record method `{Values} (A : Type) := mkMethod {
  m_Name : bytes;
  m_PkgPath : bytes;
  m_In : list rtype;
  m_Out : list rtype;
  m_Func : func A
}.
Arguments mkMethod {_ A}.
Arguments m_Name {_ A}.
Arguments m_PkgPath {_ A}.
Arguments m_In {_ A}.
Arguments m_Out {_ A}.
Arguments m_Func {_ A}.

(** [Handler], with the name of its type. *)
Record Handler `{Values} (A : Type) := mkHandler {
  h_typeName : bytes;
  h_Service : bytes;
  h_Version : bytes;
  h_methods : list (method A)
}.
Arguments mkHandler {_ A}.
Arguments h_typeName {_ A}.
Arguments h_Service {_ A}.
Arguments h_Version {_ A}.
Arguments h_methods {_ A}.

Record methodType `{Values} (A : Type) := mkMethodType {
  mt_method : method A;
  ArgType : rtype;
  ReplyType : option rtype;
  ContextType : rtype;
  stream : bool;
  numCalls : Z
}.
Arguments mkMethodType {_ A}.
Arguments mt_method {_ A}.
Arguments ArgType {_ A}.
Arguments ReplyType {_ A}.
Arguments ContextType {_ A}.
Arguments stream {_ A}.
Arguments numCalls {_ A}.

Record service `{Values} (A : Type) := mkService {
  s_name : bytes;
  s_method : gmap bytes (methodType A)
}.
Arguments mkService {_ A}.
Arguments s_name {_ A}.
Arguments s_method {_ A}.

Record rpcServer `{Values} (A : Type) := mkRpcServer {
  serviceMap : gmap bytes (service A);
  freeReq : list request;
  freeRsp : list response
}.
Arguments mkRpcServer {_ A}.
Arguments serviceMap {_ A}.
Arguments freeReq {_ A}.
Arguments freeRsp {_ A}.

Definition FREE_LIST_SIZE : nat := 4 * 1024.

(** A call whose error is looked at. *)
Definition attempt {S X} (m : ST S X) : ST S (result X) := fun s =>
  match m s with
  | (Ret a, s) => (Ret (inr a), s)
  | (Fail e, s) => (Ret (inl e), s)
  | (Panic, s) => (Panic, s)
  | (NoFuel, s) => (NoFuel, s)
  end.

(** ** Connections

    [transport.Socket], as far as the server uses it; at most [sock_left]
    packages are to come. *)
Class Socket (K : Type) := {
  sock_Recv : ST K (Header * bytes);
  sock_Send : Header * bytes -> ST K unit;
  sock_Close : K -> K;
  sock_left : K -> nat
}.

(** The socket of a given connection: the packages that will come, those that were sent, and the
    calls of [Close].  When nothing more comes it ends with [io.EOF]. *)
Record socket := mkSocket {
  sk_in : list (goerr + (Header * bytes));
  sk_out : list (Header * bytes);
  sk_refuses : option goerr;
  sk_closed : nat
}.

Definition sk_Recv : ST socket (Header * bytes) := fun s =>
  match sk_in s with
  | [] => (Fail EOF, s)
  | x :: rest =>
      (match x with inl e => Fail e | inr p => Ret p end, mkSocket rest (sk_out s) (sk_refuses s) (sk_closed s))
  end.

Definition sk_Send (p : Header * bytes) : ST socket unit := fun s =>
  match sk_refuses s with
  | Some e => (Fail e, s)
  | None => (Ret tt, mkSocket (sk_in s) (sk_out s ++ [p]) (sk_refuses s) (sk_closed s))
  end.

Definition sk_Close (s : socket) : socket := mkSocket (sk_in s) (sk_out s) (sk_refuses s) (S (sk_closed s)).

#[export] Instance QueueSocket : Socket socket :=
  {| sock_Recv := sk_Recv; sock_Send := sk_Send; sock_Close := sk_Close; sock_left := fun s => length (sk_in s) |}.

Section Server.
Context `{VS : Values} `{UT : UnicodeTable} `{ET : ErrorText} {A : Type}.
Abbreviation method := (method A).
Abbreviation methodType := (methodType A).
Abbreviation service := (service A).
Abbreviation rpcServer := (rpcServer A).
Abbreviation Handler := (Handler A).

Definition initServer : rpcServer := mkRpcServer ∅ [] [].

(** *** Registration *)

Definition is_ptr (t : rtype) : bool := match t with TPtr _ _ => true | _ => false end.

Definition prepareMethod (m : method) : option methodType :=
  if negb (bool_decide (m_PkgPath m = [])) then None
  else
    let checked :=
      match m_In m with
      | [_; contextType; argType] =>
          if negb (implements_Streamer (traits_of argType)) then None
          else Some (mkMethodType m argType None contextType true 0)
      | [_; contextType; argType; replyType] =>
          if negb (isExportedOrBuiltinType argType) then None
          else if negb (is_ptr replyType) then None
          else if negb (isExportedOrBuiltinType replyType) then None
          else Some (mkMethodType m argType (Some replyType) contextType false 0)
      | _ => None
      end in
    match checked with
    | None => None
    | Some mt =>
        match m_Out m with
        | [returnType] => if negb (is_error (traits_of returnType)) then None else Some mt
        | _ => None
        end
    end.

Fixpoint install (ms : list method) (table : gmap bytes methodType) (methods : bytes) : gmap bytes methodType * bytes :=
  match ms with
  | [] => (table, methods)
  | m :: ms =>
      match prepareMethod m with
      | Some mt => install ms (<[m_Name m := mt]> table) (methods ++ m_Name m ++ [comma])
      | None => install ms table methods
      end
  end.

Definition set_services (m : gmap bytes service) (s : rpcServer) : rpcServer :=
  mkRpcServer m (freeReq s) (freeRsp s).

(** [register]: the names of the methods, between commas. *)
Definition register (rcvr : Handler) : ST rpcServer bytes := fun server =>
  if negb (isExported (h_typeName rcvr)) then
    (Fail (Text (lit "rpc Register: type " ++ h_typeName rcvr ++ lit " is not exported")), server)
  else
    let sname := h_Service rcvr in
    match serviceMap server !! sname with
    | Some _ => (Fail (Text (lit "rpc: service already defined: " ++ sname)), server)
    | None =>
        let '(table, methods) := install (h_methods rcvr) ∅ [] in
        if bool_decide (table = ∅) then
          (Fail (Text (lit "rpc Register: type " ++ sname ++ lit " has no exported methods of suitable type")), server)
        else (Ret (TrimSuffix methods [comma]), set_services (<[sname := mkService sname table]> (serviceMap server)) server)
    end.

(** *** The free lists *)

Definition getRequest : ST rpcServer request := fun s =>
  match freeReq s with
  | _ :: rest => (Ret zero_request, mkRpcServer (serviceMap s) rest (freeRsp s))
  | [] => (Ret zero_request, s)
  end.

Definition freeRequest (req : option request) : ST rpcServer unit := fun s =>
  match req with
  | None => (Ret tt, s)
  | Some req =>
      if (length (freeReq s) <? FREE_LIST_SIZE)%nat
      then (Ret tt, mkRpcServer (serviceMap s) (freeReq s ++ [req]) (freeRsp s))
      else (Ret tt, s)
  end.

Definition getResponse : ST rpcServer response := fun s =>
  match freeRsp s with
  | _ :: rest => (Ret zero_response, mkRpcServer (serviceMap s) (freeReq s) rest)
  | [] => (Ret zero_response, s)
  end.

Definition freeRsponse (rsp : response) : ST rpcServer unit := fun s =>
  if (length (freeRsp s) <? FREE_LIST_SIZE)%nat
  then (Ret tt, mkRpcServer (serviceMap s) (freeReq s) (freeRsp s ++ [rsp]))
  else (Ret tt, s).

(** *** The codec of a connection *)

Context {K : Type} `{SK : Socket K} {C : Type} `{SC : ServerCodec C value}.

Record rpcCodec := mkRpcCodec {
  k_socket : K;
  k_codec : C;
  k_header : Header     (* [pkg.Header] *)
}.

Definition content_type : bytes := lit "Content-Type".

(** [m["k"]] of a map of strings. *)
Definition at_key (h : Header) (k : bytes) : bytes := default [] (h !! k).

Definition set_codec (k : C) (c : rpcCodec) : rpcCodec := mkRpcCodec (k_socket c) k (k_header c).
Definition set_socket (s : K) (c : rpcCodec) : rpcCodec := mkRpcCodec s (k_codec c) (k_header c).

Definition on_socket {X} (f : ST K X) : ST rpcCodec X := fun c =>
  let '(o, s) := f (k_socket c) in (o, set_socket s c).

Definition on_codec {X} (f : ST C X) : ST rpcCodec X := fun c =>
  let '(o, k) := f (k_codec c) in (o, set_codec k c).

(** The request is filled in even when [ReadHeader] fails. *)
Definition ReadRequestHeader (first : bool) : ST (rpcCodec * request) unit := fun '(c, r) =>
  let read (h : Header) (c : rpcCodec) :=
    let '(o, (k, m)) := sc_ReadHeader codec_Request (k_codec c, mkCodecMessage [] [] 0 [] 0 h) in
    (o, (set_codec k c, mkReq (cm_Target m) (cm_Method m) (cm_ID m))) in
  if first then read (k_header c) c
  else
    match on_socket sock_Recv c with
    | (Ret (h, body), c) => read h (set_codec (rbuf_Write body (rbuf_Reset (k_codec c))) c)
    | (Fail e, c) => (Fail e, (c, r))
    | (Panic, c) => (Panic, (c, r))
    | (NoFuel, c) => (NoFuel, (c, r))
    end.

Definition ReadRequestBody (b : option value) : ST rpcCodec value := on_codec (sc_ReadBody b).

(** [last] is not used. *)
Definition WriteResponse (r : response) (body : value) (last : bool) : ST rpcCodec unit := fun c =>
  let k := wbuf_Reset (k_codec c) in
  let m := mkCodecMessage (p_Service r) (p_Method r) (p_Seq r) (p_Error r) codec_Response ∅ in
  let '(o, (k, m)) := sc_Write body (k, m) in
  let c := set_codec k c in
  match o with
  | Ret _ =>
      on_socket (sock_Send (<[content_type := at_key (k_header c) content_type]> (cm_Header m), wbuf_Bytes k)) c
  | Fail e => (Fail e, c)
  | Panic => (Panic, c)
  | NoFuel => (NoFuel, c)
  end.

Definition rpcCodec_Close : ST rpcCodec unit := fun c =>
  let k := wbuf_Reset (rbuf_Reset (k_codec c)) in
  match sc_Close k with
  | (Panic, k) => (Panic, set_codec k c)
  | (_, k) => (Ret tt, set_socket (sock_Close (k_socket c)) (set_codec k c))
  end.

(** *** A stream *)

Record rpcStream := mkStream {
  st_seq : Z;
  st_closed : bool;
  st_request : rpcRequest;
  st_context : context
}.

Definition Send (msg : value) : ST (rpcStream * rpcCodec) unit := fun '(s, c) =>
  let '(o, c) := WriteResponse (mkRsp (r_service (st_request s)) (r_method (st_request s)) (st_seq s) []) msg false c in
  (o, (s, c)).

Definition Recv (msg : value) : ST (rpcStream * rpcCodec) value := fun '(s, c) =>
  match ReadRequestHeader false (c, zero_request) with
  | (Fail e, (c, _)) =>
      match ReadRequestBody None c with
      | (Panic, c) => (Panic, (s, c))
      | (_, c) => (Fail e, (s, c))
      end
  | (Ret _, (c, req)) =>
      let s := mkStream (q_Seq req) (st_closed s) (st_request s) (st_context s) in
      let '(o, c) := ReadRequestBody (Some msg) c in (o, (s, c))
  | (Panic, (c, _)) => (Panic, (s, c))
  | (NoFuel, (c, _)) => (NoFuel, (s, c))
  end.

Definition stream_Close : ST (rpcStream * rpcCodec) unit := fun '(s, c) =>
  let '(o, c) := rpcCodec_Close c in (o, (mkStream (st_seq s) true (st_request s) (st_context s), c)).

Definition error_of {X} (r : result X) : option goerr := match r with inl e => Some e | inr _ => None end.

(** The application's function with the stream. *)
Fixpoint run_stream (p : sprog value) : ST (rpcStream * rpcCodec) (option bytes) :=
  match p with
  | SDone err => ret err
  | SPanic => panic
  | SSend msg k => r <- attempt (Send msg) ;; run_stream (k (error_of r))
  | SRecv msg k => r <- attempt (Recv msg) ;; run_stream (k r)
  | SClose k => r <- attempt stream_Close ;; run_stream (k (error_of r))
  end.

(** *** One request *)

Record sstate := mkSState {
  ss_server : rpcServer;
  ss_codec : rpcCodec;
  ss_app : A
}.

Definition on_server {X} (f : ST rpcServer X) : ST sstate X := fun s =>
  let '(o, v) := f (ss_server s) in (o, mkSState v (ss_codec s) (ss_app s)).

Definition with_codec {X} (f : ST rpcCodec X) : ST sstate X := fun s =>
  let '(o, c) := f (ss_codec s) in (o, mkSState (ss_server s) c (ss_app s)).

(** The error is logged and returned. *)
Definition sendResponse (req : request) (reply : value) (errmsg : bytes) (last : bool) : ST sstate (option goerr) :=
  _ <- on_server getResponse ;;
  let bad := negb (bool_decide (errmsg = [])) in
  let resp := mkRsp (q_Service req) (q_Method req) (q_Seq req) (if bad then errmsg else []) in
  let reply := if bad then invalidRequest else reply in
  r <- attempt (with_codec (WriteResponse resp reply last)) ;;
  on_server (freeRsponse resp) ;;;
  ret (error_of r).

(** What [reflect] is given to call a function: the receiver, the context, the
    stream, a value of a type, and what an interface holds. *)
Inductive rarg := ArgRcvr | ArgContext | ArgStream | ArgVal (t : rtype) | ArgDynamic (isnil : bool).

(** [Call] panics unless each argument may be passed for its parameter. *)
Definition passes (a : rarg) (t : rtype) : bool :=
  match a with
  | ArgRcvr => true
  | ArgContext => takes_context (traits_of t)
  | ArgStream => takes_stream (traits_of t)
  | ArgVal t' => bool_decide (t' = t)
  | ArgDynamic isnil => negb isnil
  end.

Definition call_ok (args : list rarg) (params : list rtype) : bool :=
  (length args =? length params)%nat && forallb (fun p => passes p.1 p.2) (combine args params).

Definition arg_of (t : rtype) (v : value) : rarg :=
  match t with TInterface _ _ _ => ArgDynamic (is_nil v) | _ => ArgVal t end.

Definition call_args (mt : methodType) (argv : value) : list rarg :=
  if stream mt then [ArgRcvr; ArgContext; ArgStream]
  else [ArgRcvr; ArgContext; arg_of (ArgType mt) argv; match ReplyType mt with Some t => ArgVal t | None => ArgDynamic true end].

Definition count_call (req : request) (s : rpcServer) : rpcServer :=
  set_services (alter (fun sv => mkService (s_name sv)
    (alter (fun mt => mkMethodType (mt_method mt) (ArgType mt) (ReplyType mt) (ContextType mt) (stream mt) (u64 (numCalls mt + 1)))
       (q_Method req) (s_method sv))) (q_Service req) (serviceMap s)) s.

Definition on_stream {X} (st : rpcStream) (f : ST (rpcStream * rpcCodec) X) : ST sstate X := fun s =>
  let '(o, (_, c)) := f (st, ss_codec s) in (o, mkSState (ss_server s) c (ss_app s)).

(** [service.call]. *)
Definition call (ctx : context) (mt : methodType) (req : request) (argv replyv : value) (ct : bytes) : ST sstate unit :=
  on_server (fun s => (Ret tt, count_call req s)) ;;;
  let r := mkRpcRequest _ (q_Service req) (q_Method req) ct None false in
  (fun s => if call_ok (call_args mt argv) (m_In (mt_method mt)) then (Ret tt, s) else (Panic, s)) ;;;
  match stream mt, m_Func (mt_method mt) with
  | false, FUnary f =>
      res <- (fun s => let '(o, a) := f ctx argv replyv (ss_app s) in (o, mkSState (ss_server s) (ss_codec s) a)) ;;
      let '(err, reply) := res in
      sendResponse req reply (default [] err) true ;;;
      on_server (freeRequest (Some req))
  | true, FStream f =>
      let r := mkRpcRequest _ (r_service r) (r_method r) (r_contentType r) None true in
      prog <- (fun s => let '(p, a) := f ctx r (ss_app s) in (Ret p, mkSState (ss_server s) (ss_codec s) a)) ;;
      err <- on_stream (mkStream (q_Seq req) false r ctx) (run_stream prog) ;;
      sendResponse req nil_value (default lastStreamResponseError err) true ;;;
      on_server (freeRequest (Some req))
  | _, _ => panic
  end.

(** What [readRequestHeader] returns. *)
Record header_read := mkHeaderRead {
  hr_service : option service;
  hr_mtype : option methodType;
  hr_req : option request;
  hr_keep : bool;
  hr_err : option goerr
}.

Definition readRequestHeader : ST sstate header_read :=
  req <- on_server getRequest ;;
  fun s =>
    match ReadRequestHeader true (ss_codec s, req) with
    | (Fail err, (c, _)) =>
        let s := mkSState (ss_server s) c (ss_app s) in
        if bool_decide (err = EOF) || bool_decide (err = UnexpectedEOF)
        then (Ret (mkHeaderRead None None None false (Some err)), s)
        else (Ret (mkHeaderRead None None None false (Some (Text (lit "rpc: server cannot decode request: " ++ Error_ err)))), s)
    | (Ret _, (c, req)) =>
        let s := mkSState (ss_server s) c (ss_app s) in
        if bool_decide (q_Service req = []) || bool_decide (q_Method req = []) then
          (Ret (mkHeaderRead None None (Some req) true
            (Some (Text (lit "rpc: service/method request ill-formed: " ++ q_Service req ++ lit "/" ++ q_Method req)))), s)
        else
          match serviceMap (ss_server s) !! q_Service req with
          | None => (Ret (mkHeaderRead None None (Some req) true (Some (Text (lit "rpc: can't find service " ++ q_Service req)))), s)
          | Some sv =>
              match s_method sv !! q_Method req with
              | None => (Ret (mkHeaderRead (Some sv) None (Some req) true
                  (Some (Text (lit "rpc: can't find method " ++ q_Method req ++ lit " of service " ++ q_Service req)))), s)
              | Some mt => (Ret (mkHeaderRead (Some sv) (Some mt) (Some req) true None), s)
              end
          end
    | (Panic, (c, _)) => (Panic, mkSState (ss_server s) c (ss_app s))
    | (NoFuel, (c, _)) => (NoFuel, mkSState (ss_server s) c (ss_app s))
    end.

(** What [readRequest] returns besides: the argument and the reply. *)
Record request_read := mkRequestRead {
  rr_header : header_read;
  rr_argv : value;
  rr_replyv : value
}.

Definition with_err (err : option goerr) (h : header_read) : header_read :=
  mkHeaderRead (hr_service h) (hr_mtype h) (hr_req h) (hr_keep h) err.

Definition elem_type (t : rtype) : rtype := match t with TPtr elem _ => elem | _ => t end.

Definition readRequest : ST sstate request_read :=
  h <- readRequestHeader ;;
  match hr_err h, hr_mtype h with
  | Some _, _ | None, None =>
      if negb (hr_keep h) then ret (mkRequestRead h nil_value nil_value)
      else attempt (with_codec (ReadRequestBody None)) ;;; ret (mkRequestRead h nil_value nil_value)
  | None, Some mt =>
      if stream mt then
        attempt (with_codec (ReadRequestBody None)) ;;; ret (mkRequestRead h nil_value nil_value)
      else
        let argv := zero_of (elem_type (ArgType mt)) in
        r <- attempt (with_codec (ReadRequestBody (Some argv))) ;;
        match r with
        | inl e => ret (mkRequestRead (with_err (Some e) h) argv nil_value)
        | inr argv => ret (mkRequestRead h argv (zero_of (elem_type (default (ArgType mt) (ReplyType mt)))))
        end
  end.

(** The error that it returns. *)
Definition serveRequest (ctx : context) (ct : bytes) : ST sstate (option goerr) :=
  r <- readRequest ;;
  let h := rr_header r in
  match hr_err h with
  | Some err =>
      if negb (hr_keep h) then on_server (freeRequest (hr_req h)) ;;; ret (Some err)
      else
        match hr_req h with
        | Some req =>
            sendResponse req invalidRequest (Error_ err) true ;;;
            on_server (freeRequest (Some req)) ;;;
            ret (Some err)
        | None => ret (Some err)
        end
  | None =>
      match hr_mtype h, hr_req h with
      | Some mt, Some req => call ctx mt req (rr_argv r) (rr_replyv r) ct ;;; ret None
      | _, _ => panic
      end
  end.

End Server.

(** ** What is in the table *)

Section Table.
Context `{VS : Values} `{UT : UnicodeTable} {A : Type}.

(** Go's rule that a function with a stream has three parameters. *)
Definition shape_ok (m : method A) : Prop :=
  match m_Func m with
  | FUnary _ => length (m_In m) = 4%nat
  | FStream _ => length (m_In m) = 3%nat
  end.

(** The context and the stream of the server may be passed where the method has
    one, and its argument is no interface.  [prepareMethod] does not look at
    this. *)
Definition callable (m : method A) : Prop :=
  match m_In m with
  | [_; c; a] => takes_context (traits_of c) = true /\ takes_stream (traits_of a) = true
  | [_; c; a; _] => takes_context (traits_of c) = true /\ match a with TInterface _ _ _ => False | _ => True end
  | _ => True
  end.

Lemma prepareMethod_call (m : method A) mt argv :
  prepareMethod m = Some mt -> callable m -> call_ok (call_args mt argv) (m_In (mt_method mt)) = true.
Proof.
  unfold prepareMethod, callable. destruct (negb _); [done|].
  destruct (m_In m) as [|r [|c [|a [|b [|]]]]] eqn:Ei; try done; intros Hp Hc.
  - destruct (negb _); [done|]. destruct (m_Out m) as [|o [|]]; try done.
    destruct (negb _); [done|]. injection Hp as <-. unfold call_ok, call_args. cbn [stream mt_method]. rewrite Ei.
    cbn. destruct Hc as [-> ->]. done.
  - destruct (negb (isExportedOrBuiltinType a)); [done|]. destruct (negb (is_ptr b)); [done|].
    destruct (negb (isExportedOrBuiltinType b)); [done|]. destruct (m_Out m) as [|o [|]]; try done.
    destruct (negb _); [done|]. injection Hp as <-. unfold call_ok, call_args. cbn [stream mt_method ArgType ReplyType]. rewrite Ei.
    destruct Hc as [Hctx Ha]. cbn. rewrite Hctx. destruct a; [|done|]; cbn; by rewrite !bool_decide_eq_true_2.
Qed.

Lemma prepareMethod_method (m : method A) mt : prepareMethod m = Some mt -> mt_method mt = m.
Proof.
  unfold prepareMethod. destruct (negb _); [done|].
  destruct (m_In m) as [|r [|c [|a [|b [|]]]]]; try done; intros Hp.
  all: repeat (case_match; try done); simplify_eq; done.
Qed.

Lemma prepareMethod_stream (m : method A) mt :
  prepareMethod m = Some mt -> shape_ok m ->
  if stream mt then exists f, m_Func m = FStream f else exists f, m_Func m = FUnary f.
Proof.
  unfold prepareMethod, shape_ok. destruct (negb _); [done|].
  destruct (m_In m) as [|r [|c [|a [|b [|]]]]]; try done; intros Hp Hs.
  all: repeat (case_match; try done); simplify_eq; try done; by eexists.
Qed.

(** Every method in the table was prepared from one that [P] holds of. *)
Definition table_ok (P : method A -> Prop) (s : rpcServer A) : Prop :=
  forall sname (sv : service A) mname (mt : methodType A), serviceMap s !! sname = Some sv -> s_method sv !! mname = Some mt ->
    exists m n, prepareMethod m = Some (mkMethodType (mt_method mt) (ArgType mt) (ReplyType mt) (ContextType mt) (stream mt) n)
      /\ mt_method mt = m /\ m_Name m = mname /\ P m.

Lemma install_lookup ms : forall table methods table' methods' (P : method A -> Prop),
  install ms table methods = (table', methods') -> Forall P ms ->
  forall name (mt : methodType A), table' !! name = Some mt ->
    table !! name = Some mt \/ exists m, m ∈ ms /\ prepareMethod m = Some mt /\ m_Name m = name /\ P m.
Proof.
  induction ms as [|m ms IH]; intros table methods table' methods' P E HP name mt Hl; cbn in E.
  - injection E as <- <-. by left.
  - apply Forall_cons in HP as [Hm HP]. destruct (prepareMethod m) as [mt0|] eqn:Ep.
    + destruct (IH _ _ _ _ P E HP name mt Hl) as [Ht|(m' & Hm' & ? & ? & ?)].
      * apply lookup_insert_Some in Ht as [[<- <-]|[_ Ht]]; [|by left]. right. exists m. split; [by left|done].
      * right. exists m'. split; [by right|done].
    + destruct (IH _ _ _ _ P E HP name mt Hl) as [Ht|(m' & Hm' & ? & ? & ?)]; [by left|].
      right. exists m'. split; [by right|done].
Qed.

Lemma mt_eta (mt : methodType A) :
  mkMethodType (mt_method mt) (ArgType mt) (ReplyType mt) (ContextType mt) (stream mt) (numCalls mt) = mt.
Proof. by destruct mt. Qed.

Lemma register_table_ok P rcvr s methods s' :
  table_ok P s -> Forall P (h_methods rcvr) -> register rcvr s = (Ret methods, s') -> table_ok P s'.
Proof.
  intros Hs HP. unfold register. destruct (negb _); [done|]. destruct (serviceMap s !! h_Service rcvr); [done|].
  destruct (install (h_methods rcvr) ∅ []) as [table ms] eqn:Ei. case_bool_decide; [done|]. intros [= <- <-].
  intros sname sv mname mt Hsv Hmt. cbn in Hsv. apply lookup_insert_Some in Hsv as [[<- <-]|[_ Hsv]]; [|by eapply Hs].
  cbn in Hmt. destruct (install_lookup _ _ _ _ _ P Ei HP mname mt Hmt) as [He|(m & _ & Hp & Hn & HPm)]; [by rewrite lookup_empty in He|].
  exists m, (numCalls mt). rewrite mt_eta. split; [done|]. split; [by apply prepareMethod_method|]. done.
Qed.

Lemma count_call_ok P req s : table_ok P s -> table_ok P (count_call req s).
Proof.
  intros Hs sname sv mname mt Hsv Hmt. unfold count_call in Hsv. cbn in Hsv.
  destruct (decide (sname = q_Service req)) as [->|Hne].
  - rewrite lookup_alter_eq in Hsv. destruct (serviceMap s !! q_Service req) as [sv0|] eqn:E0; [|done].
    injection Hsv as <-. cbn in Hmt. destruct (decide (mname = q_Method req)) as [->|Hne].
    + rewrite lookup_alter_eq in Hmt. destruct (s_method sv0 !! q_Method req) as [mt0|] eqn:E1; [|done].
      injection Hmt as <-. exact (Hs _ _ _ _ E0 E1).
    + rewrite lookup_alter_ne in Hmt by done. exact (Hs _ _ _ _ E0 Hmt).
  - rewrite lookup_alter_ne in Hsv by done. by eapply Hs.
Qed.

End Table.
