(* ===== verification/ServerSafe.v ===== *)
(** * What the dispatch guarantees

    Theorems about [Server]: which methods a registration puts into the table,
    that the functions in it are only called with arguments of their types, and
    what a request is answered. *)
From S2P Require Import Prelude.
From S2P Require Import Registry Common Server.

(** The socket of a given connection. *)
Ltac queue := cbn [sock_Recv sock_Send sock_Close sock_left QueueSocket]; unfold sk_Recv, sk_Send.

(** ** Calls that return or fail *)

Definition safe {S X} (m : ST S X) : Prop :=
  forall s, match (m s).1 with Ret _ | Fail _ => True | Panic | NoFuel => False end.

Definition written (o : outcome unit) : Prop := o = Ret tt \/ exists e, o = Fail e.

(** The same from the states where [I] holds, which is kept, and without
    errors. *)
Definition sound {S X} (I : S -> Prop) (m : ST S X) : Prop :=
  forall s, I s -> exists x s', m s = (Ret x, s') /\ I s'.

Lemma safe_bind {S X Y} (m : ST S X) (k : X -> ST S Y) : safe m -> (forall x, safe (k x)) -> safe (bind m k).
Proof.
  intros Hm Hk s. unfold bind. specialize (Hm s). destruct (m s) as [[x|e| |] s']; try done. apply Hk.
Qed.

Lemma safe_ret {S X} (x : X) : safe (@ret S X x).
Proof. done. Qed.

Lemma safe_attempt {S X} (m : ST S X) : safe m -> safe (attempt m).
Proof. intros Hm s. unfold attempt. specialize (Hm s). by destruct (m s) as [[x|e| |] s']. Qed.

Lemma safe_cases {S X} (m : ST S X) s :
  safe m -> (exists x s', m s = (Ret x, s')) \/ (exists e s', m s = (Fail e, s')).
Proof.
  intros Hm. specialize (Hm s). destruct (m s) as [[x|e| |] s']; try done; [left|right]; by eexists _, _.
Qed.

Lemma sound_bind {S X Y} I (m : ST S X) (k : X -> ST S Y) :
  sound I m -> (forall x, sound I (k x)) -> sound I (bind m k).
Proof. intros Hm Hk s Hs. destruct (Hm s Hs) as (x & s1 & E & H1). unfold bind. rewrite E. by apply Hk. Qed.

Lemma sound_ret {S X} I (x : X) : sound I (@ret S X x).
Proof. intros s Hs. by exists x, s. Qed.

Create HintDb safe.
#[export] Hint Resolve safe_bind safe_ret safe_attempt sound_bind sound_ret : safe.

Section Safe.
Context `{VS : Values} `{UT : UnicodeTable} `{ET : ErrorText} {A : Type} {C : Type} `{SC : ServerCodec C value}.
Abbreviation state := (sstate (A := A) (K := socket) (C := C)).

(** The codec's methods answer or fail; a server writes responses only. *)
Record codec_safe : Prop := {
  safe_ReadHeader mt : safe (sc_ReadHeader mt);
  safe_ReadBody b : safe (sc_ReadBody b);
  safe_Write v s : cm_Type s.2 = codec_Response -> written (sc_Write v s).1;
  safe_Close : safe sc_Close
}.

(** So do the functions of the application. *)
Fixpoint no_panic (p : sprog value) : Prop :=
  match p with
  | SDone _ => True
  | SPanic => False
  | SSend _ k => forall r, no_panic (k r)
  | SRecv _ k => forall r, no_panic (k r)
  | SClose k => forall r, no_panic (k r)
  end.

Definition func_total (f : func A) : Prop :=
  match f with
  | FUnary f => forall ctx argv replyv a, exists r, (f ctx argv replyv a).1 = Ret r
  | FStream f => forall ctx r a, no_panic (f ctx r a).1
  end.

Definition good_method (m : method A) : Prop := callable m /\ shape_ok m /\ func_total (m_Func m).

Definition good_state (s : state) : Prop := table_ok good_method (ss_server s).

Section Codec.
Context (HC : codec_safe).

Lemma safe_ReadRequestHeader first : safe (ReadRequestHeader (K := socket) (C := C) first).
Proof.
  intros [c r]. unfold ReadRequestHeader. destruct first.
  - pose proof (safe_ReadHeader HC codec_Request (k_codec c, mkCodecMessage [] [] 0 [] 0 (k_header c))) as H.
    by destruct (sc_ReadHeader _ _) as [[] [k m]].
  - unfold on_socket; queue. destruct (sk_in (k_socket c)) as [|[e|[h body]] rest]; [done|done|].
    cbv zeta. match goal with |- context [sc_ReadHeader ?a ?b] => pose proof (safe_ReadHeader HC a b) as H end.
    by destruct (sc_ReadHeader _ _) as [[] [k m]].
Qed.

Lemma safe_on_codec {X} (f : ST C X) : safe f -> safe (on_codec (K := socket) f).
Proof. intros Hf c. unfold on_codec. specialize (Hf (k_codec c)). by destruct (f (k_codec c)). Qed.

Lemma safe_ReadRequestBody b : safe (ReadRequestBody (K := socket) b).
Proof. apply safe_on_codec, HC. Qed.

Lemma safe_WriteResponse r body last : safe (WriteResponse (K := socket) r body last).
Proof.
  intros c. unfold WriteResponse. match goal with |- context [sc_Write ?a ?b] => pose proof (safe_Write HC a b eq_refl) as H end.
  destruct (sc_Write _ _) as [o [k m]]. cbn [fst] in H. destruct H as [->|[e ->]]; [|done]. unfold on_socket; queue. cbn. by destruct (sk_refuses _).
Qed.

Lemma safe_rpcCodec_Close : safe (rpcCodec_Close (K := socket)).
Proof.
  intros c. unfold rpcCodec_Close. match goal with |- context [sc_Close ?b] => pose proof (safe_Close HC b) as H end.
  by destruct (sc_Close _) as [[] k].
Qed.

Lemma safe_Recv msg : safe (Recv (K := socket) (C := C) msg).
Proof.
  intros [s c]. unfold Recv.
  destruct (safe_cases _ (c, zero_request) (safe_ReadRequestHeader false)) as [(x & [c1 r] & ->)|(e & [c1 r] & ->)].
  - pose proof (safe_ReadRequestBody (Some msg) c1) as H. by destruct (ReadRequestBody _ c1) as [[] c2].
  - pose proof (safe_ReadRequestBody None c1) as H. by destruct (ReadRequestBody _ c1) as [[] c2].
Qed.

Lemma run_stream_sound p : no_panic p -> sound (fun _ => True) (run_stream (K := socket) (C := C) p).
Proof.
  intros Hp. induction p as [err| |msg k IH|msg k IH|k IH]; cbn [run_stream no_panic] in *.
  - apply sound_ret.
  - done.
  - apply sound_bind; [|intros r; by apply IH]. intros [s c] _. unfold attempt, Send.
    destruct (safe_cases _ c (safe_WriteResponse (mkRsp (r_service (st_request s)) (r_method (st_request s)) (st_seq s) []) msg false))
      as [(x & c1 & ->)|(e & c1 & ->)]; by eexists _, _.
  - apply sound_bind; [|intros r; by apply IH]. intros s _. unfold attempt.
    destruct (safe_cases _ s (safe_Recv msg)) as [(x & c1 & ->)|(e & c1 & ->)]; by eexists _, _.
  - apply sound_bind; [|intros r; by apply IH]. intros [s c] _. unfold attempt, stream_Close.
    destruct (safe_cases _ c safe_rpcCodec_Close) as [(x & c1 & ->)|(e & c1 & ->)]; by eexists _, _.
Qed.

(** *** Steps of the server *)

Lemma sound_on_server {X} (f : ST (rpcServer A) X) :
  (forall s, table_ok good_method s -> exists x s', f s = (Ret x, s') /\ table_ok good_method s') -> sound good_state (on_server (K := socket) (C := C) f).
Proof.
  intros Hf s Hs. unfold on_server. destruct (Hf (ss_server s) Hs) as (x & s' & -> & H'). by eexists _, _.
Qed.

Lemma sound_with_codec {X} (f : ST (rpcCodec (K := socket) (C := C)) X) : safe f -> sound good_state (attempt (with_codec (A := A) f)).
Proof.
  intros Hf s Hs. unfold attempt, with_codec.
  destruct (safe_cases _ (ss_codec s) Hf) as [(x & c1 & ->)|(e & c1 & ->)]; by eexists _, _.
Qed.

Lemma sound_getRequest : sound good_state (on_server (K := socket) (C := C) getRequest).
Proof. apply sound_on_server. intros s Hs. unfold getRequest. destruct (freeReq s); by eexists _, _. Qed.

Lemma sound_freeRequest req : sound good_state (on_server (K := socket) (C := C) (freeRequest req)).
Proof.
  apply sound_on_server. intros s Hs. unfold freeRequest. destruct req; [|by eexists _, _].
  destruct (_ <? _)%nat; by eexists _, _.
Qed.

Lemma sound_getResponse : sound good_state (on_server (K := socket) (C := C) getResponse).
Proof. apply sound_on_server. intros s Hs. unfold getResponse. destruct (freeRsp s); by eexists _, _. Qed.

Lemma sound_freeRsponse rsp : sound good_state (on_server (K := socket) (C := C) (freeRsponse rsp)).
Proof.
  apply sound_on_server. intros s Hs. unfold freeRsponse. destruct (_ <? _)%nat; by eexists _, _.
Qed.

Hint Resolve sound_getRequest sound_freeRequest sound_getResponse sound_freeRsponse : safe.

Lemma sound_sendResponse req reply errmsg last : sound good_state (sendResponse req reply errmsg last).
Proof.
  unfold sendResponse. apply sound_bind; [apply sound_getResponse|]. intros _.
  apply sound_bind; [apply sound_with_codec, safe_WriteResponse|]. intros r. auto with safe.
Qed.

Lemma call_sound ctx mt req argv replyv ct :
  (exists m n, prepareMethod m = Some (mkMethodType (mt_method mt) (ArgType mt) (ReplyType mt) (ContextType mt) (stream mt) n)
     /\ mt_method mt = m /\ good_method m) ->
  sound good_state (call ctx mt req argv replyv ct).
Proof.
  intros (m & n & Hp & Hm & Hc & Hshape & Htot). subst m. unfold call. apply sound_bind.
  { apply sound_on_server. intros s Hs. eexists _, _. split; [done|]. by apply count_call_ok. }
  intros _. apply sound_bind.
  { intros s Hs. pose proof (prepareMethod_call _ _ argv Hp Hc) as Hok. cbn in Hok.
    change (call_args _ argv) with (call_args mt argv) in Hok. rewrite Hok. by eexists _, _. }
  intros _. pose proof (prepareMethod_stream _ _ Hp Hshape) as Hs. cbn in Hs. destruct (stream mt).
  - destruct Hs as [f Hf]. rewrite Hf in *. cbn in Htot. cbn [r_service r_method r_contentType].
    intros s Hg. unfold bind at 1.
    destruct (f ctx (mkRpcRequest VS (q_Service req) (q_Method req) ct None true) (ss_app s)) as [p a] eqn:Ef.
    assert (Hnp : no_panic p).
    { specialize (Htot ctx (mkRpcRequest VS (q_Service req) (q_Method req) ct None true) (ss_app s)). by rewrite Ef in Htot. }
    revert Hg. cbv beta iota. intros Hg.
    match goal with |- exists x s', ?m ?s0 = _ /\ _ => assert (Hss : sound good_state m); [|apply (Hss s0); exact Hg] end.
    apply sound_bind; [|intros err; apply sound_bind; [apply sound_sendResponse|auto with safe]].
    intros s1 Hg1. unfold on_stream.
    destruct (run_stream_sound p Hnp (mkStream (q_Seq req) false (mkRpcRequest VS (q_Service req) (q_Method req) ct None true) ctx, ss_codec s1) I)
      as (x & [st c] & -> & _). by eexists _, _.
  - destruct Hs as [f Hf]. rewrite Hf in *. cbn in Htot. apply sound_bind.
    + intros s Hg. destruct (Htot ctx argv replyv (ss_app s)) as [r Hr].
      destruct (f ctx argv replyv (ss_app s)) as [o a]. cbn in Hr. subst o. by eexists _, _.
    + intros [err reply]. apply sound_bind; [apply sound_sendResponse|auto with safe].
Qed.

(** What [readRequestHeader] finds is from the table. *)
Lemma readRequestHeader_sound (s : state) :
  good_state s ->
  exists h s', readRequestHeader s = (Ret h, s') /\ good_state s'
    /\ (hr_err h = None -> exists mt req, hr_mtype h = Some mt /\ hr_req h = Some req
        /\ exists m n, prepareMethod m = Some (mkMethodType (mt_method mt) (ArgType mt) (ReplyType mt) (ContextType mt) (stream mt) n)
             /\ mt_method mt = m /\ good_method m).
Proof.
  intros Hs. unfold readRequestHeader, bind. destruct (sound_getRequest s Hs) as (req & s1 & -> & H1).
  destruct (safe_cases _ (ss_codec s1, req) (safe_ReadRequestHeader true)) as [(x & [c r] & ->)|(e & [c r] & ->)].
  - destruct (_ || _)%bool; [by eexists _, _|]. cbn [ss_server].
    destruct (serviceMap (ss_server s1) !! q_Service r) as [sv|] eqn:Esv; [|by eexists _, _].
    destruct (s_method sv !! q_Method r) as [mt|] eqn:Emt; [|by eexists _, _].
    eexists _, _. split; [reflexivity|]. split; [exact H1|]. intros _. exists mt, r. split; [done|]. split; [done|].
    destruct (H1 _ _ _ _ Esv Emt) as (m & n & Hp & Hm & _ & Hg). by exists m, n.
  - destruct (_ || _)%bool; by eexists _, _.
Qed.

Lemma serveRequest_sound ctx ct : sound good_state (serveRequest ctx ct).
Proof.
  intros s Hs. unfold serveRequest, readRequest. unfold bind at 1 2.
  destruct (readRequestHeader_sound s Hs) as (h & s1 & -> & H1 & Hh).
  assert (Hbody : forall b, sound good_state (attempt (with_codec (A := A) (ReadRequestBody b)))).
  { intros b. apply sound_with_codec, safe_ReadRequestBody. }
  assert (Herr : forall h err argv, hr_err h = Some err -> forall s, good_state s -> exists x s',
    (let r := mkRequestRead h argv nil_value in
     match hr_err (rr_header r) with
     | Some err => if negb (hr_keep (rr_header r)) then on_server (freeRequest (hr_req (rr_header r))) ;;; ret (Some err)
       else match hr_req (rr_header r) with
            | Some req => sendResponse req invalidRequest (Error_ err) true ;;; on_server (freeRequest (Some req)) ;;; ret (Some err)
            | None => ret (Some err)
            end
     | None => match hr_mtype (rr_header r), hr_req (rr_header r) with
               | Some mt, Some req => call ctx mt req (rr_argv r) (rr_replyv r) ct ;;; ret None
               | _, _ => panic
               end
     end) s = (Ret x, s') /\ good_state s').
  { intros h0 err argv E. cbn [rr_header]. rewrite E. apply (proj1 (iff_refl (sound good_state _))).
    destruct (negb _); [auto with safe|]. destruct (hr_req h0); [|auto with safe].
    apply sound_bind; [apply sound_sendResponse|auto with safe]. }
  destruct (hr_err h) as [err|] eqn:Eerr.
  - destruct (negb (hr_keep h)); [by apply (Herr h err nil_value Eerr)|].
    destruct (Hbody None s1 H1) as (x & s2 & E2 & H2). unfold bind at 1. rewrite E2. by apply (Herr h err nil_value Eerr).
  - destruct (Hh eq_refl) as (mt & req & Emt & Ereq & Hg). rewrite Emt.
    assert (Hcall : forall argv replyv, sound good_state (call ctx mt req argv replyv ct ;;; ret (@None goerr))).
    { intros. apply sound_bind; [by apply call_sound|auto with safe]. }
    destruct (stream mt).
    + destruct (Hbody None s1 H1) as (x & s2 & E2 & H2). unfold bind at 1. rewrite E2. unfold ret at 1. cbn [rr_header].
      rewrite Eerr, Emt, Ereq. by apply Hcall.
    + destruct (Hbody (Some (zero_of (elem_type (ArgType mt)))) s1 H1) as ([e|v] & s2 & E2 & H2);
        unfold bind at 1; rewrite E2.
      * by apply (Herr (with_err (Some e) h) e).
      * unfold ret at 1. cbn [rr_header rr_argv rr_replyv]. rewrite Eerr, Emt, Ereq. by apply Hcall.
Qed.

End Codec.
End Safe.

(** ** Properties *)

Section Properties.
Context `{VS : Values} `{UT : UnicodeTable} `{ET : ErrorText} {A : Type} {C : Type} `{SC : ServerCodec C value}.
Abbreviation state := (sstate (A := A) (K := socket) (C := C)).

(** A server that handlers were registered with and that has served requests of
    some connections. *)
Inductive serving : state -> Prop :=
| serving_init c a : serving (mkSState initServer c a)
| serving_register s h o sv :
    serving s -> Forall good_method (h_methods h) -> register h (ss_server s) = (o, sv) ->
    serving (mkSState sv (ss_codec s) (ss_app s))
| serving_request s ctx ct r s' : serving s -> serveRequest ctx ct s = (Ret r, s') -> serving s'
| serving_connection s c : serving s -> serving (mkSState (ss_server s) c (ss_app s)).

Lemma register_fails_same (h : Handler A) s e s' : register h s = (Fail e, s') -> s' = s.
Proof.
  unfold register. destruct (negb _); [by intros [= _ <-]|]. destruct (serviceMap s !! _); [by intros [= _ <-]|].
  destruct (install _ _ _). case_bool_decide; by intros [= _ <-].
Qed.

Lemma serving_good (HC : codec_safe (C := C)) s : serving s -> good_state s.
Proof.
  induction 1 as [c a|s h o sv _ IH Hh E|s ctx ct r s' _ IH E|s c _ IH].
  - intros sname sv mname mt Hsv. cbn in Hsv. by rewrite lookup_empty in Hsv.
  - unfold good_state. cbn [ss_server]. destruct o as [ms|e| |].
    + by eapply register_table_ok.
    + by rewrite (register_fails_same _ _ _ _ E).
    + exfalso. revert E. unfold register. destruct (negb _); [done|]. destruct (serviceMap _ !! _); [done|].
      destruct (install _ _ _). by case_bool_decide.
    + exfalso. revert E. unfold register. destruct (negb _); [done|]. destruct (serviceMap _ !! _); [done|].
      destruct (install _ _ _). by case_bool_decide.
  - destruct (serveRequest_sound HC ctx ct s IH) as (x & s1 & E' & H'). rewrite E in E'. by injection E' as _ <-.
  - exact IH.
Qed.


(** The type of a method's first parameter is not looked at when it is
    registered: one that is no context is in the table, and every call of it
    panics. *)
Lemma context_unchecked (m : method A) mt ctx req argv replyv ct (s : state) :
  prepareMethod m = Some mt -> takes_context (traits_of (ContextType mt)) = false ->
  (call ctx mt req argv replyv ct s).1 = Panic.
Proof.
  intros Hp Hc. unfold call, bind, on_server at 1. cbn [count_call].
  assert (Hno : call_ok (call_args mt argv) (m_In (mt_method mt)) = false); [|by rewrite Hno].
  unfold prepareMethod in Hp. destruct (negb _); [done|].
  destruct (m_In m) as [|r [|c [|a [|b [|]]]]] eqn:Ei; try done.
  - destruct (negb _); [done|]. destruct (m_Out m) as [|o [|]]; try done.
    destruct (negb _); [done|]. injection Hp as <-. unfold call_ok, call_args. cbn [stream mt_method]. rewrite Ei.
    cbn in *. by rewrite Hc.
  - destruct (negb (isExportedOrBuiltinType a)); [done|]. destruct (negb (is_ptr b)); [done|].
    destruct (negb (isExportedOrBuiltinType b)); [done|]. destruct (m_Out m) as [|o [|]]; try done.
    destruct (negb _); [done|]. injection Hp as <-. unfold call_ok, call_args. cbn [stream mt_method ArgType ReplyType]. rewrite Ei.
    cbn in *. by rewrite Hc.
Qed.

(** *** What is registered *)

Definition suitable (m : method A) : bool := match prepareMethod m with Some _ => true | None => false end.

Lemma install_ok ms : forall table methods,
  exists table', install ms table methods =
      (table', methods ++ concat (map (fun n => n ++ [comma]) (m_Name <$> filter (fun m => suitable m = true) ms)))
    /\ (forall name, name ∉ m_Name <$> ms -> table' !! name = table !! name)
    /\ (NoDup (m_Name <$> ms) -> forall m, m ∈ ms -> table' !! m_Name m =
          match prepareMethod m with Some mt => Some mt | None => table !! m_Name m end).
Proof.
  induction ms as [|m ms IH]; intros table methods.
  - exists table. split; [by rewrite app_nil_r|]. split; [done|]. intros _ m Hm. by apply not_elem_of_nil in Hm.
  - cbn [install]. destruct (prepareMethod m) as [mt|] eqn:Ep.
    + destruct (IH (<[m_Name m := mt]> table) (methods ++ m_Name m ++ [comma])) as (table' & E & Hother & Hin).
      exists table'. split; [|split].
      * rewrite E, filter_cons_True by (unfold suitable; by rewrite Ep). cbn. by rewrite <- !app_assoc.
      * intros name Hn. cbn in Hn. apply not_elem_of_cons in Hn as [Hne Hn]. rewrite Hother by done. by apply lookup_insert_ne.
      * intros Hnd m' Hm'. cbn in Hnd. apply NoDup_cons in Hnd as [Hnm Hnd]. apply elem_of_cons in Hm' as [->|Hm'].
        -- rewrite Ep, Hother by done. by rewrite lookup_insert_eq.
        -- rewrite Hin by done. destruct (prepareMethod m'); [done|]. apply lookup_insert_ne. intros En. apply Hnm.
           rewrite En. by apply list_elem_of_fmap_2.
    + destruct (IH table methods) as (table' & E & Hother & Hin). exists table'. split; [|split].
      * rewrite E, filter_cons_False by (unfold suitable; by rewrite Ep). done.
      * intros name Hn. cbn in Hn. apply not_elem_of_cons in Hn as [Hne Hn]. by apply Hother.
      * intros Hnd m' Hm'. cbn in Hnd. apply NoDup_cons in Hnd as [Hnm Hnd]. apply elem_of_cons in Hm' as [->|Hm'].
        -- by rewrite Ep, Hother.
        -- by apply Hin.
Qed.

Lemma names_joined ns : ns <> [] -> concat (map (fun n => n ++ [comma]) ns) = Join comma ns ++ [comma].
Proof.
  induction ns as [|n ns IH]; intros Hn; [done|]. destruct ns as [|n' ns]; [cbn; by rewrite app_nil_r|].
  change (concat (map (fun n => n ++ [comma]) (n :: n' :: ns))) with ((n ++ [comma]) ++ concat (map (fun n => n ++ [comma]) (n' :: ns))).
  rewrite IH by done. change (Join comma (n :: n' :: ns)) with (n ++ comma :: Join comma (n' :: ns)).
  by rewrite <- !app_assoc.
Qed.

(** [register] puts exactly the suitable methods into the table, and answers
    with their names, by which a consumer's [CheckMethod] knows just the methods
    that the server can call. *)
Lemma register_methods (h : Handler A) s url :
  isExported (h_typeName h) = true -> serviceMap s !! h_Service h = None ->
  NoDup (m_Name <$> h_methods h) -> Forall (fun m => comma ∉ m_Name m) (h_methods h) ->
  (exists m, m ∈ h_methods h /\ suitable m = true) ->
  exists methods table, register h s =
      (Ret methods, set_services (<[h_Service h := mkService (h_Service h) table]> (serviceMap s)) s)
    /\ (forall m, m ∈ h_methods h -> table !! m_Name m = prepareMethod m)
    /\ (Get (Query url) (lit "methods") = methods -> forall name, CheckMethod url name = true <-> is_Some (table !! name)).
Proof.
  intros He Hs Hnd Hc (m0 & Hm0 & Hsuit). destruct (install_ok (h_methods h) ∅ []) as (table & E & Hother & Hin).
  set (good := filter (fun m => suitable m = true) (h_methods h)) in *.
  assert (Hg0 : m0 ∈ good) by (by apply list_elem_of_filter).
  assert (Hne : m_Name <$> good <> []) by (destruct good; [by apply not_elem_of_nil in Hg0|done]).
  assert (Hlook : forall m, m ∈ h_methods h -> table !! m_Name m = prepareMethod m).
  { intros m Hm. rewrite Hin by done. destruct (prepareMethod m); [done|]. apply lookup_empty. }
  exists (Join comma (m_Name <$> good)), table. split; [|split; [exact Hlook|]].
  - unfold register. rewrite He, Hs, E. cbn [negb app]. rewrite names_joined by done.
    rewrite bool_decide_eq_false_2, TrimSuffix_app; [done|]. intros ->. specialize (Hlook m0 Hm0).
    rewrite lookup_empty in Hlook. unfold suitable in Hsuit. by destruct (prepareMethod m0).
  - intros Hq name. rewrite (CheckMethod_iff url (m_Name <$> good)); [|done| |done].
    + split.
      * intros Hn. apply list_elem_of_fmap in Hn as (m & -> & Hm). apply list_elem_of_filter in Hm as [Hsm Hm].
        rewrite Hlook by done. unfold suitable in Hsm. by destruct (prepareMethod m).
      * intros [mt Hmt]. destruct (decide (name ∈ m_Name <$> h_methods h)) as [Hn|Hn].
        -- apply list_elem_of_fmap in Hn as (m & -> & Hm). apply list_elem_of_fmap. exists m. split; [done|].
           apply list_elem_of_filter. split; [|done]. rewrite Hlook in Hmt by done. unfold suitable. by rewrite Hmt.
        -- rewrite Hother, lookup_empty in Hmt by done. done.
    + apply Forall_forall. intros n Hn. apply list_elem_of_fmap in Hn as (m & -> & Hm).
      apply list_elem_of_filter in Hm as [_ Hm]. by apply (proj1 (Forall_forall _ _) Hc).
Qed.

(** What a successful registration was given. *)
Lemma register_requires (h : Handler A) s methods s' :
  register h s = (Ret methods, s') ->
  isExported (h_typeName h) = true /\ serviceMap s !! h_Service h = None /\ exists m, m ∈ h_methods h /\ suitable m = true.
Proof.
  unfold register. destruct (negb (isExported _)) eqn:Ee; [done|]. apply negb_false_iff in Ee.
  destruct (serviceMap s !! _) eqn:Es; [done|]. destruct (install (h_methods h) ∅ []) as [table ms] eqn:Ei.
  case_bool_decide as Ht; [done|]. intros _. split; [done|]. split; [done|].
  apply map_choose in Ht as (name & mt & Hl).
  destruct (install_lookup _ _ _ _ _ (fun _ => True) Ei ltac:(by apply Forall_true) name mt Hl) as [He|(m & Hm & Hp & _)];
    [by rewrite lookup_empty in He|].
  exists m. split; [done|]. unfold suitable. by rewrite Hp.
Qed.

End Properties.

(** ** What is answered

    Over any socket. *)

Section Answers.
Context `{VS : Values} `{UT : UnicodeTable} `{ET : ErrorText} {A : Type} {K : Type} `{SK : Socket K}.
Context {C : Type} `{SC : ServerCodec C value}.
Abbreviation state := (sstate (A := A) (K := K) (C := C)).

(** The method of a request, or why there is none. *)
Definition find_method (s : rpcServer A) (req : request) : result (methodType A) :=
  if bool_decide (q_Service req = []) || bool_decide (q_Method req = []) then
    inl (Text (lit "rpc: service/method request ill-formed: " ++ q_Service req ++ lit "/" ++ q_Method req))
  else match serviceMap s !! q_Service req with
       | None => inl (Text (lit "rpc: can't find service " ++ q_Service req))
       | Some sv =>
           match s_method sv !! q_Method req with
           | None => inl (Text (lit "rpc: can't find method " ++ q_Method req ++ lit " of service " ++ q_Service req))
           | Some mt => inr mt
           end
       end.

(** The response that goes out: with a text for an error the body is the
    placeholder. *)
Definition answer (req : request) (reply : value) (errmsg : bytes) (c : rpcCodec (K := K) (C := C)) : outcome unit * rpcCodec (K := K) (C := C) :=
  WriteResponse (mkRsp (q_Service req) (q_Method req) (q_Seq req) errmsg)
    (if bool_decide (errmsg = []) then reply else invalidRequest) true c.

Lemma sendResponse_ok req reply errmsg (s : state) o c :
  answer req reply errmsg (ss_codec s) = (o, c) -> written o ->
  exists r sv, sendResponse req reply errmsg true s = (Ret r, mkSState sv c (ss_app s))
    /\ serviceMap sv = serviceMap (ss_server s) /\ freeReq sv = freeReq (ss_server s).
Proof.
  intros E Ho. unfold sendResponse. unfold bind at 1, on_server at 1.
  assert (Hg : exists sv1, getResponse (ss_server s) = (Ret zero_response, sv1)
    /\ serviceMap sv1 = serviceMap (ss_server s) /\ freeReq sv1 = freeReq (ss_server s)).
  { unfold getResponse. destruct (freeRsp (ss_server s)); by eexists. }
  destruct Hg as (sv1 & -> & Hm & Hq). cbv zeta. cbn [ss_codec ss_server ss_app].
  assert (Hw : WriteResponse (mkRsp (q_Service req) (q_Method req) (q_Seq req)
      (if negb (bool_decide (errmsg = [])) then errmsg else []))
      (if negb (bool_decide (errmsg = [])) then invalidRequest else reply) true (ss_codec s) = (o, c)).
  { rewrite <- E. unfold answer. case_bool_decide as Hempty; [by subst|done]. }
  unfold bind at 1, attempt, with_codec. cbn [ss_codec ss_server ss_app]. rewrite Hw.
  assert (Hf : forall rsp, exists sv2, freeRsponse rsp sv1 = (Ret tt, sv2)
    /\ serviceMap sv2 = serviceMap (ss_server s) /\ freeReq sv2 = freeReq (ss_server s)).
  { intros rsp. unfold freeRsponse. destruct (_ <? _)%nat; by eexists. }
  destruct (Hf (mkRsp (q_Service req) (q_Method req) (q_Seq req) (if negb (bool_decide (errmsg = [])) then errmsg else [])))
    as (sv2 & Ef & ? & ?).
  destruct Ho as [->|[e ->]]; unfold bind, on_server; cbn [ss_server ss_codec ss_app]; rewrite Ef; by eexists _, _.
Qed.

Lemma free_ok req (s : state) :
  exists sv, on_server (freeRequest req) s = (Ret tt, mkSState sv (ss_codec s) (ss_app s)) /\ serviceMap sv = serviceMap (ss_server s).
Proof.
  unfold on_server, freeRequest. destruct req; [|by eexists]. destruct (_ <? _)%nat; by eexists.
Qed.

Lemma header_ok (s : state) c req :
  ReadRequestHeader true (ss_codec s, zero_request) = (Ret tt, (c, req)) ->
  exists h sv, readRequestHeader s = (Ret h, mkSState sv c (ss_app s)) /\ serviceMap sv = serviceMap (ss_server s)
    /\ hr_req h = Some req /\ hr_keep h = true
    /\ match find_method (ss_server s) req with
       | inl e => hr_err h = Some e
       | inr mt => hr_err h = None /\ hr_mtype h = Some mt
       end.
Proof.
  intros E. unfold readRequestHeader, bind, on_server.
  assert (Hg : exists sv1, getRequest (ss_server s) = (Ret zero_request, sv1) /\ serviceMap sv1 = serviceMap (ss_server s)).
  { unfold getRequest. destruct (freeReq (ss_server s)); by eexists. }
  destruct Hg as (sv1 & -> & Hm). cbn [ss_codec ss_server ss_app]. rewrite E. unfold find_method. rewrite Hm.
  destruct (_ || _)%bool; [by eexists _, _|]. destruct (serviceMap (ss_server s) !! q_Service req) as [sv|]; [|by eexists _, _].
  destruct (s_method sv !! q_Method req); by eexists _, _.
Qed.

(** A request for a method that is in the table, with an argument that can be
    read, is served by one call of the method's function with that argument and
    a fresh reply, and answered by one response, to this request's sequence
    number: the reply, or the error's text.  An error without a text is no
    error. *)
Lemma serve_unary (s : state) ctx ct c req mt f v c2 err reply a' o c3 :
  ReadRequestHeader true (ss_codec s, zero_request) = (Ret tt, (c, req)) ->
  find_method (ss_server s) req = inr mt -> stream mt = false -> m_Func (mt_method mt) = FUnary f ->
  ReadRequestBody (Some (zero_of (elem_type (ArgType mt)))) c = (Ret v, c2) ->
  call_ok (call_args mt v) (m_In (mt_method mt)) = true ->
  f ctx v (zero_of (elem_type (default (ArgType mt) (ReplyType mt)))) (ss_app s) = (Ret (err, reply), a') ->
  answer req reply (default [] err) c2 = (o, c3) -> written o ->
  exists s', serveRequest ctx ct s = (Ret None, s') /\ ss_codec s' = c3 /\ ss_app s' = a'
    /\ serviceMap (ss_server s') = serviceMap (count_call req (ss_server s)).
Proof.
  intros Eh Ef Hst Hfn Eb Hok Ecall Ea Ho. unfold serveRequest, readRequest. unfold bind at 1 2.
  destruct (header_ok s c req Eh) as (h & sv & -> & Hmap & Hreq & _ & Hfind). rewrite Ef in Hfind.
  destruct Hfind as [Herr Hmt]. rewrite Herr, Hmt, Hst. unfold bind at 1, attempt, with_codec. cbn [ss_codec ss_server ss_app].
  rewrite Eb. unfold ret at 1. cbn [rr_header rr_argv rr_replyv]. rewrite Herr, Hmt, Hreq.
  unfold bind at 1, call. unfold bind at 1, on_server at 1. cbn [ss_codec ss_server ss_app].
  unfold bind at 1. rewrite Hok. rewrite Hst, Hfn. unfold bind at 1. cbn [ss_app ss_server ss_codec]. rewrite Ecall.
  destruct (sendResponse_ok req reply (default [] err) (mkSState (count_call req sv) c2 a') o c3 Ea Ho) as (r & sv2 & E2 & Hm2 & _).
  unfold bind at 1. cbn [ss_app ss_server ss_codec] in *. rewrite E2.
  destruct (free_ok (Some req) (mkSState sv2 c3 a')) as (sv3 & E3 & Hm3). unfold on_server in E3 |- *. rewrite E3.
  eexists. split; [reflexivity|]. split; [done|]. split; [done|]. cbn [ss_server] in *. rewrite Hm3, Hm2.
  unfold count_call. cbn. by rewrite Hmap.
Qed.

(** A request for a service or method that is not in the table, or whose
    names are empty, is answered with the error's text, no function is called,
    and the error is returned, upon which the connection is closed. *)
Lemma serve_unknown (s : state) ctx ct c req e ob c2 o c3 :
  ReadRequestHeader true (ss_codec s, zero_request) = (Ret tt, (c, req)) ->
  find_method (ss_server s) req = inl e ->
  ReadRequestBody None c = (ob, c2) -> (match ob with Ret _ | Fail _ => True | _ => False end) ->
  answer req invalidRequest (Error_ e) c2 = (o, c3) -> written o ->
  exists s', serveRequest ctx ct s = (Ret (Some e), s') /\ ss_codec s' = c3 /\ ss_app s' = ss_app s
    /\ serviceMap (ss_server s') = serviceMap (ss_server s).
Proof.
  intros Eh Ef Eb Hob Ea Ho. unfold serveRequest, readRequest. unfold bind at 1 2.
  destruct (header_ok s c req Eh) as (h & sv & -> & Hmap & Hreq & Hkeep & Hfind). rewrite Ef in Hfind.
  rewrite Hfind, Hkeep. cbn [negb]. unfold bind at 1, attempt at 1, with_codec at 1. cbn [ss_codec ss_server ss_app]. rewrite Eb.
  assert (Hrest : exists s', (sendResponse req invalidRequest (Error_ e) true ;;; on_server (freeRequest (Some req)) ;;; ret (Some e))
      (mkSState sv c2 (ss_app s)) = (Ret (Some e), s') /\ ss_codec s' = c3 /\ ss_app s' = ss_app s
      /\ serviceMap (ss_server s') = serviceMap (ss_server s)).
  { destruct (sendResponse_ok req invalidRequest (Error_ e) (mkSState sv c2 (ss_app s)) o c3 Ea Ho) as (r & sv2 & E2 & Hm2 & _).
    unfold bind at 1. cbn [ss_app ss_server ss_codec] in *. rewrite E2.
    destruct (free_ok (Some req) (mkSState sv2 c3 (ss_app s))) as (sv3 & E3 & Hm3).
    unfold bind. cbn [ss_app ss_server ss_codec] in *. rewrite E3. eexists. split; [reflexivity|]. split; [done|]. split; [done|]. cbn in *. by rewrite Hm3, Hm2. }
  destruct ob as [x|e'| |]; [| |done|done]; unfold ret at 1; cbn [rr_header]; by rewrite Hfind, Hkeep, Hreq.
Qed.

End Answers.

(** ** A concrete server *)

(** Values are bytes; the codec finds service and method in the package's header
    and takes the body as it is. *)
#[local] Instance Values0 : Values :=
  {| value := bytes; zero_of := fun _ => []; invalidRequest := []; nil_value := []; is_nil := fun v => bool_decide (v = []) |}.
#[local] Instance UnicodeTable0 : UnicodeTable := fun _ => false.
#[local] Instance ErrorText0 : ErrorText := fun _ => [].

#[local] Instance ServerCodec0 : ServerCodec (bytes * bytes) value := {|
  sc_ReadHeader := fun mt '(c, m) =>
    match cm_Header m !! lit "service" with
    | Some s => (Ret tt, (c, mkCodecMessage s (default [] (cm_Header m !! lit "method")) 7 (cm_Error m) mt (cm_Header m)))
    | None => (Fail EOF, (c, m))
    end;
  sc_ReadBody := fun b '(r, w) => (Ret (match b with Some _ => r | None => nil_value end), (r, w));
  sc_Write := fun v '((r, w), m) => (Ret tt, ((r, w ++ cm_Error m ++ v), m));
  sc_Close := fun c => (Ret tt, c);
  rbuf_Reset := fun '(r, w) => ([], w);
  rbuf_Write := fun b '(r, w) => (r ++ b, w);
  wbuf_Reset := fun '(r, w) => (r, []);
  wbuf_Bytes := fun '(r, w) => w
|}.

Lemma codec_safe0 : codec_safe (C := bytes * bytes).
Proof.
  split.
  - intros mt [[r w] m]. cbn. by destruct (_ !! _).
  - by intros b [r w].
  - intros v [[r w] m] _. by left.
  - by intros [r w].
Qed.

Definition plain : traits := mkTraits false false false false.
Definition t_string : rtype := TBase (lit "string") [] plain.
Definition t_context : rtype := TInterface (lit "Context") (lit "context") (mkTraits false false true false).
Definition t_error : rtype := TInterface (lit "error") [] (mkTraits true false false false).
Definition t_rcvr : rtype := TPtr (TBase (lit "Echo") (lit "main") plain) plain.

(** [func (e *Echo) Say(ctx context.Context, arg *string, reply *string) error],
    which counts its calls, and the same with an [int] for the context. *)
Definition Say : method nat :=
  mkMethod (lit "Say") [] [t_rcvr; t_context; TPtr t_string plain; TPtr t_string plain] [t_error]
    (FUnary (fun _ argv _ n => (Ret (None, argv), S n))).

Definition Bad : method nat :=
  mkMethod (lit "Bad") [] [t_rcvr; TBase (lit "int") [] plain; TPtr t_string plain; TPtr t_string plain] [t_error]
    (FUnary (fun _ argv _ n => (Ret (None, argv), S n))).

Definition handler1 : Handler nat := mkHandler (lit "Echo") (lit "com.echo") [] [Say].

Definition request0 (service method : String.string) : Header := {[lit "service" := lit service; lit "method" := lit method]}.
Definition codec0 (h : Header) : rpcCodec (K := socket) (C := bytes * bytes) :=
  mkRpcCodec (mkSocket [] [] None 0) (lit "hello", []) h.

Definition server0 : rpcServer nat := (register handler1 initServer).2.
Definition mt0 : methodType nat := mkMethodType Say (TPtr t_string plain) (Some (TPtr t_string plain)) t_context false 0.
Definition serving0 (h : Header) : sstate (A := nat) := mkSState server0 (codec0 h) 0%nat.
Definition ctx0 : context := mkContext ∅ None.

Lemma serving0_ok h : serving (serving0 h).
Proof.
  unfold serving0. apply (serving_connection (mkSState server0 (codec0 ∅) 0%nat)).
  apply (serving_register (mkSState initServer (codec0 ∅) 0%nat) handler1 (Ret (lit "Say")) server0); [apply serving_init| |].
  - constructor; [|done]. split; [done|]. split; [done|]. intros c v r a. by eexists.
  - unfold server0. rewrite (surjective_pairing (register handler1 initServer)). f_equal.
Qed.


Example bad_context_panics :
  exists mt, prepareMethod Bad = Some mt /\
    (call ctx0 mt zero_request [] [] [] (serving0 ∅)).1 = Panic.
Proof.
  eexists. split; [reflexivity|].
  apply (context_unchecked Bad _ ctx0 zero_request [] [] [] (serving0 ∅)); [reflexivity|reflexivity].
Defined.

