(* ===== verification/Serve.v ===== *)
(** * The server

    [server/server.go] and [newOptions] of [server/options.go]: the loop that serves a
    connection, how a handler is registered and announced, and what [Start]
    and [Stop] leave to goroutines.  The registry and the transport are
    interfaces, as in the source. *)
From S2P Require Import Prelude.
From S2P Require Import Registry Common Server.

(** ** Interfaces *)

(** What the server uses of a [registry.Registry], in a world [W]. *)
Class ProviderRegistry (W : Type) := {
  reg_Register : ProviderServiceConfig -> ST W unit;
  reg_Close : ST W unit
}.

(** [transport.Transport] and its listeners [L]. *)
Class ServerTransport (W L : Type) := {
  t_Listen : bytes -> ST W L;
  l_Close : L -> W -> W
}.

(** [gxnet.HostAddress]. *)
Class HostAddresses := HostAddress : bytes -> Z -> bytes.

Record ServerConfig := mkServerConfig {
  cf_Protocol : bytes;
  cf_IP : bytes;
  cf_Port : Z
}.

Definition Address `{HostAddresses} (c : ServerConfig) : bytes := HostAddress (cf_IP c) (cf_Port c).

Definition content_text : bytes := lit "text/plain".
Definition timeout_key : bytes := lit "Timeout".

(** The header that the handler sees in its context. *)
Definition strip_header (h : Header) : Header := delete timeout_key (delete content_type h).

(** The time limit that the client set, in nanoseconds. *)
Definition deadline (h : Header) : option Z :=
  if (0 <? length (at_key h timeout_key))%nat then i64 <$> ParseUint (at_key h timeout_key) else None.

Section Serve.
Context `{VS : Values} `{UT : UnicodeTable} `{ET : ErrorText} {A : Type} {K : Type} `{SK : Socket K}
  {C : Type} `{SC : ServerCodec C value}.

(** [codec.NewCodec] on the buffers of a connection: what is to be read is the
    package's body, and nothing is written yet. *)
Definition NewCodec : Type := bytes -> C.

(** [jsonrpc.NewCodec], which the default codecs name. *)
Context (jsonrpc_NewCodec : NewCodec).

Definition defaultCodecs : gmap bytes NewCodec :=
  {[ lit "application/json" := jsonrpc_NewCodec; lit "application/json-rpc" := jsonrpc_NewCodec ]}.

Definition newCodec (codecs : gmap bytes NewCodec) (contentType : bytes) : result NewCodec :=
  match codecs !! contentType with
  | Some cf => inr cf
  | None =>
      match defaultCodecs !! contentType with
      | Some cf => inr cf
      | None => inl (Text (lit "Unsupported Content-Type: " ++ contentType))
      end
  end.

(** *** One connection *)

Record conn := mkConn {
  cn_rpc : rpcServer A;
  cn_socket : K;
  cn_app : A
}.

Definition newRPCCodec (h : Header) (body : bytes) (sock : K) (c : NewCodec) : rpcCodec (K := K) (C := C) :=
  mkRpcCodec sock (c body) h.

(** The body of [handlePkg]'s loop: whether there is another round. *)
Definition serve_pkg (codecs : gmap bytes NewCodec) (p : Header * bytes) : ST conn bool := fun c =>
  let '(h, body) := p in
  let contentType := at_key h content_type in
  match newCodec codecs contentType with
  | inl err =>
      let '(o, sock) := sock_Send ({[content_type := content_text]}, Error_ err) (cn_socket c) in
      (Ret false, mkConn (cn_rpc c) sock (cn_app c))
  | inr codecFunc =>
      let codec := newRPCCodec h body (cn_socket c) codecFunc in
      let ctx := mkContext (strip_header h) (deadline h) in
      let '(o, s) := serveRequest ctx contentType (mkSState (cn_rpc c) codec (cn_app c)) in
      (match o with
       | Ret None => Ret true
       | Ret (Some _) | Fail _ => Ret false
       | Panic => Panic
       | NoFuel => NoFuel
       end, mkConn (ss_server s) (k_socket (ss_codec s)) (ss_app s))
  end.

Definition recv : ST conn (Header * bytes) := fun c =>
  let '(o, sock) := sock_Recv (cn_socket c) in (o, mkConn (cn_rpc c) sock (cn_app c)).

Fixpoint handle_loop (fuel : nat) (codecs : gmap bytes NewCodec) : ST conn unit :=
  match fuel with
  | O => nofuel
  | S fuel =>
      r <- attempt recv ;;
      match r with
      | inl _ => ret tt
      | inr p =>
          more <- serve_pkg codecs p ;;
          if more : bool then handle_loop fuel codecs else ret tt
      end
  end.

(** A panic of the loop is recovered; the socket is closed in every case.  A
    round takes a package off the connection. *)
Definition handlePkg (codecs : gmap bytes NewCodec) : ST conn unit := fun c =>
  let '(o, c) := handle_loop (S (sock_left (cn_socket c))) codecs c in
  (match o with NoFuel => NoFuel | _ => Ret tt end, mkConn (cn_rpc c) (sock_Close (cn_socket c)) (cn_app c)).

(** *** The server's state *)

Context {W L : Type} `{PR : ProviderRegistry W} `{TR : ServerTransport W L} `{HA : HostAddresses}.

(** [o_Registry] and [o_Transport] tell whether the interfaces are not nil. *)
Record Options := mkOptions {
  o_Codecs : gmap bytes NewCodec;
  o_Registry : bool;
  o_Transport : bool;
  o_ConfList : list ServerConfig;
  o_ServiceConfList : list ServiceConfig
}.

Definition newOptions (opt : list (Options -> Options)) : outcome Options :=
  let opts := fold_left (fun o f => f o) opt (mkOptions ∅ false false [] []) in
  if negb (o_Registry opts) then Panic
  else if negb (o_Transport opts) then Panic
  else Ret opts.

(** [server]: [srv_listeners] has the [listener] of each element of [rpc],
    [srv_closers] the goroutines that close one when [done] is closed. *)
Record server := mkServer {
  srv_rpc : list (rpcServer A);
  srv_listeners : list (option L);
  srv_closers : list nat;
  srv_stopped : bool;
  srv_opts : Options;
  srv_handlers : gmap bytes (Handler A)
}.

Definition newServer (opts : list (Options -> Options)) : outcome server :=
  match newOptions opts with
  | Ret options =>
      Ret (mkServer (map (fun _ => initServer) (o_ConfList options)) (map (fun _ => None) (o_ConfList options)) [] false options ∅)
  | Fail e => Fail e
  | Panic => Panic
  | NoFuel => NoFuel
  end.

Definition set_rpc (rpc : list (rpcServer A)) (s : server) : server :=
  mkServer rpc (srv_listeners s) (srv_closers s) (srv_stopped s) (srv_opts s) (srv_handlers s).

Definition set_opts (o : Options) (s : server) : server :=
  mkServer (srv_rpc s) (srv_listeners s) (srv_closers s) (srv_stopped s) o (srv_handlers s).

Definition set_Registry (r : bool) (s : server) : server :=
  let o := srv_opts s in
  set_opts (mkOptions (o_Codecs o) r (o_Transport o) (o_ConfList o) (o_ServiceConfList o)) s.

Definition set_handlers (h : gmap bytes (Handler A)) (s : server) : server :=
  mkServer (srv_rpc s) (srv_listeners s) (srv_closers s) (srv_stopped s) (srv_opts s) h.

(** *** [Handle] *)

(** [s.rpc[j].register(h)]. *)
Definition register_at (j : nat) (h : Handler A) : ST (server * W) bytes := fun '(s, w) =>
  match srv_rpc s !! j with
  | None => (Panic, (s, w))
  | Some rpc => let '(o, rpc) := register h rpc in (o, (set_rpc (<[j := rpc]> (srv_rpc s)) s, w))
  end.

(** [config.Registry.Register(serviceConf)]; [config] is a copy, whose registry
    is the same.  A nil interface panics. *)
Definition announce (conf : ProviderServiceConfig) : ST (server * W) unit := fun '(s, w) =>
  if negb (o_Registry (srv_opts s)) then (Panic, (s, w))
  else let '(o, w) := reg_Register conf w in (o, (s, w)).

(** The loop over [ConfList] from [j] on, for one service's configuration: the
    new [serviceConf] and [flag]. *)
Fixpoint handle_servers (h : Handler A) (confs : list ServerConfig) (j : nat) (conf : ProviderServiceConfig) (flag : bool) :
    ST (server * W) (ProviderServiceConfig * bool) :=
  match confs with
  | [] => ret (conf, flag)
  | c :: confs =>
      if bool_decide (cf_Protocol c = sc_Protocol (ps_config conf)) then
        methods <- register_at j h ;;
        let conf := mkProvider (ps_config conf) (Address c) methods in
        announce conf ;;;
        handle_servers h confs (S j) conf true
      else handle_servers h confs (S j) conf flag
  end.

Fixpoint handle_services (h : Handler A) (confs : list ServerConfig) (services : list ServiceConfig)
    (conf : ProviderServiceConfig) (flag : bool) : ST (server * W) bool :=
  match services with
  | [] => ret flag
  | sc :: services =>
      if bool_decide (sc_Service sc = sc_Service (ps_config conf)) && bool_decide (sc_Version sc = sc_Version (ps_config conf)) then
        let conf := mkProvider (mkConfig (sc_Protocol sc) (sc_Service (ps_config conf)) (sc_Group sc) (sc_Version (ps_config conf)))
                      (ps_Path conf) (ps_Methods conf) in
        r <- handle_servers h confs 0 conf flag ;;
        handle_services h confs services r.1 r.2
      else handle_services h confs services conf flag
  end.

Definition Handle (h : Handler A) : ST (server * W) unit := fun '(s, w) =>
  let config := srv_opts s in
  let conf := mkProvider (mkConfig [] (h_Service h) [] (h_Version h)) [] [] in
  (flag <- handle_services h (o_ConfList config) (o_ServiceConfList config) conf false ;;
   if flag : bool then fun '(s, w) => (Ret tt, (set_handlers (<[h_Service h := h]> (srv_handlers s)) s, w))
   else fail (Text (lit "fail to register Handler{service:" ++ h_Service h ++ lit ", version:" ++ h_Version h ++ lit "}"))) (s, w).

(** *** [Start] and [Stop] *)

(** What [Start] does to its variables [listener] and [rpc], which the closures
    of the goroutines share, and the goroutines that it starts: [GoAccept]
    calls [Accept] of the variable [listener] and hands a connection to the
    variable [rpc]; [GoClose] has its [rpc] as a parameter. *)
Inductive start_effect :=
| SetListener (l : option L)
| SetRpc (j : nat)
| GoAccept
| GoClose (j : nat).

(** The loop of [Start] from [j] on: the error that it returns, and what was
    done before. *)
Fixpoint start_loop (confs : list ServerConfig) (j : nat) : ST (server * W) (list start_effect * option goerr) :=
  fun '(s, w) =>
    match confs with
    | [] => (Ret ([], None), (s, w))
    | c :: confs =>
        if negb (o_Transport (srv_opts s)) then (Panic, (s, w))
        else
          match t_Listen (Address c) w with
          | (Fail err, w) => (Ret ([SetListener None], Some err), (s, w))
          | (Ret l, w) =>
              match srv_rpc s !! j with
              | None => (Panic, (s, w))
              | Some _ =>
                  let s := mkServer (srv_rpc s) (<[j := Some l]> (srv_listeners s)) (srv_closers s ++ [j])
                             (srv_stopped s) (srv_opts s) (srv_handlers s) in
                  match start_loop confs (S j) (s, w) with
                  | (Ret (es, err), sw) => (Ret (SetListener (Some l) :: SetRpc j :: GoAccept :: GoClose j :: es, err), sw)
                  | other => other
                  end
              end
          | (Panic, w) => (Panic, (s, w))
          | (NoFuel, w) => (NoFuel, (s, w))
          end
    end.

Definition Start : ST (server * W) (list start_effect * option goerr) := fun '(s, w) =>
  start_loop (o_ConfList (srv_opts s)) 0 (s, w).

(** The listeners that each accepting goroutine may find in the variable: the
    one at its start, or one that was assigned later. *)
Fixpoint assigned (es : list start_effect) : list (option L) :=
  match es with
  | [] => []
  | SetListener l :: es => l :: assigned es
  | _ :: es => assigned es
  end.

Fixpoint listeners_seen (cur : option L) (es : list start_effect) : list (list (option L)) :=
  match es with
  | [] => []
  | SetListener l :: es => listeners_seen l es
  | GoAccept :: es => (cur :: assigned es) :: listeners_seen cur es
  | _ :: es => listeners_seen cur es
  end.

(** The value of [rpc] when [Start] is over, which all later connections are
    handed to. *)
Fixpoint rpc_after (cur : option nat) (es : list start_effect) : option nat :=
  match es with
  | [] => cur
  | SetRpc j :: es => rpc_after (Some j) es
  | _ :: es => rpc_after cur es
  end.

(** The goroutines that wait for [done], and [Accept] after them, end before the
    registry is closed. *)
Definition close_listeners (s : server) (w : W) : W :=
  fold_left (fun w j => match srv_listeners s !! j with Some (Some l) => l_Close l w | _ => w end) (srv_closers s) w.

(** [srv_stopped] is the [once]. *)
Definition Stop : ST (server * W) unit := fun '(s, w) =>
  if srv_stopped s then (Ret tt, (s, w))
  else
    let w := close_listeners s w in
    let s := mkServer (srv_rpc s) (srv_listeners s) [] true (srv_opts s) (srv_handlers s) in
    if o_Registry (srv_opts s) then
      match reg_Close w with
      | (Ret _, w) => (Ret tt, (set_Registry false s, w))
      | (o, w) => (o, (s, w))
      end
    else (Ret tt, (s, w)).

End Serve.
