(* ===== verification/ServeSafe.v ===== *)
(** * What the server guarantees

    Theorems about [Serve]: a connection's requests are answered in their order,
    the loop ends with its socket closed whatever a handler does, what [Handle]
    announces, and what the goroutines of [Start] share. *)
From S2P Require Import Prelude.
From S2P Require Import Registry Common Client.
From S2P Require Import Server ServerSafe Serve.

(** ** Runs that end and take nothing back

    [len] counts the packages that have not been received yet; [I] is kept. *)

Definition within {S X} (I : S -> Prop) (len : S -> nat) (m : ST S X) : Prop :=
  forall s, I s -> (m s).1 <> NoFuel /\ I (m s).2 /\ (len (m s).2 <= len s)%nat.

(** What remains of a step when its outcome is known. *)
Ltac run_cases := cbn in *; destruct_and?; split_and?; first [done | congruence | lia].

Create HintDb within.

Lemma within_bind {S X Y} I len (m : ST S X) (k : X -> ST S Y) :
  within I len m -> (forall x, within I len (k x)) -> within I len (bind m k).
Proof.
  intros Hm Hk s Hs. unfold bind. specialize (Hm s Hs). destruct (m s) as [[x|e| |] s1]; cbn in Hm; destruct Hm as (Hn & H1 & Hl);
    try done.
  clear Hn. specialize (Hk x s1 H1). destruct Hk as (Hn & H2 & Hl2). split; [done|]. split; [done|]. cbn in *. lia.
Qed.

Lemma within_ret {S X} I len (x : X) : within I len (@ret S X x).
Proof. intros s Hs. by split. Qed.

Lemma within_panic {S X} I len : within I len (@panic S X).
Proof. intros s Hs. by split. Qed.

Lemma within_attempt {S X} I len (m : ST S X) : within I len m -> within I len (attempt m).
Proof. intros Hm s Hs. unfold attempt. specialize (Hm s Hs). destruct (m s) as [[x|e| |] s1]; run_cases. Qed.

(** A step that neither fails to end nor touches what is counted. *)
Lemma within_step {S X} I len (m : ST S X) :
  (forall s, I s -> (m s).1 <> NoFuel /\ I (m s).2 /\ len (m s).2 = len s) -> within I len m.
Proof. intros Hm s Hs. destruct (Hm s Hs) as (? & ? & ->). by split. Qed.

#[local] Hint Resolve within_bind within_ret within_panic within_attempt : within.

(** What a socket promises to the loop over it: [sock_left] bounds the packages to
    come, and each takes one of them away; once one has come, [Send] returns.
    [sock_inv] is whatever the socket keeps true of itself. *)
Class SocketEnds (K : Type) `{SK : Socket K} := {
  sock_inv : K -> Prop;
  sock_live : K -> Prop;
  live_inv k : sock_live k -> sock_inv k;
  recv_inv k : sock_inv k -> sock_inv (sock_Recv k).2;
  close_inv k : sock_inv k -> sock_inv (sock_Close k);
  recv_ends k : (sock_Recv k).1 <> NoFuel;
  recv_left k : (sock_left (sock_Recv k).2 <= sock_left k)%nat;
  recv_live k : sock_live k -> sock_live (sock_Recv k).2;
  recv_takes k p k' : sock_inv k -> sock_Recv k = (Ret p, k') -> sock_live k' /\ (sock_left k' < sock_left k)%nat;
  send_ends p k : sock_live k ->
    (sock_Send p k).1 <> NoFuel /\ sock_live (sock_Send p k).2 /\ (sock_left (sock_Send p k).2 <= sock_left k)%nat;
  close_live k : sock_live k -> sock_live (sock_Close k) /\ (sock_left (sock_Close k) <= sock_left k)%nat
}.

#[export] Instance QueueEnds : SocketEnds socket.
Proof.
  refine {| sock_inv := fun _ => True; sock_live := fun _ => True |}; queue; try done.
  - intros k. by destruct (sk_in k) as [|[e|p] rest].
  - intros k. destruct (sk_in k) as [|[e|p] rest] eqn:E; cbn; rewrite ?E; cbn; lia.
  - intros k p k' _. destruct (sk_in k) as [|[e|q] rest] eqn:E; [done..|]. intros [= _ <-]. cbn. split; [done|lia].
  - intros p k _. by destruct (sk_refuses k).
Defined.

Section Loop.
Context `{VS : Values} `{UT : UnicodeTable} `{ET : ErrorText} {A : Type} {K : Type} `{SE : SocketEnds K}
  {C : Type} `{SC : ServerCodec C value}.
Abbreviation state := (sstate (A := A) (K := K) (C := C)).

(** The codec's methods end; they may panic. *)
Record codec_halts : Prop := {
  halts_ReadHeader mt s : (sc_ReadHeader mt s).1 <> NoFuel;
  halts_ReadBody b s : (sc_ReadBody b s).1 <> NoFuel;
  halts_Write v s : (sc_Write v s).1 <> NoFuel;
  halts_Close s : (sc_Close s).1 <> NoFuel
}.

(** So do the functions of the application. *)
Definition func_halts (m : method A) : Prop :=
  match m_Func m with
  | FUnary f => forall ctx argv replyv a, (f ctx argv replyv a).1 <> NoFuel
  | FStream _ => True
  end.

Definition pending (c : rpcCodec (K := K) (C := C)) : nat := sock_left (k_socket c).
Definition waiting (s : state) : nat := pending (ss_codec s).
Definition open (c : rpcCodec (K := K) (C := C)) : Prop := sock_live (k_socket c).
Definition halting (s : state) : Prop := table_ok func_halts (ss_server s) /\ open (ss_codec s).

Context (HC : codec_halts).

Lemma within_WriteResponse r body last : within open pending (WriteResponse r body last).
Proof.
  intros c Hc. unfold WriteResponse. match goal with |- context [sc_Write ?a ?b] => pose proof (halts_Write HC a b) as H end.
  destruct (sc_Write _ _) as [[] [k m]]; cbn in H; try done. unfold on_socket. cbn [k_socket set_codec].
  match goal with |- context [sock_Send ?p _] => pose proof (send_ends p (k_socket c) Hc) as Hs end. by destruct (sock_Send _ _).
Qed.

Lemma within_ReadRequestBody b : within open pending (ReadRequestBody b).
Proof.
  intros c Hc. unfold ReadRequestBody, on_codec. pose proof (halts_ReadBody HC b (k_codec c)) as H.
  by destruct (sc_ReadBody b (k_codec c)).
Qed.

Lemma within_ReadRequestHeader first :
  within (open ∘ fst) (pending ∘ fst) (ReadRequestHeader (K := K) (C := C) first).
Proof.
  intros [c r] Hc. unfold ReadRequestHeader. destruct first.
  - match goal with |- context [sc_ReadHeader ?a ?b] => pose proof (halts_ReadHeader HC a b) as H end.
    by destruct (sc_ReadHeader _ _) as [o [k m]].
  - unfold on_socket. cbn in Hc. pose proof (recv_ends (k_socket c)) as Hn. pose proof (recv_left (k_socket c)) as Hl.
    pose proof (recv_live (k_socket c) Hc) as Hv. destruct (sock_Recv (k_socket c)) as [[[h body]|e| |] k1]; try done.
    cbn [fst snd] in *.
    match goal with |- context [sc_ReadHeader ?a ?b] => pose proof (halts_ReadHeader HC a b) as H end.
    by destruct (sc_ReadHeader _ _) as [o [k m]].
Qed.

Lemma within_rpcCodec_Close : within open pending rpcCodec_Close.
Proof.
  intros c Hc. unfold rpcCodec_Close. match goal with |- context [sc_Close ?b] => pose proof (halts_Close HC b) as H end.
  destruct (close_live (k_socket c) Hc). by destruct (sc_Close _) as [[] k].
Qed.

Lemma within_Recv msg : within (open ∘ snd) (pending ∘ snd) (Recv (K := K) (C := C) msg).
Proof.
  intros [s c] Hc. unfold Recv. destruct (within_ReadRequestHeader false (c, zero_request) Hc) as (Hn & H1 & Hl).
  destruct (ReadRequestHeader false (c, zero_request)) as [[x|e| |] [c1 r]]; cbn in *; try done.
  - destruct (within_ReadRequestBody (Some msg) c1 H1) as (Hn2 & H2 & Hl2).
    destruct (ReadRequestBody (Some msg) c1) as [o c2]. cbn in *. split; [done|]. split; [done|]. lia.
  - destruct (within_ReadRequestBody None c1 H1) as (Hn2 & H2 & Hl2).
    destruct (ReadRequestBody None c1) as [[]  c2]; cbn in *; try done; (split; [done|]; split; [done|]; lia).
Qed.

(** Lifting a step of the codec to the stream's state. *)
Lemma within_Send msg : within (open ∘ snd) (pending ∘ snd) (Send (K := K) (C := C) msg).
Proof.
  intros [s c] Hc. unfold Send. match goal with |- context [WriteResponse ?a ?b ?d c] => pose proof (within_WriteResponse a b d c Hc) as H end.
  by destruct (WriteResponse _ _ _ c).
Qed.

Lemma within_stream_Close : within (open ∘ snd) (pending ∘ snd) (stream_Close (K := K) (C := C)).
Proof.
  intros [s c] Hc. unfold stream_Close. pose proof (within_rpcCodec_Close c Hc) as H. by destruct (rpcCodec_Close c).
Qed.

#[local] Hint Resolve within_Recv within_Send within_stream_Close : within.

Lemma within_run_stream p : within (open ∘ snd) (pending ∘ snd) (run_stream (K := K) (C := C) p).
Proof. induction p; cbn [run_stream]; auto with within. Qed.

(** *** Steps of the server *)

Lemma within_on_server {X} (f : ST (rpcServer A) X) :
  (forall s, table_ok func_halts s -> (f s).1 <> NoFuel /\ table_ok func_halts (f s).2) -> within halting waiting (on_server (K := K) (C := C) f).
Proof.
  intros Hf. apply within_step. intros s [Hs Ho]. unfold on_server. specialize (Hf (ss_server s) Hs).
  destruct (f (ss_server s)) as [o v]. by destruct Hf.
Qed.

Lemma within_with_codec {X} (f : ST (rpcCodec (K := K) (C := C)) X) :
  within open pending f -> within halting waiting (with_codec (A := A) f).
Proof.
  intros Hf s [Hs Ho]. unfold with_codec, waiting, halting. destruct (Hf (ss_codec s) Ho) as (Hn & Hc & Hl).
  by destruct (f (ss_codec s)).
Qed.

Lemma within_getRequest : within halting waiting (on_server (K := K) (C := C) getRequest).
Proof. apply within_on_server. intros s Hs. unfold getRequest. by destruct (freeReq s). Qed.

Lemma within_freeRequest req : within halting waiting (on_server (K := K) (C := C) (freeRequest req)).
Proof. apply within_on_server. intros s Hs. unfold freeRequest. destruct req; [|done]. by destruct (_ <? _)%nat. Qed.

Lemma within_getResponse : within halting waiting (on_server (K := K) (C := C) getResponse).
Proof. apply within_on_server. intros s Hs. unfold getResponse. by destruct (freeRsp s). Qed.

Lemma within_freeRsponse rsp : within halting waiting (on_server (K := K) (C := C) (freeRsponse rsp)).
Proof. apply within_on_server. intros s Hs. unfold freeRsponse. by destruct (_ <? _)%nat. Qed.

#[local] Hint Resolve within_getRequest within_freeRequest within_getResponse within_freeRsponse
  within_with_codec within_WriteResponse within_ReadRequestBody : within.

Lemma within_sendResponse req reply errmsg last : within halting waiting (sendResponse req reply errmsg last).
Proof. unfold sendResponse. auto 10 with within. Qed.

#[local] Hint Resolve within_sendResponse : within.

Lemma within_call ctx mt req argv replyv ct :
  func_halts (mt_method mt) -> within halting waiting (call ctx mt req argv replyv ct).
Proof.
  intros Hf. unfold call. apply within_bind.
  { apply within_on_server. intros s Hs. split; [done|]. by apply count_call_ok. }
  intros _. apply within_bind.
  { apply within_step. intros s Hs. destruct (call_ok _ _); run_cases. }
  intros _. unfold func_halts in Hf. destruct (stream mt), (m_Func (mt_method mt)) as [f|f]; auto with within.
  - apply within_bind; [|intros prog; apply within_bind; [|auto with within]].
    + apply within_step. intros s Hs. by destruct (f _ _ _).
    + intros s Hs. unfold on_stream. match goal with |- context [run_stream prog ?x] => pose proof (within_run_stream prog x (proj2 Hs)) as H end.
      destruct Hs as [Hs Ho]. unfold waiting, halting in *. destruct (run_stream prog _) as [o [st c]]. run_cases.
  - apply within_bind; [|intros []; auto with within].
    apply within_step. intros s Hs. specialize (Hf ctx argv replyv (ss_app s)). destruct (f _ _ _ _); run_cases.
Qed.

(** A result of a state where [n] packages were waiting; [P] of what it returns. *)
Definition leads {X} (n : nat) (P : X -> Prop) (r : outcome X * state) : Prop :=
  r.1 <> NoFuel /\ halting r.2 /\ (waiting r.2 <= n)%nat /\ forall x, r.1 = Ret x -> P x.

(** A method that a request was found to be for halts. *)
Definition found_halts (h : header_read) : Prop := forall mt, hr_mtype h = Some mt -> func_halts (mt_method mt).

Lemma within_readRequestHeader (s : state) :
  halting s -> leads (waiting s) found_halts (readRequestHeader s).
Proof.
  intros Hs. unfold readRequestHeader, bind. destruct (within_getRequest s Hs) as (Hn & H1 & Hl).
  destruct (on_server getRequest s) as [[req|e| |] s1]; try done. cbn in H1, Hl.
  destruct (within_ReadRequestHeader true (ss_codec s1, req) (proj2 H1)) as (Hn2 & Ho & Hl2). destruct H1 as [H1 _].
  destruct (ReadRequestHeader true (ss_codec s1, req)) as [[x|e| |] [c r]]; cbn in Hl2, Hn2; try done.
  - assert (Hret : forall h, found_halts h -> leads (waiting s) found_halts (Ret h, mkSState (ss_server s1) c (ss_app s1))).
    { intros h Hh. split; [done|]. split; [done|]. split; [unfold waiting in *; cbn in *; lia|]. by intros ? [= <-]. }
    destruct (_ || _)%bool; [by apply Hret|]. cbn [ss_server].
    destruct (serviceMap (ss_server s1) !! q_Service r) as [sv|] eqn:Esv; [|by apply Hret].
    destruct (s_method sv !! q_Method r) as [mt|] eqn:Emt; [|by apply Hret].
    apply Hret. intros mt' [= <-]. by destruct (H1 _ _ _ _ Esv Emt) as (m & n & _ & <- & _ & Hg).
  - destruct (_ || _)%bool; (split; [done|]; split; [done|]; split; [unfold waiting in *; cbn in *; lia|]; by intros ? [= <-]).
  - split; [done|]. split; [done|]. split; [unfold waiting in *; cbn in *; lia|done].
Qed.

Lemma within_readRequest (s : state) :
  halting s -> leads (waiting s) (fun q => found_halts (rr_header q)) (readRequest s).
Proof.
  intros Hs. unfold readRequest, bind at 1. pose proof (within_readRequestHeader s Hs) as (Hn & H1 & Hl & Hf).
  destruct (readRequestHeader s) as [[h|e| |] s1]; cbn in Hn, H1, Hl, Hf; try done.
  specialize (Hf h eq_refl).
  assert (Hk : forall (k : ST state request_read), within halting waiting k ->
    (forall s q, (k s).1 = Ret q -> hr_mtype (rr_header q) = hr_mtype h) ->
    leads (waiting s) (fun q => found_halts (rr_header q)) (k s1)).
  { intros k Hk Hq. destruct (Hk s1 H1) as (? & ? & ?). split; [done|]. split; [done|]. split; [lia|].
    intros q Eq mt Emt. rewrite (Hq _ _ Eq) in Emt. by apply Hf. }
  assert (Hbody : forall b (k : result value -> request_read), (forall r, hr_mtype (rr_header (k r)) = hr_mtype h) ->
    leads (waiting s) (fun q => found_halts (rr_header q)) ((r <- attempt (with_codec (ReadRequestBody b)) ;; ret (k r)) s1)).
  { intros b k Hkk. apply Hk; [auto with within|]. intros s' q. unfold bind. destruct (attempt _ s') as [[x|e| |] s2]; try done.
    intros [= <-]. apply Hkk. }
  assert (Hret : leads (waiting s) (fun q => found_halts (rr_header q)) (ret (mkRequestRead h nil_value nil_value) s1)).
  { apply Hk; [auto with within|]. by intros s' q' [= <-]. }
  pose proof (Hbody None (fun _ => mkRequestRead h nil_value nil_value) (fun _ => eq_refl)) as Hskip.
  destruct (hr_err h); [by destruct (negb (hr_keep h))|].
  destruct (hr_mtype h) as [mt|] eqn:Emt; [|by destruct (negb (hr_keep h))].
  destruct (stream mt); [done|]. apply Hk.
  - apply within_bind; [auto with within|]. intros []; auto with within.
  - intros s' q. unfold bind. destruct (attempt _ s') as [[[e|v]|e| |] s2]; try done; by intros [= <-].
Qed.

Lemma within_serveRequest ctx ct : within halting waiting (serveRequest ctx ct).
Proof.
  intros s Hs. enough (leads (waiting s) (fun _ => True) (serveRequest ctx ct s)) as (? & ? & ? & _) by done.
  unfold serveRequest, bind at 1. pose proof (within_readRequest s Hs) as (Hn & H1 & Hl & Hf).
  destruct (readRequest s) as [[q|e| |] s1]; cbn in Hn, H1, Hl, Hf; try done.
  match goal with |- context [?m s1] => assert (Hk : within halting waiting m) end.
  { destruct (hr_err (rr_header q)).
    - destruct (negb _); [auto with within|]. destruct (hr_req (rr_header q)); auto with within.
    - destruct (hr_mtype (rr_header q)) as [mt|] eqn:Emt; [|auto with within].
      destruct (hr_req (rr_header q)) as [req|]; [|auto with within].
      apply within_bind; [|auto with within]. apply within_call. by apply (Hf q eq_refl). }
  destruct (Hk s1 H1) as (? & ? & ?). split; [done|]. split; [done|]. split; [lia|done].
Qed.

End Loop.

(** ** A connection *)

Section Connection.
Context `{VS : Values} `{UT : UnicodeTable} `{ET : ErrorText} {A : Type} {K : Type} `{SE : SocketEnds K}
  {C : Type} `{SC : ServerCodec C value}.
Context (jsonrpc_NewCodec : NewCodec (C := C)).
Abbreviation state := (sstate (A := A) (K := K) (C := C)).
Abbreviation conn := (conn (K := K) (A := A)).
Abbreviation newCodec := (newCodec jsonrpc_NewCodec).
Abbreviation serve_pkg := (serve_pkg (A := A) (K := K) jsonrpc_NewCodec).
Abbreviation handle_loop := (handle_loop (A := A) (K := K) jsonrpc_NewCodec).
Abbreviation handlePkg := (handlePkg (A := A) (K := K) jsonrpc_NewCodec).

Definition left_over (c : conn) : nat := sock_left (cn_socket c).
Definition halting_conn (c : conn) : Prop := table_ok func_halts (cn_rpc c) /\ sock_inv (cn_socket c).
Definition live_conn (c : conn) : Prop := table_ok func_halts (cn_rpc c) /\ sock_live (cn_socket c).

Lemma live_halting c : live_conn c -> halting_conn c.
Proof. intros [? ?%live_inv]. by split. Qed.

Lemma within_serve_pkg (HC : codec_halts (C := C)) codecs p : within live_conn left_over (serve_pkg codecs p).
Proof.
  intros [rpc sk a] [Hs Ho]. destruct p as [h body]. unfold Serve.serve_pkg. cbn [cn_rpc cn_socket cn_app] in *.
  destruct (newCodec codecs _) as [err|cf].
  - match goal with |- context [sock_Send ?p sk] => pose proof (send_ends p sk Ho) as (Hn & H1 & H2) end. unfold left_over, live_conn. destruct (sock_Send _ sk). by run_cases.
  - match goal with |- context [serveRequest ?x ?y ?z] => pose proof (within_serveRequest HC x y z (conj Hs Ho)) as H end.
    unfold live_conn, halting_conn, left_over, halting, waiting, pending, open in *. destruct (serveRequest _ _ _) as [[[e|]|e| |] s']; run_cases.
Qed.

Lemma loop_ends (HC : codec_halts (C := C)) codecs fuel : forall c,
  halting_conn c -> (left_over c < fuel)%nat ->
  (handle_loop fuel codecs c).1 <> NoFuel /\ halting_conn (handle_loop fuel codecs c).2.
Proof.
  induction fuel as [|fuel IH]; intros c Hc Hl; [lia|]. destruct c as [rpc sk a]. destruct Hc as [Ht Hi]. cbn [Serve.handle_loop].
  unfold bind at 1 3, attempt, recv. unfold left_over in *. cbn [cn_rpc cn_socket cn_app] in *.
  pose proof (recv_ends sk) as Hn. pose proof (recv_takes sk) as Htk. pose proof (recv_inv sk Hi) as Hi1.
  destruct (sock_Recv sk) as [[p|e| |] k1]; try done. destruct (Htk p k1 Hi eq_refl) as [Hv Hlt]. unfold bind.
  destruct (within_serve_pkg HC codecs p (mkConn rpc k1 a) (conj Ht Hv)) as (Hn1 & H1%live_halting & Hl1).
  destruct (serve_pkg codecs p _) as [[[]|e| |] c1]; try done. apply IH; [done|]. unfold left_over in *. cbn in *. lia.
Qed.

(** C28. The loop over a connection ends when the connection does, and its socket
    is closed, whatever the peer sends, and also when a handler or the codec
    panics: the panic does not leave the connection's goroutine, and the table of
    services is as good as before. *)
Theorem handlePkg_ends codecs c :
  codec_halts (C := C) -> halting_conn c ->
  exists o c1, handle_loop (S (left_over c)) codecs c = (o, c1) /\ o <> NoFuel /\ halting_conn c1
    /\ handlePkg codecs c = (Ret tt, mkConn (cn_rpc c1) (sock_Close (cn_socket c1)) (cn_app c1)).
Proof.
  intros HC Hc. destruct (loop_ends HC codecs (S (left_over c)) c Hc) as [Hn H1]; [lia|].
  unfold Serve.handlePkg. fold (left_over c). destruct (handle_loop (S (left_over c)) codecs c) as [o c1]. cbn in Hn, H1.
  exists o, c1. split; [done|]. split; [done|]. split; [done|]. by destruct o.
Qed.

End Connection.

(** *** A connection of given packages *)

Section Packages.
Context `{VS : Values} `{UT : UnicodeTable} `{ET : ErrorText} {A : Type} {C : Type} `{SC : ServerCodec C value}.
Context (jsonrpc_NewCodec : NewCodec (C := C)).
Abbreviation state := (sstate (A := A) (K := socket) (C := C)).
Abbreviation conn := (conn (K := socket) (A := A)).
Abbreviation newCodec := (newCodec jsonrpc_NewCodec).
Abbreviation serve_pkg := (serve_pkg (A := A) (K := socket) jsonrpc_NewCodec).
Abbreviation handle_loop := (handle_loop (A := A) (K := socket) jsonrpc_NewCodec).
Abbreviation handlePkg := (handlePkg (A := A) (K := socket) jsonrpc_NewCodec).

(** With methods that return and a codec that does not panic, no panic is
    recovered either. *)
Lemma good_func_halts (m : method A) : good_method m -> func_halts m.
Proof.
  intros (_ & _ & Hf). unfold func_halts, func_total in *. destruct (m_Func m) as [f|f]; [|done].
  intros ctx argv replyv a. destruct (Hf ctx argv replyv a) as [r ->]. done.
Qed.

Lemma table_ok_weaken (P Q : method A -> Prop) (s : rpcServer A) : (forall m, P m -> Q m) -> table_ok P s -> table_ok Q s.
Proof. intros H Hs sname sv mname mt Hsv Hmt. destruct (Hs _ _ _ _ Hsv Hmt) as (m & n & ? & ? & ? & ?). exists m, n. auto. Qed.

Lemma serve_pkg_good (HS : codec_safe (C := C)) codecs p c :
  table_ok good_method (cn_rpc c) -> exists more c', serve_pkg codecs p c = (Ret more, c') /\ table_ok good_method (cn_rpc c').
Proof.
  intros Hc. destruct c as [rpc sk a], p as [h body]. unfold Serve.serve_pkg. cbn [cn_rpc cn_socket cn_app].
  destruct (newCodec codecs _) as [err|cf].
  - match goal with |- context [sock_Send ?p sk] => destruct (sock_Send p sk) end. by eexists _, _.
  - match goal with |- context [serveRequest ?x ?y ?z] => destruct (serveRequest_sound HS x y z Hc) as (r & s' & -> & Hs') end.
    destruct r; by eexists _, _.
Qed.

Lemma loop_good (HC : codec_halts (C := C)) (HS : codec_safe (C := C)) codecs fuel : forall c,
  table_ok good_method (cn_rpc c) -> (left_over c < fuel)%nat ->
  exists c', handle_loop fuel codecs c = (Ret tt, c') /\ table_ok good_method (cn_rpc c').
Proof.
  induction fuel as [|fuel IH]; intros c Hc Hl; [lia|]. destruct c as [rpc sk a]. cbn [Serve.handle_loop].
  unfold bind at 1 2, attempt, recv. unfold left_over in *; queue. cbn [cn_rpc cn_socket cn_app] in *.
  destruct (sk_in sk) as [|[e|p] rest] eqn:Ein; [by eexists..|].
  set (c1 := mkConn rpc (mkSocket rest (sk_out sk) (sk_refuses sk) (sk_closed sk)) a).
  destruct (serve_pkg_good HS codecs p c1 Hc) as (more & c2 & E & H2).
  assert (Hv : live_conn c1) by (split; [by eapply table_ok_weaken, Hc; apply good_func_halts|exact I]).
  destruct (within_serve_pkg jsonrpc_NewCodec HC codecs p c1 Hv) as (_ & _ & Hl2).
  unfold bind. rewrite E in Hl2 |- *. destruct more; [|by eexists]. apply IH; [done|]. unfold left_over in *. cbn in *. rewrite Ein in Hl. cbn in Hl. lia.
Qed.

End Packages.

(** ** Any socket *)

Section AnySocket.
Context `{VS : Values} `{UT : UnicodeTable} `{ET : ErrorText} {A : Type} {K : Type} `{SK : Socket K}.
Context {C : Type} `{SC : ServerCodec C value}.
Context (jsonrpc_NewCodec : NewCodec (C := C)).
Abbreviation newCodec := (newCodec jsonrpc_NewCodec).
Abbreviation serve_pkg := (serve_pkg (A := A) (K := K) jsonrpc_NewCodec).
Abbreviation handle_loop := (handle_loop (A := A) (K := K) jsonrpc_NewCodec).
Abbreviation handlePkg := (handlePkg (A := A) (K := K) jsonrpc_NewCodec).

(** A package of a content type that no codec is known for is answered with
    a text, and nothing more is read from the connection. *)
Lemma unsupported_type codecs rpc k h body k1 o k2 a :
  sock_Recv k = (Ret (h, body), k1) ->
  sock_Send ({[content_type := lit "text/plain"]}, lit "Unsupported Content-Type: " ++ at_key h content_type) k1 = (o, k2) ->
  codecs !! at_key h content_type = None ->
  at_key h content_type <> lit "application/json" -> at_key h content_type <> lit "application/json-rpc" ->
  handlePkg codecs (mkConn rpc k a) = (Ret tt, mkConn rpc (sock_Close k2) a).
Proof.
  intros Hr Hs Hc H1 H2.
  assert (Hno : newCodec codecs (at_key h content_type) = inl (Text (lit "Unsupported Content-Type: " ++ at_key h content_type))).
  { unfold Serve.newCodec. rewrite Hc. unfold defaultCodecs. by rewrite lookup_insert_ne, lookup_singleton_ne. }
  unfold Serve.handlePkg. cbn [cn_socket Serve.handle_loop]. unfold bind, attempt, recv. cbn [cn_socket cn_rpc cn_app].
  rewrite Hr. unfold Serve.serve_pkg. rewrite Hno. cbn [Error_ cn_socket cn_rpc cn_app]. change content_text with (lit "text/plain"). by rewrite Hs.
Qed.

(** A package whose header the codec cannot read is answered by nothing, whatever
    the codec has put into its buffer. *)
Lemma undecodable codecs h body cf e k m rpc sk a :
  newCodec codecs (at_key h content_type) = inr cf ->
  sc_ReadHeader codec_Request (cf body, mkCodecMessage [] [] 0 [] 0 h) = (Fail e, (k, m)) ->
  exists rpc', serve_pkg codecs (h, body) (mkConn rpc sk a) = (Ret false, mkConn rpc' sk a) /\ serviceMap rpc' = serviceMap rpc.
Proof.
  intros Hcf Eh. unfold Serve.serve_pkg. cbn [cn_rpc cn_socket cn_app]. rewrite Hcf.
  unfold serveRequest, readRequest, readRequestHeader, bind, on_server. cbn [ss_server ss_codec ss_app].
  assert (Hg : exists req rpc', getRequest rpc = (Ret req, rpc') /\ serviceMap rpc' = serviceMap rpc).
  { unfold getRequest. destruct (freeReq rpc); by eexists _, _. }
  destruct Hg as (req & rpc' & -> & Hm). cbn [ss_server ss_codec ss_app]. unfold ReadRequestHeader, newRPCCodec. cbn [k_header k_codec].
  rewrite Eh. exists rpc'. split; [|done]. by destruct (_ || _).
Qed.

(** *** Requests in their order

    What the server is for a client: a table of methods.  [answered] is one
    request and its response, over the states of the application. *)

Definition uncount (mt : methodType A) : methodType A :=
  mkMethodType (mt_method mt) (ArgType mt) (ReplyType mt) (ContextType mt) (stream mt) 0.

(** The table without the counters. *)
Definition table_of (s : rpcServer A) : gmap bytes (gmap bytes (methodType A)) :=
  (fun sv => uncount <$> s_method sv) <$> serviceMap s.

Inductive answered (codecs : gmap bytes (NewCodec (C := C))) (tbl : gmap bytes (gmap bytes (methodType A))) :
    A -> Header * bytes -> Header * bytes -> A -> Prop :=
| answered_unary h body cf k1 m1 ms mt f v k2 err reply a a' k3 m3 :
    newCodec codecs (at_key h content_type) = inr cf ->
    sc_ReadHeader codec_Request (cf body, mkCodecMessage [] [] 0 [] 0 h) = (Ret tt, (k1, m1)) ->
    cm_Target m1 <> [] -> cm_Method m1 <> [] ->
    tbl !! cm_Target m1 = Some ms -> ms !! cm_Method m1 = Some mt ->
    stream mt = false -> m_Func (mt_method mt) = FUnary f ->
    sc_ReadBody (Some (zero_of (elem_type (ArgType mt)))) k1 = (Ret v, k2) ->
    call_ok (call_args mt v) (m_In (mt_method mt)) = true ->
    f (mkContext (strip_header h) (deadline h)) v (zero_of (elem_type (default (ArgType mt) (ReplyType mt)))) a
      = (Ret (err, reply), a') ->
    sc_Write (if bool_decide (default [] err = []) then reply else invalidRequest)
      (wbuf_Reset k2, mkCodecMessage (cm_Target m1) (cm_Method m1) (cm_ID m1) (default [] err) codec_Response ∅)
      = (Ret tt, (k3, m3)) ->
    answered codecs tbl a (h, body) (<[content_type := at_key h content_type]> (cm_Header m3), wbuf_Bytes k3) a'.

Inductive answers (codecs : gmap bytes (NewCodec (C := C))) (tbl : gmap bytes (gmap bytes (methodType A))) :
    A -> list (Header * bytes) -> list (Header * bytes) -> A -> Prop :=
| answers_nil a : answers codecs tbl a [] [] a
| answers_cons a p r a1 ps rs a2 :
    answered codecs tbl a p r a1 -> answers codecs tbl a1 ps rs a2 -> answers codecs tbl a (p :: ps) (r :: rs) a2.

Lemma table_of_count req (s : rpcServer A) : table_of (count_call req s) = table_of s.
Proof.
  unfold table_of, count_call. cbn. apply map_eq. intros i. rewrite !lookup_fmap.
  destruct (decide (i = q_Service req)) as [->|Hi]; [|by rewrite lookup_alter_ne].
  rewrite lookup_alter_eq. destruct (serviceMap s !! q_Service req) as [sv|]; [|done]. cbn. f_equal.
  apply map_eq. intros k. rewrite !lookup_fmap.
  destruct (decide (k = q_Method req)) as [->|Hk]; [|by rewrite lookup_alter_ne].
  rewrite lookup_alter_eq. by destruct (s_method sv !! q_Method req).
Qed.

Lemma table_of_services (s s' : rpcServer A) : serviceMap s = serviceMap s' -> table_of s = table_of s'.
Proof. unfold table_of. by intros ->. Qed.

Lemma table_of_find (s : rpcServer A) req ms mt :
  q_Service req <> [] -> q_Method req <> [] ->
  table_of s !! q_Service req = Some ms -> ms !! q_Method req = Some mt ->
  exists mt', find_method s req = inr mt' /\ uncount mt' = mt.
Proof.
  intros Hs Hm Ht Hmt. unfold table_of in Ht. rewrite lookup_fmap in Ht. unfold find_method.
  rewrite !bool_decide_eq_false_2 by done. cbn. destruct (serviceMap s !! q_Service req) as [sv|]; [|done].
  injection Ht as <-. rewrite lookup_fmap in Hmt. destruct (s_method sv !! q_Method req) as [mt'|]; [|done].
  injection Hmt as <-. by exists mt'.
Qed.

Lemma serve_pkg_answered codecs rpc a p r a' sk sk' :
  answered codecs (table_of rpc) a p r a' -> sock_Send r sk = (Ret tt, sk') ->
  exists rpc', serve_pkg codecs p (mkConn rpc sk a) = (Ret true, mkConn rpc' sk' a') /\ table_of rpc' = table_of rpc.
Proof.
  destruct 1 as [h body cf k1 m1 ms mt f v k2 err reply a a' k3 m3 Hcf Eh Hs Hm Hms Hmt Hst Hf Eb Hok Ecall Ew].
  intros Hsend. unfold Serve.serve_pkg. cbn [cn_rpc cn_socket cn_app]. rewrite Hcf.
  set (req := mkReq (cm_Target m1) (cm_Method m1) (cm_ID m1)).
  destruct (table_of_find rpc req ms mt Hs Hm Hms Hmt) as (mt' & Hfind & Hun). subst mt.
  set (codec := newRPCCodec h body sk cf).
  pose proof (serve_unary (mkSState rpc codec a) (mkContext (strip_header h) (deadline h)) (at_key h content_type)
    (mkRpcCodec sk k1 h) req mt' f v (mkRpcCodec sk k2 h) err reply a' (Ret tt)
    (mkRpcCodec sk' k3 h))
    as Hserve.
  destruct Hserve as (s' & E & Hc & Ha & Hmap).
  - unfold ReadRequestHeader. cbn [ss_codec]. unfold codec, newRPCCodec. cbn [k_codec k_header]. by rewrite Eh.
  - exact Hfind.
  - exact Hst.
  - exact Hf.
  - unfold ReadRequestBody, on_codec. cbn [k_codec]. change (ArgType mt') with (ArgType (uncount mt')). by rewrite Eb.
  - exact Hok.
  - exact Ecall.
  - unfold answer, WriteResponse. cbn [k_codec k_header p_Service p_Method p_Seq p_Error q_Service q_Method q_Seq req]. rewrite Ew. unfold on_socket, set_codec. cbn [k_socket k_codec k_header]. by rewrite Hsend.
  - by left.
  - rewrite E. exists (ss_server s'). rewrite Hc, Ha. split; [done|].
    rewrite (table_of_services _ _ Hmap). apply table_of_count.
Qed.

(** A request for a service or a method that is not there: the answer is the error's
    text, and it is the last. *)
Lemma serve_pkg_refused codecs h body cf k1 m1 e ob k2 k3 m3 rpc a sk sk' :
  newCodec codecs (at_key h content_type) = inr cf ->
  sc_ReadHeader codec_Request (cf body, mkCodecMessage [] [] 0 [] 0 h) = (Ret tt, (k1, m1)) ->
  find_method rpc (mkReq (cm_Target m1) (cm_Method m1) (cm_ID m1)) = inl e ->
  sc_ReadBody None k1 = (ob, k2) -> (match ob with Ret _ | Fail _ => True | _ => False end) ->
  sc_Write invalidRequest (wbuf_Reset k2, mkCodecMessage (cm_Target m1) (cm_Method m1) (cm_ID m1) (Error_ e) codec_Response ∅)
    = (Ret tt, (k3, m3)) ->
  sock_Send (<[content_type := at_key h content_type]> (cm_Header m3), wbuf_Bytes k3) sk = (Ret tt, sk') ->
  exists rpc', serve_pkg codecs (h, body) (mkConn rpc sk a) = (Ret false, mkConn rpc' sk' a) /\ table_of rpc' = table_of rpc.
Proof.
  intros Hcf Eh Hfind Eb Hob Ew Hsend. unfold Serve.serve_pkg. cbn [cn_rpc cn_socket cn_app]. rewrite Hcf.
  set (req := mkReq (cm_Target m1) (cm_Method m1) (cm_ID m1)) in *. set (codec := newRPCCodec h body sk cf).
  destruct (serve_unknown (mkSState rpc codec a) (mkContext (strip_header h) (deadline h)) (at_key h content_type)
    (mkRpcCodec sk k1 h) req e ob (mkRpcCodec sk k2 h) (Ret tt) (mkRpcCodec sk' k3 h)) as (s' & E & Hc & Ha & Hmap).
  - unfold ReadRequestHeader. cbn [ss_codec]. unfold codec, newRPCCodec. cbn [k_codec k_header]. by rewrite Eh.
  - exact Hfind.
  - unfold ReadRequestBody, on_codec. cbn [k_codec]. by rewrite Eb.
  - exact Hob.
  - unfold answer, WriteResponse. replace (if bool_decide (Error_ e = []) then invalidRequest else invalidRequest) with invalidRequest by (by case_bool_decide).
    cbn [k_codec k_header p_Service p_Method p_Seq p_Error q_Service q_Method q_Seq req]. rewrite Ew.
    unfold on_socket, set_codec. cbn [k_socket k_codec k_header]. by rewrite Hsend.
  - by left.
  - rewrite E. exists (ss_server s'). rewrite Hc, Ha. split; [done|by apply table_of_services].
Qed.

(** The loop ends with the package after which there is no other round. *)
Lemma handlePkg_last codecs p k k1 k2 rpc rpc' a a' :
  sock_Recv k = (Ret p, k1) -> serve_pkg codecs p (mkConn rpc k1 a) = (Ret false, mkConn rpc' k2 a') ->
  handlePkg codecs (mkConn rpc k a) = (Ret tt, mkConn rpc' (sock_Close k2) a').
Proof.
  intros Er Es. unfold Serve.handlePkg. cbn [Serve.handle_loop]. unfold bind, attempt, recv. cbn [cn_socket cn_rpc cn_app].
  rewrite Er. by rewrite Es.
Qed.

(** The packages that come over a socket, each before the response to it is
    sent, and its end. *)
Inductive exchange : K -> list (Header * bytes) -> list (Header * bytes) -> K -> Prop :=
| exchange_end k e k' : sock_Recv k = (Fail e, k') -> exchange k [] [] k'
| exchange_next k p k1 r k2 ps rs k3 :
    sock_Recv k = (Ret p, k1) -> sock_Send r k1 = (Ret tt, k2) -> exchange k2 ps rs k3 -> exchange k (p :: ps) (r :: rs) k3.

Lemma loop_answers codecs k ps rs k' :
  exchange k ps rs k' -> forall fuel rpc a a', (length ps < fuel)%nat -> answers codecs (table_of rpc) a ps rs a' ->
  exists rpc', handle_loop fuel codecs (mkConn rpc k a) = (Ret tt, mkConn rpc' k' a') /\ table_of rpc' = table_of rpc.
Proof.
  induction 1 as [k e k' Hr|k p k1 r k2 ps rs k3 Hr Hs _ IH]; intros [|fuel] rpc a a' Hf Ha; try (cbn in Hf; lia); inversion Ha; subst;
    cbn [Serve.handle_loop]; unfold bind, attempt, recv; cbn [cn_rpc cn_socket cn_app]; rewrite Hr.
  - by exists rpc.
  - match goal with H : answered _ _ _ _ _ _ |- _ => destruct (serve_pkg_answered _ _ _ _ _ _ _ _ H Hs) as (rpc1 & -> & Ht) end.
    destruct (IH fuel rpc1 a1 a') as (rpc2 & -> & Ht2); [cbn in Hf; lia|by rewrite Ht|].
    exists rpc2. split; [done|]. by rewrite Ht2.
Qed.

Lemma handlePkg_answers codecs k ps rs k' rpc a a' :
  exchange k ps rs k' -> (length ps <= sock_left k)%nat -> answers codecs (table_of rpc) a ps rs a' ->
  exists rpc', handlePkg codecs (mkConn rpc k a) = (Ret tt, mkConn rpc' (sock_Close k') a') /\ table_of rpc' = table_of rpc.
Proof.
  intros He Hl Ha. destruct (loop_answers codecs k ps rs k' He (S (sock_left k)) rpc a a') as (rpc' & E & Ht); [lia|done|].
  unfold Serve.handlePkg. cbn [cn_socket]. rewrite E. by exists rpc'.
Qed.

End AnySocket.

(** *** A given connection *)

Section Queue.
Context `{VS : Values} `{UT : UnicodeTable} `{ET : ErrorText} {A : Type} {C : Type} `{SC : ServerCodec C value}.
Context (jsonrpc_NewCodec : NewCodec (C := C)).
Abbreviation conn := (conn (K := socket) (A := A)).
Abbreviation handlePkg := (handlePkg (A := A) (K := socket) jsonrpc_NewCodec).

Abbreviation answers := (answers jsonrpc_NewCodec).

Lemma queue_exchange ps : forall rs out closed,
  length rs = length ps -> exchange (mkSocket (map inr ps) out None closed) ps rs (mkSocket [] (out ++ rs) None closed).
Proof.
  induction ps as [|p ps IH]; intros [|r rs] out closed Hl; try done.
  - rewrite app_nil_r. by eapply exchange_end.
  - eapply exchange_next; [reflexivity|reflexivity|]. replace (out ++ r :: rs) with ((out ++ [r]) ++ rs) by (by rewrite <- app_assoc).
    apply IH. cbn in Hl. lia.
Qed.

(** C8. The requests of a connection are served one after the other: the
    responses go out in the order of the requests, one for each, and the
    application's state goes through the calls in that order; then the socket is
    closed. *)
Theorem requests_in_order codecs c ps rs a' :
  sk_in (cn_socket c) = map inr ps -> sk_refuses (cn_socket c) = None ->
  answers codecs (table_of (cn_rpc c)) (cn_app c) ps rs a' ->
  exists rpc', handlePkg codecs c
      = (Ret tt, mkConn rpc' (mkSocket [] (sk_out (cn_socket c) ++ rs) None (S (sk_closed (cn_socket c)))) a')
    /\ table_of rpc' = table_of (cn_rpc c).
Proof.
  intros Hin Hr Ha. destruct c as [rpc [inn out ref cl] a]. cbn in *. subst.
  assert (Hl : length rs = length ps) by (clear -Ha; induction Ha; cbn; congruence).
  apply (handlePkg_answers jsonrpc_NewCodec codecs _ ps rs _ rpc a a' (queue_exchange ps rs out cl Hl)); [|done].
  cbn. by rewrite length_map.
Qed.

End Queue.

(** ** Handlers *)

Section Handlers.
Context `{VS : Values} `{UT : UnicodeTable} `{ET : ErrorText} {A : Type} {C : Type} `{SC : ServerCodec C value}.
Context {W L : Type} `{PR : ProviderRegistry W} `{TR : ServerTransport W L} `{HA : HostAddresses}.
Abbreviation server := (server (A := A) (C := C) (L := L)).

Lemma servers_skip (h : Handler A) confs : forall j conf flag (sw : server * W),
  Forall (fun c => cf_Protocol c <> sc_Protocol (ps_config conf)) confs ->
  handle_servers h confs j conf flag sw = (Ret (conf, flag), sw).
Proof.
  induction confs as [|c confs IH]; intros j conf flag sw Hn; [done|]. apply Forall_cons in Hn as [Hc Hn].
  cbn [handle_servers]. rewrite bool_decide_eq_false_2 by done. by apply IH.
Qed.

Lemma servers_one (h : Handler A) pre c post : forall j conf flag (s : server) w,
  Forall (fun c => cf_Protocol c <> sc_Protocol (ps_config conf)) (pre ++ post) ->
  cf_Protocol c = sc_Protocol (ps_config conf) ->
  handle_servers h (pre ++ c :: post) j conf flag (s, w) =
    (methods <- register_at (j + length pre) h ;;
     announce (mkProvider (ps_config conf) (Address c) methods) ;;;
     ret (mkProvider (ps_config conf) (Address c) methods, true)) (s, w).
Proof.
  induction pre as [|c0 pre IH]; intros j conf flag s w Hn Hc; cbn [app length handle_servers].
  - rewrite bool_decide_eq_true_2 by done. rewrite Nat.add_0_r. unfold bind.
    destruct (register_at j h (s, w)) as [[methods|e| |] [s1 w1]]; try done.
    destruct (announce _ (s1, w1)) as [[x|e| |] sw]; try done. by apply servers_skip.
  - apply Forall_cons in Hn as [Hc0 Hn]. rewrite bool_decide_eq_false_2 by done. rewrite (IH (S j)) by done.
    by rewrite Nat.add_succ_comm.
Qed.

Definition for_handler (h : Handler A) (sc : ServiceConfig) : Prop := sc_Service sc = h_Service h /\ sc_Version sc = h_Version h.

Lemma services_skip (h : Handler A) confs services : forall conf flag (sw : server * W),
  sc_Service (ps_config conf) = h_Service h -> sc_Version (ps_config conf) = h_Version h ->
  Forall (fun sc => ~ for_handler h sc) services ->
  handle_services h confs services conf flag sw = (Ret flag, sw).
Proof.
  induction services as [|sc services IH]; intros conf flag sw Hs Hv Hn; [done|]. apply Forall_cons in Hn as [Hc Hn].
  cbn [handle_services]. unfold for_handler in Hc. rewrite Hs, Hv.
  destruct (bool_decide_reflect (sc_Service sc = h_Service h)), (bool_decide_reflect (sc_Version sc = h_Version h));
    try (exfalso; by apply Hc); by apply IH.
Qed.

Lemma services_first (h : Handler A) confs pre sc post : forall conf flag (sw : server * W),
  sc_Service (ps_config conf) = h_Service h -> sc_Version (ps_config conf) = h_Version h ->
  Forall (fun sc => ~ for_handler h sc) pre -> for_handler h sc ->
  handle_services h confs (pre ++ sc :: post) conf flag sw =
    (r <- handle_servers h confs 0 (mkProvider sc (ps_Path conf) (ps_Methods conf)) flag ;;
     handle_services h confs post r.1 r.2) sw.
Proof.
  induction pre as [|sc0 pre IH]; intros conf flag sw Hs Hv Hn Hsc; cbn [app handle_services].
  - destruct Hsc as [Hs' Hv']. rewrite Hs, Hv, !bool_decide_eq_true_2 by done. cbn [andb].
    rewrite <- Hs', <- Hv'. by destruct sc.
  - apply Forall_cons in Hn as [Hc Hn]. unfold for_handler in Hc. rewrite Hs, Hv.
    destruct (bool_decide_reflect (sc_Service sc0 = h_Service h)), (bool_decide_reflect (sc_Version sc0 = h_Version h));
      try (exfalso; by apply Hc); by apply IH.
Qed.

(** A handler's first configuration, on the one listener for its protocol. *)
Lemma register_announce (h : Handler A) (s : server) w j sc path rpc methods rpc' o w' :
  srv_rpc s !! j = Some rpc -> register h rpc = (Ret methods, rpc') -> o_Registry (srv_opts s) = true ->
  reg_Register (mkProvider sc path methods) w = (o, w') ->
  (methods <- register_at j h ;; announce (mkProvider sc path methods) ;;;
   ret (mkProvider sc path methods, true)) (s, w)
  = (match o with
     | Ret _ => Ret (mkProvider sc path methods, true)
     | Fail e => Fail e | Panic => Panic | NoFuel => NoFuel
     end, (set_rpc (<[j := rpc']> (srv_rpc s)) s, w')).
Proof.
  intros Hj Hr Hreg Hann. unfold bind, register_at. rewrite Hj, Hr. unfold announce. cbn [srv_opts set_rpc].
  rewrite Hreg. cbn [negb]. rewrite Hann. by destruct o.
Qed.

(** [Handle] puts the handler's methods into the table of the server that
    listens for the protocol of the service's configuration, and announces just
    this to the registry: the configuration, the listener's address and the
    names of those methods. *)
Lemma Handle_announces (h : Handler A) (s : server) w pre c post spre sc spost rpc methods rpc' w' :
  o_ConfList (srv_opts s) = pre ++ c :: post -> o_ServiceConfList (srv_opts s) = spre ++ sc :: spost ->
  for_handler h sc -> Forall (fun sc => ~ for_handler h sc) (spre ++ spost) ->
  cf_Protocol c = sc_Protocol sc -> Forall (fun c => cf_Protocol c <> sc_Protocol sc) (pre ++ post) ->
  srv_rpc s !! length pre = Some rpc -> register h rpc = (Ret methods, rpc') ->
  o_Registry (srv_opts s) = true -> reg_Register (mkProvider sc (Address c) methods) w = (Ret tt, w') ->
  Handle h (s, w) = (Ret tt, (set_handlers (<[h_Service h := h]> (srv_handlers s))
    (set_rpc (<[length pre := rpc']> (srv_rpc s)) s), w')).
Proof.
  intros Hconf Hsvc Hfor Hother Hc Hn Hj Hr Hreg Hann. apply Forall_app in Hother as [Hpre Hpost].
  unfold Handle. rewrite Hconf, Hsvc. unfold bind at 1. rewrite services_first by done. unfold bind at 1.
  rewrite servers_one by done. cbn [ps_config]. rewrite Nat.add_0_l.
  rewrite (register_announce h s w (length pre) sc (Address c) rpc methods rpc' (Ret tt) w') by done.
  cbn [ps_config ps_Path fst snd]. rewrite services_skip; [done|apply Hfor|apply Hfor|done].
Qed.

(** A service that is configured for two groups at one listener cannot be
    handled: the second configuration registers the handler with the same server
    again, which fails, after the first was announced to the registry. *)
Lemma Handle_two_groups (h : Handler A) (s : server) w c sc1 sc2 rest rpc methods rpc' w' :
  o_ConfList (srv_opts s) = [c] -> o_ServiceConfList (srv_opts s) = sc1 :: sc2 :: rest ->
  for_handler h sc1 -> for_handler h sc2 -> cf_Protocol c = sc_Protocol sc1 -> cf_Protocol c = sc_Protocol sc2 ->
  srv_rpc s !! 0%nat = Some rpc -> register h rpc = (Ret methods, rpc') ->
  o_Registry (srv_opts s) = true -> reg_Register (mkProvider sc1 (Address c) methods) w = (Ret tt, w') ->
  Handle h (s, w) = (Fail (Text (lit "rpc: service already defined: " ++ h_Service h)),
    (set_rpc (<[0%nat := rpc']> (srv_rpc s)) s, w')).
Proof.
  intros Hconf Hsvc Hf1 Hf2 Hc1 Hc2 Hj Hr Hreg Hann.
  unfold Handle. rewrite Hconf, Hsvc. change (sc1 :: sc2 :: rest) with ([] ++ sc1 :: sc2 :: rest). unfold bind at 1. rewrite (services_first h [c] [] sc1 (sc2 :: rest)) by done. unfold bind at 1.
  rewrite (servers_one h [] c []) by done. cbn [ps_config]. rewrite Nat.add_0_l.
  rewrite (register_announce h s w 0 sc1 (Address c) rpc methods rpc' (Ret tt) w') by done.
  cbn [ps_config ps_Path fst snd]. destruct Hf1 as [Hs1 Hv1].
  rewrite (services_first h [c] [] sc2 rest) by done. unfold bind at 1.
  rewrite (servers_one h [] c []) by done. unfold bind at 1, register_at. cbn [set_rpc srv_rpc].
  rewrite list_lookup_insert_eq by (by eapply lookup_lt_Some).
  assert (Hdef : is_Some (serviceMap rpc' !! h_Service h) /\ isExported (h_typeName h) = true).
  { revert Hr. unfold register. destruct (negb (isExported _)) eqn:Ee; [done|]. apply negb_false_iff in Ee.
    destruct (serviceMap rpc !! _); [done|]. destruct (install _ _ _). case_bool_decide; [done|]. intros [= _ <-].
    cbn. rewrite lookup_insert_eq. by split. }
  destruct Hdef as [[sv Hsv] He]. unfold register. rewrite He, Hsv. cbn [negb].
  unfold set_rpc. cbn. by rewrite list_insert_insert_eq.
Qed.

(** ** [Start] *)

Lemma start_loop_ok confs : forall j (s : server) w es s' w',
  start_loop confs j (s, w) = (Ret (es, None), (s', w')) -> (length (srv_listeners s) = j + length confs)%nat ->
  exists ls, length ls = length confs /\ assigned es = Some <$> ls
    /\ (forall cur, listeners_seen cur es = (fun i => drop i (Some <$> ls)) <$> seq 0 (length confs))
    /\ (forall cur, rpc_after cur es = match confs with [] => cur | _ => Some (j + length confs - 1)%nat end)
    /\ s' = mkServer (srv_rpc s) (take j (srv_listeners s) ++ (Some <$> ls)) (srv_closers s ++ seq j (length confs))
             (srv_stopped s) (srv_opts s) (srv_handlers s).
Proof.
  induction confs as [|c confs IH]; intros j s w es s' w' E Hlen; cbn [start_loop] in E.
  - injection E as <- <- <-. exists []. split_and!; try done. cbn. rewrite !app_nil_r, take_ge by (cbn in Hlen; lia). by destruct s.
  - destruct (negb _); [done|]. destruct (t_Listen (Address c) w) as [[l|e| |] w1]; try done.
    destruct (srv_rpc s !! j); [|done].
    destruct (start_loop confs (S j) _) as [[[es1 err]|e| |] [s1 w2]] eqn:E1; try done.
    injection E as <- -> <- <-. destruct (IH _ _ _ _ _ _ E1) as (ls & Hl & Ha & Hseen & Hrpc & ->).
    { cbn [srv_listeners]. rewrite length_insert. cbn in Hlen. lia. }
    exists (l :: ls). split; [cbn; lia|]. split; [cbn; by rewrite Ha|]. split; [|split].
    + intros cur. cbn [listeners_seen assigned length seq]. rewrite Ha, Hseen. rewrite fmap_cons. f_equal.
      rewrite <- fmap_S_seq, <- list_fmap_compose. done.
    + intros cur. cbn [rpc_after]. rewrite Hrpc. destruct confs; cbn [length]; f_equal; lia.
    + cbn [srv_rpc srv_listeners srv_closers srv_stopped srv_opts srv_handlers length seq]. f_equal.
      * rewrite take_S_r with (x := Some l) by (apply list_lookup_insert_eq; cbn in Hlen; lia).
        rewrite take_insert_ge by lia. by rewrite <- app_assoc.
      * by rewrite <- app_assoc.
Qed.

(** C31. After [Start] of several addresses every accepted connection goes to the
    last address's server, whichever address it came to, since the goroutines
    share the variables of the loop; for the same reason a goroutine may accept
    on any later address's listener instead of its own, and the last listener is
    the only one that each of them may find. *)
Theorem Start_shares (s s' : server) w w' es :
  Start (s, w) = (Ret (es, None), (s', w')) -> length (srv_listeners s) = length (o_ConfList (srv_opts s)) ->
  o_ConfList (srv_opts s) <> [] ->
  exists ls, length ls = length (o_ConfList (srv_opts s)) /\ srv_listeners s' = Some <$> ls /\ srv_rpc s' = srv_rpc s
    /\ rpc_after None es = Some (length ls - 1)%nat
    /\ listeners_seen None es = (fun i => drop i (Some <$> ls)) <$> seq 0 (length ls).
Proof.
  unfold Start. intros E Hl Hne. destruct (start_loop_ok _ _ _ _ _ _ _ E) as (ls & Hls & _ & Hseen & Hrpc & ->); [done|].
  exists ls. rewrite Hls. split; [done|]. split; [done|]. split; [done|]. split; [|apply Hseen]. rewrite Hrpc.
  by destruct (o_ConfList (srv_opts s)).
Qed.

Lemma close_seq (s : server) : forall (ls : list L) j w,
  (forall i l, ls !! i = Some l -> srv_listeners s !! (j + i)%nat = Some (Some l)) ->
  fold_left (fun w j => match srv_listeners s !! j with Some (Some l) => l_Close l w | _ => w end) (seq j (length ls)) w
  = fold_left (fun w l => l_Close l w) ls w.
Proof.
  induction ls as [|l ls IH]; intros j w Hl; [done|]. cbn [length seq fold_left].
  pose proof (Hl 0%nat l eq_refl) as H0. rewrite Nat.add_0_r in H0. rewrite H0. apply IH.
  intros i l' Hi. rewrite Nat.add_succ_comm. by apply Hl.
Qed.

(** [Stop] closes each listener that [Start] opened, once, and then the
    registry; a second [Stop] does nothing. *)
Lemma Stop_closes (s s' : server) w w' es :
  Start (s, w) = (Ret (es, None), (s', w')) -> length (srv_listeners s) = length (o_ConfList (srv_opts s)) ->
  srv_closers s = [] -> srv_stopped s = false -> o_Registry (srv_opts s) = true ->
  exists ls s'', srv_listeners s' = Some <$> ls /\ length ls = length (o_ConfList (srv_opts s))
    /\ forall wc, reg_Close (fold_left (fun w l => l_Close l w) ls w') = (Ret tt, wc) ->
         Stop (s', w') = (Ret tt, (s'', wc)) /\ forall w2, Stop (s'', w2) = (Ret tt, (s'', w2)).
Proof.
  unfold Start. intros E Hl Hc Hst Hreg. destruct (start_loop_ok _ _ _ _ _ _ _ E) as (ls & Hls & _ & _ & _ & ->); [done|].
  eexists ls, _. split; [done|]. split; [done|]. unfold Stop. cbn [srv_stopped]. rewrite Hst. cbn [srv_opts]. rewrite Hreg.
  assert (Hclose : forall s : server, srv_closers s = seq 0 (length ls) -> srv_listeners s = Some <$> ls ->
    close_listeners s w' = fold_left (fun w l => l_Close l w) ls w').
  { intros s1 E1 E2. unfold close_listeners. rewrite E1. apply close_seq. intros i l Hi. rewrite E2. cbn [Nat.add].
    by rewrite list_lookup_fmap, Hi. }
  intros wc Hwc. rewrite Hclose; [|cbn; by rewrite Hc, Hls|done]. rewrite Hwc. by split.
Qed.

End Handlers.

(** ** Time limits *)

Lemma request_timeout_i64 service t : is_i64 t -> is_i64 (request_timeout service t).
Proof.
  intros Ht. unfold request_timeout. cbv zeta.
  assert (Hd : is_i64 DefaultRequestTimeout) by (unfold is_i64; vm_compute; split; discriminate || reflexivity).
  destruct (_ =? 0)%nat; [by destruct (_ <=? 0)|]. destruct (Atoi _); [|by destruct (_ <=? 0)].
  destruct (_ <? t); [|by destruct (_ <=? 0)]. destruct (_ <=? 0); [done|auto with go].
Qed.

(** The time limit that a client works with for a request, and writes into
    the header as nanoseconds, is the deadline that the server sets. *)
Lemma deadline_agrees service t h :
  0 < t < 2 ^ 63 ->
  deadline (<[timeout_key := Itoa (request_timeout service t)]> h) = Some (request_timeout service t).
Proof.
  intros Ht. pose proof (request_timeout_i64 service t) as Hi. destruct (request_timeout_positive service t) as [Hp _]; [lia|].
  unfold is_i64 in Hi. unfold deadline, at_key. rewrite lookup_insert_eq. cbn [from_option id].
  set (n := request_timeout service t) in *. pose proof (ParseUint_Itoa n ltac:(lia)) as E. rewrite E.
  unfold ParseUint in E. destruct (length (Itoa n) =? 0)%nat eqn:El; [done|].
  apply Nat.eqb_neq in El. rewrite (proj2 (Nat.ltb_lt _ _)) by lia. cbn. f_equal. apply i64_id. unfold is_i64. lia.
Qed.

(** ** A concrete server *)

#[local] Existing Instances Values0 UnicodeTable0 ErrorText0 ServerCodec0.

Definition NewCodec0 : NewCodec (C := bytes * bytes) := fun body => (body, []).

Definition pkg0 (method body : String.string) : Header * bytes :=
  (<[content_type := lit "application/json"]> (request0 "com.echo" method), lit body).

Definition conn0 (pkgs : list (Header * bytes)) : conn (K := socket) (A := nat) :=
  mkConn server0 (mkSocket (map inr pkgs) [] None 0) 0%nat.

Lemma codec_halts0 : codec_halts (C := bytes * bytes).
Proof.
  split.
  - intros mt [[r w] m]. cbn. by destruct (_ !! _).
  - by intros b [r w].
  - by intros v [[r w] m].
  - by intros [r w].
Qed.

Lemma conn0_halting pkgs : halting_conn (conn0 pkgs).
Proof.
  unfold halting_conn, conn0. cbn [cn_rpc]. unfold server0.
  split; [|exact I].
  apply (register_table_ok _ handler1 initServer (lit "Say") _); [|constructor; [|done]|].
  - intros sname sv mname mt Hsv. cbn in Hsv. by rewrite lookup_empty in Hsv.
  - by intros ctx argv replyv a.
  - rewrite (surjective_pairing (register handler1 initServer)). f_equal.
Qed.

Lemma handlePkg_ends_witness :
  exists c', handlePkg NewCodec0 ∅ (conn0 [pkg0 "Say" "one"]) = (Ret tt, c') /\ sk_closed (cn_socket c') = 1%nat.
Proof.
  destruct (handlePkg_ends NewCodec0 ∅ (conn0 [pkg0 "Say" "one"]) codec_halts0 (conn0_halting _)) as (o & c1 & E1 & _ & _ & E).
  eexists. split; [exact E|]. vm_compute in E1. injection E1 as _ <-. reflexivity.
Defined.

Lemma requests_in_order_witness :
  exists c', handlePkg NewCodec0 ∅ (conn0 [pkg0 "Say" "one"; pkg0 "Say" "two"]) = (Ret tt, c')
    /\ map snd (sk_out (cn_socket c')) = [lit "one"; lit "two"] /\ cn_app c' = 2%nat.
Proof.
  assert (Hone : forall a body, answered NewCodec0 ∅ (table_of server0) a (pkg0 "Say" body)
    ({[content_type := lit "application/json"]}, lit body) (S a)).
  { intros a body.
    assert (Hh : {[content_type := lit "application/json"]} = <[content_type := at_key (pkg0 "Say" body).1 content_type]> (∅ : Header))
      by (vm_compute; reflexivity).
    change (pkg0 "Say" body) with ((pkg0 "Say" body).1, lit body). rewrite Hh.
    apply (answered_unary (SC := ServerCodec0) NewCodec0 ∅ (table_of server0) (pkg0 "Say" body).1 (lit body) NewCodec0
      (lit body, []) (mkCodecMessage (lit "com.echo") (lit "Say") 7 [] codec_Request (pkg0 "Say" body).1)
      {[lit "Say" := mt0]} mt0 (fun _ argv _ n => (Ret (None, argv), S n)) (lit body) (lit body, []) None (lit body)
      a (S a) (lit body, lit body) (mkCodecMessage (lit "com.echo") (lit "Say") 7 [] codec_Response ∅)).
    all: try reflexivity. all: try (vm_compute; congruence). }
  destruct (requests_in_order NewCodec0 ∅ (conn0 [pkg0 "Say" "one"; pkg0 "Say" "two"]) [pkg0 "Say" "one"; pkg0 "Say" "two"]
    [({[content_type := lit "application/json"]}, lit "one"); ({[content_type := lit "application/json"]}, lit "two")] 2%nat)
    as (rpc' & E & _).
  - reflexivity.
  - reflexivity.
  - eapply answers_cons; [apply Hone|]. eapply answers_cons; [apply Hone|]. apply answers_nil.
  - eexists. split; [exact E|]. split; reflexivity.
Defined.

(** A registry that remembers what was announced, and a network that remembers
    what was closed. *)
Definition world0 : Type := list ProviderServiceConfig * list bytes.
#[local] Instance ProviderRegistry0 : ProviderRegistry world0 := {|
  reg_Register := fun conf '(confs, ev) => (Ret tt, (confs ++ [conf], ev));
  reg_Close := fun '(confs, ev) => (Ret tt, (confs, ev ++ [lit "registry"]))
|}.
#[local] Instance ServerTransport0 : ServerTransport world0 bytes := {|
  t_Listen := fun addr w => (Ret addr, w);
  l_Close := fun l '(confs, ev) => (confs, ev ++ [l])
|}.
#[local] Instance HostAddresses0 : HostAddresses := fun ip port => ip ++ lit ":" ++ Itoa port.

Definition confs0 : list ServerConfig :=
  [mkServerConfig (lit "jsonrpc") (lit "h") 1; mkServerConfig (lit "dubbo") (lit "h") 2].
Definition sc0 (group : String.string) : ServiceConfig := mkConfig (lit "jsonrpc") (lit "com.echo") (lit group) [].

Definition srv0 (confs : list ServerConfig) (services : list ServiceConfig) : server (A := nat) (C := bytes * bytes) (L := bytes) :=
  mkServer (map (fun _ => initServer) confs) (map (fun _ => None) confs) [] false (mkOptions ∅ true true confs services) ∅.

(** [Start] of two addresses, and what it did. *)
Definition started0 : outcome (list (start_effect (L := bytes)) * option goerr) * (server (A := nat) (C := bytes * bytes) (L := bytes) * world0) :=
  Start (srv0 confs0 [], ([], [])).
Definition effects0 : list (start_effect (L := bytes)) := match started0.1 with Ret (es, _) => es | _ => [] end.

Lemma Start_shares_witness :
  Start (srv0 confs0 [], (([], []) : world0)) = (Ret (effects0, None), started0.2)
  /\ rpc_after None effects0 = Some 1%nat
  /\ listeners_seen None effects0 = [[Some (lit "h:1"); Some (lit "h:2")]; [Some (lit "h:2")]].
Proof.
  assert (E0 : Start (srv0 confs0 [], (([], []) : world0)) = (Ret (effects0, None), (started0.2.1, started0.2.2))) by reflexivity.
  split; [exact E0|]. destruct (Start_shares _ _ _ _ _ E0 eq_refl) as (ls & Hl & E & _ & Hr & Hs).
  - vm_compute. congruence.
  - destruct ls as [|l1 [|l2 [|]]]; try discriminate Hl. vm_compute in E. injection E as <- <-. split; [exact Hr|exact Hs].
Defined.

