(* ===== verification/Publish.v ===== *)
(** * From a server's handler to a consumer

    The zookeeper registry as the registry of a server ([Serve]): a handler that
    a server handles is found by a consumer, with the methods that the server
    can call. *)
From S2P Require Import Prelude.
From S2P Require Import Registry Url Common Zookeeper ZkRegistry ZkAgree.
From S2P Require Import Server ServerSafe Serve ServeSafe.

(** ** The instance *)

Section Publish.
Context {W Conn Wch : Type} `{ZT : ZkTree W Conn Wch} `{PR : Process} `{R : MapRange}.

(** The provider's registry; nothing restarts while it is closed. *)
#[export] Instance ZkProviderRegistry : ProviderRegistry (provider (Conn := Conn) * W) := {|
  reg_Register := fun conf => provider_Register (IfProvider conf);
  reg_Close := on_registry (registry_Close (ret tt))
|}.

Context `{VS : Server.Values} `{UT : UnicodeTable} `{ET : ErrorText} {A : Type} {C : Type} `{SC : ServerCodec C value}.
Context {L : Type} `{TR : ServerTransport (provider (Conn := Conn) * W) L} `{HA : HostAddresses}.
Abbreviation server := (Serve.server (A := A) (C := C) (L := L)).

(** The URL that a consumer is given, and what the server can call then. *)
Lemma handled_url (h : Handler A) (s : server) pre c post spre sc spost rpc methods rpc'
    (r : zookeeperRegistry Conn) counts w z c1 ip port m r2 z2 c2 :
  o_ConfList (srv_opts s) = pre ++ c :: post -> o_ServiceConfList (srv_opts s) = spre ++ sc :: spost ->
  for_handler h sc -> Forall (fun sc => ~ for_handler h sc) (spre ++ spost) ->
  cf_Protocol c = sc_Protocol sc -> Forall (fun c => cf_Protocol c <> sc_Protocol sc) (pre ++ post) ->
  srv_rpc s !! length pre = Some rpc -> register h rpc = (Ret methods, rpc') -> o_Registry (srv_opts s) = true ->
  NoDup (m_Name <$> h_methods h) -> Forall (fun m => comma ∉ m_Name m) (h_methods h) ->
  let conf := mkProvider sc (Address c) methods in
  connected r w z c1 -> conf_ok conf ip port -> registry_ok r -> way_open w (providers_of conf) ->
  (forall n, tree w !! (providers_of conf ++ [n]) = None) ->
  services r = Some m -> m !! ProviderServiceConfig_String conf = None ->
  connected r2 w z2 c2 -> lookup_service r2 (Key sc) = Some (IfConfig sc) ->
  exists s' p' w' w'' url table,
    Handle h (s, (mkProviderRegistry r counts, w)) = (Ret tt, (s', (p', w')))
    /\ GetServices (IfConfig sc) (r2, w') = (Ret [url], (r2, w''))
    /\ Location url = Address c /\ Path url = 47 :: (next_path (sc_Service sc) counts).1
    /\ srv_rpc s' !! length pre = Some rpc' /\ serviceMap rpc' !! h_Service h = Some (mkService (h_Service h) table)
    /\ forall name, CheckMethod url name = true <-> is_Some (table !! name).
Proof.
  intros Hconf Hsvc Hfor Hother Hc Hn Hj Hr Hreg Hnd Hcomma conf Hcon Hok Hrok Hway Hnone Hm Hnew Hcon2 Hl2.
  destruct (registered_url r counts w z c1 conf ip port m r2 z2 c2 sc Hcon Hok Hrok Hway Hnone Hm Hnew Hcon2 Hl2 eq_refl)
    as (p' & w' & w'' & url & E1 & _ & Hloc & _ & _ & Hpa & Hmeth & E2). rewrite decide_True in E2 by done.
  assert (Hpre : isExported (h_typeName h) = true /\ serviceMap rpc !! h_Service h = None
    /\ exists m, m ∈ h_methods h /\ suitable m = true) by (by eapply register_requires).
  destruct Hpre as (He & Hs & Hex).
  destruct (register_methods h rpc url He Hs Hnd Hcomma Hex) as (methods' & table & Er & _ & Hcheck).
  rewrite Hr in Er. injection Er as <- ->.
  eexists _, p', w', w'', url, table. split; [eapply Handle_announces; done|]. split; [exact E2|]. split; [exact Hloc|]. split; [exact Hpa|].
  split; [cbn; apply list_lookup_insert_eq; by eapply lookup_lt_Some|]. split; [apply lookup_insert_eq|by apply Hcheck].
Qed.

(** C7. A service that a server handles is found by the consumers that ask for
    its configuration: [GetServices] returns one URL, with the address that the
    server listens on, and [CheckMethod] of it knows exactly the methods that
    are in the server's table. *)
Theorem handled_is_found (h : Handler A) (s : server) pre c post spre sc spost rpc methods rpc'
    (r : zookeeperRegistry Conn) counts w z c1 ip port m r2 z2 c2 :
  o_ConfList (srv_opts s) = pre ++ c :: post -> o_ServiceConfList (srv_opts s) = spre ++ sc :: spost ->
  for_handler h sc -> Forall (fun sc => ~ for_handler h sc) (spre ++ spost) ->
  cf_Protocol c = sc_Protocol sc -> Forall (fun c => cf_Protocol c <> sc_Protocol sc) (pre ++ post) ->
  srv_rpc s !! length pre = Some rpc -> register h rpc = (Ret methods, rpc') -> o_Registry (srv_opts s) = true ->
  NoDup (m_Name <$> h_methods h) -> Forall (fun m => comma ∉ m_Name m) (h_methods h) ->
  let conf := mkProvider sc (Address c) methods in
  connected r w z c1 -> conf_ok conf ip port -> registry_ok r -> way_open w (providers_of conf) ->
  (forall n, tree w !! (providers_of conf ++ [n]) = None) ->
  services r = Some m -> m !! ProviderServiceConfig_String conf = None ->
  connected r2 w z2 c2 -> lookup_service r2 (Key sc) = Some (IfConfig sc) ->
  exists s' p' w' w'' url table,
    Handle h (s, (mkProviderRegistry r counts, w)) = (Ret tt, (s', (p', w')))
    /\ GetServices (IfConfig sc) (r2, w') = (Ret [url], (r2, w''))
    /\ Location url = Address c
    /\ srv_rpc s' !! length pre = Some rpc' /\ serviceMap rpc' !! h_Service h = Some (mkService (h_Service h) table)
    /\ forall name, CheckMethod url name = true <-> is_Some (table !! name).
Proof.
  intros Hconf Hsvc Hfor Hother Hc Hn Hj Hr Hreg Hnd Hcomma conf Hcon Hok Hrok Hway Hnone Hm Hnew Hcon2 Hl2.
  edestruct (handled_url h s pre c post spre sc spost rpc methods rpc' r counts w z c1 ip port m r2 z2 c2)
    as (s' & p' & w' & w'' & url & table & E1 & E2 & E3 & _ & E4); try done.
  by exists s', p', w', w'', url, table.
Qed.

End Publish.

(** ** A server, a registry and a consumer *)

#[local] Existing Instances Values0 UnicodeTable0 ErrorText0 ServerCodec0 HostAddresses0.

#[local] Instance ServerTransport1 : ServerTransport (provider (Conn := nat) * Zookeeper.server) bytes :=
  {| t_Listen := fun addr w => (Ret addr, w); l_Close := fun _ w => w |}.

Definition handlerM : Handler nat :=
  mkHandler (lit "Echo") (lit "S") (lit "2") [mkMethod (lit "M") [] (m_In Say) (m_Out Say) (m_Func Say)].

Definition srvM : Serve.server (A := nat) (C := bytes * bytes) (L := bytes) :=
  srv0 [mkServerConfig (lit "jsonrpc") (lit "h") 1] [ps_config conf1].

Lemma handled_is_found_witness :
  exists s' p' w' w'' url,
    Handle handlerM (srvM, (mkProviderRegistry (registry1 ∅) ∅, server1)) = (Ret tt, (s', (p', w')))
    /\ GetServices (IfConfig (ps_config conf1)) (consumer1, w') = (Ret [url], (consumer1, w''))
    /\ Location url = lit "h:1" /\ CheckMethod url (lit "M") = true.
Proof.
  destruct (handled_is_found (C := bytes * bytes) handlerM srvM [] (mkServerConfig (lit "jsonrpc") (lit "h") 1) [] [] (ps_config conf1) [] initServer
    (lit "M") (register handlerM initServer).2 (registry1 ∅) ∅ server1 client1 0%nat (lit "h") (lit "1") ∅ consumer1 client1 0%nat)
    as (s' & p' & w' & w'' & url & table & E1 & E2 & E3 & _ & E5 & E6).
  - reflexivity.
  - reflexivity.
  - split; reflexivity.
  - constructor.
  - reflexivity.
  - constructor.
  - reflexivity.
  - rewrite (surjective_pairing (register handlerM initServer)). f_equal.
  - reflexivity.
  - apply NoDup_singleton.
  - constructor; [|constructor]. apply (bool_decide_unpack _). vm_compute. exact I.
  - apply registry1_connected.
  - apply conf1_ok.
  - apply registry1_ok.
  - apply server1_open.
  - intros n. by apply server1_new.
  - reflexivity.
  - apply lookup_empty.
  - apply registry1_connected.
  - apply lookup_singleton_eq.
  - exists s', p', w', w'', url. split; [exact E1|]. split; [exact E2|]. split; [exact E3|]. apply E6.
    vm_compute in E5. injection E5 as <-. vm_compute. by eexists.
Defined.
