(* ===== verification/Json.v ===== *)
(** * JSON text

    What [codec/jsonrpc/] uses of Go's [encoding/json], as of Go 1.11: the
    scanner, strings, the members of an object, [Compact], and the [Decoder]
    over a buffer. *)
From S2P Require Import Prelude.
From S2P Require Import Utf8 Registry Url Common.

(** ** The scanner

    The end of a value: the text after it, or the text is over before, or it is
    no JSON. *)
Inductive scan := ScanTo (rest : bytes) | ScanMore | ScanBad.

Definition is_space (c : Z) : bool := (c =? 32) || (c =? 9) || (c =? 13) || (c =? 10).

Fixpoint skip_space (s : bytes) : bytes :=
  match s with
  | c :: t => if is_space c then skip_space t else s
  | [] => []
  end.

Definition scan_then (r : scan) (k : bytes -> scan) : scan :=
  match r with ScanTo t => k t | r => r end.

(** After the opening quote. *)
Fixpoint skip_string (s : bytes) : scan :=
  match s with
  | [] => ScanMore
  | c :: s =>
      if c =? 34 then ScanTo s
      else if c <? 32 then ScanBad
      else if c =? 92 then
        match s with
        | [] => ScanMore
        | e :: s =>
            if (e =? 34) || one_of "bfnrt\/" e then skip_string s
            else if e =? 117 then
              match s with
              | x0 :: x1 :: x2 :: x3 :: s' => if forallb ishex [x0; x1; x2; x3] then skip_string s' else ScanBad
              | _ => if forallb ishex s then ScanMore else ScanBad
              end
            else ScanBad
        end
      else skip_string s
  end.

Fixpoint skip_digits (s : bytes) : bytes :=
  match s with
  | c :: t => if is_digit c then skip_digits t else s
  | [] => []
  end.

(** One digit at least. *)
Definition skip_digits1 (s : bytes) (k : bytes -> scan) : scan :=
  match s with
  | [] => ScanMore
  | d :: _ => if is_digit d then k (skip_digits s) else ScanBad
  end.

(** A number ends where a character follows that is none of it. *)
Definition end_number (s : bytes) : scan := match s with [] => ScanMore | _ => ScanTo s end.

Definition skip_exp (s : bytes) : scan :=
  match s with
  | c :: t =>
      if (c =? 101) || (c =? 69) then
        match t with
        | g :: t' => if (g =? 43) || (g =? 45) then skip_digits1 t' end_number else skip_digits1 t end_number
        | [] => ScanMore
        end
      else end_number s
  | [] => end_number s
  end.

Definition skip_frac (s : bytes) : scan :=
  match s with
  | c :: t => if c =? 46 then skip_digits1 t skip_exp else skip_exp s
  | [] => skip_exp s
  end.

Definition skip_number (s : bytes) : scan :=
  let s := match s with c :: t => if c =? 45 then t else s | [] => s end in
  match s with
  | [] => ScanMore
  | c :: t => if c =? 48 then skip_frac t else skip_digits1 s skip_frac
  end.

Fixpoint skip_word (w s : bytes) : scan :=
  match w, s with
  | [], _ => ScanTo s
  | _, [] => ScanMore
  | a :: w, b :: s => if a =? b then skip_word w s else ScanBad
  end.

(** A value; the members of an object from a key on; the elements of an array.
    A call takes a character off the text or is one step away from one that
    does: twice the length is enough. *)
Fixpoint skip_value (fuel : nat) (s : bytes) : scan :=
  match fuel with
  | O => ScanMore
  | S fuel =>
      match skip_space s with
      | [] => ScanMore
      | c :: t =>
          if c =? 34 then skip_string t
          else if c =? 123 then
            match skip_space t with
            | [] => ScanMore
            | c' :: t' => if c' =? 125 then ScanTo t' else skip_members fuel t
            end
          else if c =? 91 then
            match skip_space t with
            | [] => ScanMore
            | c' :: t' => if c' =? 93 then ScanTo t' else skip_elems fuel t
            end
          else if (c =? 45) || is_digit c then skip_number (c :: t)
          else if c =? 116 then skip_word (lit "rue") t
          else if c =? 102 then skip_word (lit "alse") t
          else if c =? 110 then skip_word (lit "ull") t
          else ScanBad
      end
  end
with skip_members (fuel : nat) (s : bytes) : scan :=
  match fuel with
  | O => ScanMore
  | S fuel =>
      match skip_space s with
      | [] => ScanMore
      | c :: t =>
          if c =? 34 then
            scan_then (skip_string t) (fun t =>
              match skip_space t with
              | [] => ScanMore
              | c :: t =>
                  if c =? 58 then
                    scan_then (skip_value fuel t) (fun t =>
                      match skip_space t with
                      | [] => ScanMore
                      | c :: t => if c =? 44 then skip_members fuel t else if c =? 125 then ScanTo t else ScanBad
                      end)
                  else ScanBad
              end)
          else ScanBad
      end
  end
with skip_elems (fuel : nat) (s : bytes) : scan :=
  match fuel with
  | O => ScanMore
  | S fuel =>
      scan_then (skip_value fuel s) (fun t =>
        match skip_space t with
        | [] => ScanMore
        | c :: t => if c =? 44 then skip_elems fuel t else if c =? 93 then ScanTo t else ScanBad
        end)
  end.

Definition scan_fuel (s : bytes) : nat := S (2 * length s).

(** The value at the beginning of a text. *)
Definition scan_value (s : bytes) : scan := skip_value (scan_fuel s) s.

(** The value as the scanner finds it in a stream: it sees the end of an object
    or an array at once, that of other values at the next character. *)
Definition scan_stream (s : bytes) : scan :=
  match scan_value s with
  | ScanTo [] =>
      match skip_space s with
      | c :: _ => if (c =? 123) || (c =? 91) then ScanTo [] else ScanMore
      | [] => ScanMore
      end
  | r => r
  end.

(** [checkValid]. *)
Definition valid (s : bytes) : bool :=
  match scan_value (s ++ [32]) with ScanTo rest => forallb is_space rest | _ => false end.

(** The text of [s] up to its tail [rest]. *)
Definition upto (s rest : bytes) : bytes := take (length s - length rest) s.

(** ** Strings *)

Definition lowerhex (n : Z) : Z := if n <? 10 then 48 + n else 87 + n.

(** [htmlSafeSet]: the characters that [Marshal] leaves as they are. *)
Definition html_safe (c : Z) : bool := (32 <=? c) && negb ((c =? 34) || (c =? 92) || one_of "<>&" c).

(** [encodeState.string] with HTML escaped, between the quotes. *)
Fixpoint quote_loop (fuel : nat) (s : bytes) : bytes :=
  match fuel with
  | O => []
  | S fuel =>
      match s with
      | [] => []
      | b :: t =>
          if b <? 128 then
            (if html_safe b then [b]
             else if (b =? 92) || (b =? 34) then [92; b]
             else if b =? 10 then lit "\n"
             else if b =? 13 then lit "\r"
             else if b =? 9 then lit "\t"
             else lit "\u00" ++ [lowerhex (Z.shiftr b 4); lowerhex (Z.land b 0xF)]) ++ quote_loop fuel t
          else
            let '(c, size) := DecodeRune s in
            (if (c =? RuneError) && (size =? 1)%nat then lit "\ufffd"
             else if (c =? 0x2028) || (c =? 0x2029) then lit "\u202" ++ [lowerhex (Z.land c 0xF)]
             else take size s) ++ quote_loop fuel (drop size s)
      end
  end.

Definition quote (s : bytes) : bytes := 34 :: quote_loop (length s) s ++ [34].

(** [getu4]. *)
Definition hex_value (ds : bytes) : Z := fold_left (fun n d => 16 * n + unhex d) ds 0.

Definition getu4 (s : bytes) : option Z :=
  match s with
  | b :: u :: x0 :: x1 :: x2 :: x3 :: _ =>
      if (b =? 92) && (u =? 117) && forallb ishex [x0; x1; x2; x3] then Some (hex_value [x0; x1; x2; x3]) else None
  | _ => None
  end.

(** [utf16.DecodeRune]. *)
Definition utf16_pair (r1 r2 : Z) : Z :=
  if (0xD800 <=? r1) && (r1 <? 0xDC00) && (0xDC00 <=? r2) && (r2 <? 0xE000)
  then Z.shiftl (r1 - 0xD800) 10 + (r2 - 0xDC00) + 0x10000 else RuneError.

Definition unescape (e : Z) : Z :=
  if e =? 98 then 8 else if e =? 102 then 12 else if e =? 110 then 10 else if e =? 114 then 13 else if e =? 116 then 9 else e.

(** [unquoteBytes] of a string between its quotes. *)
Fixpoint unquote_loop (fuel : nat) (s : bytes) : option bytes :=
  match fuel with
  | O => Some []
  | S fuel =>
      let next b s := match unquote_loop fuel s with Some t => Some (b ++ t) | None => None end in
      match s with
      | [] => Some []
      | c :: t =>
          if c =? 92 then
            match t with
            | [] => None
            | e :: t =>
                if (e =? 34) || (e =? 39) || one_of "bfnrt\/" e then next [unescape e] t
                else if e =? 117 then
                  match getu4 s with
                  | None => None
                  | Some rr =>
                      let s := drop 6 s in
                      if is_surrogate rr then
                        match getu4 s with
                        | Some rr1 =>
                            if utf16_pair rr rr1 =? RuneError then next (EncodeRune RuneError) s
                            else next (EncodeRune (utf16_pair rr rr1)) (drop 6 s)
                        | None => next (EncodeRune RuneError) s
                        end
                      else next (EncodeRune rr) s
                  end
                else None
            end
          else if (c =? 34) || (c <? 32) then None
          else if c <? 128 then next [c] t
          else let '(rr, size) := DecodeRune s in next (EncodeRune rr) (drop size s)
      end
  end.

(** A string literal with its quotes. *)
Definition unquote (s : bytes) : option bytes :=
  match s with
  | c :: t =>
      if (c =? 34) && bool_decide (last t = Some 34) then let t := take (length t - 1) t in unquote_loop (length t) t else None
  | [] => None
  end.

(** ** Objects and arrays *)

(** The members of an object from a key on, with the texts of their values. *)
Fixpoint members_loop (fuel : nat) (s : bytes) : option (list (bytes * bytes)) :=
  match fuel with
  | O => None
  | S fuel =>
      let s := skip_space s in
      match s with
      | [] => None
      | _ :: t0 =>
          match skip_string t0 with
          | ScanTo t1 =>
              match unquote (upto s t1), skip_space t1 with
              | Some key, _ :: t2 =>
                  let t2 := skip_space t2 in
                  match scan_value t2 with
                  | ScanTo t3 =>
                      match skip_space t3 with
                      | c :: t4 =>
                          if c =? 44 then
                            match members_loop fuel t4 with
                            | Some ms => Some ((key, upto t2 t3) :: ms)
                            | None => None
                            end
                          else Some [(key, upto t2 t3)]
                      | [] => None
                      end
                  | _ => None
                  end
              | _, _ => None
              end
          | _ => None
          end
      end
  end.

(** The members of a valid text, when it is an object. *)
Definition members (s : bytes) : option (list (bytes * bytes)) :=
  match skip_space s with
  | c :: t =>
      if c =? 123 then
        match skip_space t with
        | c' :: _ => if c' =? 125 then Some [] else members_loop (length t) t
        | [] => None
        end
      else None
  | [] => None
  end.

(** The first element of a valid text that is an array: [None] if it is none. *)
Definition first_elem (s : bytes) : option (option bytes) :=
  match skip_space s with
  | c :: t =>
      if c =? 91 then
        let t := skip_space t in
        match t with
        | c' :: _ =>
            if c' =? 93 then Some None
            else match scan_value t with ScanTo rest => Some (Some (upto t rest)) | _ => None end
        | [] => None
        end
      else None
  | [] => None
  end.

(** The key of a struct's field is found without regard to case; the letters
    [s] and [k] have forms beyond ASCII. *)
Definition fold_char (c : Z) : Z := if is_upper c then c + 32 else c.

Fixpoint fold_eq (name key : bytes) : bool :=
  match name, key with
  | [], [] => true
  | a :: name, b :: key =>
      if fold_char a =? fold_char b then fold_eq name key
      else
        match key with
        | b1 :: key' =>
            if (fold_char a =? 115) && (b =? 0xC5) && (b1 =? 0xBF) then fold_eq name key'
            else
              match key' with
              | b2 :: key'' =>
                  if (fold_char a =? 107) && (b =? 0xE2) && (b1 =? 0x84) && (b2 =? 0xAA) then fold_eq name key'' else false
              | [] => false
              end
        | [] => false
        end
  | _, _ => false
  end.

(** The field of a struct for a key: the one of this name, or else the first that
    is it without regard to case. *)
Definition find_field (fields : list bytes) (key : bytes) : option bytes :=
  if bool_decide (key ∈ fields) then Some key else head (filter (fun f => fold_eq f key = true) fields).

Definition null_text : bytes := lit "null".

(** [map[string]*RawMessage]: a null is a nil pointer. *)
Definition raw_of (v : bytes) : option bytes := if bool_decide (v = null_text) then None else Some v.

Definition raw_map (ms : list (bytes * bytes)) : gmap bytes (option bytes) :=
  fold_left (fun m kv => <[kv.1 := raw_of kv.2]> m) ms ∅.

(** ** [Compact] *)

(** [compact] with HTML escaped, on a valid text: whether a string is open, and
    whether its next character is escaped. *)
Fixpoint compact_loop (instr esc : bool) (s : bytes) : bytes :=
  match s with
  | [] => []
  | c :: t =>
      let instr' := if (c =? 34) && negb esc then negb instr else instr in
      let esc' := instr && (c =? 92) && negb esc in
      if one_of "<>&" c then lit "\u00" ++ [lowerhex (Z.shiftr c 4); lowerhex (Z.land c 0xF)] ++ compact_loop instr' esc' t
      else if negb instr && is_space c then compact_loop instr' esc' t
      else
        match t with
        | b1 :: d :: t' =>
            if (c =? 0xE2) && (b1 =? 0x80) && ((d =? 0xA8) || (d =? 0xA9))
            then lit "\u202" ++ [lowerhex (Z.land d 0xF)] ++ compact_loop instr' esc' t'
            else c :: compact_loop instr' esc' t
        | _ => c :: compact_loop instr' esc' t
        end
  end.

Definition syntax_error : goerr := Errorf "invalid character or unexpected end of JSON input".

Definition Compact (s : bytes) : result bytes := if valid s then inr (compact_loop false false s) else inl syntax_error.

(** ** [Decoder]

    What was read from the buffer and is not decoded, the capacity of its slice,
    and an error that stays. *)
Record decoder := mkDecoder {
  d_buf : bytes;
  d_cap : nat;
  d_err : option goerr
}.

Definition new_decoder : decoder := mkDecoder [] 0 None.

Definition minRead : nat := 512.

(** [refill] from a [bytes.Buffer]. *)
Definition refill (d : decoder) (r : bytes) : decoder * bytes :=
  let n := length (d_buf d) in
  let cap := if (d_cap d - n <? minRead)%nat then (2 * d_cap d + minRead)%nat else d_cap d in
  (mkDecoder (d_buf d ++ take (cap - n) r) cap (d_err d), drop (cap - n) r).

Definition fail_with (e : goerr) (d : decoder) : decoder := mkDecoder (d_buf d) (d_cap d) (Some e).

(** [readValue]: each round takes something off [r] or makes room for it, until
    [r] is empty. *)
Fixpoint readValue (fuel : nat) (eof : bool) (d : decoder) (r : bytes) : outcome bytes * (decoder * bytes) :=
  match fuel with
  | O => (NoFuel, (d, r))
  | S fuel =>
      match scan_stream (d_buf d) with
      | ScanTo rest => (Ret (upto (d_buf d) rest), (mkDecoder rest (d_cap d) (d_err d), r))
      | ScanBad => (Fail syntax_error, (fail_with syntax_error d, r))
      | ScanMore =>
          if eof then
            match scan_stream (d_buf d ++ [32]) with
            | ScanTo _ => (Ret (d_buf d), (mkDecoder [] (d_cap d) (d_err d), r))
            | _ =>
                let e := if forallb is_space (d_buf d) then EOF else UnexpectedEOF in
                (Fail e, (fail_with e d, r))
            end
          else
            let '(d, r') := refill d r in
            readValue fuel (bool_decide (r = [])) d r'
      end
  end.

(** [Decode] of a [RawMessage]: the value's text. *)
Definition Decode_raw : ST (decoder * bytes) bytes := fun '(d, r) =>
  match d_err d with
  | Some e => (Fail e, (d, r))
  | None =>
      let '(o, s) := readValue (S (S (length (d_buf d) + length r))) false d r in
      (match o with Ret v => Ret (skip_space v) | o => o end, s)
  end.

(** ** Structs *)

(** An object as [Marshal] writes it. *)
Definition member_text (kv : bytes * bytes) : bytes := quote kv.1 ++ 58 :: kv.2.
Definition object_text (kvs : list (bytes * bytes)) : bytes := 123 :: Join 44 (map member_text kvs) ++ [125].

(** What [Unmarshal] does with a field's value: [None] is an error of type, which
    is kept while the other fields are read. *)
Definition decode_fields {R} (fields : list (bytes * (bytes -> R -> option R))) (ms : list (bytes * bytes)) (r : R) : bool * R :=
  fold_left (fun '(ok, r) kv =>
    match find_field fields.*1 kv.1 with
    | None => (ok, r)
    | Some f =>
        match list_find (fun fd => fd.1 = f) fields with
        | Some (_, (_, dec)) => match dec kv.2 r with Some r => (ok, r) | None => (false, r) end
        | None => (ok, r)
        end
    end) ms (true, r).

(** A struct is read from an object; a null changes nothing. *)
Definition decode_struct {R} (fields : list (bytes * (bytes -> R -> option R))) (s : bytes) (r : R) : bool * R :=
  match members s with
  | Some ms => decode_fields fields ms r
  | None => (bool_decide (s = null_text), r)
  end.

Definition string_field {R} (set : bytes -> R -> R) (v : bytes) (r : R) : option R :=
  if bool_decide (v = null_text) then Some r
  else if bool_decide (head v = Some 34) then match unquote v with Some s => Some (set s r) | None => None end
  else None.

Definition int_field {R} (set : Z -> R -> R) (v : bytes) (r : R) : option R :=
  if bool_decide (v = null_text) then Some r
  else match Atoi v with Some n => Some (set n r) | None => None end.

Definition raw_field {R} (set : option bytes -> R -> R) (v : bytes) (r : R) : option R := Some (set (raw_of v) r).
