(* ===== verification/JsonText.v ===== *)
(** * JSON text that is read back

    Lemmas about [Json]: strings, members and whole objects are scanned, read and
    compacted as they were written; and the decoder finds a value in its buffer
    however much of it there is. *)
From S2P Require Import Prelude.
From S2P Require Import Utf8 Registry Url Common Json.

(** ** Strings *)

(** What [Marshal] makes of a rune. *)
Definition quote_rune (r : Z) : bytes :=
  if r <? 128 then
    if html_safe r then [r]
    else if (r =? 92) || (r =? 34) then [92; r]
    else if r =? 10 then lit "\n"
    else if r =? 13 then lit "\r"
    else if r =? 9 then lit "\t"
    else lit "\u00" ++ [lowerhex (Z.shiftr r 4); lowerhex (Z.land r 0xF)]
  else if (r =? 0x2028) || (r =? 0x2029) then lit "\u202" ++ [lowerhex (Z.land r 0xF)]
  else EncodeRune r.

Definition quote_runes (rs : list Z) : bytes := concat (map quote_rune rs).

(** Text in UTF-8. *)
Definition utf8_text (s : bytes) : Prop := exists rs, s = encode_runes rs /\ Forall (fun r => scalar r = true) rs.

Lemma scalar_range r : scalar r = true -> 0 <= r <= 0x10FFFF.
Proof. unfold scalar. intros H. zify_bool. lia. Qed.

Lemma EncodeRune_ascii r : 0 <= r < 128 -> EncodeRune r = [r].
Proof. intros Hr. unfold EncodeRune. by replace ((0 <=? r) && (r <=? 0x7F)) with true by lia. Qed.

Lemma EncodeRune_high r : scalar r = true -> 128 <= r -> Forall (fun b => 128 <= b < 256) (EncodeRune r).
Proof.
  intros Hs Hr. pose proof (scalar_range r Hs) as Hb. rewrite EncodeRune_arith by done.
  replace (r <? 0x80) with false by lia.
  repeat (case_match; zify_bool); repeat (apply Forall_cons; split; [|]); try done; unfold cont_byte;
    Z.div_mod_to_equations; lia.
Qed.

Lemma quote_loop_runes fuel : forall rs,
  (length (encode_runes rs) <= fuel)%nat -> Forall (fun r => scalar r = true) rs ->
  quote_loop fuel (encode_runes rs) = quote_runes rs.
Proof.
  induction fuel as [|fuel IH]; intros rs Hf Hs.
  - destruct rs as [|r rs]; [done|]. unfold encode_runes in Hf. cbn in Hf. rewrite length_app in Hf.
    pose proof (EncodeRune_length r). lia.
  - destruct Hs as [|r rs Hr Hs]; [done|]. unfold encode_runes in *. cbn [map concat] in *. rewrite length_app in Hf.
    pose proof (EncodeRune_length r) as Hl. pose proof (scalar_range r Hr) as Hb.
    pose proof (DecodeRune_EncodeRune r (concat (map EncodeRune rs)) Hr) as Hd.
    unfold quote_runes. cbn [map concat]. fold (quote_runes rs). rewrite <- IH by (done || lia).
    destruct (Z.ltb_spec r 128) as [Hlow|Hhigh].
    + rewrite EncodeRune_ascii by lia. cbn [app quote_loop]. unfold quote_rune.
      replace (r <? 128) with true by lia. done.
    + pose proof (EncodeRune_high r Hr Hhigh) as Hall. cbn [quote_loop].
      destruct (EncodeRune r ++ concat (map EncodeRune rs)) as [|b t] eqn:E; [by apply EncodeRune_app_nonnil in E|].
      assert (Hb0 : 128 <= b) by (destruct (EncodeRune r); [cbn in Hl; lia|]; inversion Hall; subst; injection E as -> _; lia).
      rewrite <- E in *. replace (b <? 128) with false by lia. rewrite Hd. rewrite drop_app_length, take_app_length.
      unfold quote_rune. replace (r <? 128) with false by lia.
      replace ((r =? RuneError) && (length (EncodeRune r) =? 1)%nat) with false; [done|]. symmetry. apply andb_false_iff.
      destruct (r =? RuneError) eqn:Er; [right|by left]. apply Z.eqb_eq in Er. subst. done.
Qed.

Lemma quote_text rs : Forall (fun r => scalar r = true) rs -> quote (encode_runes rs) = 34 :: quote_runes rs ++ [34].
Proof. intros Hs. unfold quote. by rewrite quote_loop_runes. Qed.

(** A property of the runes below 128 is checked for each. *)
Lemma ascii_cases (P : Z -> Prop) : Forall P (seqZ 0 128) -> forall r, 0 <= r < 128 -> P r.
Proof. intros H r Hr. rewrite Forall_forall in H. apply H, elem_of_seqZ. lia. Qed.

Ltac each_ascii P := apply (ascii_cases P); [repeat (apply Forall_cons; split; [reflexivity|]); by apply Forall_nil|lia].

Lemma skip_string_high bs s : Forall (fun b => 128 <= b < 256) bs -> skip_string (bs ++ s) = skip_string s.
Proof.
  induction 1 as [|b bs Hb _ IH]; [done|]. cbn [app skip_string].
  replace (b =? 34) with false by lia. replace (b <? 32) with false by lia. by replace (b =? 92) with false by lia.
Qed.

Lemma skip_string_rune r s : scalar r = true -> skip_string (quote_rune r ++ s) = skip_string s.
Proof.
  intros Hr. pose proof (scalar_range r Hr) as Hb. destruct (Z.ltb_spec r 128) as [Hlow|Hhigh].
  - each_ascii (fun r => skip_string (quote_rune r ++ s) = skip_string s).
  - unfold quote_rune. replace (r <? 128) with false by lia.
    destruct (r =? 0x2028) eqn:E1; [apply Z.eqb_eq in E1; by subst|].
    destruct (r =? 0x2029) eqn:E2; [apply Z.eqb_eq in E2; by subst|]. cbn [orb].
    by apply skip_string_high, EncodeRune_high.
Qed.

Lemma skip_string_runes rs rest :
  Forall (fun r => scalar r = true) rs -> skip_string (quote_runes rs ++ 34 :: rest) = ScanTo rest.
Proof.
  unfold quote_runes. induction 1 as [|r rs Hr _ IH]; [done|]. cbn [map concat]. rewrite <- app_assoc.
  by rewrite skip_string_rune.
Qed.

Lemma quote_rune_length r : scalar r = true -> (length (EncodeRune r) <= length (quote_rune r))%nat.
Proof.
  intros Hr. pose proof (scalar_range r Hr) as Hb. destruct (Z.ltb_spec r 128) as [Hlow|Hhigh].
  - rewrite EncodeRune_ascii by lia. unfold quote_rune. replace (r <? 128) with true by lia. repeat case_match; cbn; lia.
  - unfold quote_rune. replace (r <? 128) with false by lia.
    destruct (r =? 0x2028) eqn:E1; [apply Z.eqb_eq in E1; subst; cbn; lia|].
    destruct (r =? 0x2029) eqn:E2; [apply Z.eqb_eq in E2; subst; cbn; lia|]. done.
Qed.

Definition prepend (b : bytes) (o : option bytes) : option bytes := match o with Some t => Some (b ++ t) | None => None end.

Lemma unquote_rune fuel r s :
  scalar r = true -> unquote_loop (S fuel) (quote_rune r ++ s) = prepend (EncodeRune r) (unquote_loop fuel s).
Proof.
  intros Hr. pose proof (scalar_range r Hr) as Hb. destruct (Z.ltb_spec r 128) as [Hlow|Hhigh].
  - each_ascii (fun r => unquote_loop (S fuel) (quote_rune r ++ s) = prepend (EncodeRune r) (unquote_loop fuel s)).
  - unfold quote_rune. replace (r <? 128) with false by lia.
    destruct (r =? 0x2028) eqn:E1; [apply Z.eqb_eq in E1; by subst|].
    destruct (r =? 0x2029) eqn:E2; [apply Z.eqb_eq in E2; by subst|]. cbn [orb].
    pose proof (EncodeRune_high r Hr Hhigh) as Hall. pose proof (DecodeRune_EncodeRune r s Hr) as Hd.
    pose proof (EncodeRune_length r) as Hl. cbn [unquote_loop].
    destruct (EncodeRune r ++ s) as [|b t] eqn:E; [by apply EncodeRune_app_nonnil in E|].
    assert (Hb0 : 128 <= b).
    { destruct (EncodeRune r) as [|b0 l]; [cbn in Hl; lia|]. apply Forall_cons in Hall as [Hb0 _]. cbn [app] in E. injection E as E0 _. lia. }
    replace (b =? 92) with false by lia. replace (b =? 34) with false by lia. replace (b <? 32) with false by lia.
    replace (b <? 128) with false by lia. cbn [orb]. rewrite Hd, <- E, drop_app_length. reflexivity.
Qed.

Lemma unquote_runes rs : forall fuel,
  Forall (fun r => scalar r = true) rs -> (length rs <= fuel)%nat -> unquote_loop fuel (quote_runes rs) = Some (encode_runes rs).
Proof.
  unfold quote_runes, encode_runes. induction rs as [|r rs IH]; intros fuel Hs Hf.
  - by destruct fuel.
  - apply Forall_cons in Hs as [Hr Hs]. destruct fuel as [|fuel]; [cbn in Hf; lia|]. cbn [map concat].
    rewrite unquote_rune by done. rewrite IH; [done|done|cbn in Hf; lia].
Qed.

Lemma quote_runes_length rs : Forall (fun r => scalar r = true) rs -> (length rs <= length (quote_runes rs))%nat.
Proof.
  unfold quote_runes. induction 1 as [|r rs Hr _ IH]; [done|]. cbn [map concat length]. rewrite length_app.
  pose proof (quote_rune_length r Hr). pose proof (EncodeRune_length r). lia.
Qed.

Lemma unquote_quote s : utf8_text s -> unquote (quote s) = Some s.
Proof.
  intros (rs & -> & Hs). rewrite quote_text by done. unfold unquote. rewrite last_snoc, bool_decide_eq_true_2 by done.
  cbn [Z.eqb andb]. change (34 =? 34) with true. cbn [andb]. rewrite length_app. cbn [length].
  rewrite take_app_le, take_ge by lia. apply unquote_runes; [done|]. pose proof (quote_runes_length rs Hs). lia.
Qed.

(** *** [Compact] leaves strings as they are *)

Lemma one_of_html b : 128 <= b -> one_of "<>&" b = false.
Proof. intros Hb. unfold one_of. change (lit "<>&") with [60; 62; 38]. cbn [existsb]. rewrite !orb_false_iff. repeat split; lia. Qed.

(** A byte beyond ASCII that begins no line separator. *)
Lemma compact_byte b t :
  128 <= b -> (b <> 0xE2 \/ exists b1 d t', t = b1 :: d :: t' /\ ~ (b1 = 0x80 /\ (d = 0xA8 \/ d = 0xA9))) ->
  compact_loop true false (b :: t) = b :: compact_loop true false t.
Proof.
  intros Hb Hsep. cbn [compact_loop]. rewrite one_of_html by done.
  replace (b =? 34) with false by lia. replace (b =? 92) with false by lia. cbn [negb andb].
  destruct t as [|b1 [|d t']]; [done|done|].
  replace ((b =? 0xE2) && (b1 =? 0x80) && ((d =? 0xA8) || (d =? 0xA9))) with false; [done|].
  symmetry. rewrite !andb_false_iff, orb_false_iff, !Z.eqb_neq. destruct Hsep as [Hb'|(? & ? & ? & E & Hsep)]; [by left; left|].
  injection E as <- <- _. destruct (Z.eq_dec b1 0x80); [right|by left; right]. split; intros ->; apply Hsep; auto.
Qed.

Lemma compact_rune r s :
  scalar r = true -> compact_loop true false (quote_rune r ++ s) = quote_rune r ++ compact_loop true false s.
Proof.
  intros Hr. pose proof (scalar_range r Hr) as Hb. destruct (Z.ltb_spec r 128) as [Hlow|Hhigh].
  - destruct s as [|s0 [|s1 s]].
    + each_ascii (fun r => compact_loop true false (quote_rune r ++ []) = quote_rune r ++ compact_loop true false []).
    + each_ascii (fun r => compact_loop true false (quote_rune r ++ [s0]) = quote_rune r ++ compact_loop true false [s0]).
    + each_ascii (fun r => compact_loop true false (quote_rune r ++ s0 :: s1 :: s) = quote_rune r ++ compact_loop true false (s0 :: s1 :: s)).
  - unfold quote_rune. replace (r <? 128) with false by lia.
    destruct (r =? 0x2028) eqn:E1; [apply Z.eqb_eq in E1; subst; by destruct s as [|? [|? ?]]|].
    destruct (r =? 0x2029) eqn:E2; [apply Z.eqb_eq in E2; subst; by destruct s as [|? [|? ?]]|]. cbn [orb].
    apply Z.eqb_neq in E1, E2. rewrite EncodeRune_arith by done. replace (r <? 0x80) with false by lia.
    destruct (r <? 0x800) eqn:E3; [|destruct (r <? 0x10000) eqn:E4]; zify_bool; cbn [app]; unfold cont_byte.
    + rewrite !compact_byte; [done|..]; try (left; Z.div_mod_to_equations; lia); Z.div_mod_to_equations; lia.
    + rewrite compact_byte; [|Z.div_mod_to_equations; lia|].
      * rewrite !compact_byte; [done|..]; try (left; Z.div_mod_to_equations; lia); Z.div_mod_to_equations; lia.
      * destruct (Z.eq_dec (224 + r / 4096) 0xE2) as [E5|E5]; [right|by left].
        eexists _, _, _. split; [reflexivity|]. Z.div_mod_to_equations; lia.
    + rewrite !compact_byte; [done|..]; try (left; Z.div_mod_to_equations; lia); Z.div_mod_to_equations; lia.
Qed.

Lemma compact_quote s rest :
  utf8_text s -> compact_loop false false (quote s ++ rest) = quote s ++ compact_loop false false rest.
Proof.
  intros (rs & -> & Hs). rewrite quote_text by done. change ((34 :: quote_runes rs ++ [34]) ++ rest) with (34 :: (quote_runes rs ++ [34]) ++ rest).
  rewrite <- app_assoc. assert (E : compact_loop true false (quote_runes rs ++ [34] ++ rest) = quote_runes rs ++ 34 :: compact_loop false false rest).
  { unfold quote_runes. induction Hs as [|r rs Hr _ IH].
    - cbn [map concat app]. cbn [compact_loop]. by destruct rest as [|? [|]].
    - cbn [map concat]. rewrite <- !app_assoc, compact_rune by done. by rewrite IH. }
  change (compact_loop false false (34 :: quote_runes rs ++ [34] ++ rest)) with
    (match quote_runes rs ++ [34] ++ rest with
     | _ :: _ :: _ => 34 :: compact_loop true false (quote_runes rs ++ [34] ++ rest)
     | _ => 34 :: compact_loop true false (quote_runes rs ++ [34] ++ rest) end).
  rewrite E. destruct (quote_runes rs ++ [34] ++ rest) as [|? [|]]; cbn; by rewrite <- app_assoc.
Qed.

(** ** Values *)

(** What may follow a value in a text. *)
Definition ends (c : Z) : Prop := c ∈ [32; 9; 13; 10; 44; 93; 125].

Lemma ends_facts c : ends c -> is_digit c = false /\ c <> 46 /\ c <> 101 /\ c <> 69.
Proof.
  unfold ends, is_digit, between. rewrite !elem_of_cons, elem_of_nil. intros H. rewrite andb_false_iff, !Z.leb_gt.
  lia.
Qed.

(** A text that is one value, found as such wherever it stands. *)
Record json_text (t : bytes) : Prop := {
  json_head : exists c u, t = c :: u /\ is_space c = false;
  json_scans : forall fuel c rest, (2 * length t < fuel)%nat -> ends c -> skip_value fuel (t ++ c :: rest) = ScanTo (c :: rest)
}.

Lemma json_skip_space t rest : json_text t -> skip_space (t ++ rest) = t ++ rest.
Proof. intros [(c & u & -> & Hc) _]. cbn. by rewrite Hc. Qed.

Lemma json_quote s : utf8_text s -> json_text (quote s).
Proof.
  intros (rs & -> & Hs). rewrite quote_text by done. split; [by eexists _, _|].
  intros fuel c rest Hf _. destruct fuel as [|fuel]; [lia|]. cbn [skip_value app skip_space]. change (is_space 34) with false.
  cbn [skip_value]. change (34 =? 34) with true. cbv iota. rewrite <- app_assoc. by apply skip_string_runes.
Qed.

Lemma json_null : json_text null_text.
Proof.
  split; [by eexists _, _|]. intros fuel c rest Hf _. destruct fuel as [|fuel]; [lia|]. reflexivity.
Qed.

Lemma digits_head fuel : forall n acc,
  0 < n < 10 ^ Z.of_nat fuel -> exists d u, digits fuel n acc = d :: u /\ 49 <= d <= 57.
Proof.
  induction fuel as [|fuel IH]; intros n acc Hn; [cbn in Hn; lia|]. cbn [digits].
  destruct (n <? 10) eqn:E; zify_bool.
  - eexists _, _. split; [reflexivity|]. rewrite Z.mod_small; lia.
  - apply IH. rewrite Nat2Z.inj_succ, Z.pow_succ_r in Hn by lia.
    split; [apply Z.div_str_pos; lia|apply Z.div_lt_upper_bound; lia].
Qed.

Lemma skip_digits_all u c rest :
  forallb is_digit u = true -> is_digit c = false -> skip_digits (u ++ c :: rest) = c :: rest.
Proof.
  intros Hu Hc. induction u as [|d u IH]; cbn; [by rewrite Hc|]. cbn in Hu. apply andb_true_iff in Hu as [-> Hu]. by apply IH.
Qed.

Lemma json_Itoa n : 0 <= n < 2 ^ 63 -> json_text (Itoa n).
Proof.
  intros Hn. pose proof (Itoa_digits n ltac:(lia)) as Hall. destruct (Z.eq_dec n 0) as [->|Hpos].
  - split; [by eexists _, _|]. intros fuel c rest Hf Hc. destruct (ends_facts c Hc) as (Hd & H46 & H101 & H69).
    destruct fuel as [|fuel]; [lia|]. change (Itoa 0) with [48]. cbn. replace (c =? 46) with false by lia.
    replace (c =? 101) with false by lia. by replace (c =? 69) with false by lia.
  - destruct (digits_head 20 n []) as (d & u & E & Hd); [lia|]. unfold Itoa in *. replace (n <? 0) with false in * by lia.
    rewrite E in *. cbn [forallb] in Hall. apply andb_true_iff in Hall as [Hdd Hu].
    split; [eexists _, _; split; [reflexivity|]; unfold is_space; rewrite !orb_false_iff, !Z.eqb_neq; lia|].
    intros fuel c rest Hf Hc. destruct (ends_facts c Hc) as (Hcd & H46 & H101 & H69). destruct fuel as [|fuel]; [lia|].
    cbn [skip_value app skip_space]. replace (is_space d) with false by (unfold is_space; symmetry; rewrite !orb_false_iff, !Z.eqb_neq; lia).
    replace (d =? 34) with false by lia. replace (d =? 123) with false by lia. replace (d =? 91) with false by lia.
    rewrite Hdd, orb_true_r. unfold skip_number. replace (d =? 45) with false by lia. replace (d =? 48) with false by lia.
    unfold skip_digits1. rewrite Hdd. change (d :: u ++ c :: rest) with ((d :: u) ++ c :: rest).
    rewrite skip_digits_all; [|cbn; by rewrite Hdd, Hu|done]. cbn. replace (c =? 46) with false by lia.
    replace (c =? 101) with false by lia. by replace (c =? 69) with false by lia.
Qed.

(** *** Objects *)

Definition good_member (kv : bytes * bytes) : Prop := utf8_text kv.1 /\ json_text kv.2.

Lemma quote_app s rest : utf8_text s -> exists u, quote s ++ rest = 34 :: u /\ skip_string u = ScanTo rest /\ quote s = upto (34 :: u) rest.
Proof.
  intros (rs & -> & Hs). rewrite quote_text by done. exists (quote_runes rs ++ 34 :: rest). split; [by rewrite <- app_comm_cons, <- app_assoc|].
  split; [by apply skip_string_runes|]. unfold upto.
  change (34 :: quote_runes rs ++ 34 :: rest) with ((34 :: quote_runes rs) ++ [34] ++ rest). rewrite app_assoc, length_app.
  replace (_ - length rest)%nat with (length ((34 :: quote_runes rs) ++ [34])) by lia. by rewrite take_app_length.
Qed.

Lemma upto_app a b : upto (a ++ b) b = a.
Proof. unfold upto. rewrite length_app. replace (_ - _)%nat with (length a) by lia. apply take_app_length. Qed.

Lemma member_text_app kv rest : member_text kv ++ rest = quote kv.1 ++ 58 :: kv.2 ++ rest.
Proof. unfold member_text. by rewrite <- app_assoc. Qed.

(** The rest of an object after a member. *)
Definition members_rest (kvs : list (bytes * bytes)) (rest : bytes) : bytes :=
  match kvs with [] => 125 :: rest | _ => 44 :: Join 44 (map member_text kvs) ++ 125 :: rest end.

Lemma members_cons kv kvs rest :
  Join 44 (map member_text (kv :: kvs)) ++ 125 :: rest = quote kv.1 ++ 58 :: kv.2 ++ members_rest kvs rest.
Proof.
  destruct kvs as [|kv' kvs].
  - change (Join 44 (map member_text [kv])) with (member_text kv). apply member_text_app.
  - change (Join 44 (map member_text (kv :: kv' :: kvs))) with (member_text kv ++ 44 :: Join 44 (map member_text (kv' :: kvs))).
    rewrite <- app_assoc. apply member_text_app.
Qed.

Lemma members_rest_head kvs rest : exists c u, members_rest kvs rest = c :: u /\ ends c /\ is_space c = false.
Proof. destruct kvs; eexists _, _; (split; [reflexivity|]; split; [unfold ends; set_solver|done]). Qed.

Lemma skip_members_text kvs : forall fuel rest,
  kvs <> [] -> Forall good_member kvs -> (2 * length (Join 44 (map member_text kvs)) < fuel)%nat ->
  skip_members fuel (Join 44 (map member_text kvs) ++ 125 :: rest) = ScanTo rest.
Proof.
  induction kvs as [|kv kvs IH]; intros fuel rest Hne Hg Hf; [done|]. apply Forall_cons in Hg as [[Hk Hv] Hg].
  assert (Hlen : (2 + length kv.2 <= length (Join 44 (map member_text (kv :: kvs))))%nat
    /\ (kvs <> [] -> (2 + length (Join 44 (map member_text kvs)) <= length (Join 44 (map member_text (kv :: kvs))))%nat)).
  { assert (Hm : (2 + length kv.2 <= length (member_text kv))%nat).
    { unfold member_text, quote. rewrite length_app. cbn. rewrite length_app. cbn. lia. }
    destruct kvs as [|kv' kvs]; [by split|].
    change (Join 44 (map member_text (kv :: kv' :: kvs))) with (member_text kv ++ 44 :: Join 44 (map member_text (kv' :: kvs))).
    rewrite length_app. cbn [length]. split; [lia|]. intros _. lia. }
  destruct Hlen as [Hl1 Hl2]. rewrite members_cons. destruct fuel as [|fuel]; [lia|].
  destruct (quote_app kv.1 (58 :: kv.2 ++ members_rest kvs rest) Hk) as (u & -> & Hu & _).
  destruct (members_rest_head kvs rest) as (c & w & Ew & Hc & Hsp).
  cbn [skip_members skip_space]. change (is_space 34) with false. cbv iota. change (34 =? 34) with true. cbv iota.
  rewrite Hu. cbn [scan_then skip_space]. change (is_space 58) with false. cbv iota. change (58 =? 58) with true. cbv iota.
  rewrite Ew, (json_scans _ Hv) by (done || lia). cbn [scan_then skip_space]. rewrite Hsp.
  destruct kvs as [|kv' kvs]; cbn [members_rest] in Ew; injection Ew as <- <-; [done|].
  change (44 =? 44) with true. cbv iota. apply IH; [done|done|]. specialize (Hl2 ltac:(done)). lia.
Qed.

Lemma object_app kvs rest : object_text kvs ++ rest = 123 :: Join 44 (map member_text kvs) ++ 125 :: rest.
Proof. unfold object_text. by rewrite <- app_comm_cons, <- app_assoc. Qed.

(** The first member begins with a quote. *)
Lemma members_start kvs rest : kvs <> [] -> Forall good_member kvs ->
  exists u, Join 44 (map member_text kvs) ++ 125 :: rest = 34 :: u.
Proof.
  intros Hne Hg. destruct kvs as [|kv kvs]; [done|]. apply Forall_cons in Hg as [[Hk _] _]. rewrite members_cons.
  destruct (quote_app kv.1 (58 :: kv.2 ++ members_rest kvs rest) Hk) as (u & -> & _). by eexists.
Qed.

Lemma skip_object fuel kvs rest :
  kvs <> [] -> Forall good_member kvs -> (2 * length (object_text kvs) < fuel)%nat ->
  skip_value fuel (object_text kvs ++ rest) = ScanTo rest.
Proof.
  intros Hne Hg Hf. rewrite object_app. destruct fuel as [|fuel]; [lia|]. cbn [skip_value skip_space].
  change (is_space 123) with false. cbv iota. change (123 =? 34) with false. change (123 =? 123) with true. cbv iota.
  destruct (members_start kvs rest Hne Hg) as [u Eu]. rewrite Eu at 1. cbn [skip_space]. change (is_space 34) with false. cbv iota.
  change (34 =? 125) with false. cbv iota. apply skip_members_text; [done|done|].
  unfold object_text in Hf. cbn [length] in Hf. rewrite length_app in Hf. cbn in Hf. lia.
Qed.

Lemma json_object kvs : kvs <> [] -> Forall good_member kvs -> json_text (object_text kvs).
Proof.
  intros Hne Hg. split; [by eexists _, _|]. intros fuel c rest Hf _. by apply skip_object.
Qed.

Lemma members_loop_text kvs : forall fuel rest,
  kvs <> [] -> Forall good_member kvs -> (length kvs <= fuel)%nat ->
  members_loop fuel (Join 44 (map member_text kvs) ++ 125 :: rest) = Some kvs.
Proof.
  induction kvs as [|kv kvs IH]; intros fuel rest Hne Hg Hf; [done|]. apply Forall_cons in Hg as [[Hk Hv] Hg].
  rewrite members_cons. destruct fuel as [|fuel]; [cbn in Hf; lia|].
  destruct (quote_app kv.1 (58 :: kv.2 ++ members_rest kvs rest) Hk) as (u & -> & Hu & Hq).
  destruct (members_rest_head kvs rest) as (c & w & Ew & Hc & Hsp).
  cbn [members_loop skip_space]. change (is_space 34) with false. cbv iota. rewrite Hu, <- Hq, unquote_quote by done.
  cbn [skip_space]. change (is_space 58) with false. cbv iota zeta. rewrite json_skip_space by done.
  unfold scan_value, scan_fuel. rewrite Ew, (json_scans _ Hv); [|rewrite length_app; lia|done].
  rewrite upto_app. cbn [skip_space]. rewrite Hsp.
  destruct kvs as [|kv' kvs]; cbn [members_rest] in Ew; injection Ew as <- <-.
  - change (125 =? 44) with false. by destruct kv.
  - change (44 =? 44) with true. cbv iota. rewrite IH; [by destruct kv|done|done|cbn in *; lia].
Qed.

Lemma members_object kvs rest : kvs <> [] -> Forall good_member kvs -> members (object_text kvs ++ rest) = Some kvs.
Proof.
  intros Hne Hg. rewrite object_app. unfold members. cbn [skip_space]. change (is_space 123) with false. cbv iota.
  change (123 =? 123) with true. cbv iota.
  destruct (members_start kvs rest Hne Hg) as [u Eu]. rewrite Eu at 1. cbn [skip_space]. change (is_space 34) with false. cbv iota.
  change (34 =? 125) with false. cbv iota. apply members_loop_text; [done|done|].
  rewrite length_app. assert (H : (length kvs <= length (Join 44 (map member_text kvs)))%nat); [|lia].
  clear. induction kvs as [|kv kvs IH]; [done|]. destruct kvs as [|kv' kvs].
  - cbn. unfold member_text, quote. rewrite length_app. cbn. lia.
  - change (Join 44 (map member_text (kv :: kv' :: kvs))) with (member_text kv ++ 44 :: Join 44 (map member_text (kv' :: kvs))).
    rewrite length_app. cbn [length] in *. lia.
Qed.

Lemma valid_text t : json_text t -> valid t = true.
Proof.
  intros Ht. unfold valid, scan_value, scan_fuel. rewrite (json_scans _ Ht); [done|rewrite length_app; lia|unfold ends; set_solver].
Qed.

(** ** More text

    [ScanMore] is the least answer: a scan that ends does so with more fuel, and
    leaves what is written after the text. *)

Definition below (q : bytes) (r r' : scan) : Prop :=
  match r with ScanMore => True | ScanBad => r' = ScanBad | ScanTo t => r' = ScanTo (t ++ q) end.

Lemma below_then q r r' k k' :
  below q r r' -> (forall t, below q (k t) (k' (t ++ q))) -> below q (scan_then r k) (scan_then r' k').
Proof. intros Hr Hk. destruct r; cbn in *; [subst; cbn; apply Hk|done|by subst]. Qed.

Lemma skip_space_app s q c t : skip_space s = c :: t -> skip_space (s ++ q) = c :: t ++ q.
Proof. induction s as [|b s IH]; [done|]. cbn. destruct (is_space b); [done|]. by intros [= -> ->]. Qed.

Lemma string_below q : forall n s, (length s <= n)%nat -> below q (skip_string s) (skip_string (s ++ q)).
Proof.
  induction n as [|n IH]; intros s Hn; [destruct s; [done|cbn in Hn; lia]|]. destruct s as [|c s]; [done|]. cbn [skip_string app].
  destruct (c =? 34); [done|]. destruct (c <? 32); [done|]. destruct (c =? 92); [|apply IH; cbn in Hn; lia].
  destruct s as [|e s]; [done|]. cbn [app]. destruct ((e =? 34) || _); [apply IH; cbn in Hn; lia|].
  destruct (e =? 117); [|done]. destruct s as [|x0 [|x1 [|x2 [|x3 s]]]].
  - done.
  - cbn [app forallb]. destruct (ishex x0) eqn:E0; [done|]. cbn [below].
    destruct q as [|y0 [|y1 [|y2 q]]]; done.
  - cbn [app forallb]. destruct (ishex x0 && _) eqn:E0; [done|]. cbn [below].
    destruct q as [|y0 [|y1 q]]; cbn [forallb]; revert E0; by destruct (ishex x0), (ishex x1).
  - cbn [app forallb]. destruct (ishex x0 && _) eqn:E0; [done|]. cbn [below].
    destruct q as [|y0 q]; cbn [forallb]; revert E0; by destruct (ishex x0), (ishex x1), (ishex x2).
  - cbn [app]. destruct (forallb _ _); [|done]. apply IH. cbn in Hn. lia.
Qed.

Lemma skip_digits_app s q c t : skip_digits s = c :: t -> skip_digits (s ++ q) = c :: t ++ q.
Proof. induction s as [|b s IH]; [done|]. cbn. destruct (is_digit b); [done|]. by intros [= -> ->]. Qed.

(** A function that asks for more at the end of the text. *)
Definition grows (q : bytes) (k : bytes -> scan) : Prop := k [] = ScanMore /\ forall s, below q (k s) (k (s ++ q)).

Lemma digits1_below q k : grows q k -> grows q (fun s => skip_digits1 s k).
Proof.
  intros [Hk0 Hk]. split; [done|]. intros [|d s]; [done|]. cbn [skip_digits1 app]. destruct (is_digit d) eqn:Ed; [|done].
  destruct (skip_digits (d :: s)) as [|c t] eqn:E; [by rewrite Hk0|].
  change (d :: s ++ q) with ((d :: s) ++ q). rewrite (skip_digits_app _ q _ _ E). apply (Hk (c :: t)).
Qed.

Lemma end_number_grows q : grows q end_number.
Proof. split; [done|]. by intros [|c s]. Qed.

Lemma skip_exp_grows q : grows q skip_exp.
Proof.
  split; [done|]. intros [|c s]; [done|]. cbn [skip_exp app]. destruct ((c =? 101) || _); [|done].
  destruct s as [|g s]; [done|]. cbn [app]. pose proof (digits1_below q _ (end_number_grows q)) as [_ Hd].
  destruct ((g =? 43) || _); [apply Hd|apply (Hd (g :: s))].
Qed.

Lemma skip_frac_grows q : grows q skip_frac.
Proof.
  split; [done|]. intros [|c s]; [done|]. cbn [skip_frac app]. destruct (c =? 46).
  - apply (digits1_below q _ (skip_exp_grows q)).
  - apply (proj2 (skip_exp_grows q) (c :: s)).
Qed.

Lemma number_below q s : below q (skip_number s) (skip_number (s ++ q)).
Proof.
  assert (Hp : forall s, below q (match s with [] => ScanMore | c :: t => if c =? 48 then skip_frac t else skip_digits1 s skip_frac end)
    (match s ++ q with [] => ScanMore | c :: t => if c =? 48 then skip_frac t else skip_digits1 (s ++ q) skip_frac end)).
  { intros [|c t]; [done|]. cbn [app]. destruct (c =? 48); [apply skip_frac_grows|apply (digits1_below q _ (skip_frac_grows q))]. }
  unfold skip_number. destruct s as [|c t]; [done|]. cbn [app]. destruct (c =? 45); [apply Hp|apply (Hp (c :: t))].
Qed.

Lemma word_below q w : forall s, below q (skip_word w s) (skip_word w (s ++ q)).
Proof. induction w as [|a w IH]; intros [|b s]; try done. cbn. destruct (a =? b); [apply IH|done]. Qed.

Lemma scan_below q n : forall m s, (n <= m)%nat ->
  below q (skip_value n s) (skip_value m (s ++ q)) /\ below q (skip_members n s) (skip_members m (s ++ q))
  /\ below q (skip_elems n s) (skip_elems m (s ++ q)).
Proof.
  induction n as [|n IH]; intros m s Hm; [done|]. destruct m as [|m]; [lia|]. apply le_S_n in Hm.
  assert (Hmem : forall s, below q (skip_members n s) (skip_members m (s ++ q))) by (intros; by apply IH).
  assert (Hele : forall s, below q (skip_elems n s) (skip_elems m (s ++ q))) by (intros; by apply IH).
  assert (Hval : forall s, below q (skip_value n s) (skip_value m (s ++ q))) by (intros; by apply IH).
  split; [|split].
  - cbn [skip_value]. destruct (skip_space s) as [|c t] eqn:E; [done|]. rewrite (skip_space_app _ q _ _ E).
    destruct (c =? 34); [by eapply string_below|].
    destruct (c =? 123).
    { destruct (skip_space t) as [|c' t'] eqn:E'; [done|]. rewrite (skip_space_app _ q _ _ E').
      by destruct (c' =? 125). }
    destruct (c =? 91).
    { destruct (skip_space t) as [|c' t'] eqn:E'; [done|]. rewrite (skip_space_app _ q _ _ E').
      by destruct (c' =? 93). }
    destruct ((c =? 45) || _); [apply (number_below q (c :: t))|]. destruct (c =? 116); [apply word_below|].
    destruct (c =? 102); [apply word_below|]. destruct (c =? 110); [apply word_below|done].
  - cbn [skip_members]. destruct (skip_space s) as [|c t] eqn:E; [done|]. rewrite (skip_space_app _ q _ _ E).
    destruct (c =? 34); [|done]. apply below_then; [by eapply string_below|]. intros t1.
    destruct (skip_space t1) as [|c1 t2] eqn:E1; [done|]. rewrite (skip_space_app _ q _ _ E1).
    destruct (c1 =? 58); [|done]. apply below_then; [done|]. intros t3.
    destruct (skip_space t3) as [|c3 t4] eqn:E3; [done|]. rewrite (skip_space_app _ q _ _ E3).
    destruct (c3 =? 44); [done|]. by destruct (c3 =? 125).
  - cbn [skip_elems]. apply below_then; [done|]. intros t3.
    destruct (skip_space t3) as [|c3 t4] eqn:E3; [done|]. rewrite (skip_space_app _ q _ _ E3).
    destruct (c3 =? 44); [done|]. by destruct (c3 =? 93).
Qed.

(** A part of an object is not the whole. *)
Lemma prefix_more kvs p q :
  kvs <> [] -> Forall good_member kvs -> object_text kvs = p ++ q -> q <> [] -> scan_stream p = ScanMore.
Proof.
  intros Hne Hg E Hq.
  assert (Hwhole : forall n, (2 * length (object_text kvs) < n)%nat -> skip_value n (p ++ q) = ScanTo []).
  { intros n Hn. rewrite <- E, <- (app_nil_r (object_text kvs)). by apply skip_object. }
  destruct (scan_below q (scan_fuel p) (scan_fuel (p ++ q)) p) as [Hb _]; [unfold scan_fuel; rewrite length_app; lia|].
  rewrite Hwhole in Hb by (unfold scan_fuel; rewrite E; lia).
  unfold scan_stream, scan_value. destruct (skip_value (scan_fuel p) p) as [t| |]; [|done|done].
  cbn in Hb. injection Hb as Hb. symmetry in Hb. by apply app_eq_nil in Hb as [_ ->].
Qed.

(** ** The decoder *)

Definition rounds (d : decoder) (r : bytes) : nat := length (d_buf d) - d_cap d + length r.

Lemma refill_rounds d r d' r' :
  refill d r = (d', r') -> r <> [] -> (rounds d' r' < rounds d r)%nat /\ d_buf d' ++ r' = d_buf d ++ r /\ d_err d' = d_err d.
Proof.
  unfold refill, rounds, minRead. set (n := length (d_buf d)). intros [= <- <-] Hr. cbn [d_buf d_cap d_err].
  assert (Hlr : (0 < length r)%nat) by (destruct r; [done|cbn; lia]).
  split; [|split; [by rewrite <- app_assoc, take_drop|done]]. rewrite length_app, length_take, length_drop. fold n.
  destruct (d_cap d - n <? 512)%nat eqn:E; [apply Nat.ltb_lt in E|apply Nat.ltb_ge in E]; lia.
Qed.

Lemma readValue_halts fuel : forall (eof : bool) d r,
  ((if eof then 1 else rounds d r + 2) <= fuel)%nat -> (eof = true -> r = []) -> (readValue fuel eof d r).1 <> NoFuel.
Proof.
  induction fuel as [|fuel IH]; intros eof d r Hf He; [destruct eof; lia|]. cbn [readValue].
  destruct (scan_stream (d_buf d)); [done| |done]. destruct eof.
  { by destruct (scan_stream _). }
  destruct (refill d r) as [d' r'] eqn:E. apply IH.
  - case_bool_decide as Hr; [lia|]. destruct (refill_rounds _ _ _ _ E Hr) as [Hlt _]. lia.
  - intros Hr%bool_decide_eq_true_1. subst r. unfold refill in E. injection E as _ <-. by rewrite drop_nil.
Qed.

Lemma rounds_bound d r : (rounds d r + 2 <= S (S (length (d_buf d) + length r)))%nat.
Proof. unfold rounds. lia. Qed.

Lemma Decode_raw_halts d r : (Decode_raw (d, r)).1 <> NoFuel.
Proof.
  unfold Decode_raw. destruct (d_err d); [done|].
  pose proof (readValue_halts (S (S (length (d_buf d) + length r))) false d r (rounds_bound d r)) as H.
  destruct (readValue _ _ _ _) as [[] s]; cbn in *; try done. by apply H.
Qed.

Lemma Decode_raw_no_panic d r : (Decode_raw (d, r)).1 <> Panic.
Proof.
  unfold Decode_raw. destruct (d_err d); [done|].
  assert (H : forall fuel eof d r, (readValue fuel eof d r).1 <> Panic).
  { induction fuel as [|fuel IH]; intros eof d1 r1; [done|]. cbn [readValue]. destruct (scan_stream (d_buf d1)); [done| |done].
    destruct eof; [by destruct (scan_stream _)|]. destruct (refill d1 r1). apply IH. }
  specialize (H (S (S (length (d_buf d) + length r))) false d r). by destruct (readValue _ _ _ _) as [[] s].
Qed.

(** An object is read, and nothing more. *)
Lemma readValue_object kvs fuel : forall d r rest,
  kvs <> [] -> Forall good_member kvs -> d_buf d ++ r = object_text kvs ++ rest -> (rounds d r + 2 <= fuel)%nat ->
  exists d' r', readValue fuel false d r = (Ret (object_text kvs), (d', r')) /\ d_buf d' ++ r' = rest /\ d_err d' = d_err d.
Proof.
  induction fuel as [|fuel IH]; intros d r rest Hne Hg E Hf; [lia|]. cbn [readValue].
  destruct (app_eq_inv _ _ _ _ E) as [(b & Eb & ->)|(x & Ex & Er)].
  - assert (Hscan : scan_stream (d_buf d) = ScanTo b).
    { unfold scan_stream, scan_value. rewrite Eb, skip_object; [|done|done|unfold scan_fuel; rewrite length_app; lia].
      by destruct b. }
    rewrite Hscan. eexists _, _. split; [by rewrite Eb, upto_app|done].
  - destruct (decide (x = [])) as [->|Hx].
    { rewrite app_nil_r in Ex. assert (Hscan : scan_stream (d_buf d) = ScanTo []).
      { assert (Hv : scan_value (object_text kvs) = ScanTo []).
        { pose proof (skip_object (scan_fuel (object_text kvs)) kvs [] Hne Hg) as Hs. rewrite app_nil_r in Hs.
          apply Hs. unfold scan_fuel. lia. }
        unfold scan_stream. rewrite <- Ex, Hv. done. }
      rewrite Hscan. exists (mkDecoder [] (d_cap d) (d_err d)), r. split; [|split; [|done]].
      - unfold upto. cbn [length]. rewrite Nat.sub_0_r, take_ge by lia. rewrite Ex. reflexivity.
      - cbn in Er. by subst. }
    rewrite (prefix_more kvs (d_buf d) x) by done.
    assert (Hr : r <> []) by (intros ->; by destruct x).
    destruct (refill d r) as [d1 r1] eqn:E1. destruct (refill_rounds _ _ _ _ E1 Hr) as (Hlt & Hb & He).
    rewrite bool_decide_eq_false_2 by done.
    destruct (IH d1 r1 rest Hne Hg ltac:(by rewrite Hb) ltac:(lia)) as (d' & r' & E' & Hd & He').
    exists d', r'. split; [done|]. split; [done|]. by rewrite He', He.
Qed.

Lemma Decode_object kvs d r rest :
  kvs <> [] -> Forall good_member kvs -> d_buf d ++ r = object_text kvs ++ rest -> d_err d = None ->
  exists d' r', Decode_raw (d, r) = (Ret (object_text kvs), (d', r')) /\ d_buf d' ++ r' = rest /\ d_err d' = None.
Proof.
  intros Hne Hg E He. unfold Decode_raw. rewrite He.
  destruct (readValue_object kvs _ d r rest Hne Hg E (rounds_bound d r)) as (d' & r' & -> & Hd & He').
  exists d', r'. split; [|by rewrite He', He].
  pose proof (json_skip_space (object_text kvs) [] (json_object kvs Hne Hg)) as Hs. rewrite app_nil_r in Hs. by rewrite Hs.
Qed.

(** ** [Compact] of objects *)

Lemma compact_plain s rest :
  Forall (fun c => is_digit c = true \/ c = 45) s -> compact_loop false false (s ++ rest) = s ++ compact_loop false false rest.
Proof.
  intros Hs. induction Hs as [|c s Hc _ IH]; [done|]. cbn [app compact_loop].
  assert (Hr : 45 <= c < 58) by (destruct Hc as [Hc| ->]; [apply between_spec in Hc|]; lia).
  replace (one_of "<>&" c) with false.
  2:{ symmetry. unfold one_of. change (lit "<>&") with [60; 62; 38]. cbn [existsb]. rewrite !orb_false_iff. repeat split; lia. }
  replace (c =? 34) with false by lia. replace (c =? 92) with false by lia. replace (is_space c) with false.
  2:{ symmetry. unfold is_space. rewrite !orb_false_iff, !Z.eqb_neq. lia. }
  cbn [negb andb]. replace (c =? 0xE2) with false by lia. cbn [andb].
  destruct (s ++ rest) as [|? [|? ?]]; by rewrite IH.
Qed.
