(* ===== verification/JsonCodec.v ===== *)
(** * The JSON-RPC codec

    [codec/jsonrpc/]: the messages that a client writes and a server reads, and
    back.  It is a [ServerCodec], the one that a server uses by default.  The
    application's types come with what [json.Marshal] and [json.Unmarshal] make
    of them. *)
From S2P Require Import Prelude.
From S2P Require Import Registry Url Common Server Json.

(** ** [errors.go] *)

(** [Data] is the text that [Marshal] makes of it. *)
Record Error := mkError {
  Code : Z;
  Message : bytes;
  Data : option bytes
}.

Definition NewError (code : Z) (message : bytes) : Error := mkError code message None.

Definition errParse : Error := NewError (-32700) (lit "Parse error").
Definition errRequest : Error := NewError (-32600) (lit "Invalid request").
Definition errMethod : Error := NewError (-32601) (lit "Method not found").
Definition errParams : Error := NewError (-32602) (lit "Invalid params").
Definition errInternal : Error := NewError (-32603) (lit "Internal error").
Definition errServer : Error := NewError (-32000) (lit "Server error").

Definition newError (message : bytes) : Error :=
  if HasPrefix message (lit "rpc: service/method request ill-formed") then NewError (Code errMethod) message
  else if HasPrefix message (lit "rpc: can't find service") then NewError (Code errMethod) message
  else if HasPrefix message (lit "rpc: can't find method") then NewError (Code errMethod) message
  else NewError (Code errServer) message.

(** [Error()]. *)
Definition Error_json (e : Error) : bytes :=
  object_text ([(lit "code", Itoa (Code e)); (lit "message", quote (Message e))]
    ++ match Data e with Some d => [(lit "data", d)] | None => [] end).

(** An [*Error] as an error value. *)
Definition as_error (e : Error) : goerr := Text (Error_json e).

(** ** Messages *)

Definition Version : bytes := lit "2.0".
Definition MAX_JSONRPC_ID : Z := 0x7FFFFFFF.

Record serverRequest := mkServerRequest {
  sr_Version : bytes;
  sr_Method : bytes;
  sr_Params : option bytes;
  sr_ID : option bytes
}.

Record clientResponse := mkClientResponse {
  cr_Version : bytes;
  cr_ID : Z;
  cr_Result : option bytes;
  cr_Error : option Error
}.

(** The pointers stay, and what they point to is emptied. *)
Definition request_reset (r : serverRequest) : serverRequest :=
  mkServerRequest [] [] ((fun _ => []) <$> sr_Params r) ((fun _ => []) <$> sr_ID r).

Definition zero_clientResponse : clientResponse := mkClientResponse [] 0 None None.

Definition server_fields : list (bytes * (bytes -> serverRequest -> option serverRequest)) := [
  (lit "jsonrpc", string_field (fun s r => mkServerRequest s (sr_Method r) (sr_Params r) (sr_ID r)));
  (lit "method", string_field (fun s r => mkServerRequest (sr_Version r) s (sr_Params r) (sr_ID r)));
  (lit "params", raw_field (fun p r => mkServerRequest (sr_Version r) (sr_Method r) p (sr_ID r)));
  (lit "id", raw_field (fun i r => mkServerRequest (sr_Version r) (sr_Method r) (sr_Params r) i)) ].

Definition bad_request : goerr := Text (lit "bad request").

(** The first byte of a raw message. *)
Definition starts_with (s : bytes) (cs : String.string) : bool :=
  match s with c :: _ => one_of cs c | [] => false end.

(** [UnmarshalJSON] of a [serverRequest]: whether it is good. *)
Definition UnmarshalJSON (raw : bytes) (r : serverRequest) : bool * serverRequest :=
  let '(ok, r) := decode_struct server_fields raw (request_reset r) in
  if negb ok then (false, r)
  else
    let o := match members raw with Some ms => raw_map ms | None => ∅ end in
    let given key := match o !! key with Some _ => true | None => false end in
    let present key := match o !! key with Some (Some _) => true | _ => false end in
    if negb (present (lit "jsonrpc")) || negb (present (lit "method")) then (false, r)
    else
      let okID := given (lit "id") in
      let okParams := given (lit "params") in
      let n := size o in
      if ((n =? 3)%nat && negb (okID || okParams)) || ((n =? 4)%nat && negb (okID && okParams)) || (4 <? n)%nat then (false, r)
      else if negb (bool_decide (sr_Version r = Version)) then (false, r)
      else if okParams && negb (match sr_Params r with Some p => starts_with p "[{" | None => false end) then (false, r)
      else
        let id := if okID then Some (default null_text (sr_ID r)) else sr_ID r in
        let r := mkServerRequest (sr_Version r) (sr_Method r) (sr_Params r) id in
        if okID && match sr_ID r with Some i => bool_decide (i = []) || starts_with i "tf{[" | None => false end then (false, r)
        else (true, r).

(** ** The codec *)

Record clientCodec := mkClientCodec {
  cc_dec : decoder;
  cc_resp : clientResponse;
  cc_pending : gmap Z bytes
}.

Record serverCodec := mkServerCodec {
  sv_dec : decoder;
  sv_req : serverRequest;
  sv_seq : Z;
  sv_pending : gmap Z (option bytes)
}.

(** With the two buffers of its connection. *)
Record jsonCodec := mkJsonCodec {
  j_mt : Z;
  j_rbuf : bytes;
  j_wbuf : bytes;
  j_c : clientCodec;
  j_s : serverCodec
}.

Definition newClientCodec : clientCodec := mkClientCodec new_decoder zero_clientResponse ∅.
Definition newServerCodec : serverCodec := mkServerCodec new_decoder (mkServerRequest [] [] None None) 0 ∅.
Definition NewCodec (rbuf : bytes) : jsonCodec := mkJsonCodec 0 rbuf [] newClientCodec newServerCodec.

Definition set_client (c : clientCodec) (j : jsonCodec) : jsonCodec := mkJsonCodec (j_mt j) (j_rbuf j) (j_wbuf j) c (j_s j).
Definition set_server (s : serverCodec) (j : jsonCodec) : jsonCodec := mkJsonCodec (j_mt j) (j_rbuf j) (j_wbuf j) (j_c j) s.
Definition set_req (r : serverRequest) (s : serverCodec) : serverCodec := mkServerCodec (sv_dec s) r (sv_seq s) (sv_pending s).

(** An [Encoder] ends a value with a newline. *)
Definition emit_text (t : bytes) (j : jsonCodec) : jsonCodec :=
  mkJsonCodec (j_mt j) (j_rbuf j) (j_wbuf j ++ t ++ [10]) (j_c j) (j_s j).

Definition set_Method (s : bytes) (m : codecMessage) : codecMessage :=
  mkCodecMessage (cm_Target m) s (cm_ID m) (cm_Error m) (cm_Type m) (cm_Header m).
Definition set_Target (s : bytes) (m : codecMessage) : codecMessage :=
  mkCodecMessage s (cm_Method m) (cm_ID m) (cm_Error m) (cm_Type m) (cm_Header m).
Definition set_ID (i : Z) (m : codecMessage) : codecMessage :=
  mkCodecMessage (cm_Target m) (cm_Method m) i (cm_Error m) (cm_Type m) (cm_Header m).
Definition set_Error (e : bytes) (m : codecMessage) : codecMessage :=
  mkCodecMessage (cm_Target m) (cm_Method m) (cm_ID m) e (cm_Type m) (cm_Header m).

(** What [reflect] tells of a client's parameter: its kind, and whether it is
    nil. *)
Inductive pkind :=
| KMap (string_keys isnil : bool)
| KSlice (isnil : bool)
| KArray
| KStruct
| KPtr (isnil : bool) (elem : pkind)
| KOther (name : bytes).

(** [json.Marshal] and [json.Unmarshal] of the application's values, which return
    an error or a text, resp. an error and the value as it is then; and of what a
    text is read into as an [interface{}]. *)
Class JsonValues `{Values} := {
  marshal : value -> result bytes;
  unmarshal : bytes -> value -> option goerr * value;
  remarshal : bytes -> bytes;
  kind_of : value -> pkind
}.

Section Codec.
Context `{VS : Values} `{JV : !JsonValues} `{ET : ErrorText}.

(** *** [server.go] *)

(** [serverResponse], as it is encoded: [result] and [error] are the texts of
    interfaces that are not nil. *)
Definition response_text (id : bytes) (result error : option bytes) : bytes :=
  object_text ([(lit "jsonrpc", quote Version); (lit "id", id)]
    ++ match result with Some t => [(lit "result", t)] | None => [] end
    ++ match error with Some t => [(lit "error", t)] | None => [] end).

Definition server_ReadHeader : ST (jsonCodec * codecMessage) unit := fun '(j, m) =>
  let s := set_req (request_reset (sv_req (j_s j))) (j_s j) in
  let '(o, (dec, rbuf)) := Decode_raw (sv_dec s, j_rbuf j) in
  let s := mkServerCodec dec (sv_req s) (sv_seq s) (sv_pending s) in
  let j := mkJsonCodec (j_mt j) rbuf (j_wbuf j) (j_c j) s in
  match o with
  | Fail err => (Fail err, (emit_text (response_text null_text None (Some (Error_json errParse))) j, m))
  | Panic => (Panic, (j, m))
  | NoFuel => (NoFuel, (j, m))
  | Ret raw =>
      let '(ok, r) := UnmarshalJSON raw (sv_req s) in
      let s := set_req r s in
      let j := set_server s j in
      if negb ok then (Fail bad_request, (emit_text (response_text null_text None (Some (Error_json errRequest))) j, m))
      else
        let m := set_Target (at_key (cm_Header m) (lit "Path")) (set_Method (sr_Method r) m) in
        if negb (bool_decide (at_key (cm_Header m) (lit "HttpMethod") = lit "POST")) then (Fail (as_error errMethod), (j, m))
        else
          let seq := i64 (sv_seq s + 1) in
          let s := mkServerCodec (sv_dec s) (mkServerRequest (sr_Version r) (sr_Method r) (sr_Params r) None) seq
                     (<[seq := sr_ID r]> (sv_pending s)) in
          (Ret tt, (set_server s j, set_ID seq m))
  end.

(** [json.Unmarshal] into an array whose element is the argument. *)
Definition unmarshal_first (params : bytes) (x : value) : option goerr * value :=
  match first_elem params with
  | Some (Some e) => if bool_decide (e = null_text) then (None, x) else unmarshal e x
  | _ => (None, x)
  end.

Definition read_params (params : bytes) (x : value) : outcome value :=
  match unmarshal params x with
  | (None, x) => Ret x
  | (Some err, x) =>
      if (2 <? length params)%nat && bool_decide (head params = Some 91) && bool_decide (last params = Some 93) then
        match unmarshal_first params x with
        | (None, x) => Ret x
        | (Some err, _) => Fail (as_error (NewError (Code errParams) (Error_ err)))
        end
      else Fail (as_error (NewError (Code errParams) (Error_ err)))
  end.

Definition server_ReadBody (b : option value) : ST jsonCodec value := fun j =>
  match b with
  | None => (Ret nil_value, j)
  | Some x =>
      if is_nil x then (Ret x, j)
      else
        match sr_Params (sv_req (j_s j)) with
        | None => (Ret x, j)
        | Some params => (read_params params x, j)
        end
  end.

(** [json.RawMessage] as part of an encoded value. *)
Definition optional {X} (o : option X) (f : X -> result bytes) : result (option bytes) :=
  match o with
  | None => inr None
  | Some x => match f x with inl e => inl e | inr t => inr (Some t) end
  end.

Definition server_Write (x : value) : ST (jsonCodec * codecMessage) unit := fun '(j, m) =>
  let s := j_s j in
  match sv_pending s !! cm_ID m with
  | None => (Fail (Errorf "invalid sequence number in response"), (j, m))
  | Some b =>
      let j := set_server (mkServerCodec (sv_dec s) (sv_req s) (sv_seq s) (delete (cm_ID m) (sv_pending s))) j in
      match b with
      | None => (Ret tt, (j, m))
      | Some id =>
          let result :=
            if is_nil x then if bool_decide (cm_Error m = []) then inr (Some null_text) else inr None
            else optional (Some x) marshal in
          let error :=
            if bool_decide (cm_Error m = []) then inr None
            else if bool_decide (head (cm_Error m) = Some 123) && bool_decide (last (cm_Error m) = Some 125)
            then optional (Some (cm_Error m)) Compact
            else optional (Some (Error_json (newError (cm_Error m)))) Compact in
          match (id <~ Compact id ;; result <~ result ;; error <~ error ;; inr (response_text id result error)) with
          | inl err => (Fail err, (j, m))
          | inr t => (Ret tt, (emit_text t j, m))
          end
      end
  end.

(** *** [client.go] *)

(** Whether a parameter is sent, is sent as nil, or is refused. *)
Definition checked_param (param : value) : outcome (option value) :=
  if is_nil param then Ret None
  else
    match kind_of param with
    | KMap string_keys isnil => Ret (if string_keys && isnil then None else Some param)
    | KSlice isnil => Ret (if isnil then None else Some param)
    | KArray | KStruct => Ret (Some param)
    | KPtr isnil elem =>
        match elem with
        | KMap string_keys isnil' =>
            if string_keys then if isnil then Panic else Ret (if isnil' then None else Some param) else Ret (Some param)
        | KSlice isnil' => if isnil then Panic else Ret (if isnil' then None else Some param)
        | KArray | KStruct => Ret (Some param)
        | KPtr _ _ => Fail (as_error (NewError (Code errInternal) (lit "unsupported param type: Ptr to ptr")))
        | KOther k => Fail (as_error (NewError (Code errInternal) (lit "unsupported param type: Ptr to " ++ k)))
        end
    | KOther k => Fail (as_error (NewError (Code errInternal) (lit "unsupported param type: " ++ k)))
    end.

Definition request_text (method params : bytes) (id : Z) : bytes :=
  object_text [(lit "jsonrpc", quote Version); (lit "method", quote method); (lit "params", params); (lit "id", Itoa id)].

Definition client_Write (param : value) : ST (jsonCodec * codecMessage) unit := fun '(j, m) =>
  match checked_param param with
  | Ret param =>
      let id := Z.land (cm_ID m) MAX_JSONRPC_ID in
      let c := j_c j in
      let j := set_client (mkClientCodec (cc_dec c) (cc_resp c) (<[id := cm_Method m]> (cc_pending c))) j in
      match optional param marshal with
      | inl err => (Fail err, (j, m))
      | inr t => (Ret tt, (emit_text (request_text (cm_Method m) (default null_text t) id) j, m))
      end
  | Fail e => (Fail e, (j, m))
  | Panic => (Panic, (j, m))
  | NoFuel => (NoFuel, (j, m))
  end.

Definition error_fields : list (bytes * (bytes -> Error -> option Error)) := [
  (lit "code", int_field (fun n e => mkError n (Message e) (Data e)));
  (lit "message", string_field (fun s e => mkError (Code e) s (Data e)));
  (lit "data", fun v e => Some (mkError (Code e) (Message e) (remarshal <$> raw_of v))) ].

(** The [*Error] of a response is made when it is not null. *)
Definition error_field (v : bytes) (r : clientResponse) : option clientResponse :=
  if bool_decide (v = null_text) then Some (mkClientResponse (cr_Version r) (cr_ID r) (cr_Result r) None)
  else
    let '(ok, e) := decode_struct error_fields v (default (mkError 0 [] None) (cr_Error r)) in
    if ok : bool then Some (mkClientResponse (cr_Version r) (cr_ID r) (cr_Result r) (Some e)) else None.

Definition client_fields : list (bytes * (bytes -> clientResponse -> option clientResponse)) := [
  (lit "jsonrpc", string_field (fun s r => mkClientResponse s (cr_ID r) (cr_Result r) (cr_Error r)));
  (lit "id", int_field (fun n r => mkClientResponse (cr_Version r) n (cr_Result r) (cr_Error r)));
  (lit "result", raw_field (fun v r => mkClientResponse (cr_Version r) (cr_ID r) v (cr_Error r)));
  (lit "error", error_field) ].

Definition type_error : goerr := Errorf "json: cannot unmarshal into Go value".

Definition internal_error (e : goerr) : goerr := as_error (NewError (Code errInternal) (Error_ e)).

Definition client_ReadHeader : ST (jsonCodec * codecMessage) unit := fun '(j, m) =>
  let c := j_c j in
  let '(o, (dec, rbuf)) := Decode_raw (cc_dec c, j_rbuf j) in
  let put resp pending := mkJsonCodec (j_mt j) rbuf (j_wbuf j) (mkClientCodec dec resp pending) (j_s j) in
  match o with
  | Fail err =>
      (Fail (if bool_decide (err = EOF) then err else internal_error err), (put zero_clientResponse (cc_pending c), m))
  | Panic => (Panic, (put zero_clientResponse (cc_pending c), m))
  | NoFuel => (NoFuel, (put zero_clientResponse (cc_pending c), m))
  | Ret raw =>
      let '(ok, resp) := decode_struct client_fields raw zero_clientResponse in
      if negb ok then (Fail (internal_error type_error), (put resp (cc_pending c), m))
      else
        match cc_pending c !! cr_ID resp with
        | None =>
            (Fail (Errorf "can not find method of response id %v, response error:%v"),
             (put resp (cc_pending c), set_Method [] m))
        | Some method =>
            (Ret tt, (put resp (delete (cr_ID resp) (cc_pending c)),
              set_Error (match cr_Error resp with Some e => Error_json e | None => [] end)
                (set_ID (cr_ID resp) (set_Method method m))))
        end
  end.

(** The caller's variable is part of the state. *)
Definition client_ReadBody : ST (jsonCodec * value) unit := fun '(j, x) =>
  match cr_Result (cc_resp (j_c j)) with
  | None => (Ret tt, (j, x))
  | Some t =>
      if is_nil x then (Ret tt, (j, x))
      else
        let '(err, x) := unmarshal t x in
        (match err with None => Ret tt | Some err => Fail err end, (j, x))
  end.

(** *** [jsonrpc.go] *)

Definition unrecognised : goerr := Errorf "Unrecognised message type: %v".

Definition Write (x : value) : ST (jsonCodec * codecMessage) unit := fun '(j, m) =>
  if cm_Type m =? codec_Request then client_Write x (j, m)
  else if cm_Type m =? codec_Response then server_Write x (j, m)
  else (Fail unrecognised, (j, m)).

Definition ReadHeader (mt : Z) : ST (jsonCodec * codecMessage) unit := fun '(j, m) =>
  let j := mkJsonCodec mt (j_rbuf j) (j_wbuf j) (j_c j) (j_s j) in
  if mt =? codec_Request then server_ReadHeader (j, m)
  else if mt =? codec_Response then client_ReadHeader (j, m)
  else (Fail unrecognised, (j, m)).

Definition ReadBody (b : option value) : ST jsonCodec value := fun j =>
  if j_mt j =? codec_Request then server_ReadBody b j
  else if j_mt j =? codec_Response then
    match b with
    | None => (Ret nil_value, j)
    | Some x =>
        match client_ReadBody (j, x) with
        | (Ret _, (j, x)) => (Ret x, j)
        | (Fail e, (j, _)) => (Fail e, j)
        | (Panic, (j, _)) => (Panic, j)
        | (NoFuel, (j, _)) => (NoFuel, j)
        end
    end
  else (Fail unrecognised, j).

(** [ReadBody] into a variable, as a client calls it. *)
Definition ReadBody_into : ST (jsonCodec * value) unit := fun '(j, x) =>
  if j_mt j =? codec_Response then client_ReadBody (j, x)
  else
    match ReadBody (Some x) j with
    | (Ret x, j) => (Ret tt, (j, x))
    | (Fail e, j) => (Fail e, (j, x))
    | (Panic, j) => (Panic, (j, x))
    | (NoFuel, j) => (NoFuel, (j, x))
    end.

(** [Close] empties the buffers of the connection. *)
Definition Close : ST jsonCodec unit := fun j => (Ret tt, mkJsonCodec (j_mt j) [] [] (j_c j) (j_s j)).

#[export] Instance JsonServerCodec : ServerCodec jsonCodec value := {|
  sc_ReadHeader := ReadHeader;
  sc_ReadBody := ReadBody;
  sc_Write := Write;
  sc_Close := Close;
  rbuf_Reset := fun j => mkJsonCodec (j_mt j) [] (j_wbuf j) (j_c j) (j_s j);
  rbuf_Write := fun b j => mkJsonCodec (j_mt j) (j_rbuf j ++ b) (j_wbuf j) (j_c j) (j_s j);
  wbuf_Reset := fun j => mkJsonCodec (j_mt j) (j_rbuf j) [] (j_c j) (j_s j);
  wbuf_Bytes := fun j => j_wbuf j
|}.

End Codec.
