(* ===== verification/JsonCall.v ===== *)
(** * A call over JSON-RPC

    Theorems about [JsonCodec]: the codec's methods end on any input; what a
    client writes a server reads, and back; and which requests get no answer. *)
From S2P Require Import Prelude.
From S2P Require Import Utf8 Registry Url Common Server ServerSafe Serve ServeSafe.
From S2P Require Import Json JsonText JsonCodec.

(** ** Texts of messages *)

Lemma utf8_ascii s : forallb (between 0 127) s = true -> utf8_text s.
Proof.
  intros Hs. exists s. assert (H : Forall (fun c => 0 <= c < 128) s).
  { apply Forall_forall. intros c Hc. apply list_elem_of_In in Hc. rewrite forallb_forall in Hs. specialize (Hs c Hc).
    apply between_spec in Hs. lia. }
  split.
  - clear Hs. unfold encode_runes. induction H as [|c s Hc _ IH]; [done|]. cbn [map concat]. rewrite EncodeRune_ascii by done.
    cbn [app]. by rewrite <- IH.
  - eapply Forall_impl; [exact H|]. intros c Hc. unfold scalar, is_surrogate. cbn in Hc.
    replace (0 <=? c) with true by lia. replace (c <=? 0x10FFFF) with true by lia. by replace (0xD800 <=? c) with false by lia.
Qed.

Lemma good_text k v : forallb (between 0 127) k = true -> json_text v -> good_member (k, v).
Proof. intros Hk Hv. split; [by apply utf8_ascii|done]. Qed.

Create HintDb json.
#[local] Hint Resolve good_text json_quote json_Itoa json_null utf8_ascii : json.

Ltac good_members := repeat (apply Forall_cons; split; [apply good_text; [reflexivity|auto with json]|]); try apply Forall_nil; try done.

Lemma masked_id i : 0 <= Z.land i MAX_JSONRPC_ID < 2 ^ 31.
Proof. unfold MAX_JSONRPC_ID. change 0x7FFFFFFF with (Z.ones 31). rewrite Z.land_ones by lia. apply Z.mod_pos_bound. lia. Qed.

Definition request_members (method params : bytes) (id : Z) : list (bytes * bytes) :=
  [(lit "jsonrpc", quote Version); (lit "method", quote method); (lit "params", params); (lit "id", Itoa id)].

Lemma request_good method params id :
  utf8_text method -> json_text params -> 0 <= id < 2 ^ 63 -> Forall good_member (request_members method params id).
Proof.
  intros Hm Hp Hid. unfold request_members. repeat (apply Forall_cons; split; [apply good_text; [reflexivity|]|]); try by apply Forall_nil.
  - by apply json_quote, utf8_ascii.
  - by apply json_quote.
  - done.
  - by apply json_Itoa.
Qed.

(** *** Fields *)

Lemma string_field_quote {R} (set : bytes -> R -> R) s r : utf8_text s -> string_field set (quote s) r = Some (set s r).
Proof. intros Hs. unfold string_field. rewrite bool_decide_eq_false_2, bool_decide_eq_true_2 by done. by rewrite unquote_quote. Qed.

Lemma int_field_Itoa {R} (set : Z -> R -> R) n r : 0 <= n < 2 ^ 63 -> int_field set (Itoa n) r = Some (set n r).
Proof.
  intros Hn. unfold int_field. rewrite bool_decide_eq_false_2, Atoi_Itoa; [done|done|].
  intros E. pose proof (Itoa_digits n ltac:(lia)) as H. by rewrite E in H.
Qed.

(** One member of an object is one field's. *)
Lemma decode_cons {R} (fields : list (bytes * (bytes -> R -> option R))) i k v ms r f dec r' :
  fields !! i = Some (f, dec) -> find_field fields.*1 k = Some f ->
  fst <$> list_find (fun fd => fd.1 = f) fields = Some i -> dec v r = Some r' ->
  decode_fields fields ((k, v) :: ms) r = decode_fields fields ms r'.
Proof.
  intros Hi Hf Hl Hd. destruct (list_find (fun fd => fd.1 = f) fields) as [[j fd]|] eqn:E; [|done]. injection Hl as ->.
  pose proof E as (Hj & _)%list_find_Some. rewrite Hi in Hj. injection Hj as <-.
  unfold decode_fields. cbn [fold_left fst snd]. by rewrite Hf, E, Hd.
Qed.

(** The [i]-th field is decoded by a lemma. *)
Ltac decode_field i H :=
  erewrite (decode_cons _ i); [|reflexivity|vm_compute; reflexivity|vm_compute; reflexivity|eapply H; try done].

Lemma raw_field_some {R} (set : option bytes -> R -> R) v o r : raw_of v = o -> raw_field set v r = Some (set o r).
Proof. by intros <-. Qed.

Lemma four_members (a b c d : option bytes) :
  let o : gmap bytes (option bytes) := <[lit "id" := d]> (<[lit "params" := c]> (<[lit "method" := b]> (<[lit "jsonrpc" := a]> ∅))) in
  size o = 4%nat /\ o !! lit "jsonrpc" = Some a /\ o !! lit "method" = Some b /\ o !! lit "params" = Some c /\ o !! lit "id" = Some d.
Proof. vm_compute. repeat split. Qed.

(** ** The codec's methods end *)

Section Ends.
Context `{VS : Values} `{JV : !JsonValues} `{ET : ErrorText}.

Lemma server_ReadHeader_halts s : (server_ReadHeader s).1 <> NoFuel.
Proof.
  destruct s as [j m]. unfold server_ReadHeader. match goal with |- context [Decode_raw (?d, ?r)] => pose proof (Decode_raw_halts d r) as H end.
  destruct (Decode_raw _) as [[raw|e| |] [dec rbuf]]; cbn in H; try done.
  destruct (UnmarshalJSON _ _) as [[] r]; cbn [negb]; [|done]. by destruct (negb _).
Qed.

Lemma client_ReadHeader_halts s : (client_ReadHeader s).1 <> NoFuel.
Proof.
  destruct s as [j m]. unfold client_ReadHeader. match goal with |- context [Decode_raw (?d, ?r)] => pose proof (Decode_raw_halts d r) as H end.
  destruct (Decode_raw _) as [[raw|e| |] [dec rbuf]]; cbn in H; try done.
  destruct (decode_struct _ _ _) as [[] r]; cbn [negb]; [|done]. by destruct (cc_pending _ !! _).
Qed.

Lemma read_params_cases params x : (exists v, read_params params x = Ret v) \/ (exists e, read_params params x = Fail e).
Proof.
  unfold read_params. destruct (unmarshal params x) as [[e|] y]; [|by left; eexists].
  destruct (_ && _); [|by right; eexists]. destruct (unmarshal_first params y) as [[e'|] z]; [by right; eexists|by left; eexists].
Qed.

Lemma server_ReadBody_cases b j : (exists v, server_ReadBody b j = (Ret v, j)) \/ (exists e, server_ReadBody b j = (Fail e, j)).
Proof.
  unfold server_ReadBody. destruct b as [x|]; [|by left; eexists]. destruct (is_nil x); [by left; eexists|].
  destruct (sr_Params _) as [p|]; [|by left; eexists].
  destruct (read_params_cases p x) as [[v ->]|[e ->]]; [left|right]; by eexists.
Qed.

Lemma client_ReadBody_cases s : exists s', client_ReadBody s = (Ret tt, s') \/ exists e, client_ReadBody s = (Fail e, s').
Proof.
  destruct s as [j x]. unfold client_ReadBody. destruct (cr_Result _) as [t|]; [|eexists; by left].
  destruct (is_nil x); [eexists; by left|]. destruct (unmarshal t x) as [[e|] y]; eexists; [right; by eexists|by left].
Qed.

(** [ReadBody] returns a value or an error. *)
Lemma ReadBody_cases b j : exists o j', ReadBody b j = (o, j') /\ o <> NoFuel /\ o <> Panic.
Proof.
  unfold ReadBody. destruct (_ =? codec_Request).
  { destruct (server_ReadBody_cases b j) as [[v ->]|[e ->]]; by eexists _, _. }
  destruct (_ =? codec_Response); [|by eexists _, _]. destruct b as [x|]; [|by eexists _, _].
  destruct (client_ReadBody_cases (j, x)) as [[j' y] [->|[e ->]]]; by eexists _, _.
Qed.

Lemma server_Write_cases x s : exists o s', server_Write x s = (o, s') /\ written o.
Proof.
  destruct s as [j m]. unfold server_Write. destruct (sv_pending _ !! _) as [[id|]|].
  - match goal with |- context [rbind ?a ?k] => destruct (rbind a k) as [e|t] end; eexists _, _; (split; [reflexivity|]); unfold written; eauto.
  - eexists _, _. split; [reflexivity|]. by left.
  - eexists _, _. split; [reflexivity|]. right. by eexists.
Qed.

(** Every method of the codec ends, whatever bytes have come and in whatever
    state it is: the scanner's and the decoder's loops come to an end. *)
Lemma json_halts : codec_halts (C := jsonCodec).
Proof.
  split.
  - intros mt [j m]. change (sc_ReadHeader mt (j, m)) with (ReadHeader mt (j, m)). unfold ReadHeader. destruct (mt =? codec_Request); [apply server_ReadHeader_halts|].
    destruct (mt =? codec_Response); [apply client_ReadHeader_halts|done].
  - intros b j. change (sc_ReadBody b j) with (ReadBody b j). destruct (ReadBody_cases b j) as (o & j' & -> & ? & ?). by destruct o.
  - intros v [j m]. change (sc_Write v (j, m)) with (Write v (j, m)). unfold Write. destruct (_ =? codec_Request).
    { unfold client_Write. assert (Hp : checked_param v <> NoFuel) by (unfold checked_param; repeat case_match; done).
      destruct (checked_param v); try done. by destruct (optional _ _). }
    destruct (_ =? codec_Response); [|done]. by destruct (server_Write_cases v (j, m)) as (o & s' & -> & [->|[e ->]]).
  - by intros j.
Qed.

Lemma server_ReadHeader_safe : safe server_ReadHeader.
Proof.
  intros [j m]. unfold server_ReadHeader. match goal with |- context [Decode_raw (?d, ?r)] =>
    pose proof (Decode_raw_halts d r) as H; pose proof (Decode_raw_no_panic d r) as H' end.
  destruct (Decode_raw _) as [[raw|e| |] [dec rbuf]]; cbn in H, H'; try done.
  destruct (UnmarshalJSON _ _) as [[] r]; cbn [negb]; [|done]. by destruct (negb _).
Qed.

Lemma client_ReadHeader_safe : safe client_ReadHeader.
Proof.
  intros [j m]. unfold client_ReadHeader. match goal with |- context [Decode_raw (?d, ?r)] =>
    pose proof (Decode_raw_halts d r) as H; pose proof (Decode_raw_no_panic d r) as H' end.
  destruct (Decode_raw _) as [[raw|e| |] [dec rbuf]]; cbn in H, H'; try done.
  destruct (decode_struct _ _ _) as [[] r]; cbn [negb]; [|done]. by destruct (cc_pending _ !! _).
Qed.

Lemma json_safe : codec_safe (C := jsonCodec).
Proof.
  split.
  - intros mt [j m]. change (sc_ReadHeader mt (j, m)) with (ReadHeader mt (j, m)). unfold ReadHeader.
    destruct (mt =? codec_Request); [apply server_ReadHeader_safe|]. destruct (mt =? codec_Response); [apply client_ReadHeader_safe|done].
  - intros b j. change (sc_ReadBody b j) with (ReadBody b j). destruct (ReadBody_cases b j) as (o & j' & -> & ? & ?). by destruct o.
  - intros v [j m] Hm. cbn [snd] in Hm. change (sc_Write v (j, m)) with (Write v (j, m)). unfold Write. rewrite Hm.
    change (codec_Response =? codec_Request) with false. change (codec_Response =? codec_Response) with true. cbv iota.
    by destruct (server_Write_cases v (j, m)) as (o & s' & -> & Ho).
  - by intros j.
Qed.


End Ends.

(** ** A request and its response *)

Section Call.
Context `{VS : Values} `{JV : !JsonValues} `{ET : ErrorText}.

(** What the server has after the header of a request. *)
Definition got_request (method params : bytes) (id : Z) : serverRequest := mkServerRequest Version method (Some params) (Some (Itoa id)).

Definition structured (t : bytes) : Prop := json_text t /\ starts_with t "[{" = true.

Lemma structured_raw t : structured t -> raw_of t = Some t.
Proof. intros [_ Ht]. unfold raw_of. rewrite bool_decide_eq_false_2; [done|]. by intros ->. Qed.

Lemma Itoa_raw n : 0 <= n -> raw_of (Itoa n) = Some (Itoa n) /\ Itoa n <> [] /\ starts_with (Itoa n) "tf{[" = false.
Proof.
  intros Hn. pose proof (Itoa_digits n Hn) as H. pose proof (digits_length 20 n []) as Hl.
  change (Nat.min 1 20 + length [])%nat with 1%nat in Hl. unfold raw_of.
  assert (Hne : Itoa n <> []).
  { intros E. unfold Itoa in E. replace (n <? 0) with false in E by lia. rewrite E in Hl. cbn in Hl. lia. }
  split; [|split; [done|]].
  - rewrite bool_decide_eq_false_2; [done|]. intros E. by rewrite E in H.
  - destruct (Itoa n) as [|c t]; [done|]. cbn in H. apply andb_true_iff in H as [Hc _]. apply between_spec in Hc.
    unfold starts_with, one_of. change (lit "tf{[") with [116; 102; 123; 91]. cbn [existsb]. rewrite !orb_false_iff. repeat split; lia.
Qed.

Lemma request_decoded method params id r :
  utf8_text method -> json_text params -> 0 <= id < 2 ^ 63 ->
  members (request_text method params id) = Some (request_members method params id)
  /\ decode_fields server_fields (request_members method params id) (request_reset r)
     = (true, mkServerRequest Version method (raw_of params) (Some (Itoa id)))
  /\ raw_map (request_members method params id) =
     <[lit "id" := Some (Itoa id)]> (<[lit "params" := raw_of params]> (<[lit "method" := Some (quote method)]>
       (<[lit "jsonrpc" := Some (quote Version)]> ∅))).
Proof.
  intros Hm Hp Hid. pose proof (request_good method params id Hm Hp Hid) as Hg.
  pose proof (members_object (request_members method params id) [] ltac:(done) Hg) as Hmem. rewrite app_nil_r in Hmem.
  destruct (Itoa_raw id ltac:(lia)) as (Hid1 & _ & _). split; [exact Hmem|]. split.
  - unfold request_members. decode_field 0%nat @string_field_quote; [|by apply utf8_ascii]. decode_field 1%nat @string_field_quote.
    decode_field 2%nat @raw_field_some. decode_field 3%nat @raw_field_some. reflexivity.
  - unfold raw_map, request_members. cbn [fold_left fst snd]. by rewrite Hid1.
Qed.

Lemma UnmarshalJSON_request method params id r :
  utf8_text method -> structured params -> 0 <= id < 2 ^ 63 ->
  UnmarshalJSON (request_text method params id) r = (true, got_request method params id).
Proof.
  intros Hm Hp Hid. destruct (request_decoded method params id r Hm (proj1 Hp) Hid) as (Hmem & Hd & Hraw).
  destruct (Itoa_raw id ltac:(lia)) as (_ & Hid2 & Hid3).
  unfold UnmarshalJSON, decode_struct. rewrite Hmem, Hd. cbn [negb]. rewrite Hraw, (structured_raw params Hp).
  destruct (four_members (Some (quote Version)) (Some (quote method)) (Some params) (Some (Itoa id))) as (-> & -> & -> & -> & ->).
  cbn [negb orb andb Nat.eqb Nat.ltb]. cbn [sr_Version sr_Params sr_ID sr_Method].
  rewrite bool_decide_eq_true_2 by done. cbn [negb]. rewrite (proj2 Hp). cbn [negb andb].
  change (4 <? 4)%nat with false. change (default null_text (Some (Itoa id))) with (Itoa id).
  rewrite bool_decide_eq_false_2, Hid3 by done. reflexivity.
Qed.

(** Parameters that are null are refused. *)
Lemma UnmarshalJSON_null method id r :
  utf8_text method -> 0 <= id < 2 ^ 63 -> (UnmarshalJSON (request_text method null_text id) r).1 = false.
Proof.
  intros Hm Hid. destruct (request_decoded method null_text id r Hm json_null Hid) as (Hmem & Hd & Hraw).
  unfold UnmarshalJSON, decode_struct. rewrite Hmem, Hd. cbn [negb]. rewrite Hraw.
  change (raw_of null_text) with (@None bytes).
  destruct (four_members (Some (quote Version)) (Some (quote method)) None (Some (Itoa id))) as (-> & -> & -> & -> & ->).
  cbn [negb orb andb Nat.eqb Nat.ltb]. cbn [sr_Version sr_Params sr_ID sr_Method].
  by rewrite bool_decide_eq_true_2 by done.
Qed.

(** The server has read the header of the first request on a codec. *)
Definition after_header (j : jsonCodec) (method params : bytes) (id : Z) : Prop :=
  j_mt j = codec_Request /\ sv_req (j_s j) = mkServerRequest Version method (Some params) None
  /\ sv_pending (j_s j) = {[1 := Some (Itoa id)]}.

Lemma header_request method params id h :
  utf8_text method -> structured params -> 0 <= id < 2 ^ 63 -> at_key h (lit "HttpMethod") = lit "POST" ->
  exists j, ReadHeader codec_Request (NewCodec (request_text method params id ++ [10]), mkCodecMessage [] [] 0 [] 0 h)
      = (Ret tt, (j, mkCodecMessage (at_key h (lit "Path")) method 1 [] 0 h))
    /\ after_header j method params id.
Proof.
  intros Hm Hp Hid Hpost. pose proof (request_good method params id Hm (proj1 Hp) Hid) as Hg.
  destruct (Decode_object (request_members method params id) new_decoder (request_text method params id ++ [10]) [10])
    as (d & rb & E & _ & _); [done..|].
  unfold ReadHeader. change (codec_Request =? codec_Request) with true. unfold server_ReadHeader.
  cbn [NewCodec j_rbuf j_wbuf j_c j_s newServerCodec set_req sv_dec sv_req sv_seq sv_pending]. rewrite E.
  change (object_text (request_members method params id)) with (request_text method params id).
  rewrite UnmarshalJSON_request by done. cbn [negb set_Method set_Target cm_Header].
  rewrite Hpost, bool_decide_eq_true_2 by done. eexists. split; [reflexivity|]. done.
Qed.

Lemma body_request j method params id x v :
  after_header j method params id -> is_nil x = false -> read_params params x = Ret v -> ReadBody (Some x) j = (Ret v, j).
Proof.
  intros (Hmt & Hr & _) Hx Hv. unfold ReadBody. rewrite Hmt. change (codec_Request =? codec_Request) with true.
  unfold server_ReadBody. by rewrite Hx, Hr, <- Hv.
Qed.


(** *** Responses *)

Definition response_members (id : bytes) (result error : option bytes) : list (bytes * bytes) :=
  [(lit "jsonrpc", quote Version); (lit "id", id)]
    ++ match result with Some t => [(lit "result", t)] | None => [] end
    ++ match error with Some t => [(lit "error", t)] | None => [] end.

(** An error's text that is not taken for an object. *)
Definition unbraced (err : bytes) : Prop := ~ (head err = Some 123 /\ last err = Some 125).

(** What an error's text becomes in the response. *)
Definition error_part (err : bytes) : option bytes :=
  if bool_decide (err = []) then None else Some (Error_json (newError err)).

Definition error_members (code : Z) (err : bytes) : list (bytes * bytes) := [(lit "code", Itoa code); (lit "message", quote err)].

Lemma newError_parts err :
  exists c, newError err = mkError c err None /\ (c = Code errMethod \/ c = Code errServer)
    /\ Error_json (newError err) = object_text (error_members c err).
Proof.
  assert (H : exists c, newError err = mkError c err None /\ (c = Code errMethod \/ c = Code errServer)).
  { unfold newError. repeat case_match; eexists; (split; [reflexivity|]); auto. }
  destruct H as (c & E & Hc). exists c. split; [done|]. split; [done|]. by rewrite E.
Qed.

Lemma json_code c : c = Code errMethod \/ c = Code errServer -> json_text (Itoa c) /\ Atoi (Itoa c) = Some c.
Proof.
  intros Hc. split; [|by destruct Hc as [-> | ->]; vm_compute].
  assert (E : Itoa c = [45; 51; 50; 54; 48; 49] \/ Itoa c = [45; 51; 50; 48; 48; 48]) by (destruct Hc as [-> | ->]; [left|right]; vm_compute; reflexivity).
  split; [by destruct E as [-> | ->]; eexists _, _|]. intros fuel d rest Hf Hd. destruct (ends_facts d Hd) as (Hdd & H46 & H101 & H69).
  destruct fuel as [|fuel]; [lia|]. destruct E as [-> | ->]; cbn -[is_digit]; rewrite ?Hdd; cbn;
    (replace (d =? 46) with false by lia); (replace (d =? 101) with false by lia); by replace (d =? 69) with false by lia.
Qed.

Lemma error_good c err : c = Code errMethod \/ c = Code errServer -> utf8_text err -> Forall good_member (error_members c err).
Proof.
  intros Hc He. destruct (json_code c Hc) as [Hj _]. repeat (apply Forall_cons; split; [apply good_text; [reflexivity|]|]); [done|by apply json_quote|by apply Forall_nil].
Qed.

Lemma json_error err : utf8_text err -> json_text (Error_json (newError err)).
Proof. intros He. destruct (newError_parts err) as (c & _ & Hc & ->). apply json_object; [done|]. by apply error_good. Qed.

Lemma compact_char c t : existsb (Z.eqb c) [123; 125; 58; 44] = true -> compact_loop false false (c :: t) = c :: compact_loop false false t.
Proof.
  cbn [existsb]. rewrite !orb_true_iff, !Z.eqb_eq. intros Hc. destruct_or?; try done; subst c; destruct t as [|? [|? ?]]; reflexivity.
Qed.

Lemma Compact_Itoa n : 0 <= n < 2 ^ 63 -> Compact (Itoa n) = inr (Itoa n).
Proof.
  intros Hn. unfold Compact. rewrite (valid_text _ (json_Itoa n Hn)). f_equal. rewrite <- (app_nil_r (Itoa n)) at 1.
  rewrite compact_plain; [by rewrite app_nil_r|]. apply Forall_forall. intros c Hc. left.
  pose proof (Itoa_digits n ltac:(lia)) as H. rewrite forallb_forall in H. apply H. by apply list_elem_of_In.
Qed.

Lemma Compact_error err : utf8_text err -> Compact (Error_json (newError err)) = inr (Error_json (newError err)).
Proof.
  intros He. unfold Compact. rewrite (valid_text _ (json_error err He)). f_equal.
  destruct (newError_parts err) as (c & _ & Hc & ->).
  assert (Hplain : Forall (fun d => is_digit d = true \/ d = 45) (Itoa c)).
  { apply (bool_decide_unpack _). by destruct Hc as [-> | ->]; vm_compute. }
  change (object_text (error_members c err)) with
    (123 :: ((quote (lit "code") ++ 58 :: Itoa c) ++ 44 :: quote (lit "message") ++ 58 :: quote err) ++ [125]).
  rewrite compact_char, <- !app_assoc by done. f_equal. rewrite compact_quote by by apply utf8_ascii. f_equal.
  cbn [app]. rewrite compact_char by done. f_equal. rewrite compact_plain by done. f_equal.
  rewrite compact_char, <- app_assoc by done. f_equal. rewrite compact_quote by by apply utf8_ascii. f_equal.
  cbn [app]. rewrite compact_char, compact_quote by done. f_equal.
Qed.

Lemma write_response j method params id path h2 x u err :
  after_header j method params id -> 0 <= id < 2 ^ 63 -> is_nil x = false -> marshal x = inr u ->
  utf8_text err -> unbraced err ->
  exists j' m', Write x (wbuf_Reset j, mkCodecMessage path method 1 err codec_Response h2) = (Ret tt, (j', m'))
    /\ wbuf_Bytes j' = response_text (Itoa id) (Some u) (error_part err) ++ [10] /\ cm_Header m' = h2.
Proof.
  intros (_ & _ & Hp) Hid Hx Hu He Hb. unfold Write. cbn [cm_Type]. change (codec_Response =? codec_Request) with false.
  change (codec_Response =? codec_Response) with true. cbv iota. unfold server_Write. change (j_s (wbuf_Reset j)) with (j_s j).
  cbn [cm_ID cm_Error]. rewrite Hp, lookup_singleton_eq. rewrite Hx. cbn [optional]. rewrite Hu, Compact_Itoa by done. cbn [rbind].
  unfold error_part. case_bool_decide as Ee.
  - cbn [rbind]. eexists _, _. done.
  - replace (bool_decide (head err = Some 123) && bool_decide (last err = Some 125)) with false.
    2:{ symmetry. rewrite andb_false_iff, !bool_decide_eq_false. unfold unbraced in Hb.
        destruct (decide (head err = Some 123)); [right|by left]. intros ?. by apply Hb. }
    cbn [optional]. rewrite Compact_error by done. cbn [rbind]. eexists _, _. done.
Qed.

(** *** The client *)

(** It has written a request, and nothing has come yet. *)
Definition requested (j : jsonCodec) (method : bytes) (id : Z) : Prop :=
  d_buf (cc_dec (j_c j)) = [] /\ d_err (cc_dec (j_c j)) = None /\ cc_pending (j_c j) = {[id := method]} /\ j_rbuf j = [].

Lemma write_request x x' params path method id err h :
  checked_param x = Ret (Some x') -> marshal x' = inr params ->
  exists j, Write x (NewCodec [], mkCodecMessage path method id err codec_Request h)
      = (Ret tt, (j, mkCodecMessage path method id err codec_Request h))
    /\ wbuf_Bytes j = request_text method params (Z.land id MAX_JSONRPC_ID) ++ [10]
    /\ requested j method (Z.land id MAX_JSONRPC_ID).
Proof.
  intros Hc Hm. unfold Write. cbn [cm_Type]. change (codec_Request =? codec_Request) with true. unfold client_Write. rewrite Hc.
  cbn [optional]. rewrite Hm. eexists. split; [reflexivity|]. split; [done|]. by repeat split.
Qed.

Lemma response_good id result error :
  0 <= id < 2 ^ 63 -> (forall t, result = Some t -> json_text t) -> (forall t, error = Some t -> json_text t) ->
  Forall good_member (response_members (Itoa id) result error).
Proof.
  intros Hid Hr He. unfold response_members. repeat apply Forall_app_2.
  - repeat (apply Forall_cons; split; [apply good_text; [reflexivity|]|]); [by apply json_quote, utf8_ascii|by apply json_Itoa|by apply Forall_nil].
  - destruct result; [|by apply Forall_nil]. apply Forall_singleton, good_text; [reflexivity|by apply Hr].
  - destruct error; [|by apply Forall_nil]. apply Forall_singleton, good_text; [reflexivity|by apply He].
Qed.

Lemma error_part_json err t : utf8_text err -> error_part err = Some t -> json_text t.
Proof. intros He. unfold error_part. case_bool_decide; [done|]. intros [= <-]. by apply json_error. Qed.

(** A response's error is read back as it was. *)
Lemma error_field_newError err r :
  utf8_text err -> cr_Error r = None ->
  error_field (Error_json (newError err)) r = Some (mkClientResponse (cr_Version r) (cr_ID r) (cr_Result r) (Some (newError err))).
Proof.
  intros He Hr. destruct (newError_parts err) as (c & E & Hc & ->). destruct (json_code c Hc) as [Hj Ha].
  pose proof (error_good c err Hc He) as Hg. pose proof (members_object (error_members c err) [] ltac:(done) Hg) as Hmem.
  rewrite app_nil_r in Hmem. unfold error_field. rewrite bool_decide_eq_false_2 by done. unfold decode_struct. rewrite Hmem, Hr, E.
  unfold error_members. erewrite (decode_cons _ 0); [|reflexivity|vm_compute; reflexivity|vm_compute; reflexivity|].
  2:{ unfold int_field. rewrite bool_decide_eq_false_2, Ha; [reflexivity|]. by destruct Hc as [-> | ->]. }
  decode_field 1%nat @string_field_quote. reflexivity.
Qed.

(** What [ReadBody] makes of the result, which may be null. *)
Definition read_result (t : bytes) (y : value) : outcome value :=
  match raw_of t with
  | None => Ret y
  | Some t => match unmarshal t y with (None, y) => Ret y | (Some err, _) => Fail err end
  end.

Definition error_of_response (err : bytes) : bytes := if bool_decide (err = []) then [] else Error_json (newError err).

(** The client has read the header of a response with this result. *)
Definition got_response (j : jsonCodec) (u : bytes) : Prop := j_mt j = codec_Response /\ cr_Result (cc_resp (j_c j)) = raw_of u.

Lemma body_response j u y : got_response j u -> is_nil y = false -> (ReadBody (Some y) j).1 = read_result u y.
Proof.
  intros [Hmt Hr] Hy. unfold ReadBody. rewrite Hmt. change (codec_Response =? codec_Request) with false.
  change (codec_Response =? codec_Response) with true. cbv iota. unfold client_ReadBody, read_result. rewrite Hr.
  destruct (raw_of u) as [t|]; [|done]. rewrite Hy. by destruct (unmarshal t y) as [[e|] z].
Qed.

(** In a variable. *)
Lemma into_response j u y y' :
  got_response j u -> is_nil y = false -> read_result u y = Ret y' -> ReadBody_into (j, y) = (Ret tt, (j, y')).
Proof.
  intros [Hmt Hr] Hy. unfold ReadBody_into, client_ReadBody, read_result. rewrite Hmt, Hr.
  change (codec_Response =? codec_Response) with true. cbv iota.
  destruct (raw_of u) as [t|]; [|by intros [= ->]]. rewrite Hy. destruct (unmarshal t y) as [[e|] z]; by intros [= ->].
Qed.

Lemma into_nil j u y : got_response j u -> is_nil y = true -> ReadBody_into (j, y) = (Ret tt, (j, y)).
Proof.
  intros [Hmt Hr] Hy. unfold ReadBody_into, client_ReadBody. rewrite Hmt, Hr.
  change (codec_Response =? codec_Response) with true. cbv iota. destruct (raw_of u); by rewrite ?Hy.
Qed.

Lemma read_response j method id u err m :
  requested j method id -> 0 <= id < 2 ^ 63 -> json_text u -> utf8_text err ->
  exists j', ReadHeader codec_Response (rbuf_Write (response_text (Itoa id) (Some u) (error_part err) ++ [10]) j, m)
      = (Ret tt, (j', set_Error (error_of_response err) (set_ID id (set_Method method m))))
    /\ got_response j' u.
Proof.
  intros (Hb & He & Hp & Hr) Hid Hu Herr.
  assert (Hg : Forall good_member (response_members (Itoa id) (Some u) (error_part err))).
  { apply response_good; [done|by intros ? [= <-]|]. intros t. by apply error_part_json. }
  unfold ReadHeader. change (codec_Response =? codec_Request) with false. change (codec_Response =? codec_Response) with true. cbv iota.
  unfold client_ReadHeader. cbn [rbuf_Write JsonServerCodec j_rbuf j_wbuf j_c j_s].
  destruct (Decode_object (response_members (Itoa id) (Some u) (error_part err)) (cc_dec (j_c j))
    (j_rbuf j ++ response_text (Itoa id) (Some u) (error_part err) ++ [10]) [10]) as (d & rb & -> & _ & _);
    [done|done|by rewrite Hb, Hr|done|].
  pose proof (members_object (response_members (Itoa id) (Some u) (error_part err)) [] ltac:(done) Hg) as Hmem. rewrite app_nil_r in Hmem.
  assert (Hd : decode_struct client_fields (object_text (response_members (Itoa id) (Some u) (error_part err))) zero_clientResponse
    = (true, mkClientResponse Version id (raw_of u) (if bool_decide (err = []) then None else Some (newError err)))).
  { unfold decode_struct. rewrite Hmem. unfold response_members. cbn [app].
    decode_field 0%nat @string_field_quote; [|by apply utf8_ascii]. decode_field 1%nat @int_field_Itoa.
    decode_field 2%nat @raw_field_some. unfold error_part. case_bool_decide; [reflexivity|].
    decode_field 3%nat @error_field_newError. reflexivity. }
  rewrite Hd. cbn [negb cr_ID cr_Error]. rewrite Hp, lookup_singleton_eq.
  assert (Herrm : match (if bool_decide (err = []) then None else Some (newError err)) with Some e => Error_json e | None => [] end
    = error_of_response err) by (unfold error_of_response; by case_bool_decide).
  rewrite Herrm. eexists. split; [reflexivity|]. done.
Qed.

End Call.

(** ** The call *)

Section Exchange.
Context `{VS : Values} `{JV : !JsonValues} `{ET : ErrorText} `{UT : UnicodeTable} {A : Type}.
Abbreviation handlePkg := (handlePkg (A := A) (K := socket) NewCodec).

Definition json_type : bytes := lit "application/json".

(** The header of a package as the transport of a client sends it. *)
Record json_header (h : Header) : Prop := {
  jh_type : at_key h content_type = json_type;
  jh_post : at_key h (lit "HttpMethod") = lit "POST";
  jh_path : at_key h (lit "Path") <> []
}.

Lemma newCodec_json (codecs : gmap bytes (Serve.NewCodec (C := jsonCodec))) :
  codecs !! json_type = None -> newCodec NewCodec codecs json_type = inr NewCodec.
Proof. intros Hc. unfold newCodec. rewrite Hc. reflexivity. Qed.

(** A method of the server that a request names, its argument as it was read,
    and how its function ends: with an error's text, that may be empty, and a
    reply. *)
Record called (tbl : gmap bytes (gmap bytes (methodType A))) (h : Header) (method params : bytes) (a : A)
    (err : bytes) (reply : value) (a' : A) : Prop := {
  ca_called : exists ms mt f v e,
    tbl !! at_key h (lit "Path") = Some ms /\ ms !! method = Some mt /\ stream mt = false /\ m_Func (mt_method mt) = FUnary f
    /\ is_nil (zero_of (elem_type (ArgType mt))) = false /\ read_params params (zero_of (elem_type (ArgType mt))) = Ret v
    /\ call_ok (call_args mt v) (m_In (mt_method mt)) = true
    /\ f (mkContext (strip_header h) (deadline h)) v (zero_of (elem_type (default (ArgType mt) (ReplyType mt)))) a = (Ret (e, reply), a')
    /\ default [] e = err;
  ca_utf8 : utf8_text err;
  ca_unbraced : unbraced err
}.

(** What the server sends as the result: a placeholder beside an error. *)
Definition sent_result (err : bytes) (reply : value) : value := if bool_decide (err = []) then reply else invalidRequest.

Lemma json_answered codecs tbl h method params id a err reply a' u :
  codecs !! json_type = None -> json_header h -> utf8_text method -> method <> [] -> structured params -> 0 <= id < 2 ^ 63 ->
  called tbl h method params a err reply a' -> is_nil (sent_result err reply) = false -> marshal (sent_result err reply) = inr u ->
  answered NewCodec codecs tbl a (h, request_text method params id ++ [10])
    ({[content_type := json_type]}, response_text (Itoa id) (Some u) (error_part err) ++ [10]) a'.
Proof.
  intros Hcod [Hct Hpost Hpath] Hm Hmne Hp Hid [(ms & mt & f & v & e & Hms & Hmt & Hst & Hf & Hz & Hv & Hok & Ecall & He) Hutf Hbr] Hnil Hu.
  destruct (header_request method params id h Hm Hp Hid Hpost) as (j & Eh & Hj).
  destruct (write_response j method params id (at_key h (lit "Path")) ∅ (sent_result err reply) u err Hj Hid Hnil Hu Hutf Hbr)
    as (j' & m' & Ew & <- & Hm').
  replace ({[content_type := json_type]} : Header) with (<[content_type := at_key h content_type]> (cm_Header m')) by (by rewrite Hm', Hct).
  eapply (answered_unary NewCodec codecs tbl h _ NewCodec j (mkCodecMessage (at_key h (lit "Path")) method 1 [] 0 h)
    ms mt f v j e reply a a' j' m'); try done.
  - rewrite Hct. by apply newCodec_json.
  - by eapply body_request.
  - cbn [cm_Target cm_Method cm_ID]. rewrite He. exact Ew.
Qed.

(** A call over JSON-RPC.  The request that a client's codec writes reaches
    the method that it names at the server, with the argument that the server's
    type makes of the client's value; the response is to this request, and the
    client's codec finds in it the method, the request's number in 31 bits, the
    function's error, wrapped into an object with a code, and the reply. *)
Lemma json_call codecs rpc out closed a x x' params h method id err reply a' u m :
  codecs !! json_type = None -> json_header h ->
  checked_param x = Ret (Some x') -> marshal x' = inr params -> structured params -> utf8_text method -> method <> [] ->
  called (table_of rpc) h method params a err reply a' ->
  is_nil (sent_result err reply) = false -> marshal (sent_result err reply) = inr u -> json_text u ->
  exists j1 resp rpc' j2 m2,
    Write x (NewCodec [], mkCodecMessage (at_key h (lit "Path")) method id [] codec_Request h)
      = (Ret tt, (j1, mkCodecMessage (at_key h (lit "Path")) method id [] codec_Request h))
    /\ handlePkg codecs (mkConn rpc (mkSocket [inr (h, wbuf_Bytes j1)] out None closed) a)
      = (Ret tt, mkConn rpc' (mkSocket [] (out ++ [({[content_type := json_type]}, resp)]) None (S closed)) a')
    /\ ReadHeader codec_Response (rbuf_Write resp j1, m) = (Ret tt, (j2, m2))
    /\ cm_Method m2 = method /\ cm_ID m2 = Z.land id MAX_JSONRPC_ID /\ cm_Error m2 = error_of_response err
    /\ forall y, is_nil y = false -> (ReadBody (Some y) j2).1 = read_result u y.
Proof.
  intros Hcod Hh Hc Hmar Hp Hm Hmne Hcall Hnil Hu Hju. pose proof (masked_id id) as Hid.
  destruct (write_request x x' params (at_key h (lit "Path")) method id [] h Hc Hmar) as (j1 & E1 & Hb & Hj1).
  pose proof (json_answered codecs (table_of rpc) h method params (Z.land id MAX_JSONRPC_ID) a err reply a' u Hcod Hh Hm Hmne Hp
    ltac:(lia) Hcall Hnil Hu) as Hans.
  pose proof (answers_cons _ _ _ _ _ _ _ [] [] _ Hans (answers_nil _ _ _ _)) as Hall.
  assert (Hs : exists rpc', handlePkg codecs (mkConn rpc (mkSocket [inr (h, wbuf_Bytes j1)] out None closed) a)
      = (Ret tt, mkConn rpc' (mkSocket [] (out ++ [({[content_type := json_type]},
          response_text (Itoa (Z.land id MAX_JSONRPC_ID)) (Some u) (error_part err) ++ [10])]) None (S closed)) a')).
  { rewrite Hb. match type of Hall with answers _ _ _ _ ?ps ?rs _ =>
      destruct (handlePkg_answers NewCodec codecs _ ps rs _ rpc a a' (queue_exchange ps rs out closed eq_refl)) as (rpc' & Es & _) end;
      [done|exact Hall|]. by exists rpc'. }
  destruct Hs as (rpc' & Es).
  destruct (read_response j1 method (Z.land id MAX_JSONRPC_ID) u err m Hj1 ltac:(lia) Hju (ca_utf8 _ _ _ _ _ _ _ _ Hcall)) as (j2 & E2 & Hgot).
  pose proof (fun y => body_response j2 u y Hgot) as Hy.
  exists j1, (response_text (Itoa (Z.land id MAX_JSONRPC_ID)) (Some u) (error_part err) ++ [10]), rpc', j2. eexists.
  split; [exact E1|]. split; [|split; [exact E2|done]].
  exact Es.
Qed.

(** *** Requests that are refused *)

Lemma unsent codecs rpc out closed a h body e j m :
  codecs !! json_type = None -> at_key h content_type = json_type ->
  ReadHeader codec_Request (NewCodec body, mkCodecMessage [] [] 0 [] 0 h) = (Fail e, (j, m)) ->
  exists rpc', handlePkg codecs (mkConn rpc (mkSocket [inr (h, body)] out None closed) a)
    = (Ret tt, mkConn rpc' (mkSocket [] out None (S closed)) a).
Proof.
  intros Hcod Hct E. destruct (undecodable NewCodec codecs h body NewCodec e j m rpc (mkSocket [] out None closed) a)
    as (rpc' & Es & _); [rewrite Hct; by apply newCodec_json|exact E|].
  exists rpc'. unfold Serve.handlePkg; queue. cbn [cn_socket sk_in length Serve.handle_loop]. unfold bind, attempt, recv; queue.
  cbn [cn_socket sk_in cn_rpc cn_app sk_out sk_refuses sk_closed]. rewrite Es. reflexivity.
Qed.

(** The error for a body that is not JSON, or that is not a request. *)
Definition refusal (body : bytes) : option Error :=
  match Decode_raw (new_decoder, body) with
  | (Ret raw, _) => if (UnmarshalJSON raw (sv_req newServerCodec)).1 then None else Some errRequest
  | _ => Some errParse
  end.

Lemma header_refused body m e :
  refusal body = Some e ->
  exists err j, ReadHeader codec_Request (NewCodec body, m) = (Fail err, (j, m))
    /\ wbuf_Bytes j = response_text null_text None (Some (Error_json e)) ++ [10].
Proof.
  unfold refusal, ReadHeader. change (codec_Request =? codec_Request) with true. unfold server_ReadHeader.
  cbn [NewCodec j_rbuf j_wbuf j_c j_s newServerCodec set_req sv_dec sv_req sv_seq sv_pending].
  change (request_reset (mkServerRequest [] [] None None)) with (mkServerRequest [] [] None None).
  pose proof (Decode_raw_halts new_decoder body) as Hn. pose proof (Decode_raw_no_panic new_decoder body) as Hp.
  destruct (Decode_raw (new_decoder, body)) as [[raw|err| |] [d rb]]; try done.
  - destruct (UnmarshalJSON raw (mkServerRequest [] [] None None)) as [[] r]; cbn [fst]; [done|]. intros [= <-]. by eexists _, _.
  - intros [= <-]. by eexists _, _.
Qed.

(** A body that holds no good request gets no answer: the codec writes an error
    for it, but what it has written stays in the buffer, and the connection is
    closed. *)
Lemma malformed_unsent codecs rpc out closed a h body e :
  codecs !! json_type = None -> at_key h content_type = json_type -> refusal body = Some e ->
  exists err j rpc', ReadHeader codec_Request (NewCodec body, mkCodecMessage [] [] 0 [] 0 h)
      = (Fail err, (j, mkCodecMessage [] [] 0 [] 0 h))
    /\ wbuf_Bytes j = response_text null_text None (Some (Error_json e)) ++ [10]
    /\ handlePkg codecs (mkConn rpc (mkSocket [inr (h, body)] out None closed) a)
       = (Ret tt, mkConn rpc' (mkSocket [] out None (S closed)) a).
Proof.
  intros Hcod Hct He. destruct (header_refused body (mkCodecMessage [] [] 0 [] 0 h) e He) as (err & j & E & Hw).
  destruct (unsent codecs rpc out closed a h body err j _ Hcod Hct E) as (rpc' & Es). by exists err, j, rpc'.
Qed.

(** A nil parameter is sent as null, which the codec on the server's side
    refuses: a call without parameters cannot succeed. *)
Lemma nil_params_refused codecs rpc out closed a x h path method id :
  codecs !! json_type = None -> at_key h content_type = json_type -> checked_param x = Ret None -> utf8_text method ->
  exists j1 m1 rpc', Write x (NewCodec [], mkCodecMessage path method id [] codec_Request h) = (Ret tt, (j1, m1))
    /\ wbuf_Bytes j1 = request_text method null_text (Z.land id MAX_JSONRPC_ID) ++ [10]
    /\ handlePkg codecs (mkConn rpc (mkSocket [inr (h, wbuf_Bytes j1)] out None closed) a)
       = (Ret tt, mkConn rpc' (mkSocket [] out None (S closed)) a).
Proof.
  intros Hcod Hct Hx Hm. pose proof (masked_id id) as Hid. set (n := Z.land id MAX_JSONRPC_ID) in *.
  assert (Hg : Forall good_member (request_members method null_text n)) by (apply request_good; [done|apply json_null|lia]).
  destruct (Decode_object (request_members method null_text n) new_decoder (request_text method null_text n ++ [10]) [10])
    as (d & rb & E & _ & _); [done..|].
  assert (Hr : refusal (request_text method null_text n ++ [10]) = Some errRequest).
  { unfold refusal. rewrite E. change (object_text (request_members method null_text n)) with (request_text method null_text n).
    rewrite UnmarshalJSON_null; [done|exact Hm|lia]. }
  destruct (header_refused _ (mkCodecMessage [] [] 0 [] 0 h) _ Hr) as (err & j & Eh & _).
  destruct (unsent codecs rpc out closed a h _ err j _ Hcod Hct Eh) as (rpc' & Es).
  unfold Write. cbn [cm_Type]. change (codec_Request =? codec_Request) with true. unfold client_Write. rewrite Hx.
  eexists _, _, rpc'. split; [reflexivity|]. split; [reflexivity|]. exact Es.
Qed.

End Exchange.

(** ** A concrete service

    Its values are JSON texts: [json.RawMessage], or nothing. *)

#[local] Instance RawValues : Values := {|
  value := option bytes; zero_of := fun _ => Some []; invalidRequest := Some (lit "{}"); nil_value := None;
  is_nil := fun v => bool_decide (v = None)
|}.
#[local] Instance RawJson : JsonValues := {|
  marshal := fun v => inr (default null_text v);
  unmarshal := fun t _ => (None, Some t);
  remarshal := fun t => t;
  kind_of := fun _ => KSlice false
|}.
#[local] Instance AsciiTable : UnicodeTable := fun _ => false.
#[local] Instance NoText : ErrorText := fun _ => [].

Definition raw_type : rtype := TPtr (TBase (lit "RawMessage") [] (mkTraits false false false false)) (mkTraits false false false false).

(** [func (u *User) Get(ctx context.Context, arg, reply *json.RawMessage) error]:
    the reply is the argument; the second call fails. *)
Definition Get : method nat :=
  mkMethod (lit "Get") []
    [raw_type; TInterface (lit "Context") (lit "context") (mkTraits false false true false); raw_type; raw_type]
    [TInterface (lit "error") [] (mkTraits true false false false)]
    (FUnary (fun _ argv _ n => (Ret (if (n =? 0)%nat then None else Some (lit "no more"), argv), S n))).

Definition users : rpcServer nat := (register (mkHandler (lit "User") (lit "com.User") [] [Get]) initServer).2.

Definition user_header : Header :=
  <[content_type := lit "application/json"]> (<[lit "HttpMethod" := lit "POST"]> {[lit "Path" := lit "com.User"]}).

Definition user_params : bytes := object_text [(lit "id", quote (lit "A003"))].

Lemma user_params_structured : structured user_params.
Proof. split; [|done]. apply json_object; [done|]. apply Forall_singleton, good_text; [reflexivity|by apply json_quote, utf8_ascii]. Qed.

(** The second call: the error comes back with its code, whatever is beside it. *)
Lemma users_good : table_ok good_method users.
Proof.
  apply (register_table_ok _ (mkHandler (lit "User") (lit "com.User") [] [Get]) initServer (lit "Get") _).
  - intros sname sv mname mt Hsv. cbn in Hsv. by rewrite lookup_empty in Hsv.
  - constructor; [|done]. split; [done|]. split; [done|]. intros c v r a. by eexists.
  - rewrite (surjective_pairing (register _ initServer)). f_equal.
Qed.

