(* ===== verification/Errors.v ===== *)
(** * Errors as JSON

    [common/errors.go]: the errors that the client returns, whose text is a JSON
    object, and [Parse], which reads it back. *)
From S2P Require Import Prelude.
From S2P Require Import Utf8 Registry Url Common Json JsonText JsonCall.

(** ** Definitions *)

(** [http.StatusText]. *)
Definition status_texts : list (Z * string) := [
  (100, "Continue"); (101, "Switching Protocols"); (102, "Processing");
  (200, "OK"); (201, "Created"); (202, "Accepted"); (203, "Non-Authoritative Information"); (204, "No Content");
  (205, "Reset Content"); (206, "Partial Content"); (207, "Multi-Status"); (208, "Already Reported"); (226, "IM Used");
  (300, "Multiple Choices"); (301, "Moved Permanently"); (302, "Found"); (303, "See Other"); (304, "Not Modified");
  (305, "Use Proxy"); (307, "Temporary Redirect"); (308, "Permanent Redirect");
  (400, "Bad Request"); (401, "Unauthorized"); (402, "Payment Required"); (403, "Forbidden"); (404, "Not Found");
  (405, "Method Not Allowed"); (406, "Not Acceptable"); (407, "Proxy Authentication Required"); (408, "Request Timeout");
  (409, "Conflict"); (410, "Gone"); (411, "Length Required"); (412, "Precondition Failed"); (413, "Request Entity Too Large");
  (414, "Request URI Too Long"); (415, "Unsupported Media Type"); (416, "Requested Range Not Satisfiable");
  (417, "Expectation Failed"); (418, "I'm a teapot"); (421, "Misdirected Request"); (422, "Unprocessable Entity"); (423, "Locked");
  (424, "Failed Dependency"); (426, "Upgrade Required"); (428, "Precondition Required"); (429, "Too Many Requests");
  (431, "Request Header Fields Too Large"); (451, "Unavailable For Legal Reasons");
  (500, "Internal Server Error"); (501, "Not Implemented"); (502, "Bad Gateway"); (503, "Service Unavailable");
  (504, "Gateway Timeout"); (505, "HTTP Version Not Supported"); (506, "Variant Also Negotiates"); (507, "Insufficient Storage");
  (508, "Loop Detected"); (510, "Not Extended"); (511, "Network Authentication Required") ]%string.

Definition StatusText (code : Z) : bytes :=
  match list_find (fun p => p.1 = code) status_texts with Some (_, (_, s)) => lit s | None => [] end.

Record Error := mkError {
  err_ID : bytes;
  err_Code : Z;
  err_Detail : bytes;
  err_Status : bytes
}.

(** [Error.Error]. *)
Definition Error_Error (e : Error) : bytes :=
  object_text [(lit "id", quote (err_ID e)); (lit "code", Itoa (err_Code e)); (lit "detail", quote (err_Detail e)); (lit "status", quote (err_Status e))].

Definition NewError (id detail : bytes) (code : Z) : Error := mkError id code detail (StatusText code).

Definition BadRequest (id detail : bytes) : Error := mkError id 400 detail (StatusText 400).
Definition Unauthorized (id detail : bytes) : Error := mkError id 401 detail (StatusText 401).
Definition Forbidden (id detail : bytes) : Error := mkError id 403 detail (StatusText 403).
Definition NotFound (id detail : bytes) : Error := mkError id 404 detail (StatusText 404).
Definition InternalServerError (id detail : bytes) : Error := mkError id 500 detail (StatusText 500).

(** A number that must fit an [int32]. *)
Definition int32_field {R} (set : Z -> R -> R) (v : bytes) (r : R) : option R :=
  if bool_decide (v = null_text) then Some r
  else match Atoi v with Some n => if between (- 2 ^ 31) (2 ^ 31 - 1) n then Some (set n r) else None | None => None end.

Definition Error_fields : list (bytes * (bytes -> Error -> option Error)) := [
  (lit "id", string_field (fun s e => mkError s (err_Code e) (err_Detail e) (err_Status e)));
  (lit "code", int32_field (fun n e => mkError (err_ID e) n (err_Detail e) (err_Status e)));
  (lit "detail", string_field (fun s e => mkError (err_ID e) (err_Code e) s (err_Status e)));
  (lit "status", string_field (fun s e => mkError (err_ID e) (err_Code e) (err_Detail e) s)) ].

(** A text without the white space around it. *)
Definition strip (s : bytes) : bytes := rev (skip_space (rev (skip_space s))).

Definition set_Detail (s : bytes) (e : Error) : Error := mkError (err_ID e) (err_Code e) s (err_Status e).

(** [json.Unmarshal] looks at the whole text first; an error of type is returned
    after the other fields are set. *)
Definition Parse (err : bytes) : Error :=
  let e := mkError [] 0 [] [] in
  if negb (valid err) then set_Detail err e
  else
    let '(ok, e) := decode_struct Error_fields (strip err) e in
    if negb ok then set_Detail err e else e.

(** ** Lemmas *)

Lemma json_integer n : is_i64 n -> json_text (Itoa n) /\ Atoi (Itoa n) = Some n.
Proof.
  intros Hn. unfold is_i64 in Hn. destruct (Z.ltb_spec n 0) as [Hneg|Hpos]; [|split; [apply json_Itoa; lia|apply Atoi_Itoa; lia]].
  destruct (digits_head 20 (- n) []) as (d & u & E & Hd); [lia|].
  assert (Ei : Itoa n = 45 :: d :: u) by (unfold Itoa; rewrite (proj2 (Z.ltb_lt _ _)) by lia; by rewrite E).
  rewrite Ei. split.
  - split; [by eexists _, _|]. intros fuel c rest Hf Hc. destruct fuel as [|fuel]; [lia|].
    cbn [app skip_value skip_space]. change (is_space 45) with false. cbv iota. change (45 =? 34) with false.
    change (45 =? 123) with false. change (45 =? 91) with false. cbv iota. change ((45 =? 45) || is_digit 45) with true. cbv iota.
    destruct (ends_facts c Hc) as (Hcd & H46 & H101 & H69).
    assert (Hall : forallb is_digit (d :: u) = true).
    { rewrite <- E. apply forallb_forall. intros x Hx%list_elem_of_In. revert x Hx. apply Forall_forall, digits_all; [|lia|done].
      intros x Hx. apply between_spec. lia. }
    cbn [forallb] in Hall. apply andb_true_iff in Hall as [Hdd Hu].
    unfold skip_number. change (45 =? 45) with true. cbv iota. replace (d =? 48) with false by lia. unfold skip_digits1. rewrite Hdd.
    change (d :: u ++ c :: rest) with ((d :: u) ++ c :: rest). rewrite skip_digits_all; [|cbn; by rewrite Hdd, Hu|done].
    cbn. replace (c =? 46) with false by lia. replace (c =? 101) with false by lia. by replace (c =? 69) with false by lia.
  - assert (Hv : digits_value (d :: u) = - n /\ forallb is_digit (d :: u) = true).
    { rewrite <- E. split; [apply digits_fold; lia|]. apply forallb_forall. intros x Hx%list_elem_of_In. revert x Hx.
      apply Forall_forall, digits_all; [|lia|done]. intros x Hx. apply between_spec. lia. }
    destruct Hv as [Hv Hall]. unfold Atoi. change (45 =? 45) with true. cbv iota. rewrite Hall, Hv. cbn [length Nat.eqb negb orb].
    rewrite Z.opp_involutive. by replace ((- 2 ^ 63 <=? n) && (n <? 2 ^ 63)) with true by lia.
Qed.

Lemma int32_field_Itoa {R} (set : Z -> R -> R) n r : is_i32 n -> int32_field set (Itoa n) r = Some (set n r).
Proof.
  intros Hn. unfold is_i32 in Hn. destruct (json_integer n) as [Hj Ha]; [unfold is_i64; lia|]. unfold int32_field.
  rewrite bool_decide_eq_false_2, Ha by (intros E; by rewrite E in Ha).
  by rewrite (proj2 (between_spec _ _ _)) by lia.
Qed.

(** An error that JSON can carry. *)
Record plain_error (e : Error) : Prop := {
  pe_id : utf8_text (err_ID e);
  pe_code : is_i32 (err_Code e);
  pe_detail : utf8_text (err_Detail e);
  pe_status : utf8_text (err_Status e)
}.

Lemma Error_good e : plain_error e ->
  Forall good_member [(lit "id", quote (err_ID e)); (lit "code", Itoa (err_Code e)); (lit "detail", quote (err_Detail e)); (lit "status", quote (err_Status e))].
Proof.
  intros [Hi Hc Hd Hs]. repeat (apply Forall_cons; split; [apply good_text; [reflexivity|]|]); try (by apply json_quote); [|by apply Forall_nil].
  apply json_integer. unfold is_i32, is_i64 in *. lia.
Qed.

Lemma strip_object kvs : strip (object_text kvs) = object_text kvs.
Proof.
  unfold strip. assert (E : skip_space (object_text kvs) = object_text kvs) by done. rewrite E.
  unfold object_text. change (123 :: ?t ++ [125]) with ((123 :: t) ++ [125]). rewrite rev_app_distr. cbn [rev app skip_space].
  change (is_space 125) with false. cbv iota. cbn [rev]. rewrite rev_app_distr, !rev_involutive. done.
Qed.

(** C40. The text of an error is JSON that [Parse] turns back into the error: identity,
    code of 32 bits, detail and status; and a text that is no JSON becomes the
    detail of an error without the rest. *)
Theorem Parse_Error e text :
  (plain_error e -> Parse (Error_Error e) = e) /\ (valid text = false -> Parse text = mkError [] 0 text []).
Proof.
  split; [|intros Hv; unfold Parse; by rewrite Hv]. intros He. destruct (He) as [Hi Hc Hd Hs].
  set (ms := [(lit "id", quote (err_ID e)); (lit "code", Itoa (err_Code e)); (lit "detail", quote (err_Detail e)); (lit "status", quote (err_Status e))]).
  assert (Hg : Forall good_member ms) by (by apply Error_good).
  assert (Hj : json_text (object_text ms)) by (by apply json_object).
  unfold Parse, Error_Error. fold ms. rewrite (valid_text _ Hj), strip_object. cbn [negb].
  pose proof (members_object ms [] ltac:(done) Hg) as Hm. rewrite app_nil_r in Hm. unfold decode_struct. rewrite Hm. unfold ms.
  decode_field 0%nat @string_field_quote. decode_field 1%nat @int32_field_Itoa. decode_field 2%nat @string_field_quote.
  decode_field 3%nat @string_field_quote. by destruct e.
Qed.

Lemma Parse_Error_witness :
  Parse (Error_Error (NotFound (lit "dubbogo.client") (lit "no provider"))) = mkError (lit "dubbogo.client") 404 (lit "no provider") (lit "Not Found")
  /\ Parse (lit "{oops") = mkError [] 0 (lit "{oops") [].
Proof.
  destruct (Parse_Error (NotFound (lit "dubbogo.client") (lit "no provider")) (lit "{oops")) as [H1 H2]. split.
  - rewrite H1; [vm_compute; reflexivity|]. split; [by apply utf8_ascii|cbn; unfold is_i32; lia|by apply utf8_ascii|by apply utf8_ascii].
  - apply H2. vm_compute. reflexivity.
Defined.
