(* ===== verification/Http.v ===== *)
(** * HTTP messages

    What [transport/http_transport.go] uses of Go's [net/http] and
    [net/textproto], as of Go 1.11: headers, the requests and responses that are
    written with a body of known length, and those that are read, with bodies of
    known length, in chunks, or up to the end of the connection.  Host names are
    ASCII. *)
From S2P Require Import Prelude.
From S2P Require Import Registry Url Common.

(** ** Headers *)

(** [http.Header]: values by canonical key. *)
Abbreviation fields := (gmap bytes (list bytes)).

(** [isTokenTable]. *)
Definition is_token (c : Z) : bool := is_alpha c || is_digit c || one_of "!#$%&'*+-.^_`|~" c.

Fixpoint canonical_from (upper : bool) (s : bytes) : bytes :=
  match s with
  | [] => []
  | c :: t =>
      (if upper && is_lower c then c - 32 else if negb upper && is_upper c then c + 32 else c) :: canonical_from (c =? 45) t
  end.

(** A key with a byte that is none of a token is left as it is. *)
Definition CanonicalMIMEHeaderKey (s : bytes) : bytes := if forallb is_token s then canonical_from true s else s.

Definition header_Set (k v : bytes) (h : fields) : fields := <[CanonicalMIMEHeaderKey k := [v]]> h.

Definition values_of (k : string) (h : fields) : list bytes := default [] (h !! lit k).

Definition is_blank (c : Z) : bool := (c =? 32) || (c =? 9).
Definition isASCIISpace (c : Z) : bool := is_blank c || (c =? 10) || (c =? 13).

Fixpoint trim_left (f : Z -> bool) (s : bytes) : bytes :=
  match s with
  | c :: t => if f c then trim_left f t else s
  | [] => []
  end.

Definition trim_right (f : Z -> bool) (s : bytes) : bytes := rev (trim_left f (rev s)).
Definition trim (f : Z -> bool) (s : bytes) : bytes := trim_right f (trim_left f s).

Definition crlf : bytes := [13; 10].

Definition header_line (k v : bytes) : bytes :=
  k ++ lit ": " ++ trim isASCIISpace (map (fun c => if (c =? 10) || (c =? 13) then 32 else c) v) ++ crlf.

(** [Header.WriteSubset]: in the order of the keys. *)
Definition WriteSubset (exclude : list bytes) (h : fields) : bytes :=
  flat_map (fun k => flat_map (header_line k) (default [] (h !! k)))
    (filter (fun k => k ∉ exclude) (sorted_keys h)).

(** [httpguts.HeaderValuesContainsToken]. *)
Definition contains_token (vs : list bytes) (token : bytes) : bool :=
  existsb (fun v => existsb (fun t => bool_decide (ToLower (trim is_blank t) = token)) (Split 44 v)) vs.

(** ** Requests and responses that are written *)

(** [URL.RequestURI] of a URL with nothing but a path. *)
Definition RequestURI (path : bytes) : bytes :=
  let r := if bool_decide (path = [42]) then path
           else flat_map (fun c => if shouldEscape c encodePath then [37; upperhex (c / 16); upperhex (c mod 16)] else [c]) path in
  if bool_decide (r = []) then [47] else r.

Definition JoinHostPort (host port : bytes) : bytes :=
  if has_byte 58 host then 91 :: host ++ 93 :: 58 :: port else host ++ 58 :: port.

(** Up to a space or slash. *)
Fixpoint host_part (s : bytes) : bytes :=
  match s with
  | c :: t => if one_of " /" c then [] else c :: host_part t
  | [] => []
  end.

Definition cleanHost (host : bytes) : bytes :=
  let host := host_part host in
  match SplitHostPort host with inr (h, p) => JoinHostPort h p | inl _ => host end.

(** An IPv6 zone is left out. *)
Definition removeZone (host : bytes) : bytes :=
  if HasPrefix host [91] then
    match cut_last 93 host with
    | Some (a, b) => match cut_last 37 a with Some (a, _) => a ++ 93 :: b | None => host end
    | None => host
    end
  else host.

Definition defaultUserAgent : bytes := lit "Go-http-client/1.1".

(** [reqWriteExcludeHeader], [respExcludeHeader]. *)
Definition reqExclude : list bytes :=
  map lit ["Host"; "User-Agent"; "Content-Length"; "Transfer-Encoding"; "Trailer"]%string.
Definition respExclude : list bytes := map lit ["Content-Length"; "Transfer-Encoding"; "Trailer"]%string.

Definition content_length (body : bytes) : bytes := lit "Content-Length: " ++ Itoa (Z.of_nat (length body)) ++ crlf.

(** [Request.Write] of a POST with a body in a reader and its length.  A length of
    0 is taken for one that is not known: the body is sent in chunks, of which
    there is none. *)
Definition Request_Write (host path : bytes) (h : fields) (body : bytes) : result bytes :=
  let host := cleanHost host in
  if bool_decide (host = []) then inl (Errorf "http: Request.Write on Request with no Host or URL set")
  else
    let agent := match h !! lit "User-Agent" with Some vs => hd [] vs | None => defaultUserAgent end in
    inr (lit "POST " ++ RequestURI path ++ lit " HTTP/1.1" ++ crlf
      ++ lit "Host: " ++ removeZone host ++ crlf
      ++ (if bool_decide (agent = []) then [] else lit "User-Agent: " ++ agent ++ crlf)
      ++ (if bool_decide (body = []) then lit "Transfer-Encoding: chunked" ++ crlf else content_length body)
      ++ WriteSubset reqExclude h ++ crlf
      ++ (if bool_decide (body = []) then lit "0" ++ crlf ++ crlf else body)).

(** [Response.Write] of a response with a body and its length. *)
Definition Response_Write (code : Z) (status : bytes) (h : fields) (body : bytes) : bytes :=
  let code := Itoa code in
  let text := if HasPrefix status (code ++ [32]) then drop (length code + 1) status else status in
  lit "HTTP/1.1 " ++ code ++ [32] ++ text ++ crlf
    ++ (if bool_decide (body = []) then [] else content_length body)
    ++ WriteSubset respExclude h
    ++ (if bool_decide (body = []) then lit "Content-Length: 0" ++ crlf else [])
    ++ crlf ++ body.

(** ** Reading

    The state is what will come; [eof] is what the connection answers then. *)

Section Read.
Context (eof : goerr).

Definition strip_cr (s : bytes) : bytes := if bool_decide (last s = Some 13) then take (length s - 1) s else s.

(** [textproto.Reader.ReadLine]: the last line may lack its end. *)
Definition ReadLine : ST bytes bytes := fun s =>
  match cut 10 s with
  | Some (a, b) => (Ret (strip_cr a), b)
  | None => if bool_decide (s = []) then (Fail eof, []) else (Ret s, [])
  end.

(** The lines that continue a line begin with a blank. *)
Fixpoint continued (fuel : nat) (acc : bytes) : ST bytes bytes := fun s =>
  match fuel with
  | O => (NoFuel, s)
  | S fuel =>
      match s with
      | c :: _ =>
          if is_blank c then
            match ReadLine (trim_left is_blank s) with
            | (Ret line, s) => continued fuel (acc ++ 32 :: trim is_blank line) s
            | (_, s) => (Ret acc, s)
            end
          else (Ret acc, s)
      | [] => (Ret acc, s)
      end
  end.

Definition readContinuedLine : ST bytes bytes := fun s =>
  match ReadLine s with
  | (Ret [], s) => (Ret [], s)
  | (Ret line, s) => continued (S (length s)) (trim is_blank line) s
  | r => r
  end.

(** The key and the value of a line: an empty key is skipped. *)
Definition add_line (kv : bytes) (m : fields) : option fields :=
  match cut 58 kv with
  | None => None
  | Some (k, v) =>
      let key := CanonicalMIMEHeaderKey (trim_right (Z.eqb 32) k) in
      Some (if bool_decide (key = []) then m else <[key := default [] (m !! key) ++ [trim_left is_blank v]]> m)
  end.

Fixpoint mime_loop (fuel : nat) (m : fields) : ST bytes fields := fun s =>
  match fuel with
  | O => (NoFuel, s)
  | S fuel =>
      match readContinuedLine s with
      | (Ret [], s) => (Ret m, s)
      | (Ret kv, s) =>
          match add_line kv m with
          | None => (Fail (Errorf "malformed MIME header line"), s)
          | Some m => mime_loop fuel m s
          end
      | (Fail e, s) => (Fail e, s)
      | (Panic, s) => (Panic, s)
      | (NoFuel, s) => (NoFuel, s)
      end
  end.

Definition ReadMIMEHeader : ST bytes fields := fun s =>
  match s with
  | c :: _ =>
      if is_blank c then
        match ReadLine s with
        | (Ret _, s) => (Fail (Errorf "malformed MIME header initial line"), s)
        | (o, s) => (match o with Fail e => Fail e | _ => Panic end, s)
        end
      else mime_loop (S (length s)) ∅ s
  | [] => mime_loop 1 ∅ s
  end.

Definition parseRequestLine (line : bytes) : option (bytes * bytes * bytes) :=
  match cut 32 line with
  | Some (m, rest) => match cut 32 rest with Some (uri, proto) => Some (m, uri, proto) | None => None end
  | None => None
  end.

Definition Big : Z := 1000000.

Definition ParseHTTPVersion (vers : bytes) : option (Z * Z) :=
  if bool_decide (vers = lit "HTTP/1.1") then Some (1, 1)
  else if bool_decide (vers = lit "HTTP/1.0") then Some (1, 0)
  else if negb (HasPrefix vers (lit "HTTP/")) then None
  else
    match cut 46 vers with
    | None => None
    | Some (a, b) =>
        match Atoi (drop 5 a), Atoi b with
        | Some major, Some minor => if between 0 Big major && between 0 Big minor then Some (major, minor) else None
        | _, _ => None
        end
    end.

(** The path of [url.ParseRequestURI]. *)
Definition ParseRequestURI (rawurl : bytes) : result bytes :=
  if bool_decide (rawurl = []) then inl (Errorf "empty url")
  else if bool_decide (rawurl = [42]) then inr [42]
  else
    sr <~ getscheme rawurl ;;
    let '(rest, _) := cut_query sr.2 in
    if negb (HasPrefix rest [47]) then
      if bool_decide (sr.1 <> []) then inr [] else inl (Errorf "invalid URI for request")
    else if bool_decide (sr.1 <> []) && HasPrefix rest [47; 47] then
      let after := drop 2 rest in
      let '(authority, path) := match cut 47 after with Some (a, p) => (a, 47 :: p) | None => (after, []) end in
      _ <~ parseAuthority authority ;; unescape encodePath path
    else unescape encodePath rest.

(** *** Bodies *)

Inductive framing := FNone | FLength (n : Z) | FChunked | FClose.

Fixpoint count_chunked (encodings : list bytes) : result nat :=
  match encodings with
  | [] => inr 0%nat
  | e :: encodings =>
      let e := ToLower (trim isASCIISpace e) in
      if bool_decide (e = lit "identity") then inr 0%nat
      else if negb (bool_decide (e = lit "chunked")) then inl (Errorf "unsupported transfer encoding")
      else n <~ count_chunked encodings ;; inr (S n)
  end.

(** Whether the body comes in chunks. *)
Definition fixTransferEncoding (at11 : bool) (h : fields) : result (fields * bool) :=
  match h !! lit "Transfer-Encoding" with
  | None => inr (h, false)
  | Some raw =>
      let h := delete (lit "Transfer-Encoding") h in
      if negb at11 then inr (h, false)
      else
        n <~ count_chunked (Split 44 (hd [] raw)) ;;
        if (1 <? n)%nat then inl (Errorf "too many transfer encodings")
        else if (0 <? n)%nat then inr (delete (lit "Content-Length") h, true)
        else inr (h, false)
  end.

Definition parseContentLength (cl : bytes) : result Z :=
  match Atoi cl with
  | Some n => if n <? 0 then inl (Errorf "bad Content-Length") else inr n
  | None => inl (Errorf "bad Content-Length")
  end.

Definition noResponseBodyExpected (method : bytes) : bool := bool_decide (method = lit "HEAD").

Definition bodyAllowedForStatus (status : Z) : bool := negb (between 100 199 status || (status =? 204) || (status =? 304)).

(** [fixLength]: [None] is a body whose length is not known. *)
Definition fixLength (isResponse : bool) (status : Z) (method : bytes) (chunked : bool) (h : fields) : result (fields * option Z) :=
  let cls := values_of "Content-Length" h in
  let first := trim isASCIISpace (hd [] cls) in
  if (1 <? length cls)%nat && negb (forallb (fun ct => bool_decide (trim isASCIISpace ct = first)) cls) then
    inl (Errorf "http: message cannot contain multiple Content-Length headers")
  else
    let '(h, cls) := if (1 <? length cls)%nat then (<[lit "Content-Length" := [first]]> h, [first]) else (h, cls) in
    if noResponseBodyExpected method then
      if negb isResponse && (0 <? length cls)%nat && negb (bool_decide (cls = [lit "0"]))
      then inl (Errorf "http: method cannot contain a Content-Length") else inr (h, Some 0)
    else if negb (bodyAllowedForStatus status) then inr (h, Some 0)
    else if chunked then inr (h, None)
    else
      let cl := match cls with [c] => trim isASCIISpace c | _ => [] end in
      if negb (bool_decide (cl = [])) then n <~ parseContentLength cl ;; inr (h, Some n)
      else
        let h := delete (lit "Content-Length") h in
        inr (h, if isResponse then None else Some 0).

(** The elements of a list of keys. *)
Definition elements (v : bytes) : list bytes :=
  filter (fun f => f <> []) (map (trim isASCIISpace) (Split 44 v)).

Definition fixTrailer (h : fields) : result fields :=
  match h !! lit "Trailer" with
  | None => inr h
  | Some vv =>
      if existsb (fun v => existsb (fun k => bool_decide (CanonicalMIMEHeaderKey k ∈ map lit ["Transfer-Encoding"; "Trailer"; "Content-Length"]%string))
           (elements v)) vv
      then inl (Errorf "bad trailer key") else inr (delete (lit "Trailer") h)
  end.

(** [readTransfer]: the header without what frames the body, and the framing. *)
Definition readTransfer (isResponse : bool) (status : Z) (method : bytes) (at11 : bool) (h : fields) : result (fields * framing) :=
  te <~ fixTransferEncoding at11 h ;;
  let '(h, chunked) := te in
  fl <~ fixLength isResponse status method chunked h ;;
  let '(h, len) := fl in
  h <~ fixTrailer h ;;
  inr (h,
    if chunked then
      if noResponseBodyExpected method || negb (bodyAllowedForStatus status) then FNone else FChunked
    else match len with
         | Some n => if n =? 0 then FNone else FLength n
         | None => FClose
         end).

(** [shouldClose] takes [close] out of a response's header. *)
Definition without_close (version : Z * Z) (h : fields) : fields :=
  if (version.1 <? 1) || bool_decide (version = (1, 0)) then h
  else if contains_token (values_of "Connection" h) (lit "close") then delete (lit "Connection") h else h.

(** [io.ErrUnexpectedEOF] for an end in the middle. *)
Definition unexpected (e : goerr) : goerr := if bool_decide (e = EOF) then UnexpectedEOF else e.

Definition maxLineLength : nat := 4096.

Definition readChunkLine : ST bytes bytes := fun s =>
  match cut 10 s with
  | None =>
      if (maxLineLength <=? length s)%nat then (Fail (Errorf "header line too long"), drop maxLineLength s)
      else (Fail (unexpected eof), [])
  | Some (a, b) =>
      if (maxLineLength <=? S (length a))%nat then (Fail (Errorf "header line too long"), b)
      else (Ret (default (trim_right isASCIISpace a) (fst <$> cut 59 (trim_right isASCIISpace a))), b)
  end.

Definition parseHexUint (s : bytes) : option Z :=
  if forallb ishex s && (length s <=? 16)%nat then Some (fold_left (fun n d => 16 * n + unhex d) s 0) else None.

Definition errTrailerEOF : goerr := Errorf "http: unexpected EOF reading trailer".

(** Whether an empty line comes up in what the buffer can hold. *)
Fixpoint double_crlf (s : bytes) : bool :=
  match s with
  | _ :: t => HasPrefix s (crlf ++ crlf) || double_crlf t
  | [] => false
  end.

Definition readTrailer : ST bytes unit := fun s =>
  if HasPrefix s crlf then (Ret tt, drop 2 s)
  else if (length s <? 2)%nat then (Fail errTrailerEOF, s)
  else if negb (double_crlf (take 4096 s)) then (Fail (Errorf "http: suspiciously long trailer after chunked body"), s)
  else
    match ReadMIMEHeader s with
    | (Ret _, s) => (Ret tt, s)
    | (Fail e, s) => (Fail (if bool_decide (e = EOF) then errTrailerEOF else e), s)
    | (Panic, s) => (Panic, s)
    | (NoFuel, s) => (NoFuel, s)
    end.

(** The chunks; the end of the connection within one is found by
    [readTrailer]. *)
Fixpoint read_chunks (fuel : nat) (acc : bytes) : ST bytes bytes := fun s =>
  match fuel with
  | O => (NoFuel, s)
  | S fuel =>
      match readChunkLine s with
      | (Ret line, s) =>
          match parseHexUint line with
          | None => (Fail (Errorf "invalid byte in chunk length"), s)
          | Some n =>
              if n =? 0 then
                match readTrailer s with
                | (Ret _, s) => (Ret acc, s)
                | (Fail e, s) => (Fail e, s)
                | (Panic, s) => (Panic, s)
                | (NoFuel, s) => (NoFuel, s)
                end
              else
                if Z.of_nat (length s) <? n + 2 then
                  (Fail (if bool_decide (eof = EOF) then if Z.of_nat (length s) =? n + 1 then UnexpectedEOF else errTrailerEOF
                         else eof), [])
                else
                  let data := take (Z.to_nat n) s in
                  let s := drop (Z.to_nat n) s in
                  if HasPrefix s crlf then read_chunks fuel (acc ++ data) (drop 2 s)
                  else (Fail (Errorf "malformed chunked encoding"), drop 2 s)
          end
      | r => r
      end
  end.

(** [ioutil.ReadAll] of a body. *)
Definition ReadAll (f : framing) : ST bytes bytes := fun s =>
  match f with
  | FNone => (Ret [], s)
  | FLength n =>
      if Z.of_nat (length s) <? n then (Fail (unexpected eof), [])
      else (Ret (take (Z.to_nat n) s), drop (Z.to_nat n) s)
  | FChunked => read_chunks (S (length s)) [] s
  | FClose => (if bool_decide (eof = EOF) then Ret s else Fail eof, [])
  end.

(** *** Messages *)

(** [http.Request], as far as it is used. *)
Record request := mkRequest {
  rq_Method : bytes;
  rq_Path : bytes;
  rq_Header : fields
}.

Record response := mkResponse {
  rs_StatusCode : Z;
  rs_Status : bytes;
  rs_Header : fields
}.

(** [no-cache] of HTTP/1.0. *)
Definition fixPragmaCacheControl (h : fields) : fields :=
  match h !! lit "Pragma" with
  | Some (v :: _) =>
      if bool_decide (v = lit "no-cache") then
        match h !! lit "Cache-Control" with Some _ => h | None => <[lit "Cache-Control" := [lit "no-cache"]]> h end
      else h
  | _ => h
  end.

Definition at_least_11 (v : Z * Z) : bool := (1 <? v.1) || ((v.1 =? 1) && (1 <=? v.2)).

Definition fail_if {S A} (b : bool) (e : goerr) (k : ST S A) : ST S A := if b then fail e else k.

Definition of_option {S A} (o : option A) (e : goerr) : ST S A := match o with Some a => ret a | None => fail e end.
Definition of_result {S A} (r : result A) : ST S A := match r with inr a => ret a | inl e => fail e end.

(** An end after the first line is not expected. *)
Definition in_message {S A} (m : ST S A) : ST S A := on_err m (fun e => fail (unexpected e)).

Definition ReadRequest : ST bytes (request * framing) :=
  line <- ReadLine ;;
  in_message (
    p <- of_option (parseRequestLine line) (Errorf "malformed HTTP request") ;;
    let '(method, uri, proto) := p in
    fail_if (bool_decide (method = []) || negb (forallb is_token method)) (Errorf "invalid method") (
    version <- of_option (ParseHTTPVersion proto) (Errorf "malformed HTTP version") ;;
    let uri := if bool_decide (method = lit "CONNECT") && negb (HasPrefix uri [47]) then lit "http://" ++ uri else uri in
    path <- of_result (ParseRequestURI uri) ;;
    h <- ReadMIMEHeader ;;
    let h := fixPragmaCacheControl (delete (lit "Host") h) in
    t <- of_result (readTransfer false 200 method (at_least_11 version) h) ;;
    ret (mkRequest method path t.1, t.2))).

(** [method] is the request's, [GET] for none. *)
Definition ReadResponse (method : bytes) : ST bytes (response * framing) :=
  in_message (
    line <- ReadLine ;;
    ps <- of_option (cut 32 line) (Errorf "malformed HTTP response") ;;
    let status := trim_left (Z.eqb 32) ps.2 in
    let code := default status (fst <$> cut 32 status) in
    fail_if (negb (length code =? 3)%nat) (Errorf "malformed HTTP status code") (
    n <- of_option (Atoi code) (Errorf "malformed HTTP status code") ;;
    fail_if (n <? 0) (Errorf "malformed HTTP status code") (
    version <- of_option (ParseHTTPVersion ps.1) (Errorf "malformed HTTP version") ;;
    h <- ReadMIMEHeader ;;
    let h := without_close version (fixPragmaCacheControl h) in
    t <- of_result (readTransfer true n method (at_least_11 version) h) ;;
    ret (mkResponse n status t.1, t.2)))).

End Read.

