(* ===== verification/HttpText.v ===== *)
(** * HTTP messages that are read back

    Lemmas about [Http]: a header's lines, and requests and responses as they are
    written, are read as what they were, whatever follows them. *)
From S2P Require Import Prelude.
From S2P Require Import Registry Url Common Http.

(** A byte is not in a given text. *)
Ltac lacks := try (match goal with |- ?P -> False => change (~ P) end); refine (bool_decide_eq_false_1 _ _); vm_compute; reflexivity.

(** ** Lines *)

(** A value without the ends of lines, and without white space around it; a key
    that is canonical. *)
Record good_value (v : bytes) : Prop := {
  gv_inside : Forall (fun c => c <> 10 /\ c <> 13) v;
  gv_first : forall c, head v = Some c -> isASCIISpace c = false;
  gv_last : forall c, last v = Some c -> isASCIISpace c = false
}.

Record good_key (k : bytes) : Prop := {
  gk_token : forallb is_token k = true;
  gk_nonempty : k <> [];
  gk_canonical : canonical_from true k = k
}.

Definition check_value (v : bytes) : bool :=
  forallb (fun c => negb ((c =? 10) || (c =? 13))) v
    && match head v with Some c => negb (isASCIISpace c) | None => true end
    && match last v with Some c => negb (isASCIISpace c) | None => true end.

Definition check_key (k : bytes) : bool := forallb is_token k && bool_decide (k <> []) && bool_decide (canonical_from true k = k).

Lemma check_value_ok v : check_value v = true -> good_value v.
Proof.
  unfold check_value. rewrite !andb_true_iff. intros [[Hi Hf] Hl]. split.
  - apply Forall_forall. intros c Hc. rewrite forallb_forall in Hi. specialize (Hi c (proj1 (list_elem_of_In _ _) Hc)).
    apply negb_true_iff, orb_false_iff in Hi as [?%Z.eqb_neq ?%Z.eqb_neq]. done.
  - intros c E. rewrite E in Hf. by apply negb_true_iff.
  - intros c E. rewrite E in Hl. by apply negb_true_iff.
Qed.

Lemma check_key_ok k : check_key k = true -> good_key k.
Proof. unfold check_key. rewrite !andb_true_iff, !bool_decide_eq_true. by intros [[? ?] ?]. Qed.

Lemma good_key_canonical k : good_key k -> CanonicalMIMEHeaderKey k = k.
Proof. intros [Ht _ Hc]. unfold CanonicalMIMEHeaderKey. by rewrite Ht. Qed.

Lemma token_facts c : is_token c = true -> 32 < c < 127 /\ c <> 58.
Proof.
  unfold is_token, is_alpha, is_upper, is_lower, is_digit, between, one_of.
  change (lit "!#$%&'*+-.^_`|~") with [33; 35; 36; 37; 38; 39; 42; 43; 45; 46; 94; 95; 96; 124; 126]. cbn [existsb].
  rewrite !orb_true_iff, !andb_true_iff, !Z.leb_le, !Z.eqb_eq. lia.
Qed.

Lemma key_facts k : good_key k -> Forall (fun c => 32 < c < 127 /\ c <> 58) k.
Proof.
  intros [Ht _ _]. apply Forall_forall. intros c Hc. apply token_facts. rewrite forallb_forall in Ht. by apply Ht, list_elem_of_In.
Qed.

Lemma trim_left_id f s : (forall c, head s = Some c -> f c = false) -> trim_left f s = s.
Proof. destruct s as [|c s]; [done|]. cbn. intros H. by rewrite H. Qed.

Lemma head_rev (s : bytes) : head (rev s) = last s.
Proof.
  induction s as [|x s IH] using rev_ind; [done|]. by rewrite rev_app_distr, last_snoc.
Qed.

Lemma trim_right_id f s : (forall c, last s = Some c -> f c = false) -> trim_right f s = s.
Proof. intros H. unfold trim_right. rewrite trim_left_id, rev_involutive; [done|]. intros c. rewrite head_rev. apply H. Qed.

Lemma trim_id f s : (forall c, head s = Some c -> f c = false) -> (forall c, last s = Some c -> f c = false) -> trim f s = s.
Proof. intros H1 H2. unfold trim. by rewrite trim_left_id, trim_right_id. Qed.

Lemma trim_right_snoc f s c : f c = true -> trim_right f (s ++ [c]) = trim_right f s.
Proof. intros Hc. unfold trim_right. rewrite rev_app_distr. cbn. by rewrite Hc. Qed.

Lemma not_space c : isASCIISpace c = false -> is_blank c = false.
Proof. unfold isASCIISpace. by intros [[? _]%orb_false_iff _]%orb_false_iff. Qed.

(** The text of a line, and what [textproto] sees of it. *)
Definition line_text (kv : bytes * bytes) : bytes := kv.1 ++ lit ": " ++ kv.2 ++ crlf.
Definition seen (kv : bytes * bytes) : bytes := kv.1 ++ 58 :: match kv.2 with [] => [] | v => 32 :: v end.

Definition good_line (kv : bytes * bytes) : Prop := good_key kv.1 /\ good_value kv.2.

Lemma header_line_text k v : good_value v -> header_line k v = line_text (k, v).
Proof.
  intros [Hi Hf Hl]. unfold header_line, line_text. cbn [fst snd]. do 2 f_equal.
  replace (map _ v) with v; [by rewrite trim_id|].
  rewrite <- (map_id v) at 1. apply map_ext_in. intros c Hc. rewrite Forall_forall in Hi.
  destruct (Hi c (proj2 (list_elem_of_In _ _) Hc)). replace (c =? 10) with false by lia. by replace (c =? 13) with false by lia.
Qed.

(** ** Reading lines *)

Section Lines.
Context (eof : goerr).

Lemma strip_cr_snoc s : strip_cr (s ++ [13]) = s.
Proof. unfold strip_cr. rewrite last_snoc, bool_decide_eq_true_2 by done. rewrite length_app. cbn [length].
  rewrite Nat.add_sub. by rewrite take_app_length. Qed.

Lemma ReadLine_line s t : 10 ∉ s -> ReadLine eof (s ++ crlf ++ t) = (Ret s, t).
Proof.
  intros Hs. unfold ReadLine. change (s ++ crlf ++ t) with (s ++ [13] ++ 10 :: t). rewrite app_assoc, cut_app.
  - by rewrite strip_cr_snoc.
  - rewrite elem_of_app, list_elem_of_singleton. intros [?|?]; done.
Qed.

Lemma inside_no_lf v : good_value v -> 10 ∉ v.
Proof. intros [Hi _ _] Hc. rewrite Forall_forall in Hi. by apply Hi in Hc as [? _]. Qed.

Lemma key_lacks k c : good_key k -> c <= 32 \/ c = 58 -> c ∉ k.
Proof. intros Hk Hc Hin. pose proof (key_facts k Hk) as H. rewrite Forall_forall in H. apply H in Hin. lia. Qed.

(** What follows a header line: the next one, or the empty line. *)
Definition unblank (t : bytes) : Prop := exists c u, t = c :: u /\ is_blank c = false.

Lemma readContinued_line kv t : good_line kv -> unblank t -> readContinuedLine eof (line_text kv ++ t) = (Ret (seen kv), t).
Proof.
  destruct kv as [k v]. intros [Hk Hv] (c & u & -> & Hc). cbn [fst snd] in Hk, Hv. unfold readContinuedLine, line_text. cbn [fst snd].
  replace ((k ++ lit ": " ++ v ++ crlf) ++ c :: u) with ((k ++ lit ": " ++ v) ++ crlf ++ c :: u) by (by rewrite <- !app_assoc).
  rewrite ReadLine_line.
  2:{ rewrite !elem_of_app. intros [H|[H|H]]; [by apply (key_lacks k 10 Hk) in H; [|lia]|by revert H; lacks|by apply inside_no_lf in H]. }
  destruct k as [|k0 k]; [by destruct (gk_nonempty _ Hk)|]. cbn [app length].
  assert (Ht : trim is_blank (k0 :: k ++ lit ": " ++ v) = seen (k0 :: k, v)).
  { pose proof (key_facts _ Hk) as [Hk0 _]%Forall_cons. unfold seen. cbn [fst snd]. unfold trim. rewrite trim_left_id.
    2:{ intros ? [= <-]. unfold is_blank. rewrite orb_false_iff, !Z.eqb_neq. lia. }
    destruct v as [|v0 v].
    - change (k0 :: k ++ lit ": " ++ []) with ((k0 :: k) ++ [58] ++ [32]). rewrite app_assoc, trim_right_snoc by done.
      apply trim_right_id. intros ? E. rewrite last_snoc in E. by injection E as <-.
    - apply trim_right_id. intros x E. apply not_space, (gv_last _ Hv).
      change (k0 :: k ++ lit ": " ++ v0 :: v) with ((k0 :: k) ++ lit ": " ++ v0 :: v) in E. rewrite !last_app in E.
      destruct (last (v0 :: v)) eqn:El; [change (last (58 :: 32 :: v0 :: v)) with (last (v0 :: v)) in E; by rewrite El in E|by rewrite last_None in El]. }
  cbn [continued]. rewrite Hc, Ht. done.
Qed.

Lemma add_line_seen kv m :
  good_line kv -> m !! kv.1 = None -> add_line (seen kv) m = Some (<[kv.1 := [kv.2]]> m).
Proof.
  destruct kv as [k v]. intros [Hk Hv] Hm. cbn [fst snd] in *. unfold add_line, seen. cbn [fst snd].
  rewrite cut_app by (apply key_lacks; [done|by right]). rewrite (trim_right_id _ k).
  2:{ intros c E. apply last_Some_elem_of in E. pose proof (key_facts k Hk) as H. rewrite Forall_forall in H. apply H in E.
      apply Z.eqb_neq. lia. }
  rewrite good_key_canonical, bool_decide_eq_false_2 by (done || apply Hk). rewrite Hm. cbn [default app].
  destruct v as [|v0 v]; [done|]. change (trim_left is_blank (32 :: v0 :: v)) with (trim_left is_blank (v0 :: v)). rewrite trim_left_id; [done|].
  intros c E. by apply not_space, (gv_first _ Hv).
Qed.

Lemma seen_nonempty kv : seen kv <> [].
Proof. unfold seen. by destruct (kv.1). Qed.

(** The map of some lines. *)
Definition lines_map (ls : list (bytes * bytes)) (m : fields) : fields := fold_left (fun m kv => <[kv.1 := [kv.2]]> m) ls m.

Lemma lines_unblank ls t : Forall good_line ls -> unblank t -> unblank (concat (map line_text ls) ++ t).
Proof.
  intros Hg Ht. destruct Hg as [|[k v] ls [Hk _] _]; [done|]. cbn [map concat]. unfold line_text. cbn [fst snd] in *.
  destruct k as [|c k]; [by destruct (gk_nonempty _ Hk)|]. cbn [app]. eexists _, _. split; [reflexivity|].
  pose proof (key_facts _ Hk) as [Hc _]%Forall_cons. unfold is_blank. rewrite orb_false_iff, !Z.eqb_neq. lia.
Qed.

Lemma mime_lines ls : forall fuel m t,
  Forall good_line ls -> NoDup ls.*1 -> (forall k, k ∈ ls.*1 -> m !! k = None) -> (length ls < fuel)%nat ->
  mime_loop eof fuel m (concat (map line_text ls) ++ crlf ++ t) = (Ret (lines_map ls m), t).
Proof.
  induction ls as [|kv ls IH]; intros [|fuel] m t Hg Hn Hm Hf; try (cbn in Hf; lia).
  - cbn [map concat app mime_loop]. change (10 :: t) with ([10] ++ t). unfold readContinuedLine.
    pose proof (ReadLine_line [] t (not_elem_of_nil _)) as E. cbn [app crlf] in E |- *. by rewrite E.
  - apply Forall_cons in Hg as [Hkv Hg]. apply NoDup_cons in Hn as [Hk Hn]. cbn [map concat mime_loop]. rewrite <- app_assoc.
    rewrite readContinued_line; [|done|apply lines_unblank; [done|by eexists _, _]].
    destruct (seen kv) as [|c u] eqn:E; [by apply seen_nonempty in E|]. rewrite <- E.
    rewrite add_line_seen; [|done|apply Hm; by left].
    apply IH; [done|done| |cbn in Hf; lia]. intros k Hin. rewrite lookup_insert_ne by (by intros <-). apply Hm. by right.
Qed.

Lemma line_text_length kv : (0 < length (line_text kv))%nat.
Proof. unfold line_text. rewrite !length_app. cbn. lia. Qed.

Lemma ReadMIMEHeader_lines ls t :
  Forall good_line ls -> NoDup ls.*1 -> ReadMIMEHeader eof (concat (map line_text ls) ++ crlf ++ t) = (Ret (lines_map ls ∅), t).
Proof.
  intros Hg Hn. assert (Hub : unblank (concat (map line_text ls) ++ crlf ++ t)).
  { apply lines_unblank; [done|by eexists _, _]. }
  destruct Hub as (c & u & E & Hc). unfold ReadMIMEHeader. rewrite E, Hc, <- E.
  apply mime_lines; [done|done|done|]. rewrite length_app. clear -ls.
  enough (length ls <= length (concat (map line_text ls)))%nat by lia.
  induction ls as [|kv ls IH]; [done|]. cbn [map concat length]. rewrite length_app. pose proof (line_text_length kv). lia.
Qed.

End Lines.

(** ** Whole headers *)

(** What is written of a header, and what arrives. *)
Definition kept (exclude : list bytes) (h : fields) : fields := filter (fun kv => kv.1 ∉ exclude) h.

Definition pairs (exclude : list bytes) (h : fields) : list (bytes * bytes) :=
  map (fun k => (k, hd [] (default [] (h !! k)))) (filter (fun k => k ∉ exclude) (sorted_keys h)).

(** A header that [Set] has made of plain keys and values. *)
Definition sendable (exclude : list bytes) (h : fields) : Prop :=
  forall k vs, h !! k = Some vs -> k ∉ exclude -> good_key k /\ exists v, vs = [v] /\ good_value v.

Lemma kept_lookup exclude h k : kept exclude h !! k = if decide (k ∈ exclude) then None else h !! k.
Proof.
  unfold kept. destruct (decide (k ∈ exclude)) as [Hk|Hk].
  - apply map_lookup_filter_None. right. intros x _. cbn. by intros Hn.
  - destruct (h !! k) as [vs|] eqn:E; [by apply map_lookup_filter_Some|apply map_lookup_filter_None; by left].
Qed.

Lemma pairs_keys exclude h : (pairs exclude h).*1 = filter (fun k => k ∉ exclude) (sorted_keys h).
Proof. unfold pairs. generalize (filter (fun k => k ∉ exclude) (sorted_keys h)). intros ks. induction ks as [|k ks IH]; [done|]. cbn. by rewrite IH. Qed.

Lemma pairs_in exclude h kv :
  sendable exclude h -> (kv ∈ pairs exclude h) <-> (kv.1 ∉ exclude) /\ h !! kv.1 = Some [kv.2].
Proof.
  intros Hh. unfold pairs. rewrite list_elem_of_In, in_map_iff. setoid_rewrite <- list_elem_of_In. split.
  - intros (k & <- & Hk). apply list_elem_of_filter in Hk as [Hex Hk]. apply sorted_keys_ok in Hk as [vs Hvs].
    cbn [fst snd]. rewrite Hvs. split; [done|]. by destruct (Hh k vs Hvs Hex) as (_ & v & -> & _).
  - intros [Hex Hk]. destruct kv as [k v]. cbn [fst snd] in *. exists k. split; [by rewrite Hk|].
    apply list_elem_of_filter. split; [done|]. apply sorted_keys_ok. by exists [v].
Qed.

Lemma pairs_good exclude h : sendable exclude h -> Forall good_line (pairs exclude h).
Proof.
  intros Hh. apply Forall_forall. intros [k v] Hkv. apply pairs_in in Hkv as [Hex Hk]; [|done]. cbn [fst snd] in *.
  destruct (Hh k _ Hk Hex) as (Hg & v' & [= <-] & Hv). by split.
Qed.

Lemma pairs_NoDup exclude h : NoDup (pairs exclude h).*1.
Proof. rewrite pairs_keys. apply NoDup_filter, sorted_keys_ok. Qed.

Lemma WriteSubset_lines exclude h : sendable exclude h -> WriteSubset exclude h = concat (map line_text (pairs exclude h)).
Proof.
  intros Hh. unfold WriteSubset, pairs. rewrite map_map, flat_map_concat_map. f_equal. apply map_ext_in. intros k Hk.
  apply list_elem_of_In, list_elem_of_filter in Hk as [Hex Hk]. apply sorted_keys_ok in Hk as [vs Hvs]. rewrite Hvs.
  destruct (Hh k vs Hvs Hex) as (_ & v & -> & Hv). cbn [default from_option hd flat_map id]. rewrite app_nil_r. by apply header_line_text.
Qed.

Lemma lines_map_app ls ls' m : lines_map (ls ++ ls') m = lines_map ls' (lines_map ls m).
Proof. apply fold_left_app. Qed.

Lemma lines_map_lookup ls : forall m k,
  NoDup ls.*1 -> (forall v, (k, v) ∈ ls -> lines_map ls m !! k = Some [v]) /\ (k ∉ ls.*1 -> lines_map ls m !! k = m !! k).
Proof.
  induction ls as [|[k0 v0] ls IH]; intros m k Hn; [split; [set_solver|done]|]. apply NoDup_cons in Hn as [Hk0 Hn]. cbn [fst] in Hk0.
  destruct (IH (<[k0 := [v0]]> m) k Hn) as [IH1 IH2]. change (lines_map ((k0, v0) :: ls) m) with (lines_map ls (<[k0 := [v0]]> m)). cbn [fmap list_fmap fst]. split.
  - intros v [[= <- <-]|Hv]%elem_of_cons; [|by apply IH1]. rewrite IH2 by done. by rewrite lookup_insert_eq.
  - intros [Hk Hin]%not_elem_of_cons. rewrite IH2 by done. by rewrite lookup_insert_ne.
Qed.

Lemma lines_map_pairs exclude h m : sendable exclude h -> lines_map (pairs exclude h) m = kept exclude h ∪ m.
Proof.
  intros Hh. apply map_eq. intros k. destruct (lines_map_lookup (pairs exclude h) m k (pairs_NoDup exclude h)) as [H1 H2].
  rewrite lookup_union, kept_lookup. destruct (decide (k ∈ exclude)) as [Hex|Hex].
  - rewrite H2; [by rewrite left_id_L by apply _|]. rewrite pairs_keys, list_elem_of_filter. by intros [? _].
  - destruct (h !! k) as [vs|] eqn:E.
    + destruct (Hh k vs E Hex) as (_ & v & -> & _). rewrite (H1 v) by (by apply pairs_in). by destruct (m !! k).
    + rewrite H2; [by destruct (m !! k)|]. rewrite pairs_keys, list_elem_of_filter, (proj2 (sorted_keys_ok h) k), E.
      intros [_ [? ?]]. done.
Qed.

(** ** Paths *)

Definition path_escape (path : bytes) : bytes :=
  flat_map (fun c => if shouldEscape c encodePath then [37; upperhex (c / 16); upperhex (c mod 16)] else [c]) path.

Lemma upperhex_unreserved n : 0 <= n < 16 -> is_alpha (upperhex n) || is_digit (upperhex n) = true.
Proof.
  intros Hn. unfold upperhex, is_alpha, is_upper, is_lower, is_digit, between. rewrite !orb_true_iff, !andb_true_iff, !Z.leb_le.
  destruct (Z.ltb_spec n 10); lia.
Qed.

Lemma path_escape_out p c : Forall is_byte p -> c ∈ path_escape p -> shouldEscape c encodePath = false \/ c = 37.
Proof.
  intros Hp Hc. apply list_elem_of_In, in_flat_map in Hc as (x & Hx & Hc).
  assert (Hb : is_byte x) by (by eapply (proj1 (Forall_forall _ _) Hp), list_elem_of_In).
  assert (Hhex : forall n, 0 <= n < 16 -> shouldEscape (upperhex n) encodePath = false).
  { intros n Hn. unfold shouldEscape. by rewrite upperhex_unreserved. }
  destruct (shouldEscape x encodePath) eqn:E; [|destruct Hc as [->|[]]; by left].
  destruct (nibbles x Hb). destruct Hc as [<-|[<-|[<-|[]]]]; auto.
Qed.

Lemma unescape_path_escape p : Forall is_byte p -> unescape encodePath (path_escape p) = inr p.
Proof.
  induction 1 as [|c p Hc _ IH]; [done|]. cbn [path_escape flat_map]. fold (path_escape p).
  destruct (shouldEscape c encodePath) eqn:E; cbn [app unescape is_host andb].
  - destruct (nibbles c Hc) as [Hh Hl]. destruct (upperhex_ok _ Hh) as (H1 & H1' & _). destruct (upperhex_ok _ Hl) as (H2 & H2' & _).
    change (37 =? 37) with true. cbv iota. rewrite H1, H2, IH. cbn. rewrite H1', H2', (Z.mul_comm (c / 16)), <- Z.div_mod by done. done.
  - assert (c <> 37) as ->%Z.eqb_neq by (by intros ->). rewrite IH. done.
Qed.

(** A path as clients have it, and as it arrives. *)
Definition good_path (p : bytes) : Prop := p = [] \/ exists q, p = 47 :: q /\ Forall is_byte q.
Definition arrived (p : bytes) : bytes := match p with [] => [47] | _ => p end.

Lemma RequestURI_text p : good_path p -> RequestURI p = 47 :: path_escape (drop 1 p).
Proof. intros [->|(q & -> & Hq)]; [done|]. unfold RequestURI. by rewrite bool_decide_eq_false_2. Qed.

Lemma path_bytes p : good_path p -> Forall is_byte (drop 1 p).
Proof. intros [->|(q & -> & Hq)]; [by apply Forall_nil|done]. Qed.

Lemma path_lacks p c : good_path p -> c ∈ [32; 10; 63] -> c ∉ 47 :: path_escape (drop 1 p).
Proof.
  intros Hp Hc [->|Hin]%elem_of_cons; [revert Hc; lacks|]. apply path_escape_out in Hin as [Hs| ->]; [|revert Hc; lacks|by apply path_bytes].
  rewrite !elem_of_cons, elem_of_nil in Hc. by destruct_or?; subst.
Qed.

Lemma ParseRequestURI_path p : good_path p -> ParseRequestURI (47 :: path_escape (drop 1 p)) = inr (arrived p).
Proof.
  intros Hp. pose proof (path_lacks p 63 Hp ltac:(set_solver)) as Hq. unfold ParseRequestURI. rewrite !bool_decide_eq_false_2 by done.
  unfold getscheme. cbn [getscheme_from]. change (is_alpha 47) with false. change (is_digit 47 || one_of "+-." 47) with false.
  change (47 =? 58) with false. cbn [rbind default from_option fst snd]. unfold cut_query, split. rewrite cut_none by done.
  cbn [default from_option HasPrefix fst snd negb]. change (47 =? 47) with true. cbn [andb negb].
  rewrite bool_decide_eq_false_2 by (by intros H; apply H). cbn [andb].
  assert (E : unescape encodePath (47 :: path_escape (drop 1 p)) = r <~ unescape encodePath (path_escape (drop 1 p)) ;; inr (47 :: r)) by done.
  rewrite E, unescape_path_escape by (by apply path_bytes). cbn [rbind]. by destruct Hp as [->|(q & -> & _)].
Qed.

(** ** Requests *)

Section Messages.
Context (eof : goerr).

Definition agent (h : fields) : bytes := match h !! lit "User-Agent" with Some vs => hd [] vs | None => defaultUserAgent end.

Definition frame_line (body : bytes) : bytes * bytes :=
  if bool_decide (body = []) then (lit "Transfer-Encoding", lit "chunked")
  else (lit "Content-Length", Itoa (Z.of_nat (length body))).

Definition agent_line (h : fields) : list (bytes * bytes) :=
  if bool_decide (agent h = []) then [] else [(lit "User-Agent", agent h)].

Definition request_lines (host : bytes) (h : fields) (body : bytes) : list (bytes * bytes) :=
  [(lit "Host", host)] ++ agent_line h ++ [frame_line body] ++ pairs reqExclude h.

Definition body_text (body : bytes) : bytes := if bool_decide (body = []) then lit "0" ++ crlf ++ crlf else body.

Record good_request (host path : bytes) (h : fields) : Prop := {
  gr_host : cleanHost host <> [] /\ good_value (removeZone (cleanHost host));
  gr_path : good_path path;
  gr_header : sendable reqExclude h;
  gr_agent : good_value (agent h);
  gr_pragma : h !! lit "Pragma" = None
}.

Lemma Request_text host path h body :
  good_request host path h ->
  Request_Write host path h body = inr ((lit "POST " ++ (47 :: path_escape (drop 1 path)) ++ lit " HTTP/1.1") ++ crlf
    ++ concat (map line_text (request_lines (removeZone (cleanHost host)) h body)) ++ crlf ++ body_text body).
Proof.
  intros [[Hne _] Hp Hh _ _]. unfold Request_Write. rewrite bool_decide_eq_false_2, RequestURI_text, (WriteSubset_lines _ _ Hh) by done.
  fold (agent h). f_equal. unfold request_lines. rewrite !map_app, !concat_app. cbn [map concat]. rewrite !app_nil_r.
  assert (E1 : concat (map line_text (agent_line h)) = if bool_decide (agent h = []) then [] else lit "User-Agent: " ++ agent h ++ crlf).
  { unfold agent_line. case_bool_decide; [done|]. cbn [map concat]. by rewrite app_nil_r. }
  assert (E2 : line_text (frame_line body) =
    if bool_decide (body = []) then lit "Transfer-Encoding: chunked" ++ crlf else content_length body).
  { unfold frame_line. destruct (bool_decide (body = [])); reflexivity. }
  rewrite E1, E2. change (line_text (lit "Host", removeZone (cleanHost host))) with (lit "Host: " ++ removeZone (cleanHost host) ++ crlf).
  unfold body_text. by rewrite <- !app_assoc.
Qed.

(** What arrives besides what is kept. *)
Definition with_agent (h m : fields) : fields := if bool_decide (agent h = []) then m else <[lit "User-Agent" := [agent h]]> m.

Definition received (h : fields) (body : bytes) : fields :=
  kept reqExclude h ∪ (if bool_decide (body = []) then with_agent h ∅
    else <[lit "Content-Length" := [Itoa (Z.of_nat (length body))]]> (with_agent h ∅)).

Lemma kept_union_lookup exclude h m k : k ∈ exclude -> (kept exclude h ∪ m) !! k = m !! k.
Proof. intros Hk. rewrite lookup_union, kept_lookup, decide_True by done. by destruct (m !! k). Qed.

Lemma kept_union_other exclude h m k : k ∉ exclude -> m !! k = None -> (kept exclude h ∪ m) !! k = h !! k.
Proof. intros Hk Hm. rewrite lookup_union, kept_lookup, decide_False, Hm by done. by destruct (h !! k). Qed.

Lemma kept_union_delete exclude h m k : k ∈ exclude -> delete k (kept exclude h ∪ m) = kept exclude h ∪ delete k m.
Proof.
  intros Hk. rewrite delete_union. f_equal. apply delete_id. by rewrite kept_lookup, decide_True.
Qed.

Lemma excluded k : bool_decide (k ∈ reqExclude) = true -> k ∈ reqExclude.
Proof. apply bool_decide_eq_true_1. Qed.

Lemma head_keys host h body : exists ks, ((lit "Host", host) :: agent_line h ++ [frame_line body]).*1 = ks
  /\ NoDup ks /\ Forall (fun k => k ∈ reqExclude) ks.
Proof.
  eexists. split; [reflexivity|]. unfold agent_line, frame_line.
  destruct (bool_decide (agent h = [])), (bool_decide (body = [])); cbn [app fmap list_fmap fst];
    (split; [refine (bool_decide_eq_true_1 _ _)|refine (bool_decide_eq_true_1 _ _)]; vm_compute; reflexivity).
Qed.

Lemma request_lines_head host h body :
  request_lines host h body = ((lit "Host", host) :: agent_line h ++ [frame_line body]) ++ pairs reqExclude h.
Proof. unfold request_lines. cbn [app]. by rewrite <- app_assoc. Qed.

Lemma request_lines_NoDup host h body : NoDup (request_lines host h body).*1.
Proof.
  rewrite request_lines_head, fmap_app. destruct (head_keys host h body) as (ks & -> & Hn & Hin).
  apply NoDup_app. split; [done|]. split; [|apply pairs_NoDup]. intros k Hk. rewrite Forall_forall in Hin. apply Hin in Hk.
  rewrite pairs_keys, list_elem_of_filter. by intros [? _].
Qed.

Lemma Itoa_good n : 0 <= n -> good_value (Itoa n).
Proof.
  intros Hn. assert (Hd : forall c, c ∈ Itoa n -> 48 <= c <= 57).
  { intros c Hc%list_elem_of_In. pose proof (Itoa_digits n Hn) as H. rewrite forallb_forall in H. by apply H, between_spec in Hc. }
  split.
  - apply Forall_forall. intros c Hc%Hd. lia.
  - intros c E. assert (Hc : 48 <= c <= 57) by (apply Hd; destruct (Itoa n); [done|injection E as <-; by left]).
    unfold isASCIISpace, is_blank. rewrite !orb_false_iff, !Z.eqb_neq. lia.
  - intros c E. apply last_Some_elem_of, Hd in E. unfold isASCIISpace, is_blank. rewrite !orb_false_iff, !Z.eqb_neq. lia.
Qed.

Lemma frame_line_good body : good_line (frame_line body).
Proof.
  unfold frame_line. case_bool_decide; (split; cbn [fst snd]; [by apply check_key_ok|]).
  - by apply check_value_ok.
  - apply Itoa_good. lia.
Qed.

Lemma request_lines_good host path h body :
  good_request host path h -> Forall good_line (request_lines (removeZone (cleanHost host)) h body).
Proof.
  intros [[_ Hv] _ Hh Ha _]. unfold request_lines. apply Forall_cons. split; [split; [by apply check_key_ok|done]|].
  apply Forall_app. split.
  - unfold agent_line. case_bool_decide; [by apply Forall_nil|]. apply Forall_singleton. split; [by apply check_key_ok|done].
  - apply Forall_cons. split; [apply frame_line_good|by apply pairs_good].
Qed.

(** The lines that frame a request, without its host. *)
Lemma head_map host h body :
  delete (lit "Host") (lines_map ((lit "Host", host) :: agent_line h ++ [frame_line body]) ∅)
  = <[(frame_line body).1 := [(frame_line body).2]]> (with_agent h ∅).
Proof.
  assert (Hf : (frame_line body).1 <> lit "Host") by (unfold frame_line; by case_bool_decide).
  change (lines_map ((lit "Host", host) :: agent_line h ++ [frame_line body]) ∅)
    with (lines_map (agent_line h ++ [frame_line body]) (<[lit "Host" := [host]]> ∅)).
  rewrite lines_map_app. change (lines_map [frame_line body] ?m) with (<[(frame_line body).1 := [(frame_line body).2]]> m).
  rewrite delete_insert_ne by done. f_equal. unfold agent_line, with_agent. case_bool_decide.
  - change (lines_map [] ?m) with m. rewrite delete_insert_eq. by rewrite delete_empty.
  - change (lines_map [(lit "User-Agent", agent h)] ?m) with (<[lit "User-Agent" := [agent h]]> m).
    rewrite delete_insert_ne by done. by rewrite delete_insert_eq, delete_empty.
Qed.

Lemma with_agent_other h k : bool_decide (k = lit "User-Agent") = false -> with_agent h ∅ !! k = None.
Proof.
  intros Hk%bool_decide_eq_false_1. unfold with_agent. case_bool_decide; [done|]. by rewrite lookup_insert_ne.
Qed.

(** A key of the frame, in what has arrived. *)
Ltac in_frame := rewrite kept_union_lookup by (apply excluded; vm_compute; reflexivity);
  rewrite ?lookup_insert_ne by (refine (bool_decide_eq_false_1 _ _); vm_compute; reflexivity);
  rewrite ?with_agent_other by (vm_compute; reflexivity).

Definition frame_of (body : bytes) : framing :=
  if bool_decide (body = []) then FChunked else FLength (Z.of_nat (length body)).

Lemma trim_Itoa n : 0 <= n -> trim isASCIISpace (Itoa n) = Itoa n.
Proof. intros [_ Hf Hl]%Itoa_good. by apply trim_id. Qed.

Lemma Itoa_nonempty n : 0 <= n < 2 ^ 63 -> Itoa n <> [].
Proof. intros Hn E. pose proof (Atoi_Itoa n Hn) as H. by rewrite E in H. Qed.

Lemma readTransfer_request h body :
  Z.of_nat (length body) < 2 ^ 63 ->
  readTransfer false 200 (lit "POST") true (kept reqExclude h ∪ <[(frame_line body).1 := [(frame_line body).2]]> (with_agent h ∅))
  = inr (received h body, frame_of body).
Proof.
  intros Hb. unfold received, frame_of, frame_line. set (n := Z.of_nat (length body)) in *.
  destruct (bool_decide (body = [])) eqn:Eb; cbn [fst snd]; unfold readTransfer.
  - unfold fixTransferEncoding. in_frame. rewrite lookup_insert_eq. cbn [negb hd].
    change (count_chunked (Split 44 (lit "chunked"))) with (inr 1%nat : result nat). cbn [rbind Nat.ltb Nat.leb].
    rewrite kept_union_delete, delete_insert_id by ((apply excluded; vm_compute; reflexivity) || by apply with_agent_other).
    rewrite delete_id by (in_frame; done). unfold fixLength, values_of. in_frame. cbn [default length Nat.ltb Nat.leb andb].
    change (noResponseBodyExpected (lit "POST")) with false. change (bodyAllowedForStatus 200) with true. cbn [negb rbind].
    unfold fixTrailer. in_frame. done.
  - unfold fixTransferEncoding. in_frame. cbn [rbind].
    unfold fixLength, values_of. in_frame. rewrite lookup_insert_eq. cbn [default from_option id length Nat.ltb Nat.leb andb].
    change (noResponseBodyExpected (lit "POST")) with false. change (bodyAllowedForStatus 200) with true. cbn [negb].
    apply bool_decide_eq_false_1 in Eb. assert (0 < n) by (unfold n; destruct body; [done|cbn; lia]). cbv iota.
    rewrite trim_Itoa, bool_decide_eq_false_2 by (lia || apply Itoa_nonempty; lia). cbn [negb].
    unfold parseContentLength. rewrite Atoi_Itoa by lia. replace (n <? 0) with false by lia. cbn [rbind].
    unfold fixTrailer. in_frame. cbn [rbind]. by replace (n =? 0) with false by lia.
Qed.

Lemma ReadAll_frame body rest : ReadAll eof (frame_of body) (body_text body ++ rest) = (Ret body, rest).
Proof.
  unfold frame_of, body_text. case_bool_decide as Hb; [by subst|]. unfold ReadAll. rewrite length_app.
  rewrite (proj2 (Z.ltb_ge _ _)) by lia. by rewrite Nat2Z.id, take_app_length, drop_app_length.
Qed.

Lemma parseRequestLine_text uri : (32 ∉ uri) ->
  parseRequestLine (lit "POST " ++ uri ++ lit " HTTP/1.1") = Some (lit "POST", uri, lit "HTTP/1.1").
Proof.
  intros Hu. unfold parseRequestLine. change (lit "POST " ++ uri ++ lit " HTTP/1.1") with (lit "POST" ++ 32 :: uri ++ 32 :: lit "HTTP/1.1").
  rewrite cut_app by lacks. by rewrite cut_app.
Qed.

Lemma excluded_kept h m : h !! lit "Pragma" = None -> m !! lit "Pragma" = None ->
  fixPragmaCacheControl (kept reqExclude h ∪ m) = kept reqExclude h ∪ m.
Proof. intros Hh Hm. unfold fixPragmaCacheControl. by rewrite kept_union_other, Hh by (done || lacks). Qed.

Lemma request_reads host path h body rest :
  good_request host path h -> Z.of_nat (length body) < 2 ^ 63 ->
  exists text, Request_Write host path h body = inr text
    /\ ReadRequest eof (text ++ rest) = (Ret (mkRequest (lit "POST") (arrived path) (received h body), frame_of body), body_text body ++ rest).
Proof.
  intros Hg Hb. eexists. split; [by apply Request_text|]. destruct (Hg) as [[_ Hv] Hp Hh _ Hpr].
  set (ls := request_lines (removeZone (cleanHost host)) h body).
  assert (Hlf : 10 ∉ lit "POST " ++ (47 :: path_escape (drop 1 path)) ++ lit " HTTP/1.1").
  { rewrite !elem_of_app. intros [H|[H|H]]; [revert H; lacks| |revert H; lacks].
    revert H. apply path_lacks; [done|set_solver]. }
  assert (Hls : lines_map ls ∅ = kept reqExclude h ∪ lines_map ((lit "Host", removeZone (cleanHost host)) :: agent_line h ++ [frame_line body]) ∅).
  { unfold ls. by rewrite request_lines_head, lines_map_app, lines_map_pairs. }
  unfold ReadRequest, bind. rewrite <- (app_assoc _ _ rest), <- (app_assoc crlf), ReadLine_line by done.
  unfold in_message, on_err, bind, of_option. rewrite parseRequestLine_text by (apply path_lacks; [done|set_solver]). cbn [fst snd ret].
  unfold fail_if. change (bool_decide (lit "POST" = []) || negb (forallb is_token (lit "POST"))) with false. cbv iota.
  change (ParseHTTPVersion (lit "HTTP/1.1")) with (Some (1, 1)). unfold of_result.
  change (bool_decide (lit "POST" = lit "CONNECT")) with false. cbn [andb ret].
  rewrite ParseRequestURI_path by done. cbn [ret].
  rewrite <- (app_assoc _ _ rest), <- (app_assoc crlf), ReadMIMEHeader_lines by ((by eapply request_lines_good) || (by apply request_lines_NoDup)).
  fold ls. rewrite Hls, kept_union_delete by (apply excluded; vm_compute; reflexivity).
  rewrite head_map, excluded_kept, readTransfer_request; [done|done|done|].
  unfold frame_line. case_bool_decide; cbn [fst snd]; rewrite lookup_insert_ne by (intros E; discriminate E); by apply with_agent_other.
Qed.

(** ** Responses *)

(** The two that a socket writes. *)
Definition our_status (code : Z) (status : bytes) : Prop :=
  (code, status) ∈ [(200, lit "200 OK"); (500, lit "500 Internal Server Error")].

Record good_response (h : fields) : Prop := {
  gs_header : sendable respExclude h;
  gs_pragma : h !! lit "Pragma" = None;
  gs_connection : h !! lit "Connection" = None
}.

Definition length_line (body : bytes) : bytes * bytes := (lit "Content-Length", Itoa (Z.of_nat (length body))).

Definition response_lines (h : fields) (body : bytes) : list (bytes * bytes) :=
  if bool_decide (body = []) then pairs respExclude h ++ [length_line body] else length_line body :: pairs respExclude h.

Lemma Response_text code status h body :
  our_status code status -> sendable respExclude h ->
  Response_Write code status h body = (lit "HTTP/1.1 " ++ status) ++ crlf ++ concat (map line_text (response_lines h body)) ++ crlf ++ body.
Proof.
  intros Hs Hh. unfold Response_Write, response_lines. rewrite (WriteSubset_lines _ _ Hh).
  assert (E : lit "HTTP/1.1 " ++ Itoa code ++ [32] ++ (if HasPrefix status (Itoa code ++ [32]) then drop (length (Itoa code) + 1) status else status)
    = lit "HTTP/1.1 " ++ status).
  { unfold our_status in Hs. rewrite !elem_of_cons, elem_of_nil in Hs. destruct Hs as [[= -> ->]|[[= -> ->]|[]]]; vm_compute; reflexivity. }
  rewrite !app_assoc, <- (app_assoc (lit "HTTP/1.1 ") (Itoa code) [32]), <- (app_assoc _ _ (if HasPrefix _ _ then _ else _)), <- (app_assoc _ [32]), E, <- !app_assoc.
  case_bool_decide as Hb.
  - subst body. rewrite map_app, concat_app. cbn [map concat app]. by rewrite <- !app_assoc.
  - cbn [map concat app]. by rewrite <- !app_assoc.
Qed.

Definition answered (h : fields) (body : bytes) : fields :=
  kept respExclude h ∪ {[ lit "Content-Length" := [Itoa (Z.of_nat (length body))] ]}.

Definition response_frame (body : bytes) : framing :=
  if bool_decide (body = []) then FNone else FLength (Z.of_nat (length body)).

Lemma response_lines_perm h body : response_lines h body ≡ₚ length_line body :: pairs respExclude h.
Proof. unfold response_lines. case_bool_decide; [|done]. by rewrite Permutation_app_comm. Qed.

Lemma response_lines_NoDup h body : NoDup (response_lines h body).*1.
Proof.
  rewrite response_lines_perm. cbn [fmap list_fmap fst]. apply NoDup_cons. split; [|apply pairs_NoDup].
  rewrite pairs_keys, list_elem_of_filter. intros [H _]. apply H. refine (bool_decide_eq_true_1 _ _). vm_compute. reflexivity.
Qed.

Lemma response_lines_good h body : sendable respExclude h -> Forall good_line (response_lines h body).
Proof.
  intros Hh. rewrite response_lines_perm. apply Forall_cons. split; [|by apply pairs_good].
  split; [by apply check_key_ok|apply Itoa_good; lia].
Qed.

Lemma response_lines_map h body : sendable respExclude h -> lines_map (response_lines h body) ∅ = answered h body.
Proof.
  intros Hh. unfold response_lines, answered. case_bool_decide.
  - rewrite lines_map_app, lines_map_pairs by done. apply map_eq. intros k.
    change (lines_map [length_line body] ?m) with (<[(length_line body).1 := [(length_line body).2]]> m). cbn [fst snd length_line].
    rewrite right_id_L by apply _. destruct (decide (k = lit "Content-Length")) as [->|Hk].
    + rewrite lookup_insert_eq, lookup_union, kept_lookup, decide_True by (refine (bool_decide_eq_true_1 _ _); vm_compute; reflexivity).
      by rewrite left_id_L, lookup_singleton_eq by apply _.
    + rewrite lookup_insert_ne, lookup_union, lookup_singleton_ne by done. by destruct (kept respExclude h !! k).
  - change (lines_map (length_line body :: ?l) ∅) with (lines_map l {[ lit "Content-Length" := [Itoa (Z.of_nat (length body))] ]}).
    by apply lines_map_pairs.
Qed.

Lemma answered_length h body : answered h body !! lit "Content-Length" = Some [Itoa (Z.of_nat (length body))].
Proof.
  unfold answered. rewrite lookup_union, kept_lookup, decide_True by (refine (bool_decide_eq_true_1 _ _); vm_compute; reflexivity).
  by rewrite left_id_L, lookup_singleton_eq by apply _.
Qed.

Lemma answered_frame h body k : k ∈ map lit ["Transfer-Encoding"; "Trailer"]%string -> answered h body !! k = None.
Proof.
  intros Hk. unfold answered. rewrite lookup_union, kept_lookup, decide_True.
  - rewrite left_id_L, lookup_singleton_ne; [done| |apply _]. intros <-. revert Hk. lacks.
  - unfold respExclude. cbn [map] in *. rewrite !elem_of_cons in *. tauto.
Qed.

Lemma readTransfer_response code status method h body :
  our_status code status -> noResponseBodyExpected method = false -> Z.of_nat (length body) < 2 ^ 63 ->
  readTransfer true code method true (answered h body) = inr (answered h body, response_frame body).
Proof.
  intros Hs Hm Hb. assert (Hst : bodyAllowedForStatus code = true).
  { unfold our_status in Hs. rewrite !elem_of_cons, elem_of_nil in Hs. by destruct Hs as [[= -> ->]|[[= -> ->]|[]]]. }
  unfold readTransfer, fixTransferEncoding. rewrite answered_frame by (by left). cbn [rbind].
  unfold fixLength, values_of. rewrite answered_length. cbn [default from_option id length Nat.ltb Nat.leb andb].
  rewrite Hm, Hst. cbn [negb]. rewrite trim_Itoa, bool_decide_eq_false_2 by (lia || apply Itoa_nonempty; lia). cbn [negb].
  unfold parseContentLength. rewrite Atoi_Itoa by lia. rewrite (proj2 (Z.ltb_ge _ _)) by lia. cbn [rbind].
  unfold fixTrailer. rewrite answered_frame by (by right; left). cbn [rbind]. unfold response_frame. case_bool_decide as Hb0.
  - by subst.
  - rewrite (proj2 (Z.eqb_neq _ _)); [done|]. destruct body; [done|cbn; lia].
Qed.

Lemma response_reads code status method h body rest :
  our_status code status -> good_response h -> noResponseBodyExpected method = false -> Z.of_nat (length body) < 2 ^ 63 ->
  ReadResponse eof method (Response_Write code status h body ++ rest)
  = (Ret (mkResponse code status (answered h body), response_frame body), body ++ rest).
Proof.
  intros Hs [Hh Hp Hc] Hm Hb. rewrite Response_text by done.
  assert (Hst : (10 ∉ lit "HTTP/1.1 " ++ status) /\ cut 32 (lit "HTTP/1.1 " ++ status) = Some (lit "HTTP/1.1", status)
    /\ trim_left (Z.eqb 32) status = status
    /\ exists c, default status (fst <$> cut 32 status) = c /\ length c = 3%nat /\ Atoi c = Some code /\ (code <? 0) = false).
  { unfold our_status in Hs. rewrite !elem_of_cons, elem_of_nil in Hs.
    destruct Hs as [[= -> ->]|[[= -> ->]|[]]]; (split; [lacks|]); (split; [vm_compute; reflexivity|]); (split; [vm_compute; reflexivity|]);
      (eexists; split; [vm_compute; reflexivity|]); vm_compute; done. }
  destruct Hst as (Hlf & Hcut & Htr & c & Hd & Hl & Ha & Hneg).
  unfold ReadResponse, in_message, on_err, bind. rewrite <- (app_assoc _ _ rest), <- (app_assoc crlf), ReadLine_line by done.
  rewrite Hcut. cbn [of_option ret fst snd]. rewrite Htr, Hd. unfold fail_if. rewrite Hl. cbn [Nat.eqb negb]. rewrite Ha. cbn [of_option ret].
  rewrite Hneg. change (ParseHTTPVersion (lit "HTTP/1.1")) with (Some (1, 1)). cbn [of_option ret].
  rewrite <- (app_assoc _ _ rest), <- (app_assoc crlf), ReadMIMEHeader_lines by ((by apply response_lines_good) || (by apply response_lines_NoDup)).
  rewrite response_lines_map by done.
  assert (Ho : forall k, (k ∉ respExclude) -> answered h body !! k = h !! k).
  { intros k Hk. unfold answered. apply kept_union_other; [done|]. rewrite lookup_singleton_ne; [done|]. intros <-. apply Hk.
    refine (bool_decide_eq_true_1 _ _). vm_compute. reflexivity. }
  unfold fixPragmaCacheControl. rewrite Ho, Hp by lacks. unfold without_close. cbn [fst]. change (1 <? 1) with false.
  rewrite bool_decide_eq_false_2 by done. cbn [orb]. unfold values_of at 1. rewrite Ho, Hc by lacks. cbn [default from_option contains_token existsb].
  unfold at_least_11. cbn [fst snd]. change ((1 <? 1) || ((1 =? 1) && (1 <=? 1))) with true.
  by rewrite (readTransfer_response _ status).
Qed.

Lemma ReadAll_response body rest : ReadAll eof (response_frame body) (body ++ rest) = (Ret body, rest).
Proof.
  unfold response_frame. case_bool_decide as Hb; [by subst|]. unfold ReadAll. rewrite length_app.
  rewrite (proj2 (Z.ltb_ge _ _)) by lia. by rewrite Nat2Z.id, take_app_length, drop_app_length.
Qed.

End Messages.
