(* ===== verification/HttpEnds.v ===== *)
(** * Reading ends

    Every reader of [Http] returns on every input, with a value or an error and
    without a panic, leaves no more than was there, and takes something off if it
    returns a value: the fuel of its loops is enough. *)
From S2P Require Import Prelude.
From S2P Require Import Registry Url Common Http.

(** [m] returns in [s], and has taken [k] bytes if it has a value. *)
Definition takes {A} (k : nat) (m : ST bytes A) (s : bytes) : Prop :=
  match m s with
  | (Ret _, s') => (length s' + k <= length s)%nat
  | (Fail _, s') => (length s' <= length s)%nat
  | _ => False
  end.

Lemma takes_bind {A B} k j (m : ST bytes A) (f : A -> ST bytes B) s :
  takes k m s -> (forall a s', (length s' + k <= length s)%nat -> takes j (f a) s') -> takes (k + j) (bind m f) s.
Proof.
  unfold takes, bind. destruct (m s) as [[a|e| |] s'] eqn:E; try done. intros Hk Hf. specialize (Hf a s' Hk).
  destruct (f a s') as [[b|e| |] s'']; try done; lia.
Qed.

Lemma takes_then {A B} k (m : ST bytes A) (f : A -> ST bytes B) s :
  takes k m s -> (forall a s', (length s' + k <= length s)%nat -> takes 0 (f a) s') -> takes k (bind m f) s.
Proof. intros Hm Hf. rewrite <- (Nat.add_0_r k). by apply takes_bind. Qed.

Lemma takes_ret {A} (a : A) s : takes 0 (ret a) s.
Proof. unfold takes, ret. lia. Qed.

Lemma takes_fail {A} k e s : takes k (fail e : ST bytes A) s.
Proof. unfold takes, fail. lia. Qed.

Lemma takes_less {A} k j (m : ST bytes A) s : (j <= k)%nat -> takes k m s -> takes j m s.
Proof. unfold takes. destruct (m s) as [[a|e| |] s']; lia. Qed.

Lemma takes_of_option {A} (o : option A) e s : takes 0 (of_option o e) s.
Proof. destruct o; [apply takes_ret|apply takes_fail]. Qed.

Lemma takes_of_result {A} (r : result A) s : takes 0 (of_result r) s.
Proof. destruct r; [apply takes_fail|apply takes_ret]. Qed.

Lemma takes_fail_if {A} b e (m : ST bytes A) s : takes 0 m s -> takes 0 (fail_if b e m) s.
Proof. destruct b; [intros _; apply takes_fail|done]. Qed.

Lemma takes_in_message {A} k (m : ST bytes A) s : takes k m s -> takes k (in_message m) s.
Proof. unfold takes, in_message, on_err, fail. by destruct (m s) as [[a|e| |] s']. Qed.

Lemma cut_length c s a b : cut c s = Some (a, b) -> (length s = length a + S (length b))%nat.
Proof.
  revert a b. induction s as [|x s IH]; intros a b; cbn; [done|]. destruct (x =? c); [by intros [= <- <-]|].
  destruct (cut c s) as [[a' b']|]; [|done]. intros [= <- <-]. cbn. rewrite (IH a' b') by done. lia.
Qed.

Lemma trim_left_length f s : (length (trim_left f s) <= length s)%nat.
Proof. induction s as [|c s IH]; cbn; [done|]. destruct (f c); cbn; lia. Qed.

Section Ends.
Context (eof : goerr).

Lemma ReadLine_reads s : takes 1 (ReadLine eof) s.
Proof.
  unfold takes, ReadLine. destruct (cut 10 s) as [[a b]|] eqn:E.
  - apply cut_length in E. lia.
  - case_bool_decide; [cbn; lia|]. destruct s; [done|cbn; lia].
Qed.

Lemma continued_reads fuel : forall acc s, (length s < fuel)%nat -> takes 0 (continued eof fuel acc) s.
Proof.
  induction fuel as [|fuel IH]; intros acc s Hf; [lia|]. unfold takes. cbn [continued]. destruct s as [|c s]; [cbn; lia|].
  destruct (is_blank c); [|lia]. pose proof (ReadLine_reads (trim_left is_blank (c :: s))) as Hr. unfold takes in Hr.
  pose proof (trim_left_length is_blank (c :: s)) as Ht.
  destruct (ReadLine eof (trim_left is_blank (c :: s))) as [[line|e| |] s']; try done; [|lia].
  specialize (IH (acc ++ 32 :: trim is_blank line) s' ltac:(lia)). unfold takes in IH.
  destruct (continued eof fuel _ s') as [[a|e| |] s'']; try done; lia.
Qed.

Lemma readContinuedLine_reads s : takes 1 (readContinuedLine eof) s.
Proof.
  unfold takes, readContinuedLine. pose proof (ReadLine_reads s) as Hr. unfold takes in Hr.
  destruct (ReadLine eof s) as [[[|c line]|e| |] s']; try done.
  pose proof (continued_reads (S (length s')) (trim is_blank (c :: line)) s' ltac:(lia)) as Hc. unfold takes in Hc.
  destruct (continued eof _ _ s') as [[a|e| |] s'']; try done; lia.
Qed.

Lemma mime_loop_reads fuel : forall m s, (length s < fuel)%nat -> takes 1 (mime_loop eof fuel m) s.
Proof.
  induction fuel as [|fuel IH]; intros m s Hf; [lia|]. unfold takes. cbn [mime_loop]. pose proof (readContinuedLine_reads s) as Hr. unfold takes in Hr.
  destruct (readContinuedLine eof s) as [[[|c kv]|e| |] s']; try done. destruct (add_line (c :: kv) m) as [m'|]; [|lia].
  specialize (IH m' s' ltac:(lia)). unfold takes in IH. destruct (mime_loop eof fuel m' s') as [[a|e| |] s'']; try done; lia.
Qed.

Lemma ReadMIMEHeader_reads s : takes 1 (ReadMIMEHeader eof) s.
Proof.
  unfold takes, ReadMIMEHeader. destruct s as [|c s]; [by apply (mime_loop_reads 1 ∅ []); cbn; lia|]. destruct (is_blank c).
  - pose proof (ReadLine_reads (c :: s)) as Hr. unfold takes in Hr. destruct (ReadLine eof (c :: s)) as [[a|e| |] s']; try done. lia.
  - apply mime_loop_reads. lia.
Qed.

Lemma ReadRequest_reads s : takes 1 (ReadRequest eof) s.
Proof.
  unfold ReadRequest. apply takes_then; [apply ReadLine_reads|]. intros line s1 _. apply takes_in_message.
  apply takes_then; [apply takes_of_option|]. intros [[method uri] proto] s2 _. apply takes_fail_if.
  apply takes_then; [apply takes_of_option|]. intros version s3 _.
  apply takes_then; [apply takes_of_result|]. intros path s4 _.
  apply takes_then; [eapply takes_less; [|apply ReadMIMEHeader_reads]; lia|]. intros h s5 _.
  apply takes_then; [apply takes_of_result|]. intros t s6 _. apply takes_ret.
Qed.

Lemma ReadResponse_reads method s : takes 1 (ReadResponse eof method) s.
Proof.
  unfold ReadResponse. apply takes_in_message. apply takes_then; [apply ReadLine_reads|]. intros line s1 _.
  apply takes_then; [apply takes_of_option|]. intros ps s2 _. apply takes_fail_if.
  apply takes_then; [apply takes_of_option|]. intros n s3 _. apply takes_fail_if.
  apply takes_then; [apply takes_of_option|]. intros version s4 _.
  apply takes_then; [eapply takes_less; [|apply ReadMIMEHeader_reads]; lia|]. intros h s5 _.
  apply takes_then; [apply takes_of_result|]. intros t s6 _. apply takes_ret.
Qed.

Lemma readTrailer_reads s : takes 0 (readTrailer eof) s.
Proof.
  unfold takes, readTrailer. destruct (HasPrefix s crlf); [rewrite length_drop; lia|]. destruct (length s <? 2)%nat; [lia|].
  destruct (double_crlf (take 4096 s)); cbn [negb]; [|lia].
  pose proof (ReadMIMEHeader_reads s) as Hr. unfold takes in Hr. destruct (ReadMIMEHeader eof s) as [[a|e| |] s']; try done; lia.
Qed.

Lemma readChunkLine_reads s : takes 1 (readChunkLine eof) s.
Proof.
  unfold takes, readChunkLine. destruct (cut 10 s) as [[a b]|] eqn:E.
  - apply cut_length in E. destruct (maxLineLength <=? S (length a))%nat; lia.
  - destruct (maxLineLength <=? length s)%nat; [rewrite length_drop; lia|cbn; lia].
Qed.

Lemma read_chunks_reads fuel : forall acc s, (length s < fuel)%nat -> takes 0 (read_chunks eof fuel acc) s.
Proof.
  induction fuel as [|fuel IH]; intros acc s Hf; [lia|]. unfold takes. cbn [read_chunks]. pose proof (readChunkLine_reads s) as Hr. unfold takes in Hr.
  destruct (readChunkLine eof s) as [[line|e| |] s1]; try done. destruct (parseHexUint line) as [n|]; [|lia]. destruct (n =? 0).
  - pose proof (readTrailer_reads s1) as Ht. unfold takes in Ht. destruct (readTrailer eof s1) as [[a|e| |] s2]; try done; lia.
  - destruct (Z.of_nat (length s1) <? n + 2); [cbn; lia|]. destruct (HasPrefix _ _); [|rewrite !length_drop; lia].
    specialize (IH (acc ++ take (Z.to_nat n) s1) (drop 2 (drop (Z.to_nat n) s1))). rewrite !length_drop in IH. specialize (IH ltac:(lia)).
    unfold takes in IH. rewrite !length_drop in IH. destruct (read_chunks eof fuel _ _) as [[a|e| |] s2]; try done; lia.
Qed.

Lemma ReadAll_reads f s : takes 0 (ReadAll eof f) s.
Proof.
  destruct f as [|n| |]; unfold takes; cbn [ReadAll].
  - lia.
  - destruct (_ <? n); [cbn; lia|]. rewrite length_drop. lia.
  - apply read_chunks_reads. lia.
  - case_bool_decide; cbn; lia.
Qed.

End Ends.
