(* ===== verification/Net.v ===== *)
(** * Connections and addresses

    [common/net.go]: time limits of connections, and the local address that a
    provider announces; with what it uses of Go's [net], and with a TCP connection
    as the transports see it. *)
From S2P Require Import Prelude.
From S2P Require Import Registry Url Common.

(** ** Connections

    What the peer will have sent, in the pieces that a read finds, and what a
    read answers after that; what was sent; after how many bytes a write fails. *)
Record net_conn := mkNetConn {
  nc_in : list bytes;
  nc_end : goerr;
  nc_out : bytes;
  nc_limit : option (nat * goerr);
  nc_read_deadline : option Z;
  nc_write_deadline : option Z;
  nc_closed : nat
}.

Definition errClosing : goerr := Errorf "use of closed network connection".

Definition set_in (ps : list bytes) (c : net_conn) : net_conn :=
  mkNetConn ps (nc_end c) (nc_out c) (nc_limit c) (nc_read_deadline c) (nc_write_deadline c) (nc_closed c).

(** [conn.SetReadDeadline(t)]: [None] is the zero time. *)
Definition SetReadDeadline (t : option Z) (c : net_conn) : net_conn :=
  mkNetConn (nc_in c) (nc_end c) (nc_out c) (nc_limit c) t (nc_write_deadline c) (nc_closed c).

(** [conn.Read(buf)]: one piece at a time, as far as the buffer goes; no more is
    asked of the peer for an empty one. *)
Definition net_Read (n : nat) : ST net_conn bytes := fun c =>
  if (0 <? nc_closed c)%nat then (Fail errClosing, c)
  else if (n =? 0)%nat then (Ret [], c)
  else match nc_in c with
       | [] => (Fail (nc_end c), c)
       | p :: ps => (Ret (take n p), set_in (match drop n p with [] => ps | q => q :: ps end) c)
       end.

(** [conn.Write(b)]: how much was written is told with the error. *)
Definition net_Write (b : bytes) : ST net_conn unit := fun c =>
  if (0 <? nc_closed c)%nat then (Fail errClosing, c)
  else
    match nc_limit c with
    | None => (Ret tt, mkNetConn (nc_in c) (nc_end c) (nc_out c ++ b) None (nc_read_deadline c) (nc_write_deadline c) (nc_closed c))
    | Some (k, e) =>
        (if (length b <=? k)%nat then Ret tt else Fail e,
         mkNetConn (nc_in c) (nc_end c) (nc_out c ++ take k b) (Some ((k - length b)%nat, e))
           (nc_read_deadline c) (nc_write_deadline c) (nc_closed c))
    end.

Definition net_Close : ST net_conn unit := fun c =>
  (if (0 <? nc_closed c)%nat then Fail errClosing else Ret tt,
   mkNetConn (nc_in c) (nc_end c) (nc_out c) (nc_limit c) (nc_read_deadline c) (nc_write_deadline c) (S (nc_closed c))).

(** A reader over all that will come, as a [bufio.Reader] shows it. *)
Definition on_stream {X} (f : goerr -> ST bytes X) : ST net_conn X := fun c =>
  if (0 <? nc_closed c)%nat then let '(o, _) := f errClosing [] in (o, c)
  else let '(o, s) := f (nc_end c) (concat (nc_in c)) in (o, set_in (match s with [] => [] | _ => [s] end) c).

(** [SetNetConnTimeout]; [now] is the time. *)
Definition SetNetConnTimeout (now timeout : Z) (c : net_conn) : net_conn :=
  SetReadDeadline (if 0 <? timeout then Some (now + timeout) else None) c.

(** A piece of work under a time limit, if there is one: the limit is taken off
    in the end, also of a panic. *)
Definition with_timeout {X} (now timeout : Z) (m : ST net_conn X) : ST net_conn X := fun c =>
  if 0 <? timeout then let '(o, c) := m (SetNetConnTimeout now timeout c) in (o, SetNetConnTimeout now 0 c)
  else m c.

(** ** Addresses *)

(** [net.IP]: four bytes, or sixteen. *)
Definition IP_To4 (ip : bytes) : option bytes :=
  if (length ip =? 4)%nat then Some ip
  else if (length ip =? 16)%nat && bool_decide (take 12 ip = repeat 0 10 ++ [0xff; 0xff]) then Some (drop 12 ip)
  else None.

Definition IPv4 (p : bytes) : bytes := repeat 0 10 ++ [0xff; 0xff] ++ p.

Definition IsLoopback (ip : bytes) : bool :=
  match IP_To4 ip with
  | Some p => hd 0 p =? 127
  | None => bool_decide (ip = repeat 0 15 ++ [1])
  end.

(** [IP.String] of an address of four bytes. *)
Definition dotted (p : bytes) : bytes := Join 46 (map Itoa p).

Definition big : Z := 0xFFFFFF.

(** [dtoi]: the number, what follows it, and whether there is one. *)
Fixpoint dtoi_from (n : Z) (s : bytes) : Z * bytes * bool :=
  match s with
  | c :: t =>
      if is_digit c then
        let n := n * 10 + (c - 48) in
        if big <=? n then (big, s, false) else dtoi_from n t
      else (n, s, true)
  | [] => (n, [], true)
  end.

Definition dtoi (s : bytes) : Z * bytes * bool :=
  match s with
  | c :: _ => if is_digit c then dtoi_from 0 s else (0, s, false)
  | [] => (0, [], false)
  end.

(** The bytes that are left of an address, each but the first after a dot. *)
Fixpoint parse_bytes (k : nat) (first : bool) (s : bytes) : option bytes :=
  match k with
  | O => if bool_decide (s = []) then Some [] else None
  | S k =>
      let s' := if first then Some s else match s with 46 :: t => Some t | _ => None end in
      match s' with
      | None => None
      | Some s =>
          let '(n, rest, ok) := dtoi s in
          if negb ok || (0xff <? n) then None
          else p ← parse_bytes k false rest; Some (n :: p)
      end
  end.

(** [ParseIP]; texts of IPv6 addresses are not asked for. *)
Definition ParseIP (s : bytes) : option bytes := IPv4 <$> parse_bytes 4 true s.

Record IPNet := mkIPNet { ipnet_IP : bytes; ipnet_Mask : bytes }.

(** [CIDRMask(n, 32)]. *)
Definition CIDRMask (n : Z) : bytes :=
  map (fun i => u8 (Z.shiftl 0xff (8 - Z.max 0 (Z.min 8 (n - 8 * i))))) [0; 1; 2; 3].

Definition ip_Mask (p m : bytes) : bytes := zip_with Z.land p m.

(** [ParseCIDR] of an IPv4 block. *)
Definition ParseCIDR (s : bytes) : option IPNet :=
  match cut 47 s with
  | None => None
  | Some (addr, mask) =>
      match parse_bytes 4 true addr, dtoi mask with
      | Some p, (n, [], true) => if n <=? 32 then Some (mkIPNet (ip_Mask p (CIDRMask n)) (CIDRMask n)) else None
      | _, _ => None
      end
  end.

Definition ipnet_Contains (n : IPNet) (ip : bytes) : bool :=
  let ip := default ip (IP_To4 ip) in
  (length ip =? length (ipnet_IP n))%nat
    && bool_decide (ip_Mask (ipnet_IP n) (ipnet_Mask n) = ip_Mask ip (ipnet_Mask n)).

(** The package's variable, as [init] leaves it. *)
Definition privateBlocks : list IPNet :=
  omap (fun b => ParseCIDR (lit b)) ["10.0.0.0/8"; "172.16.0.0/12"; "192.168.0.0/16"]%string.

Definition isPrivateIP (ipAddr : bytes) : bool :=
  let ip := default [] (ParseIP ipAddr) in existsb (fun priv => ipnet_Contains priv ip) privateBlocks.

(** What [net.InterfaceAddrs] lists. *)
Inductive interface_addr := AddrIP (ip : bytes) | AddrNet (ip : bytes) | AddrOther.

Fixpoint first_private (addrs : list interface_addr) : option bytes :=
  match addrs with
  | [] => None
  | (AddrIP ip | AddrNet ip) :: addrs =>
      if IsLoopback ip then first_private addrs
      else match IP_To4 ip with
           | None => first_private addrs
           | Some p => if negb (isPrivateIP (dotted p)) then first_private addrs else Some (dotted p)
           end
  | AddrOther :: addrs => first_private addrs
  end.

Definition GetLocalIP (addr : bytes) (interfaces : result (list interface_addr)) : result bytes :=
  if (0 <? length addr)%nat && (negb (bool_decide (addr = lit "0.0.0.0")) && negb (bool_decide (addr = lit "[::]"))) then inr addr
  else
    match interfaces with
    | inl err => inl (Errorf "Failed to get interface addresses! Err: %v")
    | inr addrs =>
        match first_private addrs with
        | None => inl (Errorf "No private IP address found, and explicit IP not provided")
        | Some s => inr s
        end
    end.

(** ** Lemmas *)

Lemma dtoi_digits ds : forall n rest,
  Forall (fun c => is_digit c = true) ds -> (forall c, head rest = Some c -> is_digit c = false) -> 0 <= n ->
  fold_left (fun n b => 10 * n + (b - 48)) ds n < big ->
  dtoi_from n (ds ++ rest) = (fold_left (fun n b => 10 * n + (b - 48)) ds n, rest, true).
Proof.
  assert (Hge : forall ds n, Forall (fun c => is_digit c = true) ds -> 0 <= n -> n <= fold_left (fun n b => 10 * n + (b - 48)) ds n).
  { clear. induction ds as [|c ds IH]; intros n Hd Hn; [done|]. apply Forall_cons in Hd as [Hc Hd]. apply between_spec in Hc.
    cbn. specialize (IH (10 * n + (c - 48)) Hd). lia. }
  induction ds as [|c ds IH]; intros n rest Hd Hr Hn Hb.
  - destruct rest as [|c rest]; [done|]. cbn. by rewrite Hr.
  - apply Forall_cons in Hd as [Hc Hd]. cbn [app dtoi_from fold_left] in *. rewrite Hc. apply between_spec in Hc.
    pose proof (Hge ds (10 * n + (c - 48)) Hd ltac:(lia)). replace (n * 10 + (c - 48)) with (10 * n + (c - 48)) by lia.
    replace (big <=? 10 * n + (c - 48)) with false by lia. apply IH; [done|done|lia|done].
Qed.

Lemma dtoi_Itoa n rest : is_byte n -> (forall c, head rest = Some c -> is_digit c = false) -> dtoi (Itoa n ++ rest) = (n, rest, true).
Proof.
  intros Hn Hr. unfold is_byte in Hn. pose proof (Itoa_digits n ltac:(lia)) as Hd. pose proof (ParseUint_Itoa n ltac:(lia)) as E.
  unfold ParseUint in E. rewrite Hd in E. unfold dtoi. destruct (Itoa n) as [|c ds] eqn:Ei; [done|].
  cbn [length Nat.eqb orb negb] in E. destruct (digits_value (c :: ds) <? 2 ^ 64); [|done]. injection E as E. unfold digits_value in E.
  cbn [app]. cbn [forallb] in Hd. apply andb_true_iff in Hd as [Hc Hds]. rewrite Hc.
  change (c :: ds ++ rest) with ((c :: ds) ++ rest). rewrite dtoi_digits; [by rewrite E| |done|done|rewrite E; unfold big; lia].
  apply Forall_cons. split; [done|]. apply Forall_forall. intros d Hin. rewrite forallb_forall in Hds. by apply Hds, list_elem_of_In.
Qed.

Lemma parse_dotted a b c d : Forall is_byte [a; b; c; d] -> ParseIP (dotted [a; b; c; d]) = Some (IPv4 [a; b; c; d]).
Proof.
  intros [Ha [Hb [Hc [Hd _]%Forall_cons]%Forall_cons]%Forall_cons]%Forall_cons. unfold ParseIP, dotted. cbn [map Join parse_bytes].
  assert (Hdot : forall s c, head (46 :: s) = Some c -> is_digit c = false) by (by intros s ? [= <-]).
  assert (Hle : forall n, is_byte n -> (negb true || (0xff <? n)) = false) by (intros n Hn; unfold is_byte in Hn; cbn; lia).
  rewrite dtoi_Itoa, Hle by (done || apply Hdot). rewrite dtoi_Itoa, Hle by (done || apply Hdot).
  rewrite dtoi_Itoa, Hle by (done || apply Hdot). rewrite <- (app_nil_r (Itoa d)). rewrite dtoi_Itoa, Hle by done. done.
Qed.

(** *** The private ranges *)

(** An IPv4 address as a number, and the ranges that are private. *)
Definition number (p : bytes) : Z := fold_left (fun n b => 256 * n + b) p 0.

Definition address (a b c d : Z) : Z := number [a; b; c; d].

Definition private (p : bytes) : bool :=
  between (address 10 0 0 0) (address 10 255 255 255) (number p)
    || between (address 172 16 0 0) (address 172 31 255 255) (number p)
    || between (address 192 168 0 0) (address 192 168 255 255) (number p).

(** The IPv4 address of an interface. *)
Definition ip4_of (a : interface_addr) : option bytes :=
  match a with AddrIP ip | AddrNet ip => IP_To4 ip | AddrOther => None end.

Definition ip_bytes (a : interface_addr) : Prop :=
  match a with AddrIP ip | AddrNet ip => Forall is_byte ip | AddrOther => True end.

(** A test of a byte's high bits. *)
Lemma masked_byte (m v : Z) (test : Z -> bool) b :
  forallb (fun n => eqb (v =? Z.land (Z.of_nat n) m) (test (Z.of_nat n))) (seq 0 256) = true ->
  is_byte b -> (v =? Z.land b m) = test b.
Proof.
  intros H Hb. unfold is_byte in Hb. rewrite forallb_forall in H. specialize (H (Z.to_nat b)). rewrite in_seq in H.
  rewrite Z2Nat.id in H by lia. apply eqb_prop, H. lia.
Qed.

Lemma private_blocks a b c d : Forall is_byte [a; b; c; d] ->
  existsb (fun priv => ipnet_Contains priv (IPv4 [a; b; c; d])) privateBlocks = private [a; b; c; d].
Proof.
  intros [Ha [Hb [Hc [Hd _]%Forall_cons]%Forall_cons]%Forall_cons]%Forall_cons.
  assert (E : privateBlocks = [mkIPNet [10; 0; 0; 0] [255; 0; 0; 0]; mkIPNet [172; 16; 0; 0] [255; 240; 0; 0];
    mkIPNet [192; 168; 0; 0] [255; 255; 0; 0]]) by (vm_compute; reflexivity).
  assert (Hm : forall x1 x2 x3 x4 m1 m2 m3 m4, ipnet_Contains (mkIPNet [x1; x2; x3; x4] [m1; m2; m3; m4]) (IPv4 [a; b; c; d])
    = (Z.land x1 m1 =? Z.land a m1) && (Z.land x2 m2 =? Z.land b m2) && (Z.land x3 m3 =? Z.land c m3) && (Z.land x4 m4 =? Z.land d m4)).
  { intros. unfold ipnet_Contains. change (IP_To4 (IPv4 [a; b; c; d])) with (Some [a; b; c; d]). cbn [default from_option id length Nat.eqb ipnet_IP ipnet_Mask].
    unfold ip_Mask. cbn [zip_with]. rewrite andb_true_l. apply eq_true_iff_eq. rewrite bool_decide_eq_true, !andb_true_iff, !Z.eqb_eq.
    split; [by intros [= -> -> -> ->]|by intros [[[-> ->] ->] ->]]. }
  rewrite E. cbn [existsb]. rewrite !Hm, orb_false_r, !Z.land_0_r, Z.eqb_refl, !andb_true_r.
  change (Z.land 10 255) with 10. change (Z.land 172 255) with 172. change (Z.land 192 255) with 192. change (Z.land 168 255) with 168.
  change (Z.land 16 240) with 16.
  rewrite !(masked_byte 255 _ (Z.eqb 10)), !(masked_byte 255 _ (Z.eqb 172)), !(masked_byte 255 _ (Z.eqb 192)), !(masked_byte 255 _ (Z.eqb 168)),
    !(masked_byte 240 _ (between 16 31)) by ((vm_compute; reflexivity) || done).
  unfold private, address, number, between. cbn [fold_left]. unfold is_byte in *. apply eq_true_iff_eq.
  rewrite !orb_true_iff, !andb_true_iff, !Z.eqb_eq, !Z.leb_le. lia.
Qed.

Lemma To4_four ip p : Forall is_byte ip -> IP_To4 ip = Some p -> exists a b c d, p = [a; b; c; d] /\ Forall is_byte [a; b; c; d].
Proof.
  intros Hb. unfold IP_To4. destruct (length ip =? 4)%nat eqn:E.
  - intros [= <-]. apply Nat.eqb_eq in E. destruct ip as [|a [|b [|c [|d [|? ?]]]]]; try done. by exists a, b, c, d.
  - destruct (length ip =? 16)%nat eqn:E16; [|done]. apply Nat.eqb_eq in E16. cbn [andb]. case_bool_decide; [|done]. intros [= <-].
    assert (Hl : length (drop 12 ip) = 4%nat) by (rewrite length_drop; lia). pose proof (Forall_drop _ 12 _ Hb) as Hd.
    destruct (drop 12 ip) as [|a [|b [|c [|d [|? ?]]]]]; try done. by exists a, b, c, d.
Qed.

Lemma isPrivateIP_private ip p : Forall is_byte ip -> IP_To4 ip = Some p -> isPrivateIP (dotted p) = private p.
Proof.
  intros Hb (a & b & c & d & -> & Hp)%To4_four; [|done]. unfold isPrivateIP. rewrite parse_dotted by done.
  by apply private_blocks.
Qed.

(** A loopback address is not private, so the test for it decides nothing. *)
Lemma loopback_not_private ip p : Forall is_byte ip -> IP_To4 ip = Some p -> IsLoopback ip = true -> private p = false.
Proof.
  intros Hb H4 Hl. destruct (To4_four ip p Hb H4) as (a & b & c & d & -> & Hp). unfold IsLoopback in Hl. rewrite H4 in Hl. cbn in Hl.
  apply Z.eqb_eq in Hl as ->. apply Forall_cons in Hp as [_ [Hb' [Hc [Hd _]%Forall_cons]%Forall_cons]%Forall_cons].
  unfold private, address, number, between. cbn [fold_left]. unfold is_byte in *. rewrite !orb_false_iff, !andb_false_iff, !Z.leb_gt. lia.
Qed.

(** C39. The address that a provider announces when it is configured with none, or
    with one that stands for all, is the first of the interfaces' IPv4 addresses
    in the ranges 10.0.0.0/8, 172.16.0.0/12 and 192.168.0.0/16, taken as
    numbers; without one there is an error.  Any other address is kept. *)
Theorem GetLocalIP_private addr addrs :
  Forall ip_bytes addrs ->
  GetLocalIP addr (inr addrs) =
    if bool_decide (addr ∈ [[]; lit "0.0.0.0"; lit "[::]"]) then
      match head (filter (fun p => private p = true) (omap ip4_of addrs)) with
      | Some p => inr (dotted p)
      | None => inl (Errorf "No private IP address found, and explicit IP not provided")
      end
    else inr addr.
Proof.
  intros Hb. unfold GetLocalIP.
  assert (Ha : (0 <? length addr)%nat && (negb (bool_decide (addr = lit "0.0.0.0")) && negb (bool_decide (addr = lit "[::]")))
    = negb (bool_decide (addr ∈ [[]; lit "0.0.0.0"; lit "[::]"]))).
  { apply eq_true_iff_eq. rewrite !andb_true_iff, !negb_true_iff, !bool_decide_eq_false, Nat.ltb_lt, !elem_of_cons, elem_of_nil.
    destruct addr as [|c addr]; [cbn; split; [lia|tauto]|]. cbn [length]. split; [intros [_ [? ?]] [?|[?|[?|?]]]; done|].
    intros Hn. split; [lia|]. split; intros E; apply Hn; rewrite E; tauto. }
  rewrite Ha. destruct (bool_decide (addr ∈ _)); cbn [negb]; [|done]. clear Ha.
  assert (E : first_private addrs = dotted <$> head (filter (fun p => private p = true) (omap ip4_of addrs))).
  { induction Hb as [|x addrs Hx _ IH]; [done|]. 
    assert (Hip : forall ip, Forall is_byte ip -> first_private (AddrIP ip :: addrs)
      = dotted <$> head (filter (fun p => private p = true) (omap ip4_of (AddrIP ip :: addrs)))).
    { intros ip Hi. cbn [first_private omap list_omap ip4_of]. destruct (IP_To4 ip) as [p|] eqn:E4; cycle 1.
      - rewrite IH. by destruct (IsLoopback ip).
      - rewrite filter_cons, (isPrivateIP_private ip p Hi E4). destruct (IsLoopback ip) eqn:El.
        + rewrite (loopback_not_private ip p Hi E4 El). by rewrite decide_False.
        + destruct (private p); cbn [negb]; [by rewrite decide_True|by rewrite decide_False]. }
    destruct x as [ip|ip|]; [by apply Hip|by apply (Hip ip)|by cbn]. }
  rewrite E. by destruct (head _).
Qed.

Lemma GetLocalIP_private_witness :
  GetLocalIP (lit "0.0.0.0") (inr [AddrNet [127; 0; 0; 1]; AddrNet (IPv4 [172; 32; 0; 1]); AddrOther; AddrIP (IPv4 [192; 168; 1; 7])])
  = inr (lit "192.168.1.7").
Proof.
  rewrite GetLocalIP_private; [vm_compute; reflexivity|].
  repeat (apply Forall_cons; split); try apply Forall_nil; try done; cbn; repeat (apply Forall_cons; split); try apply Forall_nil; unfold is_byte; lia.
Defined.
