(* ===== verification/Transport.v ===== *)
(** * The transports

    [transport/transport.go], [transport/options.go], [transport/http_transport.go]
    and [transport/tcp_transport.go]: packages over connections, with HTTP messages
    around them or nothing; how listeners accept connections, and how an address
    with a range of ports is bound. *)
From S2P Require Import Prelude.
From S2P Require Import Registry Url Common Rpc Server Http Net.

(** ** Options *)

Definition DefaultMaxSleepTime : Z := 10 ^ 9.
Definition DefaultMAXConnNum : Z := 50 * 1024 * 1024.
Definition DefaultDialTimeout : Z := 5 * 10 ^ 9.

Record Options := mkOptions { Addrs : list bytes; Timeout : Z }.
Record DialOptions := mkDialOptions { d_Stream : bool; d_Timeout : Z; d_Path : bytes }.

Definition opt_Timeout (t : Z) (o : Options) : Options := mkOptions (Addrs o) t.
Definition opt_Addrs (a : list bytes) (o : Options) : Options := mkOptions a (Timeout o).
Definition WithStream (o : DialOptions) : DialOptions := mkDialOptions true (d_Timeout o) (d_Path o).
Definition WithTimeout (d : Z) (o : DialOptions) : DialOptions := mkDialOptions (d_Stream o) d (d_Path o).
Definition WithPath (p : bytes) (o : DialOptions) : DialOptions := mkDialOptions (d_Stream o) (d_Timeout o) p.

(** The options of a new transport, and of a call of [Dial]. *)
Definition transport_options (opts : list (Options -> Options)) : Options := fold_left (fun o f => f o) opts (mkOptions [] 0).
Definition dial_options (opts : list (DialOptions -> DialOptions)) : DialOptions :=
  fold_left (fun o f => f o) opts (mkDialOptions false DefaultDialTimeout []).

(** ** HTTP *)

(** [Package.Header]: a nil map has nothing in it. *)
Definition entries `{MapRange} (h : option Header) : list (bytes * bytes) := match h with Some h => range h | None => [] end.

Definition set_all (kvs : list (bytes * bytes)) (h : fields) : fields := fold_left (fun h kv => header_Set kv.1 kv.2 h) kvs h.

(** The header of a package, from a message's. *)
Definition first_values (h : fields) : Header := hd [] <$> h.

(** *** The client *)

(** A request of the client's; only its method is used later. *)
Record outgoing := mkOutgoing {
  og_Method : bytes;
  og_Host : bytes;
  og_Path : bytes;
  og_Header : fields;
  og_Body : bytes
}.

(** [hc_r] is the channel of capacity 1, [hc_bl] what waits for it; [hc_open] until
    [Close], which takes [buff] away, closes the channel and the connection;
    [hc_locked] when a panic has left the mutex locked. *)
Record httpTransportClient := mkHttpClient {
  hc_addr : bytes;
  hc_conn : net_conn;
  hc_dialOpts : DialOptions;
  hc_r : option outgoing;
  hc_bl : list outgoing;
  hc_open : bool;
  hc_locked : bool
}.

Definition initHTTPTransportClient (addr : bytes) (conn : net_conn) (opts : DialOptions) : httpTransportClient :=
  mkHttpClient addr conn opts None [] true false.

Definition hc_set_queue (r : option outgoing) (bl : list outgoing) (h : httpTransportClient) : httpTransportClient :=
  mkHttpClient (hc_addr h) (hc_conn h) (hc_dialOpts h) r bl (hc_open h) (hc_locked h).

Definition hc_set_conn (c : net_conn) (h : httpTransportClient) : httpTransportClient :=
  mkHttpClient (hc_addr h) c (hc_dialOpts h) (hc_r h) (hc_bl h) (hc_open h) (hc_locked h).

Definition hc_on_conn {X} (m : ST net_conn X) : ST httpTransportClient X := fun h =>
  let '(o, c) := m (hc_conn h) in (o, hc_set_conn c h).

(** [h.bl = append(h.bl, req)], and the first of them goes into the channel if
    that is empty; a closed channel panics, and the mutex stays locked. *)
Definition enqueue (req : outgoing) : ST httpTransportClient unit := fun h =>
  if hc_locked h then (NoFuel, h)
  else
    let bl := hc_bl h ++ [req] in
    if negb (hc_open h) then (Panic, mkHttpClient (hc_addr h) (hc_conn h) (hc_dialOpts h) (hc_r h) bl false true)
    else match hc_r h with
         | None => (Ret tt, hc_set_queue (head bl) (tail bl) h)
         | Some r => (Ret tt, hc_set_queue (Some r) bl h)
         end.

Section Http.
Context `{MR : MapRange} (now timeout : Z).

Definition hc_request (pkg : option Header * bytes) (h : httpTransportClient) : outgoing :=
  mkOutgoing (lit "POST") (hc_addr h) (d_Path (hc_dialOpts h)) (set_all (entries pkg.1) ∅) pkg.2.

Definition hc_Send (pkg : option Header * bytes) : ST httpTransportClient unit := fun h =>
  let req := hc_request pkg h in
  (enqueue req ;;;
   hc_on_conn (with_timeout now timeout (trace
     (match Request_Write (og_Host req) (og_Path req) (og_Header req) (og_Body req) with
      | inl e => fail e
      | inr text => net_Write text
      end)))) h.

(** A response and its body; [method] is that of the request that it is for. *)
Definition read_response (method : bytes) : ST net_conn (Header * bytes) :=
  rf <- trace (on_stream (fun eof => ReadResponse eof method)) ;;
  b <- trace (on_stream (fun eof => ReadAll eof rf.2)) ;;
  if negb (rs_StatusCode rf.1 =? 200) then fail (Text (rs_Status rf.1 ++ lit ": " ++ b))
  else ret (first_values (rs_Header rf.1), b).

(** The part of [Recv] that has the mutex. *)
Definition hc_read (method : bytes) : ST httpTransportClient (Header * bytes) := fun h =>
  if hc_locked h then (NoFuel, h)
  else if negb (hc_open h) then (Fail EOF, h)
  else hc_on_conn (with_timeout now timeout (read_response method)) h.

(** [NoFuel] is a wait: for a request in the channel, or for the mutex. *)
Definition hc_Recv : ST httpTransportClient (Header * bytes) := fun h =>
  if d_Stream (hc_dialOpts h) then hc_read (lit "GET") h
  else match hc_r h with
       | None => if hc_open h then (NoFuel, h) else (Fail EOF, h)
       | Some r => hc_read (og_Method r) (hc_set_queue None (hc_bl h) h)
       end.

(** [hc_open] is the [once] as well. *)
Definition hc_Close : ST httpTransportClient unit := fun h =>
  if negb (hc_open h) then (Ret tt, h)
  else if hc_locked h then (NoFuel, h)
  else
    let '(o, c) := trace net_Close (hc_conn h) in
    (o, mkHttpClient (hc_addr h) c (hc_dialOpts h) (hc_r h) (hc_bl h) false false).

(** What has come is as many packages as it has bytes, or less. *)
Definition HttpClient : TransportClient httpTransportClient := {|
  tr_Send := hc_Send;
  tr_Recv h := let '(o, h) := hc_Recv h in
    (match o with Ret (hd, b) => Ret (Some hd, b) | Fail e => Fail e | Panic => Panic | NoFuel => NoFuel end, h);
  tr_Close := hc_Close;
  tr_left h := length (concat (nc_in (hc_conn h)))
|}.

(** *** The server's socket *)

(** [hs_reqQ] is the channel of capacity 1; [hs_reader] tells whether [bufReader] is
    not nil, [hs_once] whether [once] is done; [hs_released] counts the calls of
    [release]. *)
Record httpTransportSocket := mkHttpSocket {
  hs_conn : net_conn;
  hs_reqQ : option request;
  hs_reader : bool;
  hs_once : bool;
  hs_released : nat
}.

Definition initHTTPTransportSocket (c : net_conn) : httpTransportSocket := mkHttpSocket c None true false 0.

Definition hs_set_conn (c : net_conn) (s : httpTransportSocket) : httpTransportSocket :=
  mkHttpSocket c (hs_reqQ s) (hs_reader s) (hs_once s) (hs_released s).
Definition hs_set_reqQ (q : option request) (s : httpTransportSocket) : httpTransportSocket :=
  mkHttpSocket (hs_conn s) q (hs_reader s) (hs_once s) (hs_released s).

Definition hs_on_conn {X} (m : ST net_conn X) : ST httpTransportSocket X := fun s =>
  let '(o, c) := m (hs_conn s) in (o, hs_set_conn c s).

(** A request and its body; without a [bufReader] it panics. *)
Definition read_request (reader : bool) : ST net_conn (request * bytes) :=
  if negb reader then panic
  else
    rf <- trace (on_stream ReadRequest) ;;
    b <- trace (on_stream (fun eof => ReadAll eof rf.2)) ;;
    ret (rf.1, b).

(** The header of the package: the path's first byte is looked at after it was cut
    off, and must be there. *)
Definition request_header (r : request) : option Header :=
  match rq_Path r with
  | [] => None
  | c :: path =>
      Some (<[lit "HttpMethod" := rq_Method r]>
        (<[lit "Path" := if negb (c =? 47) then rq_Path r else path]> (first_values (rq_Header r))))
  end.

(** The queue keeps a request that is in it. *)
Definition hs_Recv : ST httpTransportSocket (Header * bytes) := fun s =>
  match hs_on_conn (with_timeout now timeout (read_request (hs_reader s))) s with
  | (Ret (r, b), s) =>
      match request_header r with
      | None => (Panic, s)
      | Some h => (Ret (h, b), hs_set_reqQ (match hs_reqQ s with None => Some r | q => q end) s)
      end
  | (Fail e, s) => (Fail e, s)
  | (Panic, s) => (Panic, s)
  | (NoFuel, s) => (NoFuel, s)
  end.

(** The response's header is the map of the request in the queue, which goes back
    there; without a request, [Send] waits. *)
Definition hs_Send (pkg : Header * bytes) : ST httpTransportSocket unit := fun s =>
  match hs_reqQ s with
  | None => (NoFuel, s)
  | Some r =>
      let header := set_all (range pkg.1) (rq_Header r) in
      let s := hs_set_reqQ (Some (mkRequest (rq_Method r) (rq_Path r) header)) s in
      hs_on_conn (with_timeout now timeout (trace (net_Write (Response_Write 200 (lit "200 OK") header pkg.2)))) s
  end.

(** [error], which nothing calls. *)
Definition hs_error (pkg : Header * bytes) : ST httpTransportSocket unit :=
  hs_on_conn (trace (net_Write (Response_Write 500 (lit "500 Internal Server Error") (set_all (range pkg.1) ∅) pkg.2))).

Definition hs_Close : ST httpTransportSocket unit := fun s =>
  if hs_once s then (Ret tt, s)
  else if negb (hs_reader s) then (Panic, mkHttpSocket (hs_conn s) (hs_reqQ s) false true (hs_released s))
  else
    let '(o, c) := net_Close (hs_conn s) in
    (o, mkHttpSocket c (hs_reqQ s) false true (S (hs_released s))).

(** [Reset] makes no new reader; [release] is another one.  The connection that
    was there before is returned. *)
Definition hs_Reset (c : net_conn) : ST httpTransportSocket net_conn := fun s =>
  match hs_Close s with
  | (Ret _, s) | (Fail _, s) => (Ret (hs_conn s), mkHttpSocket c (hs_reqQ s) (hs_reader s) false 0)
  | (Panic, s) => (Panic, s)
  | (NoFuel, s) => (NoFuel, s)
  end.

(** What has come is as many packages as it has bytes, or less. *)
Definition HttpSocket : Socket httpTransportSocket := {|
  sock_Recv := hs_Recv;
  sock_Send := hs_Send;
  sock_Close s := (hs_Close s).2;
  sock_left s := length (concat (nc_in (hs_conn s)))
|}.

End Http.

(** ** TCP *)

Record tcpTransportSocket := mkTcpSocket { ts_conn : net_conn; ts_timeout : Z }.

(** [timeout] is not set, by this or anything else. *)
Definition initTCPTransportSocket (c : net_conn) : tcpTransportSocket := mkTcpSocket c 0.

Definition ts_on_conn {X} (m : ST net_conn X) : ST tcpTransportSocket X := fun t =>
  let '(o, c) := m (ts_conn t) in (o, mkTcpSocket c (ts_timeout t)).

(** [t.conn.Read(p.Body)]: into the bytes that the body has; how many were read and
    the error are dropped. *)
Definition ts_Recv (now : Z) (body : bytes) : ST tcpTransportSocket bytes := fun t =>
  match ts_on_conn (with_timeout now (ts_timeout t) (net_Read (length body))) t with
  | (Ret b, t) => (Ret (b ++ drop (length b) body), t)
  | (Fail _, t) => (Ret body, t)
  | (Panic, t) => (Panic, t)
  | (NoFuel, t) => (NoFuel, t)
  end.

(** A connection that writes less than it was given tells so with an error. *)
Definition ts_Send (now : Z) (body : bytes) : ST tcpTransportSocket unit := fun t =>
  ts_on_conn (with_timeout now (ts_timeout t) (trace (net_Write body))) t.

(** [release] is not called. *)
Definition ts_Close : ST tcpTransportSocket unit := ts_on_conn (trace net_Close).

Definition ts_Reset (c : net_conn) : ST tcpTransportSocket net_conn := fun t =>
  (Ret (net_Close (ts_conn t)).2, mkTcpSocket c (ts_timeout t)).

(** The server's package has no header, and after [Package.Reset] a body of length
    0.  [Recv] does not fail, so no number bounds the packages. *)
Definition TcpSocket (now : Z) : Socket tcpTransportSocket := {|
  sock_Recv t := let '(o, t) := ts_Recv now [] t in (match o with Ret b => Ret (∅, b) | Fail e => Fail e | Panic => Panic | NoFuel => NoFuel end, t);
  sock_Send p := ts_Send now p.2;
  sock_Close t := (ts_Close t).2;
  sock_left _ := 0%nat
|}.

Section TcpClient.
Context (now timeout : Z).

Definition tc_Send (body : bytes) : ST net_conn unit := with_timeout now timeout (trace (net_Write body)).

(** Up to 4096 bytes are appended to the package's body. *)
Definition tc_read (body : bytes) : ST net_conn bytes :=
  b <- trace (net_Read 4096) ;;
  if bool_decide (b = []) then fail EOF else ret (body ++ b).

Definition tc_Recv (body : bytes) : ST net_conn bytes := with_timeout now timeout (trace (tc_read body)).

Definition tc_Close : ST net_conn unit := trace net_Close.

(** [Package.Reset] has left a body of length 0. *)
Definition TcpClient : TransportClient net_conn := {|
  tr_Send p := tc_Send p.2;
  tr_Recv c := let '(o, c) := tc_Recv [] c in
    (match o with Ret b => Ret (None, b) | Fail e => Fail e | Panic => Panic | NoFuel => NoFuel end, c);
  tr_Close := tc_Close;
  tr_left c := length (concat (nc_in c))
|}.

End TcpClient.

(** ** [Dial] and [Listen] *)

(** [net.DialTimeout] is [dial]. *)
Definition http_Dial (dial : bytes -> Z -> result net_conn) (addr : bytes) (opts : list (DialOptions -> DialOptions)) :
    result httpTransportClient :=
  let dopts := dial_options opts in
  match dial addr (d_Timeout dopts) with
  | inl err => inl (Traced err)
  | inr conn => inr (initHTTPTransportClient addr conn dopts)
  end.

Definition tcp_Dial (dial : bytes -> Z -> result net_conn) (addr : bytes) (opts : list (DialOptions -> DialOptions)) : result net_conn :=
  match dial addr (d_Timeout (dial_options opts)) with
  | inl err => inl (Traced err)
  | inr conn => inr conn
  end.

Section Listen.
Context {W L : Type} (fn : bytes -> ST W L).

(** [fmt.Sprintf] of a list of strings puts it into brackets. *)
Definition port_addr (host : list bytes) (port : Z) : bytes := 91 :: Join 32 host ++ 93 :: 58 :: Itoa port.

(** The ports from [port] to [max], of which there are [n]. *)
Fixpoint bind_range (host : list bytes) (n : nat) (port : Z) : ST W L := fun w =>
  match n with
  | O => (Fail (Errorf "unable to bind to %s"), w)
  | S n =>
      match fn (port_addr host port) w with
      | (Ret ln, w) => (Ret ln, w)
      | (Fail err, w) => if (n =? 0)%nat then (Fail (Traced err), w) else bind_range host n (port + 1) w
      | (Panic, w) => (Panic, w)
      | (NoFuel, w) => (NoFuel, w)
      end
  end.

Definition listen (addr : bytes) : ST W L :=
  let parts := Split 58 addr in
  if (length parts <? 2)%nat then fn addr
  else
    let ports := Split 45 (default [] (last parts)) in
    match ports with
    | p0 :: p1 :: _ =>
        match Atoi p0, Atoi p1 with
        | Some min, Some max => bind_range (take (length parts - 1) parts) (Z.to_nat (max - min + 1)) min
        | _, _ => fail (Errorf "unable to extract port range")
        end
    | _ => fn addr
    end.

(** [Listen] of the two transports. *)
Definition http_Listen (addr : bytes) : ST W L := listen addr.
Definition tcp_Listen (addr : bytes) : ST W L := trace (listen addr).

End Listen.

(** ** [Accept]

    The loop and the sockets, which run beside it: [l_sem] is how many elements the
    channel [sem] has, [l_delay] the variable [tmpDelay], [l_serving] how many
    sockets are being served, [l_accepted] how many connections were accepted. *)
Inductive accept_pc := AtAcquire | AtAccept | AtSleep | Returned (e : goerr).

Record listener := mkListener {
  l_pc : accept_pc;
  l_sem : Z;
  l_delay : Z;
  l_serving : Z;
  l_accepted : Z
}.

Definition newListener : listener := mkListener AtAcquire 0 0 0 0.

(** [5 * time.Millisecond], doubled, and limited. *)
Definition next_delay (d : Z) : Z :=
  let d := if d =? 0 then 5 * 10 ^ 6 else i64 (2 * d) in
  if DefaultMaxSleepTime <? d then DefaultMaxSleepTime else d.

(** [releases]: whether the [Close] of a socket calls [release]. *)
Inductive accept_step (releases : bool) : listener -> listener -> Prop :=
| step_acquire sem d n a :
    sem < DefaultMAXConnNum ->
    accept_step releases (mkListener AtAcquire sem d n a) (mkListener AtAccept (sem + 1) d n a)
| step_accept sem d n a :
    accept_step releases (mkListener AtAccept sem d n a) (mkListener AtAcquire sem d (n + 1) (a + 1))
| step_temporary sem d n a :
    accept_step releases (mkListener AtAccept sem d n a) (mkListener AtSleep (sem - 1) (next_delay d) n a)
| step_error sem d n a e :
    accept_step releases (mkListener AtAccept sem d n a) (mkListener (Returned e) (sem - 1) d n a)
| step_wake sem d n a :
    accept_step releases (mkListener AtSleep sem d n a) (mkListener AtAcquire sem d n a)
| step_close pc sem d n a :
    0 < n -> accept_step releases (mkListener pc sem d n a) (mkListener pc (if releases then sem - 1 else sem) d (n - 1) a).

Definition http_accept : listener -> listener -> Prop := accept_step true.
Definition tcp_accept : listener -> listener -> Prop := accept_step false.
