(* ===== verification/TransportSafe.v ===== *)
(** * Packages over HTTP and TCP

    Theorems about [Transport]: what a client sends arrives at the server's
    socket, and its response at the client; that reading ends; what becomes of
    closed connections; how many connections a listener serves; and that the TCP
    transport carries no request. *)
From S2P Require Import Prelude.
From S2P Require Import Registry Url Common Rpc Server ServerSafe Serve ServeSafe Http HttpText HttpEnds Net Transport.

(** ** Headers *)

(** The fields that messages have of their own, or that mean something to
    [net/http]. *)
Definition special : list bytes :=
  map lit ["Host"; "User-Agent"; "Content-Length"; "Transfer-Encoding"; "Trailer"; "Pragma"; "Connection"]%string.

(** A package's header of canonical keys and plain values. *)
Definition plain_header (h : Header) : Prop := forall k v, h !! k = Some v -> good_key k /\ good_value v /\ k ∉ special.

Definition singles (h : Header) : fields := (fun v => [v]) <$> h.

Lemma first_singles h : first_values (singles h) = h.
Proof. unfold first_values, singles. rewrite <- map_fmap_compose. apply map_eq. intros k. rewrite lookup_fmap. by destruct (h !! k). Qed.

Lemma first_values_union m1 m2 : first_values (m1 ∪ m2) = first_values m1 ∪ first_values m2.
Proof. apply map_fmap_union. Qed.

Lemma singles_lookup h k : singles h !! k = (fun v => [v]) <$> h !! k.
Proof. apply lookup_fmap. Qed.

Lemma set_all_map kvs : forall m,
  NoDup kvs.*1 -> Forall (fun kv => good_key kv.1) kvs -> set_all kvs m = singles (list_to_map kvs) ∪ m.
Proof.
  induction kvs as [|[k v] kvs IH]; intros m Hn Hg.
  - unfold singles. cbn [list_to_map foldr]. by rewrite fmap_empty, left_id_L by apply _.
  - apply NoDup_cons in Hn as [Hk Hn]. apply Forall_cons in Hg as [Hgk Hg]. cbn [fst] in Hk, Hgk.
    change (set_all ((k, v) :: kvs) m) with (set_all kvs (header_Set k v m)). rewrite IH by done. unfold header_Set.
    rewrite good_key_canonical by done. cbn [list_to_map foldr curry]. unfold singles. rewrite fmap_insert, <- insert_union_l.
    symmetry. apply insert_union_r. rewrite lookup_fmap. apply not_elem_of_list_to_map in Hk. cbn in *. by rewrite Hk.
Qed.

Lemma range_keys `{MapRange} (h : Header) : NoDup (range h).*1.
Proof. rewrite range_perm. apply NoDup_fst_map_to_list. Qed.

Lemma range_elem `{MapRange} (h : Header) k v : ((k, v) ∈ range h) <-> h !! k = Some v.
Proof. rewrite range_perm. apply elem_of_map_to_list. Qed.

Lemma set_all_range `{MapRange} (h : Header) m : plain_header h -> set_all (range h) m = singles h ∪ m.
Proof.
  intros Hh. rewrite set_all_map.
  - do 2 f_equal. transitivity (list_to_map (map_to_list h) : Header); [|apply list_to_map_to_list].
    apply list_to_map_proper; [apply range_keys|apply range_perm].
  - apply range_keys.
  - apply Forall_forall. intros [k v] Hkv. apply range_elem in Hkv. by apply Hh in Hkv as (? & _ & _).
Qed.

Lemma plain_special h k : plain_header h -> k ∈ special -> h !! k = None.
Proof. intros Hh Hk. destruct (h !! k) as [v|] eqn:E; [|done]. apply Hh in E as (_ & _ & Hn). done. Qed.

(** A key is among the special ones. *)
Ltac is_special := refine (bool_decide_eq_true_1 _ _); vm_compute; reflexivity.

Lemma plain_sendable h exclude : plain_header h -> sendable exclude (singles h).
Proof.
  intros Hh k vs Hk _. rewrite singles_lookup in Hk. destruct (h !! k) as [v|] eqn:E; [|done]. injection Hk as <-.
  apply Hh in E as (? & ? & _). split; [done|]. by exists v.
Qed.

Lemma plain_kept h : plain_header h -> kept reqExclude (singles h) = singles h.
Proof.
  intros Hh. apply map_eq. intros k. rewrite kept_lookup. destruct (decide (k ∈ reqExclude)) as [Hk|]; [|done].
  rewrite singles_lookup, plain_special; [done..|]. unfold reqExclude, special in *. cbn [map] in *.
  rewrite !elem_of_cons in *. tauto.
Qed.

(** ** Connections *)

(** What a connection is after some was read or written, whatever its time limit. *)
Record moved (c : net_conn) (rest out : bytes) (c' : net_conn) : Prop := {
  mv_in : concat (nc_in c') = rest;
  mv_out : nc_out c' = out;
  mv_end : nc_end c' = nc_end c;
  mv_limit : nc_limit c' = nc_limit c;
  mv_closed : nc_closed c' = nc_closed c
}.

Lemma moved_trans c1 r1 o1 c2 r2 o2 c3 : moved c1 r1 o1 c2 -> moved c2 r2 o2 c3 -> moved c1 r2 o2 c3.
Proof. intros [? ? ? ? ?] [? ? ? ? ?]. split; congruence. Qed.

Lemma moved_stay c t : moved c (concat (nc_in c)) (nc_out c) (SetReadDeadline t c).
Proof. by split. Qed.

Lemma moved_set_in c s : moved c s (nc_out c) (set_in (match s with [] => [] | _ => [s] end) c).
Proof. split; try done. destruct s; [done|]. cbn. by rewrite app_nil_r. Qed.

Lemma on_stream_reads {X} (f : goerr -> ST bytes X) c o rest :
  nc_closed c = 0%nat -> f (nc_end c) (concat (nc_in c)) = (o, rest) ->
  exists c', on_stream f c = (o, c') /\ moved c rest (nc_out c) c'.
Proof.
  intros Hc E. unfold on_stream. rewrite Hc. change (0 <? 0)%nat with false. rewrite E.
  eexists. split; [reflexivity|]. apply moved_set_in.
Qed.

Lemma net_Write_open b c :
  nc_closed c = 0%nat -> nc_limit c = None -> exists c', net_Write b c = (Ret tt, c') /\ moved c (concat (nc_in c)) (nc_out c ++ b) c'.
Proof. intros Hc Hl. unfold net_Write. rewrite Hc, Hl. eexists. split; [reflexivity|]. by split. Qed.

Lemma with_timeout_moves {X} now timeout (m : ST net_conn X) c o rest out :
  (forall c0, moved c (concat (nc_in c)) (nc_out c) c0 -> exists c', m c0 = (o, c') /\ moved c0 rest out c') ->
  exists c', with_timeout now timeout m c = (o, c') /\ moved c rest out c'.
Proof.
  intros Hm. unfold with_timeout. destruct (0 <? timeout).
  - unfold SetNetConnTimeout. destruct (Hm _ (moved_stay c (if 0 <? timeout then Some (now + timeout) else None))) as (c' & -> & Hc').
    eexists. split; [reflexivity|]. eapply moved_trans; [apply moved_stay|]. destruct Hc'. by split.
  - apply Hm. by split.
Qed.

(** A connection that nobody has closed, and that takes all that is written. *)
Definition ready (c : net_conn) : Prop := nc_closed c = 0%nat /\ nc_limit c = None.

Lemma moved_ready c rest out c' : moved c rest out c' -> ready c -> ready c'.
Proof. intros [_ _ _ Hl Hc] [? ?]. split; congruence. Qed.

Lemma with_timeout_write now timeout b c :
  ready c -> exists c', with_timeout now timeout (trace (net_Write b)) c = (Ret tt, c') /\ moved c (concat (nc_in c)) (nc_out c ++ b) c'.
Proof.
  intros Hr. apply with_timeout_moves. intros c0 Hm. destruct (moved_ready _ _ _ _ Hm Hr) as [Hc Hl].
  destruct (net_Write_open b c0 Hc Hl) as (c' & E & H). exists c'. unfold trace, on_err. rewrite E. split; [done|].
  by rewrite <- (mv_in _ _ _ _ Hm), <- (mv_out _ _ _ _ Hm).
Qed.

(** ** One exchange over HTTP *)

(** The fields that a request has beside its package's. *)
Definition own_fields (body : bytes) : Header :=
  (if bool_decide (body = []) then ∅ else {[lit "Content-Length" := Itoa (Z.of_nat (length body))]})
    ∪ {[lit "User-Agent" := defaultUserAgent]}.

(** The package's header at the server. *)
Definition request_arrives (path : bytes) (h : Header) (body : bytes) : Header :=
  <[lit "HttpMethod" := lit "POST"]> (<[lit "Path" := drop 1 path]> (h ∪ own_fields body)).

(** The response's at the client: over the fields of a request. *)
Definition response_arrives (rh : Header) (q : Header) (body : bytes) : Header :=
  <[lit "Content-Length" := Itoa (Z.of_nat (length body))]> (rh ∪ q).

Record good_peer (host path : bytes) (h : Header) : Prop := {
  gp_host : cleanHost host <> [] /\ good_value (removeZone (cleanHost host));
  gp_path : good_path path;
  gp_header : plain_header h
}.

Lemma peer_request host path h : good_peer host path h -> good_request host path (singles h).
Proof.
  intros [Hh Hp Hg]. split; [done|done|by apply plain_sendable| |].
  - unfold agent. rewrite singles_lookup, plain_special; [by apply check_value_ok|done|is_special].
  - rewrite singles_lookup, plain_special; [done|done|is_special].
Qed.

Lemma plain_agent h : plain_header h -> with_agent (singles h) ∅ = {[lit "User-Agent" := [defaultUserAgent]]}.
Proof. intros Hh. unfold with_agent, agent. rewrite singles_lookup, plain_special; [reflexivity|done|is_special]. Qed.

Lemma received_first h body : plain_header h -> first_values (received (singles h) body) = h ∪ own_fields body.
Proof.
  intros Hh. unfold received. rewrite first_values_union, plain_kept, first_singles by done. f_equal.
  unfold own_fields. rewrite plain_agent by done. case_bool_decide.
  - rewrite left_id_L by apply _. apply map_fmap_singleton.
  - unfold first_values. rewrite fmap_insert, map_fmap_singleton. cbn [hd]. by rewrite <- insert_union_singleton_l.
Qed.

Section Exchange.
Context `{MR : MapRange} (now timeout : Z).

(** A client between calls. *)
Definition idle (h : httpTransportClient) : Prop :=
  hc_r h = None /\ hc_bl h = [] /\ hc_open h = true /\ hc_locked h = false /\ d_Stream (hc_dialOpts h) = false /\ ready (hc_conn h).

Definition text_of (host path : bytes) (h : Header) (body : bytes) : bytes :=
  match Request_Write host path (singles h) body with inr t => t | inl _ => [] end.

Lemma client_sends hc hd body :
  idle hc -> good_peer (hc_addr hc) (d_Path (hc_dialOpts hc)) hd ->
  exists c', hc_Send now timeout (Some hd, body) hc
    = (Ret tt, mkHttpClient (hc_addr hc) c' (hc_dialOpts hc) (Some (hc_request (Some hd, body) hc)) [] true false)
    /\ moved (hc_conn hc) (concat (nc_in (hc_conn hc))) (nc_out (hc_conn hc) ++ text_of (hc_addr hc) (d_Path (hc_dialOpts hc)) hd body) c'.
Proof.
  intros (Hr & Hbl & Ho & Hl & _ & Hc) Hg. unfold text_of.
  destruct (Request_Write (hc_addr hc) (d_Path (hc_dialOpts hc)) (singles hd) body) as [|text] eqn:Et;
    [by rewrite (Request_text _ _ _ body (peer_request _ _ _ Hg)) in Et|].
  destruct (with_timeout_write now timeout text (hc_conn hc) Hc) as (c' & Ew & Hm).
  assert (Eq : set_all (entries (Some hd)) ∅ = singles hd).
  { cbn [entries]. rewrite set_all_range by apply Hg. apply right_id_L, _. }
  unfold hc_Send, bind, enqueue. rewrite Hl, Ho, Hr, Hbl. cbn [negb app head tail hc_request og_Host og_Path og_Header og_Body fst snd].
  rewrite Eq, Et. unfold hc_on_conn. cbn [hc_conn hc_set_queue]. rewrite Ew. exists c'. split; [|exact Hm].
  unfold hc_set_conn, hc_request. cbn [hc_addr hc_dialOpts hc_r hc_bl hc_open hc_locked hc_set_queue fst snd]. by rewrite Ho, Hl, Eq.
Qed.

(** The server's socket takes one request off what has come. *)
Lemma socket_receives s host path hd body rest :
  hs_reader s = true -> nc_closed (hs_conn s) = 0%nat -> good_peer host path hd -> Z.of_nat (length body) < 2 ^ 63 ->
  concat (nc_in (hs_conn s)) = text_of host path hd body ++ rest ->
  exists c', hs_Recv now timeout s
    = (Ret (request_arrives path hd body, body),
       mkHttpSocket c' (Some (default (mkRequest (lit "POST") (arrived path) (received (singles hd) body)) (hs_reqQ s)))
         true (hs_once s) (hs_released s))
    /\ moved (hs_conn s) rest (nc_out (hs_conn s)) c'.
Proof.
  intros Hrd Hc Hg Hb Hin. pose proof (peer_request _ _ _ Hg) as Hgr.
  destruct (request_reads (nc_end (hs_conn s)) host path (singles hd) body rest Hgr Hb) as (text & Et & Er).
  unfold text_of in Hin. rewrite Et in Hin.
  destruct (with_timeout_moves now timeout (read_request true) (hs_conn s)
    (Ret (mkRequest (lit "POST") (arrived path) (received (singles hd) body), body)) rest (nc_out (hs_conn s))) as (c' & E & Hm).
  { intros c0 Hm0. unfold read_request. cbn [negb]. unfold bind, trace, on_err.
    destruct (on_stream_reads ReadRequest c0 (Ret (mkRequest (lit "POST") (arrived path) (received (singles hd) body), frame_of body))
      (body_text body ++ rest)) as (c1 & -> & Hm1); [by rewrite (mv_closed _ _ _ _ Hm0)|by rewrite (mv_in _ _ _ _ Hm0), (mv_end _ _ _ _ Hm0), Hin|].
    cbn [snd fst]. destruct (on_stream_reads (fun eof => ReadAll eof (frame_of body)) c1 (Ret body) rest) as (c2 & -> & Hm2).
    - by rewrite (mv_closed _ _ _ _ Hm1), (mv_closed _ _ _ _ Hm0).
    - rewrite (mv_in _ _ _ _ Hm1). apply ReadAll_frame.
    - exists c2. split; [done|]. rewrite (mv_out _ _ _ _ Hm1), (mv_out _ _ _ _ Hm0) in Hm2. eapply moved_trans; [exact Hm1|]. exact Hm2. }
  unfold hs_Recv, hs_on_conn. rewrite Hrd, E. cbn [hs_set_conn hs_reqQ hs_reader hs_once hs_released]. unfold request_header. cbn [rq_Path rq_Method rq_Header].
  rewrite received_first by apply Hg.
  assert (Hp : exists q, arrived path = 47 :: q /\ drop 1 path = q).
  { destruct (gp_path _ _ _ Hg) as [->|(q & -> & _)]; by eexists. }
  destruct Hp as (q & Hq & Hd). rewrite Hq. cbn [negb]. change (47 =? 47) with true. cbn [negb]. rewrite <- Hd.
  exists c'. split; [|exact Hm]. unfold request_arrives, hs_set_reqQ. cbn. rewrite Hrd. by destruct (hs_reqQ s).
Qed.

(** *** The response *)

Lemma answer_header rh hd body :
  plain_header rh -> plain_header hd -> good_response (singles rh ∪ received (singles hd) body).
Proof.
  intros Hrh Hhd.
  assert (Hlook : forall k, bool_decide (k ∈ [lit "Content-Length"; lit "User-Agent"]) = false ->
    (singles rh ∪ received (singles hd) body) !! k = singles rh !! k ∪ singles hd !! k).
  { intros k Hk%bool_decide_eq_false_1. rewrite lookup_union. f_equal. unfold received. rewrite lookup_union, plain_kept by done.
    assert (Hn : (if bool_decide (body = []) then with_agent (singles hd) ∅
      else <[lit "Content-Length" := [Itoa (Z.of_nat (length body))]]> (with_agent (singles hd) ∅)) !! k = None).
    { assert (Hw : with_agent (singles hd) ∅ !! k = None) by (apply with_agent_other, bool_decide_eq_false_2; set_solver).
      case_bool_decide; [done|]. rewrite lookup_insert_ne; [done|set_solver]. }
    rewrite Hn. by rewrite right_id_L by apply _. }
  assert (Hspec : forall k, k ∈ [lit "Pragma"; lit "Connection"] -> (singles rh ∪ received (singles hd) body) !! k = None).
  { intros k Hk. assert (Hs : k ∈ special) by (unfold special; cbn [map]; rewrite !elem_of_cons in *; tauto).
    assert (Hb : bool_decide (k ∈ [lit "Content-Length"; lit "User-Agent"]) = false).
    { rewrite elem_of_cons, list_elem_of_singleton in Hk. by destruct Hk as [-> | ->]. }
    rewrite (Hlook k Hb), !singles_lookup, !plain_special by done. done. }
  split; [|apply Hspec; by left|apply Hspec; by right; left].
  intros k vs Hk Hex. destruct (bool_decide (k ∈ [lit "Content-Length"; lit "User-Agent"])) eqn:Eb.
  - apply bool_decide_eq_true_1 in Eb. rewrite elem_of_cons, list_elem_of_singleton in Eb. destruct Eb as [-> | ->].
    + exfalso. apply Hex. is_special.
    + split; [by apply check_key_ok|]. rewrite lookup_union, singles_lookup, plain_special in Hk by (done || is_special).
      cbn [fmap option_fmap option_map] in Hk. rewrite left_id_L in Hk by apply _. unfold received in Hk.
      rewrite lookup_union, plain_kept, singles_lookup, (plain_special hd) in Hk by (done || is_special).
      cbn [fmap option_fmap option_map] in Hk. rewrite left_id_L in Hk by apply _.
      assert (Hw : vs = [defaultUserAgent]).
      { rewrite plain_agent in Hk by done. revert Hk.
        case_bool_decide; [|rewrite lookup_insert_ne by done]; rewrite lookup_singleton_eq; by intros [= <-]. }
      exists defaultUserAgent. split; [done|by apply check_value_ok].
  - rewrite (Hlook k Eb), !singles_lookup in Hk. destruct (rh !! k) as [v|] eqn:Er; cbn in Hk.
    + assert (vs = [v]) as -> by (by destruct (hd !! k); injection Hk). apply Hrh in Er as (? & ? & _). split; [done|]. by exists v.
    + destruct (hd !! k) as [v|] eqn:Eh; [|done]. injection Hk as <-. apply Hhd in Eh as (? & ? & _). split; [done|]. by exists v.
Qed.

Lemma first_values_insert k vs m : first_values (<[k := vs]> m) = <[k := hd [] vs]> (first_values m).
Proof. apply fmap_insert. Qed.

Lemma answered_first h body :
  h !! lit "Transfer-Encoding" = None -> h !! lit "Trailer" = None ->
  first_values (answered h body) = <[lit "Content-Length" := Itoa (Z.of_nat (length body))]> (first_values h).
Proof.
  intros Ht Hr. change (Itoa (Z.of_nat (length body))) with (hd [] [Itoa (Z.of_nat (length body))]) at 1.
  rewrite <- first_values_insert. f_equal. apply map_eq. intros k. unfold answered.
  destruct (decide (k = lit "Content-Length")) as [->|Hk].
  - rewrite lookup_insert_eq, lookup_union, kept_lookup, decide_True by is_special. by rewrite left_id_L, lookup_singleton_eq by apply _.
  - rewrite lookup_insert_ne, lookup_union, lookup_singleton_ne, right_id_L, kept_lookup by (done || apply _).
    destruct (decide (k ∈ respExclude)) as [Hin|]; [|done]. unfold respExclude in Hin. cbn [map] in Hin.
    rewrite !elem_of_cons, elem_of_nil in Hin. by destruct Hin as [->|[->|[->|[]]]].
Qed.

Lemma received_lacks hd body k : plain_header hd -> k ∈ map lit ["Transfer-Encoding"; "Trailer"]%string -> received (singles hd) body !! k = None.
Proof.
  intros Hh Hk. assert (Hr : k ∈ reqExclude) by (unfold reqExclude; cbn [map] in *; rewrite !elem_of_cons in *; tauto).
  unfold received. rewrite kept_union_lookup, plain_agent by done. cbn [map] in Hk. rewrite !elem_of_cons, elem_of_nil in Hk.
  case_bool_decide; destruct Hk as [->|[->|[]]]; reflexivity.
Qed.

Lemma answer_first rh hd body rbody :
  plain_header rh -> plain_header hd ->
  first_values (answered (singles rh ∪ received (singles hd) body) rbody) = response_arrives rh (hd ∪ own_fields body) rbody.
Proof.
  intros Hrh Hhd. rewrite answered_first.
  - unfold response_arrives. by rewrite first_values_union, first_singles, received_first.
  - rewrite lookup_union, singles_lookup, plain_special, received_lacks; [done|done|by left|done|is_special].
  - rewrite lookup_union, singles_lookup, plain_special, received_lacks; [done|done|by right; left|done|is_special].
Qed.

(** What the socket writes for a response. *)
Definition answer_of (q : fields) (rh : Header) (rbody : bytes) : bytes := Response_Write 200 (lit "200 OK") (singles rh ∪ q) rbody.

Lemma socket_sends s r rh rbody :
  ready (hs_conn s) -> hs_reqQ s = Some r -> plain_header rh ->
  exists c', hs_Send now timeout (rh, rbody) s
    = (Ret tt, mkHttpSocket c' (Some (mkRequest (rq_Method r) (rq_Path r) (singles rh ∪ rq_Header r))) (hs_reader s) (hs_once s) (hs_released s))
    /\ moved (hs_conn s) (concat (nc_in (hs_conn s))) (nc_out (hs_conn s) ++ answer_of (rq_Header r) rh rbody) c'.
Proof.
  intros Hc Hq Hrh. unfold hs_Send. rewrite Hq. cbn [fst snd]. rewrite set_all_range by done. unfold hs_on_conn. cbn [hs_conn hs_set_reqQ].
  destruct (with_timeout_write now timeout (answer_of (rq_Header r) rh rbody) (hs_conn s) Hc) as (c' & E & Hm).
  unfold answer_of in E. rewrite E. by exists c'.
Qed.

Lemma client_receives hc r q rh rbody rest :
  hc_r hc = Some r -> og_Method r = lit "POST" -> hc_open hc = true -> hc_locked hc = false -> d_Stream (hc_dialOpts hc) = false ->
  nc_closed (hc_conn hc) = 0%nat -> good_response (singles rh ∪ q) -> Z.of_nat (length rbody) < 2 ^ 63 ->
  concat (nc_in (hc_conn hc)) = answer_of q rh rbody ++ rest ->
  exists c', hc_Recv now timeout hc
    = (Ret (first_values (answered (singles rh ∪ q) rbody), rbody), mkHttpClient (hc_addr hc) c' (hc_dialOpts hc) None (hc_bl hc) true false)
    /\ moved (hc_conn hc) rest (nc_out (hc_conn hc)) c'.
Proof.
  intros Hr Hpost Ho Hl Hst Hc Hg Hb Hin.
  destruct (with_timeout_moves now timeout (read_response (lit "POST")) (hc_conn hc)
    (Ret (first_values (answered (singles rh ∪ q) rbody), rbody)) rest (nc_out (hc_conn hc))) as (c' & E & Hm).
  { intros c0 Hm0. unfold read_response, bind, trace, on_err.
    destruct (on_stream_reads (fun eof => ReadResponse eof (lit "POST")) c0
      (Ret (mkResponse 200 (lit "200 OK") (answered (singles rh ∪ q) rbody), response_frame rbody)) (rbody ++ rest)) as (c1 & -> & Hm1).
    - by rewrite (mv_closed _ _ _ _ Hm0).
    - rewrite (mv_in _ _ _ _ Hm0), Hin. apply response_reads; [by left|done|done|done].
    - cbn [snd fst rs_StatusCode]. destruct (on_stream_reads (fun eof => ReadAll eof (response_frame rbody)) c1 (Ret rbody) rest) as (c2 & -> & Hm2).
      + by rewrite (mv_closed _ _ _ _ Hm1), (mv_closed _ _ _ _ Hm0).
      + rewrite (mv_in _ _ _ _ Hm1). apply ReadAll_response.
      + change (negb (200 =? 200)) with false. cbv iota. cbn [rs_Header]. exists c2. split; [done|].
        rewrite (mv_out _ _ _ _ Hm1), (mv_out _ _ _ _ Hm0) in Hm2. eapply moved_trans; [exact Hm1|]. exact Hm2. }
  unfold hc_Recv. rewrite Hst, Hr, Hpost. unfold hc_read. cbn [hc_locked hc_open hc_set_queue]. rewrite Hl, Ho. cbn [negb].
  unfold hc_on_conn. cbn [hc_conn hc_set_queue]. rewrite E. exists c'. split; [|exact Hm]. unfold hc_set_conn. cbn. by rewrite Ho, Hl.
Qed.

End Exchange.


(** At the end of what comes, there is an error. *)
Lemma socket_ends now timeout s :
  hs_reader s = true -> nc_closed (hs_conn s) = 0%nat -> concat (nc_in (hs_conn s)) = [] ->
  exists e c', hs_Recv now timeout s = (Fail e, hs_set_conn c' s) /\ moved (hs_conn s) [] (nc_out (hs_conn s)) c'.
Proof.
  intros Hrd Hc Hin.
  destruct (with_timeout_moves now timeout (read_request true) (hs_conn s) (Fail (Traced (nc_end (hs_conn s)))) [] (nc_out (hs_conn s)))
    as (c' & E & Hm).
  { intros c0 Hm0. unfold read_request. cbn [negb]. unfold bind, trace, on_err.
    destruct (on_stream_reads ReadRequest c0 (Fail (nc_end c0)) []) as (c1 & -> & Hm1).
    - by rewrite (mv_closed _ _ _ _ Hm0).
    - by rewrite (mv_in _ _ _ _ Hm0), Hin.
    - exists c1. rewrite (mv_end _ _ _ _ Hm0). split; [done|]. by rewrite (mv_out _ _ _ _ Hm0) in Hm1. }
  unfold hs_Recv, hs_on_conn. rewrite Hrd, E. by eexists _, c'.
Qed.

(** ** Every connection ends *)

(** The bytes that are to come. *)
Definition to_come (c : net_conn) : nat := length (concat (nc_in c)).

(** [m] returns on the connection, and has taken [k] bytes if it has a value. *)
Definition conn_reads {A} (k : nat) (m : ST net_conn A) (c : net_conn) : Prop :=
  match m c with
  | (Ret _, c') => (to_come c' + k <= to_come c)%nat
  | (Fail _, c') => (to_come c' <= to_come c)%nat
  | _ => False
  end.

Lemma on_stream_ends {A} k (f : goerr -> ST bytes A) c : (forall eof s, takes k (f eof) s) -> conn_reads k (on_stream f) c.
Proof.
  intros Hf. unfold conn_reads, on_stream. destruct (0 <? nc_closed c)%nat.
  - specialize (Hf errClosing []). unfold takes in Hf. destruct (f errClosing []) as [[a|e| |] s]; cbn in Hf; try done. lia.
  - specialize (Hf (nc_end c) (concat (nc_in c))). unfold takes in Hf.
    destruct (f (nc_end c) (concat (nc_in c))) as [[a|e| |] s]; try done; unfold to_come at 1;
      rewrite (mv_in _ _ _ _ (moved_set_in c s)); done.
Qed.

Lemma conn_bind {A B} k (m : ST net_conn A) (f : A -> ST net_conn B) c :
  conn_reads k m c -> (forall a c', conn_reads 0 (f a) c') -> conn_reads k (bind m f) c.
Proof.
  unfold conn_reads, bind. destruct (m c) as [[a|e| |] c1]; try done. intros Hk Hf. specialize (Hf a c1).
  destruct (f a c1) as [[b|e| |] c2]; try done; lia.
Qed.

Lemma conn_trace {A} k (m : ST net_conn A) c : conn_reads k m c -> conn_reads k (trace m) c.
Proof. unfold conn_reads, trace, on_err, fail. by destruct (m c) as [[a|e| |] c1]. Qed.

Lemma conn_timeout {A} k now timeout (m : ST net_conn A) c : (forall c, conn_reads k m c) -> conn_reads k (with_timeout now timeout m) c.
Proof.
  intros Hm. unfold conn_reads, with_timeout. destruct (0 <? timeout); [|apply Hm]. specialize (Hm (SetNetConnTimeout now timeout c)).
  unfold conn_reads in Hm. by destruct (m _) as [[a|e| |] c1].
Qed.

Lemma conn_write b c : conn_reads 0 (net_Write b) c.
Proof.
  unfold conn_reads, net_Write. destruct (0 <? nc_closed c)%nat; [done|]. destruct (nc_limit c) as [[n e]|]; [|unfold to_come; cbn; lia].
  destruct (_ <=? _)%nat; unfold to_come; cbn; lia.
Qed.

Lemma read_request_ends c : conn_reads 1 (read_request true) c.
Proof.
  unfold read_request. cbn [negb]. apply conn_bind; [apply conn_trace, on_stream_ends, ReadRequest_reads|]. intros rf c1.
  apply conn_bind; [apply conn_trace, on_stream_ends; intros eof s; apply ReadAll_reads|]. intros b c2. unfold conn_reads, ret. lia.
Qed.

Lemma read_response_ends method c : conn_reads 0 (read_response method) c.
Proof.
  unfold read_response. apply conn_bind.
  { apply conn_trace, on_stream_ends. intros eof s. eapply takes_less; [|apply ReadResponse_reads]. lia. }
  intros rf c1. apply conn_bind; [apply conn_trace, on_stream_ends; intros eof s; apply ReadAll_reads|]. intros b c2.
  unfold conn_reads. destruct (negb _); unfold fail, ret; lia.
Qed.

(** What [Recv] of a socket comes to: a panic is for a socket without a reader, or a
    request whose URL has no path. *)
Lemma hs_Recv_cases now timeout s :
  match hs_Recv now timeout s with
  | (Ret _, s') => hs_reader s = true /\ hs_reqQ s' <> None /\ (to_come (hs_conn s') < to_come (hs_conn s))%nat
  | (Fail _, s') => hs_reader s = true /\ hs_reqQ s' = hs_reqQ s /\ (to_come (hs_conn s') <= to_come (hs_conn s))%nat
  | (Panic, s') => hs_reqQ s' = hs_reqQ s /\ (to_come (hs_conn s') <= to_come (hs_conn s))%nat
      /\ (hs_reader s = false \/ exists r b c', with_timeout now timeout (read_request true) (hs_conn s) = (Ret (r, b), c') /\ rq_Path r = [])
  | (NoFuel, _) => False
  end.
Proof.
  unfold hs_Recv, hs_on_conn. destruct (hs_reader s) eqn:Er.
  - pose proof (conn_timeout 1 now timeout (read_request true) (hs_conn s) (read_request_ends)) as H. unfold conn_reads in H.
    destruct (with_timeout now timeout (read_request true) (hs_conn s)) as [[[r b]|e| |] c'] eqn:E; try done.
    unfold request_header. destruct (rq_Path r) as [|c path] eqn:Ep.
    + split; [done|]. split; [cbn; lia|]. right. by exists r, b, c'.
    + split; [done|]. split; [by destruct (hs_reqQ s) eqn:Eq; cbn; rewrite Eq|]. cbn. lia.
  - unfold with_timeout, read_request. cbn [negb]. unfold panic. destruct (0 <? timeout); cbn; (split; [done|]; split; [unfold to_come; cbn; lia|by left]).
Qed.

(** A socket's promise to the loop: [Send] waits only before the first request; and
    [release] was called once if the connection is closed, and never before
    that. *)
Definition owned (released : nat) (s : httpTransportSocket) : Prop :=
  hs_released s = (released + nc_closed (hs_conn s))%nat
  /\ if hs_once s then nc_closed (hs_conn s) = 1%nat else hs_reader s = true /\ nc_closed (hs_conn s) = 0%nat.

Lemma owned_conn r s c q : nc_closed c = nc_closed (hs_conn s) -> owned r s -> owned r (hs_set_reqQ q (hs_set_conn c s)).
Proof. intros E. unfold owned. cbn. by rewrite E. Qed.

Lemma timeout_closed {A} now timeout (m : ST net_conn A) c :
  (forall c, nc_closed (m c).2 = nc_closed c) -> nc_closed (with_timeout now timeout m c).2 = nc_closed c.
Proof.
  intros Hm. unfold with_timeout. destruct (0 <? timeout); [|apply Hm]. specialize (Hm (SetNetConnTimeout now timeout c)).
  by destruct (m _) as [o c1].
Qed.

Lemma stream_closed {A} (f : goerr -> ST bytes A) c : nc_closed (on_stream f c).2 = nc_closed c.
Proof. unfold on_stream. destruct (0 <? nc_closed c)%nat; by destruct (f _ _) as [o s]. Qed.

Lemma read_request_closed reader c : nc_closed (read_request reader c).2 = nc_closed c.
Proof.
  unfold read_request. destruct reader; [|done]. cbn [negb]. unfold bind, trace, on_err, fail.
  pose proof (stream_closed ReadRequest c) as H. destruct (on_stream ReadRequest c) as [[rf|e| |] c1]; cbn in H; try done.
  pose proof (stream_closed (fun eof => ReadAll eof rf.2) c1) as H1. by destruct (on_stream _ c1) as [[b|e| |] c2]; cbn in *; rewrite H1.
Qed.

Lemma hs_Recv_owned now timeout r s : owned r s -> owned r (hs_Recv now timeout s).2.
Proof.
  intros Ho. unfold hs_Recv, hs_on_conn. pose proof (timeout_closed now timeout _ (hs_conn s) (read_request_closed (hs_reader s))) as Hc.
  destruct (with_timeout now timeout _ (hs_conn s)) as [[[q b]|e| |] c']; cbn in Hc;
    try (by apply (owned_conn r s c' (hs_reqQ s) Hc)). by destruct (request_header q); apply (owned_conn r s c').
Qed.

Lemma hs_Send_owned `{MapRange} now timeout r p s : owned r s -> owned r (hs_Send now timeout p s).2.
Proof.
  intros Ho. unfold hs_Send. destruct (hs_reqQ s) as [q|]; [|done]. unfold hs_on_conn. cbn [hs_conn hs_set_reqQ].
  match goal with |- context [with_timeout now timeout ?m (hs_conn s)] => pose proof (timeout_closed now timeout m (hs_conn s)) as Hc end.
  destruct (with_timeout now timeout _ (hs_conn s)) as [o c']. apply (owned_conn r s c' _); [|done]. apply Hc. intros c.
  unfold trace, on_err, fail, net_Write. destruct (0 <? nc_closed c)%nat; [done|]. destruct (nc_limit c) as [[n e]|]; [|done]. by destruct (_ <=? _)%nat.
Qed.

Lemma hs_Close_owned r s : owned r s -> owned r (hs_Close s).2 /\ hs_once (hs_Close s).2 = true.
Proof.
  intros [Hr Ho]. unfold hs_Close. destruct (hs_once s) eqn:E; [cbn; rewrite E; split; [split; [done|by rewrite E]|done]|].
  destruct Ho as [-> Hc]. cbn [negb]. unfold net_Close. unfold owned. cbn. rewrite Hr, Hc. split; [split; [lia|done]|done].
Qed.

Definition HttpSocketEnds `{MR : MapRange} now timeout (r : nat) : SocketEnds (SK := HttpSocket now timeout) httpTransportSocket.
Proof.
  refine {| sock_inv := owned r; sock_live := fun s => owned r s /\ hs_reqQ s <> None |}; cbn [sock_Recv sock_Send sock_Close sock_left HttpSocket].
  - by intros s [? _].
  - intros s. apply hs_Recv_owned.
  - intros s Hs. by apply hs_Close_owned.
  - intros s. pose proof (hs_Recv_cases now timeout s) as H. by destruct (hs_Recv now timeout s) as [[p|e| |] s'].
  - intros s. pose proof (hs_Recv_cases now timeout s) as H. unfold to_come in H.
    destruct (hs_Recv now timeout s) as [[p|e| |] s']; cbn in *; destruct_and?; try done; lia.
  - intros s [Ho Hs]. split; [by apply hs_Recv_owned|]. pose proof (hs_Recv_cases now timeout s) as H.
    destruct (hs_Recv now timeout s) as [[p|e| |] s']; cbn in *; destruct_and?; try done; congruence.
  - intros s p s' Ho E. pose proof (hs_Recv_owned now timeout r s Ho) as Ho'. pose proof (hs_Recv_cases now timeout s) as H.
    rewrite E in H, Ho'. unfold to_come in H. by destruct_and?.
  - intros p s [Ho Hs]. pose proof (hs_Send_owned now timeout r p s Ho) as Ho'. unfold hs_Send in *. destruct (hs_reqQ s) as [q|]; [|done].
    unfold hs_on_conn in *. cbn [hs_conn hs_set_reqQ] in *.
    match goal with |- context [with_timeout now timeout ?m (hs_conn s)] =>
      pose proof (conn_timeout 0 now timeout m (hs_conn s) (fun c => conn_trace 0 _ c (conn_write _ c))) as H' end.
    unfold conn_reads, to_come in H'. destruct (with_timeout now timeout _ (hs_conn s)) as [[a|e| |] c']; cbn in *; try done;
      (split; [done|]; split; [done|lia]).
  - intros s [Ho Hs]. split; [split; [by apply hs_Close_owned|]|]; unfold hs_Close; (destruct (hs_once s); [done|]);
      (destruct (negb (hs_reader s)); [done|]); by destruct (net_Close (hs_conn s)) as [o c] eqn:E; unfold net_Close in E; injection E as _ <-.
Defined.

Section Served.
Context `{VS : Values} `{UT : UnicodeTable} `{ET : ErrorText} `{MR : MapRange} {A : Type} {C : Type} `{SC : ServerCodec C value}.
Context (jsonrpc_NewCodec : NewCodec (C := C)) (now timeout : Z).

(** C10. Whatever bytes come over an HTTP connection, in whatever pieces, and however
    it ends, the server's loop over it ends, with methods that return and a codec
    that does: every request read takes bytes away, the reader's loops and the
    waits of [Send] end, a panic (of a URL without a path, a handler, the codec)
    is recovered; the connection is closed once, and the listener's semaphore
    released once. *)
Theorem http_connection_ends codecs rpc c a :
  codec_halts (C := C) -> table_ok func_halts rpc -> nc_closed c = 0%nat ->
  exists rpc' s' a',
    Serve.handlePkg (A := A) (SK := HttpSocket now timeout) jsonrpc_NewCodec codecs (mkConn rpc (initHTTPTransportSocket c) a)
    = (Ret tt, mkConn rpc' s' a')
    /\ table_ok func_halts rpc' /\ nc_closed (hs_conn s') = 1%nat /\ hs_released s' = 1%nat.
Proof.
  intros HC Hr Hc. pose (s := initHTTPTransportSocket c).
  destruct (loop_ends (SE := HttpSocketEnds now timeout 0) jsonrpc_NewCodec HC codecs (S (to_come c)) (mkConn rpc s a)) as [Hn [Ht Ho]].
  - split; [done|]. split; cbn; by rewrite Hc.
  - unfold left_over, to_come. cbn. lia.
  - unfold Serve.handlePkg. cbn [cn_socket sock_left HttpSocket hs_conn initHTTPTransportSocket]. fold (to_come c). fold s.
    destruct (Serve.handle_loop _ _ _ _) as [o [rpc' s' a']]. cbn [fst snd cn_rpc cn_socket cn_app] in *.
    destruct (hs_Close_owned 0 s' Ho) as [[Hrel Hcl] Hon]. rewrite Hon in Hcl. eexists _, _, _.
    split; [by destruct o|]. split; [done|]. cbn [sock_Close HttpSocket]. split; [done|]. rewrite Hrel, Hcl. done.
Qed.

(** C32. A server over TCP serves nothing.  Its socket reads into a body of no
    bytes: whatever comes is left where it is; the first thing that the loop
    finds is a package with neither header nor body, which it answers with the
    text that its content type is not supported, and the connection is
    closed; the semaphore is not released. *)
Theorem tcp_serves_nothing codecs rpc c a :
  codecs !! [] = None -> nc_closed c = 0%nat -> nc_limit c = None ->
  exists c', Serve.handlePkg (A := A) (SK := TcpSocket now) jsonrpc_NewCodec codecs (mkConn rpc (initTCPTransportSocket c) a)
      = (Ret tt, mkConn rpc (mkTcpSocket c' 0) a)
    /\ nc_in c' = nc_in c /\ nc_out c' = nc_out c ++ lit "Unsupported Content-Type: " /\ nc_closed c' = 1%nat.
Proof.
  intros Hcod Hc Hl. set (text := lit "Unsupported Content-Type: ").
  set (c1 := mkNetConn (nc_in c) (nc_end c) (nc_out c ++ text) None (nc_read_deadline c) (nc_write_deadline c) (nc_closed c)).
  assert (Hw : forall b, net_Write b c = (Ret tt, mkNetConn (nc_in c) (nc_end c) (nc_out c ++ b) None (nc_read_deadline c) (nc_write_deadline c) (nc_closed c))).
  { intros b. unfold net_Write. by rewrite Hc, Hl. }
  exists (net_Close c1).2. split; [|by rewrite <- Hc].
  rewrite (unsupported_type (SK := TcpSocket now) jsonrpc_NewCodec codecs rpc (initTCPTransportSocket c) ∅ [] (initTCPTransportSocket c) (Ret tt) (mkTcpSocket c1 0) a).
  - do 2 f_equal. cbn [sock_Close TcpSocket]. unfold ts_Close, ts_on_conn, trace, on_err, fail. cbn [ts_conn ts_timeout].
    unfold net_Close. cbn [nc_closed c1]. by rewrite Hc.
  - cbn [sock_Recv TcpSocket]. unfold ts_Recv, ts_on_conn, with_timeout. cbn [ts_timeout initTCPTransportSocket ts_conn length Z.ltb Z.compare].
    unfold net_Read. rewrite Hc. cbn. done.
  - cbn [sock_Send TcpSocket snd]. unfold ts_Send, ts_on_conn, with_timeout. cbn [ts_timeout initTCPTransportSocket ts_conn Z.ltb Z.compare].
    unfold trace, on_err. by rewrite Hw.
  - exact Hcod.
  - done.
  - done.
Qed.

End Served.

(** ** The queue of a socket *)

(** A socket answers every request under the header of its first: the queue
    keeps the first request, whose map every response fills up further; what a
    later request has in its header does not come back, and what an earlier
    response had does. *)
Lemma first_header_stays `{MapRange} now timeout s host path hd1 body1 rh1 rbody1 hd2 body2 rh2 rbody2 :
  hs_reader s = true -> hs_reqQ s = None -> ready (hs_conn s) -> good_peer host path hd1 -> good_peer host path hd2 ->
  plain_header rh1 -> plain_header rh2 -> Z.of_nat (length body1) < 2 ^ 63 -> Z.of_nat (length body2) < 2 ^ 63 ->
  concat (nc_in (hs_conn s)) = text_of host path hd1 body1 ++ text_of host path hd2 body2 ->
  exists s1 s2 s3 s4,
    hs_Recv now timeout s = (Ret (request_arrives path hd1 body1, body1), s1)
    /\ hs_Send now timeout (rh1, rbody1) s1 = (Ret tt, s2)
    /\ hs_Recv now timeout s2 = (Ret (request_arrives path hd2 body2, body2), s3)
    /\ hs_Send now timeout (rh2, rbody2) s3 = (Ret tt, s4)
    /\ nc_out (hs_conn s4) = nc_out (hs_conn s)
         ++ answer_of (received (singles hd1) body1) rh1 rbody1
         ++ answer_of (singles rh1 ∪ received (singles hd1) body1) rh2 rbody2.
Proof.
  intros Hrd Hq Hc Hg1 Hg2 Hh1 Hh2 Hb1 Hb2 Hin.
  destruct (socket_receives now timeout s host path hd1 body1 _ Hrd (proj1 Hc) Hg1 Hb1 Hin) as (c1 & E1 & Hm1). rewrite Hq in E1.
  pose proof (moved_ready _ _ _ _ Hm1 Hc) as Hc1.
  match type of E1 with _ = (_, ?s1) => destruct (socket_sends now timeout s1 _ rh1 rbody1 Hc1 eq_refl Hh1) as (c2 & E2 & Hm2) end.
  pose proof (moved_ready _ _ _ _ Hm2 Hc1) as Hc2. cbn [hs_conn rq_Method rq_Path rq_Header hs_reader hs_once hs_released default] in *.
  match type of E2 with _ = (_, ?s2) => destruct (socket_receives now timeout s2 host path hd2 body2 [] eq_refl (proj1 Hc2) Hg2 Hb2) as (c3 & E3 & Hm3) end.
  { cbn [hs_conn]. rewrite (mv_in _ _ _ _ Hm2), (mv_in _ _ _ _ Hm1). by rewrite app_nil_r. }
  pose proof (moved_ready _ _ _ _ Hm3 Hc2) as Hc3.
  match type of E3 with _ = (_, ?s3) => destruct (socket_sends now timeout s3 _ rh2 rbody2 Hc3 eq_refl Hh2) as (c4 & E4 & Hm4) end.
  eexists _, _, _, _. split; [exact E1|]. split; [exact E2|]. split; [exact E3|]. split; [exact E4|].
  cbn [hs_conn hs_reqQ default rq_Header] in *. rewrite (mv_out _ _ _ _ Hm4), (mv_out _ _ _ _ Hm3), (mv_out _ _ _ _ Hm2), (mv_out _ _ _ _ Hm1).
  by rewrite <- app_assoc.
Qed.

(** ** Clients that were closed *)

(** After [Close], [Recv] answers the end of the stream; [Send] panics, on the
    closed channel, and leaves the mutex locked, so that every later [Send]
    waits forever. *)
Lemma closed_client `{MapRange} now timeout hc pkg pkg' :
  hc_open hc = true -> hc_locked hc = false -> d_Stream (hc_dialOpts hc) = false ->
  exists o hc1, hc_Close hc = (o, hc1) /\ nc_closed (hc_conn hc1) = S (nc_closed (hc_conn hc))
    /\ hc_Close hc1 = (Ret tt, hc1)
    /\ (exists hc2, hc_Recv now timeout hc1 = (Fail EOF, hc2) /\ hc_conn hc2 = hc_conn hc1)
    /\ exists hc2, hc_Send now timeout pkg hc1 = (Panic, hc2) /\ nc_out (hc_conn hc2) = nc_out (hc_conn hc)
       /\ hc_Send now timeout pkg' hc2 = (NoFuel, hc2).
Proof.
  intros Ho Hl Hs. unfold hc_Close at 1. rewrite Ho, Hl. cbn [negb]. unfold trace, on_err, net_Close, fail.
  set (hc1 := mkHttpClient (hc_addr hc) (mkNetConn (nc_in (hc_conn hc)) (nc_end (hc_conn hc)) (nc_out (hc_conn hc)) (nc_limit (hc_conn hc))
    (nc_read_deadline (hc_conn hc)) (nc_write_deadline (hc_conn hc)) (S (nc_closed (hc_conn hc)))) (hc_dialOpts hc) (hc_r hc) (hc_bl hc) false false).
  exists (if (0 <? nc_closed (hc_conn hc))%nat then Fail (Traced errClosing) else Ret tt), hc1. split; [by destruct (0 <? nc_closed (hc_conn hc))%nat|]. split; [done|]. split; [done|]. split.
  - unfold hc_Recv. cbn [hc_dialOpts hc_r hc_open hc1]. rewrite Hs. destruct (hc_r hc) as [r|]; [|by eexists].
    unfold hc_read. cbn. by eexists.
  - unfold hc_Send, bind, enqueue. cbn [hc_locked hc_open negb hc1]. eexists. split; [reflexivity|]. split; [done|]. done.
Qed.

(** ** Witnesses *)

(** A connection on which some pieces come, and then its end. *)
Definition connection (ps : list bytes) : net_conn := mkNetConn ps EOF [] None None None 0.

Definition ping_client : httpTransportClient :=
  initHTTPTransportClient (lit "127.0.0.1:80") (connection []) (dial_options [WithPath (lit "/ping")]).
Definition ping_header : Header := {[content_type := lit "text/plain"]}.
Definition ping_text (body : bytes) : bytes := text_of (lit "127.0.0.1:80") (lit "/ping") ping_header body.

Lemma ping_plain : plain_header ping_header.
Proof.
  intros k v Hk. unfold ping_header in Hk. apply lookup_singleton_Some in Hk as [<- <-].
  split; [by apply check_key_ok|]. split; [by apply check_value_ok|]. refine (bool_decide_eq_false_1 _ _). vm_compute. reflexivity.
Qed.

Lemma ping_peer : good_peer (lit "127.0.0.1:80") (lit "/ping") ping_header.
Proof.
  split; [split; [done|by apply check_value_ok]| |exact ping_plain].
  right. eexists. split; [reflexivity|]. refine (bool_decide_eq_true_1 _ _). vm_compute. reflexivity.
Qed.


#[local] Existing Instances Values0 UnicodeTable0 ErrorText0 ServerCodec0.

(** The server of [ServeSafe]'s samples, over bytes that are no request. *)
Lemma http_connection_ends_witness :
  exists rpc' s' a', Serve.handlePkg (SK := HttpSocket 0 0) NewCodec0 ∅
      (mkConn server0 (initHTTPTransportSocket (connection [lit "GET http://h HTTP/1.1"; crlf; crlf])) 0%nat)
    = (Ret tt, mkConn rpc' s' a') /\ hs_released s' = 1%nat.
Proof.
  destruct (http_connection_ends NewCodec0 0 0 ∅ server0 (connection [lit "GET http://h HTTP/1.1"; crlf; crlf]) 0%nat) as (rpc' & s' & a' & E & _ & _ & Hr).
  - exact codec_halts0.
  - apply (conn0_halting []).
  - reflexivity.
  - exists rpc', s', a'. split; [exact E|exact Hr].
Defined.

Lemma tcp_serves_nothing_witness :
  exists c', Serve.handlePkg (SK := TcpSocket 0) NewCodec0 ∅ (mkConn server0 (initTCPTransportSocket (connection [lit "hello"])) 0%nat)
      = (Ret tt, mkConn server0 (mkTcpSocket c' 0) 0%nat)
    /\ nc_in c' = [lit "hello"] /\ nc_out c' = lit "Unsupported Content-Type: ".
Proof.
  destruct (tcp_serves_nothing NewCodec0 0 ∅ server0 (connection [lit "hello"]) 0%nat) as (c' & E & Hin & Hout & _).
  - reflexivity.
  - reflexivity.
  - reflexivity.
  - exists c'. split; [exact E|]. split; [exact Hin|exact Hout].
Defined.
