(* ===== verification/TcpCall.v ===== *)
(** * A call over TCP

    A call of a dubbo client, through its pool, its stream, the hessian codec and
    [tcp_transport.go]: what becomes of a response, by the pieces in which the
    connection delivers it. *)
From S2P Require Import Prelude.
From S2P Require Import Utf8 Bufio HessianConst HessianEncode HessianValue Pojo HessianEncoder HessianDecoder.
From S2P Require Import HessianTree HessianRequest HessianResponse HessianCodec HessianFrame.
From S2P Require Import Registry Common Pool Rpc RpcFrame Client Http HttpText Net Transport TransportSafe.

(** ** The connection *)

Section Tcp.
Context (now timeout : Z).
#[local] Instance tcp_client : TransportClient net_conn := TcpClient now timeout.

Lemma own_deadline c : SetReadDeadline (nc_read_deadline c) c = c.
Proof. by destruct c. Qed.

(** A piece of work for which time limits make no difference. *)
Lemma with_timeout_same {X} (m : ST net_conn X) c o (P : net_conn -> Prop) :
  (forall t, exists c', m (SetReadDeadline t c) = (o, c') /\ P c') -> (forall t c', P c' -> P (SetReadDeadline t c')) ->
  exists c', with_timeout now timeout m c = (o, c') /\ P c'.
Proof.
  intros Hm HP. unfold with_timeout. destruct (0 <? timeout).
  - unfold SetNetConnTimeout. destruct (Hm (if 0 <? timeout then Some (now + timeout) else None)) as (c' & -> & Hc'). eauto.
  - destruct (Hm (nc_read_deadline c)) as (c' & E & Hc'). rewrite own_deadline in E. eauto.
Qed.

(** What a connection has in and out, and how it ends. *)
Record tcp_state (ins : list bytes) (out : bytes) (e : goerr) (c : net_conn) : Prop := {
  ts_in : nc_in c = ins;
  ts_out : nc_out c = out;
  ts_end : nc_end c = e;
  ts_ready : ready c
}.

Lemma tcp_state_deadline ins out e t c : tcp_state ins out e c -> tcp_state ins out e (SetReadDeadline t c).
Proof. by intros [? ? ? []]. Qed.

Lemma tcp_sends ins out e header pkg c :
  tcp_state ins out e c -> exists c', tr_Send (header, pkg) c = (Ret tt, c') /\ tcp_state ins (out ++ pkg) e c'.
Proof.
  intros Hc. cbn [tr_Send tcp_client TcpClient]. unfold tc_Send. apply with_timeout_same.
  - intros t. destruct (tcp_state_deadline ins out e t c Hc) as [Hin Hout He [Hcl Hl]].
    unfold trace, on_err, net_Write. rewrite Hcl, Hl. change (0 <? 0)%nat with false. eexists. split; [reflexivity|].
    cbn [snd]. by split; [| rewrite <- Hout| |split].
  - intros. by apply tcp_state_deadline.
Qed.

(** The pieces after a read of 4096 bytes. *)
Definition after_read (p : bytes) (ps : list bytes) : list bytes := match drop 4096 p with [] => ps | q => q :: ps end.

Lemma tcp_receives p ps out e c :
  tcp_state (p :: ps) out e c -> p <> [] ->
  exists c', tr_Recv c = (Ret (None, take 4096 p), c') /\ tcp_state (after_read p ps) out e c'.
Proof.
  intros Hc Hp. cbn [tr_Recv tcp_client TcpClient]. unfold tc_Recv.
  destruct (with_timeout_same (trace (tc_read [])) c (Ret (take 4096 p)) (tcp_state (after_read p ps) out e)) as (c' & -> & Hc').
  - intros t. destruct (tcp_state_deadline (p :: ps) out e t c Hc) as [Hin Hout He [Hcl Hl]].
    unfold trace, on_err, tc_read, bind, trace, on_err, net_Read. rewrite Hcl, Hin. change (0 <? 0)%nat with false.
    change (4096 =? 0)%nat with false. cbv iota. rewrite bool_decide_eq_false_2.
    + eexists. split; [reflexivity|]. by split.
    + destruct p; [done|]. by intros.
  - intros. by apply tcp_state_deadline.
  - by exists c'.
Qed.

(** When nothing has come, and when an empty piece has. *)
Lemma tcp_fails ins out e c :
  tcp_state ins out e c -> head ins = Some [] \/ ins = [] -> exists err c', tr_Recv c = (Fail err, c') /\ tcp_state (tail ins) out e c'.
Proof.
  intros Hc Hin0. cbn [tr_Recv tcp_client TcpClient]. unfold tc_Recv.
  destruct (with_timeout_same (trace (tc_read [])) c (match ins with [] => Fail (Traced (Traced e)) | _ => Fail (Traced EOF) end)
    (tcp_state (tail ins) out e)) as (c' & -> & Hc').
  - intros t. destruct (tcp_state_deadline ins out e t c Hc) as [Hin Hout He [Hcl Hl]].
    unfold trace, on_err, tc_read, bind, trace, on_err, net_Read. rewrite Hcl, Hin. change (0 <? 0)%nat with false.
    change (4096 =? 0)%nat with false. cbv iota. destruct ins as [|p ps].
    + rewrite He. eexists. split; [reflexivity|]. by split.
    + destruct Hin0 as [[= ->]|]; [|done]. eexists. split; [reflexivity|]. by split.
  - intros. by apply tcp_state_deadline.
  - destruct ins; by eexists _, c'.
Qed.

Lemma after_read_length p ps : p <> [] -> (length (concat (after_read p ps)) < length (concat (p :: ps)))%nat.
Proof.
  intros Hp. assert (0 < length p)%nat by (destruct p; [done|cbn; lia]).
  cbn [concat]. unfold after_read. pose proof (length_drop p 4096) as Hd.
  destruct (drop 4096 p) as [|q0 q] eqn:E; cbn [concat]; rewrite !length_app; cbn [length] in *; lia.
Qed.

(** Reading on, the packages come to an end. *)
Lemma tcp_drains k : forall ins out e c, (length (concat ins) <= k)%nat -> tcp_state ins out e c ->
  exists n err c', drains n c err c' /\ (n <= k)%nat /\ nc_out c' = out /\ ready c'.
Proof.
  induction k as [|k IH]; intros ins out e c Hk Hc.
  - destruct ins as [|p ps]; [|destruct p; [|cbn in Hk; lia]].
    + destruct (tcp_fails [] out e c Hc) as (err & c' & E & [_ Hout _ Hr]); [by right|].
      exists 0%nat, err, c'. split_and!; [by apply drains_end|done|done|done].
    + destruct (tcp_fails ([] :: ps) out e c Hc) as (err & c' & E & [_ Hout _ Hr]); [by left|].
      exists 0%nat, err, c'. split_and!; [by apply drains_end|done|done|done].
  - destruct ins as [|p ps]; [|destruct (decide (p = [])) as [->|Hp]].
    + destruct (tcp_fails [] out e c Hc) as (err & c' & E & [_ Hout _ Hr]); [by right|].
      exists 0%nat, err, c'. split_and!; [by apply drains_end|lia|done|done].
    + destruct (tcp_fails ([] :: ps) out e c Hc) as (err & c' & E & [_ Hout _ Hr]); [by left|].
      exists 0%nat, err, c'. split_and!; [by apply drains_end|lia|done|done].
    + destruct (tcp_receives p ps out e c Hc Hp) as (c1 & E & Hc1). pose proof (after_read_length p ps Hp) as Hl.
      destruct (IH (after_read p ps) out e c1 ltac:(lia) Hc1) as (n & err & c' & Hd & Hn & Ho & Hr).
      exists (S n), err, c'. split_and!; [by eapply drains_next|lia|done|done].
Qed.

Lemma closed_out c c' : closed_from c c' -> nc_out c' = nc_out c /\ (0 < nc_closed c')%nat.
Proof.
  assert (H : forall c, nc_out (tr_Close c).2 = nc_out c /\ (0 < nc_closed (tr_Close c).2)%nat).
  { intros c0. cbn [tr_Close tcp_client TcpClient]. unfold tc_Close, trace, on_err, net_Close. destruct (0 <? nc_closed c0)%nat; (split; [done|cbn; lia]). }
  unfold closed_from. induction 1 as [c c' ->|c c1 c' -> _ [IH1 IH2]]; [apply H|]. split; [|done]. rewrite IH1. apply H.
Qed.

(** ** The call *)

Context `{GX : GxStrings} {GXok : GxStringsOk} `{App : Application}.
Context (range : list (value * value) -> list (value * value)) (g : POJORegistry).
#[local] Instance dubbo_codec : Codec hessian_conn value := hessian_codec range g.

Lemma two_prefixes {A} (a b c d : list A) : a ++ b = c ++ d ->
  (exists r, a = c ++ r) \/ exists r, r <> [] /\ a ++ r = c.
Proof.
  intros E. destruct (decide (length c <= length a)%nat) as [Hl|Hl].
  - left. exists (drop (length c) a). apply (f_equal (take (length c))) in E. rewrite take_app_le, take_app_length in E by done.
    rewrite <- E at 1. by rewrite take_drop.
  - right. exists (drop (length a) c). split.
    + intros Hn. apply (f_equal length) in Hn. rewrite length_drop in Hn. cbn in Hn. lia.
    + apply (f_equal (take (length a))) in E. rewrite take_app_length, take_app_le in E by lia. rewrite E at 1. by rewrite take_drop.
Qed.

(** The exchange, when the first piece holds the response, and when it does not. *)
Lemma tcp_exchange ins out e p ps (conn : net_conn) reqID service (req : rpcRequest value) timeout' pkg flags id v v' ty old x g0 more :
  let body := e_buffer ((Encode (VInt Int32 RESPONSE_VALUE) ;;; Encode v) (NewEncoder g0)).2 in
  request_bytes range g reqID service req timeout' = Ret pkg ->
  flags_ok flags -> is_i64 id -> portable v v' -> direct v' -> set_value ty v' = Some x -> Z.of_nat (length body) < 2 ^ 32 ->
  ins = p :: ps -> tcp_state ins out e conn -> p <> [] -> p ++ concat ps = response_package flags id body ++ more ->
  exists o s' y, exchange timeout' (new_stream reqID service req None conn (NewCodec [], []), VPtr ty old) = (o, (s', y))
    /\ nc_out (client_of s') = out ++ pkg
    /\ if decide (16 + length body <= length (take 4096 p))%nat then o = Ret tt /\ y = VPtr ty x else (exists e, o = Fail e) /\ y = VPtr ty old.
Proof.
  intros body Hw Hf Hid Hp Hdir Hset Hl32 -> Hc Hne Hin.
  destruct (tcp_sends (p :: ps) out e None pkg conn Hc) as (c1 & Es & Hc1).
  destruct (tcp_receives p ps (out ++ pkg) e c1 Hc1 Hne) as (c2 & Er & Hc2).
  rewrite <- (take_drop 4096 p), <- app_assoc in Hin.
  assert (Hlen : length (response_package flags id body) = (16 + length body)%nat) by done.
  destruct (two_prefixes _ _ _ _ Hin) as [[r Hr]|(r & Hrn & Hr)].
  - assert (Hl : (16 + length body <= length (take 4096 p))%nat) by (rewrite Hr, length_app, Hlen; lia).
    assert (Hb : (length body <= bufsize)%nat) by (rewrite length_take in Hl; unfold bufsize; lia).
    rewrite Hr in Er.
    destruct (exchange_value range g reqID service req None conn c1 c2 (NewCodec [], []) timeout' pkg flags id v v' ty old x g0 None r)
      as (s' & E & Hcl); try done.
    exists (Ret tt), s', (VPtr ty x). split; [exact E|]. split; [by rewrite Hcl; apply Hc2|]. by rewrite decide_True.
  - assert (Hl : (length (take 4096 p) < 16 + length body)%nat).
    { rewrite <- Hlen, <- Hr, length_app. destruct r; [done|cbn; lia]. }
    destruct (tcp_drains (length (concat (nc_in c2))) (after_read p ps) (out ++ pkg) e c2) as (n & err & c3 & Hd & Hn & Ho3 & _).
    { by destruct Hc2 as [-> _ _ _]. } { done. }
    destruct (partial_response_fails range g reqID service req None conn c1 c2 (NewCodec [], []) timeout' pkg flags id body (take 4096 p) r
      (VPtr ty old) None n err c3) as (e' & s' & E & Hcl); try done.
    exists (Fail e'), s', (VPtr ty old). split; [exact E|]. split.
    + destruct Hcl as [-> | ->]; [apply Hc2|done].
    + rewrite decide_False by lia. split; [by eexists|done].
Qed.

(** C3. A dubbo call over TCP: the client sends the request's package on the
    connection that it dials, and closes it when the call is over.  The
    caller's variable gets the value of the response if and only if all of it
    is in the first piece that the connection delivers, of which 4096 bytes are
    read; if a byte is missing there, the call fails, though it comes later. *)
Theorem dubbo_over_tcp p ps conn reqID service req opts sz ttl now' now'' st md pkg flags id v v' ty old x g0 more :
  let T := request_timeout service (RequestTimeout opts) in
  let body := e_buffer ((Encode (VInt Int32 RESPONSE_VALUE) ;;; Encode v) (NewEncoder g0)).2 in
  request_bytes range g reqID service req T = Ret pkg ->
  flags_ok flags -> is_i64 id -> portable v v' -> direct v' -> set_value ty v' = Some x -> Z.of_nat (length body) < 2 ^ 32 ->
  ready conn -> nc_in conn = p :: ps -> p <> [] -> p ++ concat ps = response_package flags id body ++ more ->
  at_rest sz ttl st -> ttl < now' -> is_i64 now' -> 0 < now'' ->
  exists o st' y c',
    call (NewCodec [], []) CODECTYPE_DUBBO now' now'' (inr conn) None md reqID service req opts (st, VPtr ty old) = (o, (st', y))
    /\ at_rest sz ttl st' /\ cs_conns st' !! next_ptr (cs_pool st) = Some c'
    /\ nc_out c' = nc_out conn ++ pkg /\ (0 < nc_closed c')%nat
    /\ if decide (16 + length body <= length (take 4096 p))%nat then o = Ret tt /\ y = VPtr ty x else (exists e, o = Fail e) /\ y = VPtr ty old.
Proof.
  intros T body Hw Hf Hid Hp Hdir Hset Hl32 Hrdy Hins Hne Hin Hst Ht Hi Hn.
  assert (Hc : tcp_state (p :: ps) (nc_out conn) (nc_end conn) conn) by (by split).
  destruct (tcp_exchange _ _ _ p ps conn reqID service req T pkg flags id v v' ty old x g0 more Hw Hf Hid Hp Hdir Hset Hl32 eq_refl Hc Hne Hin)
    as (o & s & y & E & Hout & Ho).
  destruct (call_runs (NewCodec [], []) CODECTYPE_DUBBO sz ttl now' now'' conn md reqID service req opts st (VPtr ty old) o s y Hst Ht Hi Hn E)
    as (st' & c' & Ec & Hst' & Hl & Hcl).
  { destruct (decide _); [by destruct Ho as [-> _]|by destruct Ho as [[e ->] _]]. }
  destruct (closed_out _ _ Hcl) as [Hco Hcc].
  exists (call_result o), st', y, c'. split; [exact Ec|]. split; [done|]. split; [done|]. split; [by rewrite Hco, <- Hout|]. split; [done|].
  fold body in Ho. destruct (decide _); [by destruct Ho as [-> ->]|destruct Ho as [[e ->] ->]; split; [by eexists|done]].
Qed.

End Tcp.

(** ** Witness *)

Definition sample_response : bytes := response_package 2 7 Sample.body.

(** The response in one piece, and in two. *)
Definition whole_conn : net_conn := connection [sample_response].
Definition split_conn : net_conn := connection [take 18 sample_response; drop 18 sample_response].

Definition sample_options : CallOptions := mkCallOptions Second 1 Second false.

Definition sample_call (conn : net_conn) : outcome unit * (cstate net_conn * value) :=
  call (CC := @hessian_codec plain_Slice sample_app id pojoRegistry) (TC := TcpClient 0 0) (NewCodec [], []) CODECTYPE_DUBBO 100 101
    (inr conn) None None 7 Sample.url Sample.req sample_options (mkState (newPool 1 60) ∅, VPtr TString (VString [])).

Lemma sample_pkg :
  @request_bytes plain_Slice sample_app id pojoRegistry 7 Sample.url Sample.req (request_timeout Sample.url (RequestTimeout sample_options))
  = Ret Sample.pkg.
Proof. vm_compute. reflexivity. Qed.

Lemma dubbo_over_tcp_witness :
  (exists st, sample_call whole_conn = (Ret tt, (st, VPtr TString (VString (lit "ok")))) /\ at_rest 1 60 st)
  /\ exists e st, sample_call split_conn = (Fail e, (st, VPtr TString (VString []))) /\ at_rest 1 60 st.
Proof.
  assert (H : forall p ps more, p <> [] -> p ++ concat ps = sample_response ++ more ->
    exists o st y c', sample_call (connection (p :: ps)) = (o, (st, y)) /\ at_rest 1 60 st /\ cs_conns st !! 0%nat = Some c'
      /\ nc_out c' = nc_out (connection (p :: ps)) ++ Sample.pkg /\ (0 < nc_closed c')%nat
      /\ if decide (16 + length Sample.body <= length (take 4096 p))%nat
         then o = Ret tt /\ y = VPtr TString (VString (lit "ok")) else (exists e, o = Fail e) /\ y = VPtr TString (VString [])).
  { intros p ps more Hp Hin.
    destruct (@dubbo_over_tcp 0 0 plain_Slice plain_Slice_ok sample_app id pojoRegistry p ps (connection (p :: ps)) 7 Sample.url Sample.req
      sample_options 1 60 100 101 (mkState (newPool 1 60) ∅) None Sample.pkg 2 7
      (VString (lit "ok")) (VString (lit "ok")) TString (VString []) (VString (lit "ok")) pojoRegistry more)
      as (o & st & y & c' & E & Hst & Hc & Ho & Hcl & Hy).
    - exact sample_pkg.
    - split; vm_compute; [discriminate|reflexivity].
    - unfold is_i64. lia.
    - by apply portable_text, text_lit.
    - exact I.
    - reflexivity.
    - vm_compute. reflexivity.
    - by split.
    - reflexivity.
    - exact Hp.
    - exact Hin.
    - apply new_client_at_rest.
    - lia.
    - unfold is_i64. lia.
    - lia.
    - exists o, st, y, c'. split; [exact E|]. split; [exact Hst|]. split; [exact Hc|]. split; [exact Ho|]. split; [exact Hcl|exact Hy]. }
  split.
  - destruct (H sample_response [] []) as (o & st & y & c' & E & Hst & _ & _ & _ & Hy).
    { done. } { reflexivity. }
    rewrite decide_True in Hy by (apply (bool_decide_unpack _); vm_compute; exact I). destruct Hy as [-> ->].
    exists st. split; [exact E|exact Hst].
  - destruct (H (take 18 sample_response) [drop 18 sample_response] []) as (o & st & y & c' & E & Hst & _ & _ & _ & Hy).
    { done. } { reflexivity. }
    rewrite decide_False in Hy by (apply (bool_decide_unpack _); vm_compute; exact I). destruct Hy as [[e ->] ->].
    exists e, st. split; [exact E|exact Hst].
Defined.
