(* ===== verification/JsonClient.v ===== *)
(** * JSON-RPC as a client's codec

    [codec/jsonrpc/] behind the interface [Codec] of a call's stream: an instance of
    it, with the laws [CodecReads] that the stream needs, from the theorems of
    [JsonCall]. *)
From S2P Require Import Prelude.
From S2P Require Import Utf8 HessianConst HessianRequest Registry Url Common Rpc RpcFrame.
From S2P Require Import Server Json JsonText JsonCodec JsonCall.

(** ** The instance *)

(** [codec.Message] as this codec uses it, and what becomes of it. *)
Definition to_codec (m : message) : codecMessage :=
  mkCodecMessage (Target m.1) (Method m.1) (ID m.1) (HessianRequest.Error m.1) (Type_ m.1) m.2.

Definition of_codec (cm : codecMessage) (m : message) : message :=
  (mkMessage (cm_ID cm) (HessianRequest.Version m.1) (cm_Type cm) (ServicePath m.1) (cm_Target cm) (cm_Method cm)
     (Timeout m.1) (cm_Error cm) (BodyLen m.1), cm_Header cm).

Definition with_message (f : ST (jsonCodec * codecMessage) unit) : ST (jsonCodec * message) unit := fun '(j, m) =>
  let '(o, (j, cm)) := f (j, to_codec m) in (o, (j, of_codec cm m)).

(** The kinds of message have the same numbers in both models. *)
Lemma same_kinds : MT_Request = codec_Request /\ MT_Response = codec_Response.
Proof. done. Qed.

Section Client.
Context `{VS : Values} `{JV : !JsonValues} `{ET : ErrorText}.

#[export] Instance JsonClientCodec : Codec jsonCodec value := {|
  codec_Write x := with_message (Write x);
  codec_ReadHeader mt := with_message (ReadHeader mt);
  codec_ReadBody := ReadBody_into;
  codec_Close := Close;
  codec_nil := nil_value;
  Rpc.rbuf_Write := rbuf_Write;
  Rpc.rbuf_Reset := rbuf_Reset;
  Rpc.wbuf_Reset := wbuf_Reset;
  Rpc.wbuf_Bytes := wbuf_Bytes
|}.

(** ** The laws *)

(** A response that the server's codec has written, and what the client's makes of
    it. *)
Definition json_response (pkg : bytes) (id : Z) (err : bytes) (y y' : value) : Prop :=
  exists u e, 0 <= id < 2 ^ 63 /\ json_text u /\ utf8_text e /\ is_nil y = false
    /\ pkg = response_text (Itoa id) (Some u) (error_part e) ++ [10] /\ err = error_of_response e
    /\ (err = [] -> read_result u y = Ret y').

Lemma requested_reset j method id : requested j method id -> rbuf_Reset j = j.
Proof. intros (_ & _ & _ & Hr). destruct j. cbn in *. by subst. Qed.

Context (nil_is_nil : is_nil nil_value = true).

Lemma json_reads j pkg id err y y' :
  (exists method, requested j method id) -> json_response pkg id err y y' ->
  exists j1 m1 j2 x,
    codec_ReadHeader MT_Response (Rpc.rbuf_Write pkg (Rpc.rbuf_Reset j), zero_message) = (Ret tt, (j1, m1))
    /\ ID m1.1 = id /\ HessianRequest.Error m1.1 = err
    /\ codec_ReadBody (j1, match err with [] => y | _ => codec_nil end) = (Ret tt, (j2, x)) /\ (err = [] -> x = y').
Proof.
  intros [method Hj] (u & e & Hid & Hu & He & Hy & -> & -> & Hres).
  destruct (read_response j method id u e (to_codec zero_message) Hj Hid Hu He) as (j1 & E1 & Hgot).
  exists j1, (of_codec (set_Error (error_of_response e) (set_ID id (set_Method method (to_codec zero_message)))) zero_message), j1.
  cbn [codec_ReadHeader codec_ReadBody codec_nil JsonClientCodec Rpc.rbuf_Write Rpc.rbuf_Reset].
  rewrite (requested_reset j method id Hj). unfold with_message. change zero_message with (zero_message.1, zero_message.2) at 1.
  destruct same_kinds as [_ ->]. change (zero_message.1, zero_message.2) with zero_message. rewrite E1.
  unfold error_of_response in *. case_bool_decide as Hee.
  - exists y'. split_and!; [reflexivity|done|done| |done]. by apply (into_response j1 u y y'); auto.
  - exists nil_value. split_and!; [reflexivity|done|done| |done]. by apply (into_nil j1 u).
Qed.

#[export] Instance JsonReads : CodecReads jsonCodec value := {|
  awaits j id := exists method, requested j method id;
  response_of := json_response;
  reads_response := json_reads
|}.

(** What the codec writes for the request of a stream. *)
Lemma json_writes seq url (req : Rpc.rpcRequest value) timeout x' params :
  checked_param (rq_args req) = Ret (Some x') -> marshal x' = inr params ->
  exists j m, codec_Write (rq_args req) (Rpc.wbuf_Reset (NewCodec []), stream_message seq url req timeout) = (Ret tt, (j, m))
    /\ m.2 = ∅ /\ Rpc.wbuf_Bytes j = request_text (rq_method req) params (Z.land seq MAX_JSONRPC_ID) ++ [10]
    /\ awaits j (Z.land seq MAX_JSONRPC_ID).
Proof.
  intros Hc Hm.
  destruct (write_request (rq_args req) x' params (rq_service req) (rq_method req) seq [] ∅ Hc Hm) as (j & E & Hb & Hj).
  exists j. eexists. split.
  - cbn [codec_Write JsonClientCodec Rpc.wbuf_Reset]. unfold with_message.
    change (to_codec (stream_message seq url req timeout)) with (mkCodecMessage (rq_service req) (rq_method req) seq [] codec_Request ∅).
    change (wbuf_Reset (NewCodec [])) with (NewCodec []). rewrite E. reflexivity.
  - split; [reflexivity|]. split; [exact Hb|]. by exists (rq_method req).
Qed.

End Client.
