(* ===== verification/HttpCall.v ===== *)
(** * A call over HTTP

    A JSON-RPC call by a client, through its pool, its stream, its codec and
    [http_transport.go], to the server and back, over the bytes of a connection. *)
From S2P Require Import Prelude.
From S2P Require Import Utf8 Registry Url Common Pool Rpc RpcFrame Client Server ServerSafe Serve ServeSafe.
From S2P Require Import Json JsonText JsonCodec JsonCall JsonClient.
From S2P Require Import Http HttpText Net Transport TransportSafe.

Section Call.
Context `{VS : Values} `{JV : !JsonValues} `{ET : ErrorText} `{UT : UnicodeTable} `{MR : MapRange} {A : Type}.
Context (now timeout cnow ctimeout : Z).
#[local] Instance server_socket : Socket httpTransportSocket := HttpSocket now timeout.
#[local] Instance client_transport : TransportClient httpTransportClient := HttpClient cnow ctimeout.
Abbreviation handlePkg := (handlePkg (A := A) (K := httpTransportSocket) NewCodec).

(** The package of a JSON-RPC client: its header names the codec. *)
Lemma arrives_json path hd body :
  hd !! content_type = Some json_type -> drop 1 path <> [] -> json_header (request_arrives path hd body).
Proof.
  intros Hct Hp. unfold request_arrives. split; unfold at_key.
  - rewrite !lookup_insert_ne, lookup_union, Hct by done. by destruct (own_fields body !! content_type).
  - by rewrite lookup_insert_eq.
  - by rewrite lookup_insert_ne, lookup_insert_eq.
Qed.

(** A socket that serves one request, and what the peer finds. *)
Lemma one_request s host path hd body rh rbody :
  hs_reader s = true -> hs_once s = false -> hs_reqQ s = None -> ready (hs_conn s) -> good_peer host path hd -> plain_header rh ->
  Z.of_nat (length body) < 2 ^ 63 -> concat (nc_in (hs_conn s)) = text_of host path hd body ->
  exists s', exchange s [(request_arrives path hd body, body)] [(rh, rbody)] s'
    /\ nc_out (hs_conn s') = nc_out (hs_conn s) ++ answer_of (received (singles hd) body) rh rbody
    /\ ready (hs_conn s') /\ hs_reader s' = true /\ hs_once s' = false /\ hs_released s' = hs_released s.
Proof.
  intros Hrd Ho Hq Hc Hg Hrh Hb Hin. rewrite <- (app_nil_r (text_of _ _ _ _)) in Hin.
  destruct (socket_receives now timeout s host path hd body [] Hrd (proj1 Hc) Hg Hb Hin) as (c1 & E1 & Hm1).
  rewrite Hq in E1. cbn [default] in E1. pose proof (moved_ready _ _ _ _ Hm1 Hc) as Hc1.
  destruct (socket_sends now timeout (mkHttpSocket c1 (Some (mkRequest (lit "POST") (arrived path) (received (singles hd) body)))
    true (hs_once s) (hs_released s)) _ rh rbody Hc1 eq_refl Hrh) as (c2 & E2 & Hm2).
  pose proof (moved_ready _ _ _ _ Hm2 Hc1) as Hc2.
  match type of E2 with _ = (_, ?s2) => destruct (socket_ends now timeout s2) as (e & c3 & E3 & Hm3) end;
    [done|apply Hc2|cbn [hs_conn]; rewrite (mv_in _ _ _ _ Hm2); apply (mv_in _ _ _ _ Hm1)|].
  eexists. split; [eapply exchange_next; [exact E1|exact E2|]; eapply exchange_end; exact E3|].
  cbn. rewrite (mv_out _ _ _ _ Hm3). cbn. rewrite (mv_out _ _ _ _ Hm2). cbn. rewrite (mv_out _ _ _ _ Hm1).
  split; [done|]. split; [by eapply moved_ready|]. by rewrite Ho.
Qed.

Lemma text_nonempty host path hd body : good_peer host path hd -> (1 <= length (text_of host path hd body))%nat.
Proof. intros Hg. unfold text_of. rewrite (Request_text _ _ _ body (peer_request _ _ _ Hg)). cbn [lit app length]. lia. Qed.

Lemma json_type_plain : plain_header {[content_type := json_type]}.
Proof.
  intros k v Hk. apply lookup_singleton_Some in Hk as [<- <-].
  split; [by apply check_key_ok|]. split; [by apply check_value_ok|]. refine (bool_decide_eq_false_1 _ _). vm_compute. reflexivity.
Qed.

Lemma hs_closes s : hs_once s = false -> hs_reader s = true -> ready (hs_conn s) ->
  nc_out (hs_conn (hs_Close s).2) = nc_out (hs_conn s) /\ nc_closed (hs_conn (hs_Close s).2) = 1%nat
  /\ hs_released (hs_Close s).2 = S (hs_released s).
Proof. intros Ho Hr [Hcl _]. unfold hs_Close, net_Close. rewrite Ho, Hr, Hcl. by cbn. Qed.

(** What the server does with a socket that has one request, and what is on the
    connection then. *)
Definition http_serves codecs rpc (s : httpTransportSocket) a a' (answer : bytes) : Prop := exists rpc' s',
  handlePkg codecs (mkConn rpc s a) = (Ret tt, mkConn rpc' s' a')
  /\ nc_out (hs_conn s') = nc_out (hs_conn s) ++ answer /\ nc_closed (hs_conn s') = 1%nat /\ hs_released s' = S (hs_released s).

(** The server answers, with whatever codec. *)
Lemma answered_serves codecs rpc s a a' host path hd body rh resp :
  ServeSafe.answered NewCodec codecs (table_of rpc) a (request_arrives path hd body, body) (rh, resp) a' ->
  good_peer host path hd -> plain_header rh -> Z.of_nat (length body) < 2 ^ 63 ->
  hs_reader s = true -> hs_once s = false -> hs_reqQ s = None -> ready (hs_conn s) ->
  concat (nc_in (hs_conn s)) = text_of host path hd body ->
  http_serves codecs rpc s a a' (answer_of (received (singles hd) body) rh resp).
Proof.
  intros Hans Hg Hrh Hlen Hrd Ho Hq Hc Hin.
  destruct (one_request s host path hd body rh resp Hrd Ho Hq Hc Hg Hrh Hlen Hin) as (s1 & Hex & Hout & Hc1 & Hrd1 & Ho1 & Hrel).
  destruct (handlePkg_answers NewCodec codecs s _ _ s1 rpc a a' Hex) as (rpc' & Es & _).
  - cbn [sock_left server_socket HttpSocket length]. rewrite Hin. by apply text_nonempty.
  - eapply answers_cons; [exact Hans|apply answers_nil].
  - exists rpc', ((hs_Close s1).2). split; [exact Es|].
    destruct (hs_closes s1 Ho1 Hrd1 Hc1) as (-> & -> & ->). by rewrite Hrel.
Qed.

(** What the client sends, and what it reads from an answer. *)
Lemma sent_and_answered hc hd body rh resp :
  idle hc -> good_peer (hc_addr hc) (d_Path (hc_dialOpts hc)) hd -> plain_header rh -> Z.of_nat (length resp) < 2 ^ 63 ->
  exists hc1, tr_Send (Some hd, body) hc = (Ret tt, hc1)
    /\ (concat (nc_in (hc_conn hc)) = answer_of (received (singles hd) body) rh resp ->
        exists h hc2, tr_Recv hc1 = (Ret (h, resp), hc2) /\ idle hc2
          /\ nc_out (hc_conn hc2) = nc_out (hc_conn hc) ++ text_of (hc_addr hc) (d_Path (hc_dialOpts hc)) hd body).
Proof.
  intros Hi Hg Hrh Hrlen. destruct (client_sends cnow ctimeout hc hd body Hi Hg) as (c1 & E2 & Hm1).
  eexists. split; [exact E2|]. intros Hcin. destruct Hi as (Hr & Hbl & Hop & Hl & Hst & Hrdy).
  pose proof (moved_ready _ _ _ _ Hm1 Hrdy) as Hcr. rewrite <- (mv_in _ _ _ _ Hm1) in Hcin. rewrite <- (app_nil_r (answer_of _ _ _)) in Hcin.
  destruct (client_receives cnow ctimeout (mkHttpClient (hc_addr hc) c1 (hc_dialOpts hc) (Some (hc_request (Some hd, body) hc)) [] true false)
    (hc_request (Some hd, body) hc) (received (singles hd) body) rh resp []) as (c4 & E4 & Hm4); try done.
  { apply Hcr. } { apply answer_header; [exact Hrh|apply Hg]. }
  destruct (moved_ready _ _ _ _ Hm4 Hcr) as [Hcl4 Hlim4]. eexists _, _. split.
  - cbn [tr_Recv client_transport HttpClient]. rewrite E4. reflexivity.
  - split; [by repeat split|]. cbn [hc_conn]. rewrite (mv_out _ _ _ _ Hm4). apply (mv_out _ _ _ _ Hm1).
Qed.

(** *** Closing *)

Lemma hc_Close_again hc : hc_open hc = false -> (tr_Close hc).2 = hc.
Proof. intros Ho. cbn [tr_Close client_transport HttpClient]. unfold hc_Close. by rewrite Ho. Qed.

Lemma hc_Close_first hc : idle hc ->
  hc_open (tr_Close hc).2 = false /\ nc_out (hc_conn (tr_Close hc).2) = nc_out (hc_conn hc) /\ nc_closed (hc_conn (tr_Close hc).2) = 1%nat.
Proof.
  intros (_ & _ & Ho & Hl & _ & [Hc _]). cbn [tr_Close client_transport HttpClient]. unfold hc_Close, trace, on_err, net_Close.
  by rewrite Ho, Hl, Hc.
Qed.

(** However often [Close] is called, the connection is closed once. *)
Lemma closed_once hc hc' : idle hc -> closed_from hc hc' ->
  nc_out (hc_conn hc') = nc_out (hc_conn hc) /\ nc_closed (hc_conn hc') = 1%nat.
Proof.
  intros Hi Hc. destruct (hc_Close_first hc Hi) as (Ho & Hout & Hcl).
  assert (Hsame : forall h, hc_open h = false -> closed_from h hc' -> hc' = h).
  { intros h Hh Hc'. unfold closed_from in Hc'. induction Hc' as [h h' ->|h h1 h' -> _ IH]; rewrite hc_Close_again in * by done; [done|by apply IH]. }
  unfold closed_from in Hc. inversion Hc as [h h' E|h h1 h' E Hc']; subst; [by split|]. by rewrite (Hsame _ Ho Hc').
Qed.

(** *** The header *)

(** What a package's header is when the context has metadata [md]. *)
Definition json_fields (md : Header) (T : Z) : Header :=
  <[lit "Accept" := json_type]> (<[content_type := json_type]> (<[lit "Timeout" := Itoa T]> md)).

Lemma plain_insert k v h : check_key k = true -> good_value v -> bool_decide (k ∈ special) = false -> plain_header h -> plain_header (<[k := v]> h).
Proof.
  intros Hk Hv Hs%bool_decide_eq_false Hh k' v' E. destruct (decide (k' = k)) as [->|Hne].
  - rewrite lookup_insert_eq in E. injection E as <-. split; [by apply check_key_ok|done].
  - rewrite lookup_insert_ne in E by done. by apply Hh.
Qed.

Lemma json_fields_plain md T : 0 <= T -> plain_header md -> plain_header (json_fields md T).
Proof.
  intros HT Hmd. unfold json_fields. repeat apply plain_insert; try done; try (by apply check_value_ok); by apply Itoa_good.
Qed.

Lemma json_fields_type md T : json_fields md T !! content_type = Some json_type.
Proof. unfold json_fields. by rewrite lookup_insert_ne, lookup_insert_eq. Qed.

(** *** The call *)

Context (nil_is_nil : is_nil nil_value = true).

(** Where the service is: the address and the path that the transport can put into
    a request. *)
Definition good_service (service : ServiceURL) : Prop :=
  (cleanHost (Location service) <> [] /\ good_value (removeZone (cleanHost (Location service)))) /\ good_path (Path service)
  /\ drop 1 (Path service) <> [].

(** A socket that has just been accepted. *)
Definition new_socket (s : httpTransportSocket) : Prop :=
  hs_reader s = true /\ hs_once s = false /\ hs_reqQ s = None /\ ready (hs_conn s).

(** The exchange of a stream over the connection. *)
Lemma json_exchange (hc hc1 hc2 : httpTransportClient) seq url (req : Rpc.rpcRequest value) T hd x' params u err y y' h :
  checked_param (rq_args req) = Ret (Some x') -> marshal x' = inr params ->
  tr_Send (Some hd, request_text (rq_method req) params (Z.land seq MAX_JSONRPC_ID) ++ [10]) hc = (Ret tt, hc1) ->
  tr_Recv hc1 = (Ret (h, response_text (Itoa (Z.land seq MAX_JSONRPC_ID)) (Some u) (error_part err) ++ [10]), hc2) ->
  json_text u -> utf8_text err -> is_nil y = false -> (err = [] -> read_result u y = Ret y') ->
  exists s', Rpc.exchange T (Rpc.mkStream seq false None url req (Rpc.newRPCCodec (Some hd) hc (NewCodec [])), y)
      = (match err with [] => Ret tt | _ => Fail (Text (error_of_response err)) end, (s', match err with [] => y' | _ => y end))
    /\ rc_client (Rpc.s_codec s') = hc2.
Proof.
  intros Hx Hm Hs Hr Hu He Hy Hres. pose proof (masked_id seq) as Hid.
  destruct (json_writes nil_is_nil seq url req T x' params Hx Hm) as (j & m & Ew & Hmh & Hb & Ha).
  destruct (exchange_reads (CR := JsonReads nil_is_nil) seq url req (Some hd) hc (NewCodec []) T j m hc1 hc2
    (h, response_text (Itoa (Z.land seq MAX_JSONRPC_ID)) (Some u) (error_part err) ++ [10]) (Z.land seq MAX_JSONRPC_ID)
    (error_of_response err) y y' Ew) as (s' & E & Hc); [|exact Ha| |exact Hr|].
  - rewrite Hmh, add_nothing, Hb. exact Hs.
  - exists u, err. split_and!; try done; try lia. intros He'. apply Hres. unfold error_of_response in He'. by case_bool_decide.
  - exists s'. split; [|exact Hc]. unfold new_stream in E. rewrite E. unfold error_of_response. destruct err; reflexivity.
Qed.

Lemma service_peer service opts md :
  good_service service -> plain_header md ->
  good_peer (Location service) (Path service) (json_fields md (request_timeout service (RequestTimeout opts))).
Proof.
  intros (Hhost & Hpath & _) Hmd. split; [done|done|]. apply json_fields_plain; [|done].
  unfold request_timeout, DefaultRequestTimeout, Second. cbv zeta. repeat case_match; lia.
Qed.

Lemma masked_range id : 0 <= Z.land id MAX_JSONRPC_ID < 2 ^ 63.
Proof. pose proof (masked_id id). lia. Qed.

(** A client's call of a service from the bytes of the answer. *)
Lemma json_call_ends conn x x' y y' params group version svc method md reqID service opts sz ttl now' now'' st err u :
  let T := request_timeout service (RequestTimeout opts) in
  let body := request_text method params (Z.land reqID MAX_JSONRPC_ID) ++ [10] in
  let resp := response_text (Itoa (Z.land reqID MAX_JSONRPC_ID)) (Some u) (error_part err) ++ [10] in
  let hc := initHTTPTransportClient (Location service) conn (dial_options [WithTimeout (DialTimeout opts); WithPath (Path service)]) in
  checked_param x = Ret (Some x') -> marshal x' = inr params -> json_text u -> utf8_text err ->
  is_nil y = false -> (err = [] -> read_result u y = Ret y') ->
  good_service service -> plain_header md -> ready conn -> Z.of_nat (length resp) < 2 ^ 63 ->
  at_rest sz ttl st -> ttl < now' -> is_i64 now' -> 0 < now'' ->
  concat (nc_in conn) = answer_of (received (singles (json_fields md T)) body) {[content_type := json_type]} resp ->
  exists st' hc',
    Client.call (NewCodec []) CODECTYPE_JSONRPC now' now'' (inr hc) None (Some md) reqID service
      (NewRequest CODECTYPE_JSONRPC group version svc method x false) opts (st, y)
    = (match err with [] => Ret tt | _ => Fail (Traced (Text (error_of_response err))) end,
       (st', match err with [] => y' | _ => y end))
    /\ at_rest sz ttl st' /\ cs_conns st' !! next_ptr (cs_pool st) = Some hc'
    /\ nc_out (hc_conn hc') = nc_out conn ++ text_of (Location service) (Path service) (json_fields md T) body
    /\ nc_closed (hc_conn hc') = 1%nat.
Proof.
  intros T body resp hc Hx Hmar Hju He Hy Hres Hsvc Hmd Hcr Hrlen Hst Ht Hi64 Hn Hcin.
  pose proof (service_peer service opts md Hsvc Hmd) as Hg. fold T in Hg.
  assert (Hidle : idle hc) by (repeat split; try done; apply Hcr).
  destruct (sent_and_answered hc (json_fields md T) body {[content_type := json_type]} resp Hidle Hg json_type_plain Hrlen) as (hc1 & Es & Hback).
  destruct (Hback Hcin) as (h2 & hc2 & Er & Hi2 & Hout2).
  set (req := NewRequest CODECTYPE_JSONRPC group version svc method x false).
  destruct (json_exchange hc hc1 hc2 reqID service req T (json_fields md T) x' params u err y y' h2 Hx Hmar Es Er Hju He Hy Hres) as (str & Ee & Hcli).
  destruct (call_runs (NewCodec []) CODECTYPE_JSONRPC sz ttl now' now'' hc (Some md) reqID service req opts st y _ _ _ Hst Ht Hi64 Hn Ee)
    as (st' & hc' & Ec & Hst' & Hl & Hcf); [by destruct err|].
  exists st', hc'. split; [rewrite Ec; by destruct err|]. split; [exact Hst'|]. split; [exact Hl|].
  rewrite Hcli in Hcf. destruct (closed_once hc2 hc' Hi2 Hcf) as [Hout Hclo]. split; [by rewrite Hout, Hout2|exact Hclo].
Qed.

(** The server's part: the method is called. *)
Lemma json_served codecs rpc s a a' host path hd method params id err reply u :
  let body := request_text method params id ++ [10] in
  codecs !! json_type = None -> structured params -> utf8_text method -> method <> [] -> 0 <= id < 2 ^ 63 ->
  hd !! content_type = Some json_type -> drop 1 path <> [] -> good_peer host path hd ->
  called (table_of rpc) (request_arrives path hd body) method params a err reply a' ->
  is_nil (sent_result err reply) = false -> marshal (sent_result err reply) = inr u ->
  new_socket s -> Z.of_nat (length body) < 2 ^ 63 -> concat (nc_in (hs_conn s)) = text_of host path hd body ->
  http_serves codecs rpc s a a' (answer_of (received (singles hd) body) {[content_type := json_type]}
    (response_text (Itoa id) (Some u) (error_part err) ++ [10])).
Proof.
  intros body Hcod Hp Hm Hmne Hid Hct Hpne Hg Hcall Hnil Hu (Hrd & Ho & Hq & Hc) Hlen Hin.
  eapply answered_serves; [|exact Hg|exact json_type_plain|done..].
  by apply (json_answered codecs (table_of rpc) _ method params id a err reply a' u Hcod (arrives_json path hd _ Hct Hpne)).
Qed.

(** C2. A JSON-RPC call by a client, over the bytes of a connection.  The client
    dials a connection, and sends one HTTP request, for the service that is the path
    of the URL, with the method and the argument of the call; the server that
    reads it from its connection calls the method, with the argument, writes
    one HTTP response, and closes the connection when no more comes; from these
    bytes the client's call answers the function's reply in the caller's variable,
    or the function's error; it has closed its connection, and is at rest again. *)
Theorem json_over_http codecs rpc s a conn x x' y y' params group version svc method md reqID service opts sz ttl now' now'' st err reply a' u :
  let T := request_timeout service (RequestTimeout opts) in
  let body := request_text method params (Z.land reqID MAX_JSONRPC_ID) ++ [10] in
  let h := request_arrives (Path service) (json_fields md T) body in
  let hc := initHTTPTransportClient (Location service) conn (dial_options [WithTimeout (DialTimeout opts); WithPath (Path service)]) in
  codecs !! json_type = None -> checked_param x = Ret (Some x') -> marshal x' = inr params -> structured params ->
  utf8_text method -> method <> [] -> called (table_of rpc) h method params a err reply a' ->
  is_nil (sent_result err reply) = false -> marshal (sent_result err reply) = inr u -> json_text u ->
  is_nil y = false -> (err = [] -> read_result u y = Ret y') ->
  good_service service -> plain_header md -> new_socket s -> ready conn ->
  Z.of_nat (length body) < 2 ^ 63 ->
  Z.of_nat (length (response_text (Itoa (Z.land reqID MAX_JSONRPC_ID)) (Some u) (error_part err) ++ [10])) < 2 ^ 63 ->
  at_rest sz ttl st -> ttl < now' -> is_i64 now' -> 0 < now'' ->
  let text := text_of (Location service) (Path service) (json_fields md T) body in
  concat (nc_in (hs_conn s)) = text ->
    exists rpc' s' answer, handlePkg codecs (mkConn rpc s a) = (Ret tt, mkConn rpc' s' a')
      /\ nc_out (hs_conn s') = nc_out (hs_conn s) ++ answer /\ nc_closed (hs_conn s') = 1%nat /\ hs_released s' = S (hs_released s)
      /\ (concat (nc_in conn) = answer ->
          exists st' hc',
            Client.call (NewCodec []) CODECTYPE_JSONRPC now' now'' (inr hc) None (Some md) reqID service
              (NewRequest CODECTYPE_JSONRPC group version svc method x false) opts (st, y)
            = (match err with [] => Ret tt | _ => Fail (Traced (Text (error_of_response err))) end,
               (st', match err with [] => y' | _ => y end))
            /\ at_rest sz ttl st' /\ cs_conns st' !! next_ptr (cs_pool st) = Some hc'
            /\ nc_out (hc_conn hc') = nc_out conn ++ text /\ nc_closed (hc_conn hc') = 1%nat).
Proof.
  intros T body h hc Hcod Hx Hmar Hp Hm Hmne Hcall Hnil Hu Hju Hy Hres Hsvc Hmd Hsock Hcr Hlen Hrlen Hst Ht Hi64 Hn text Hin.
  destruct (json_served codecs rpc s a a' (Location service) (Path service) (json_fields md T) method params (Z.land reqID MAX_JSONRPC_ID) err reply u
    Hcod Hp Hm Hmne (masked_range reqID) (json_fields_type md T) (proj2 (proj2 Hsvc)) (service_peer service opts md Hsvc Hmd) Hcall Hnil Hu Hsock Hlen Hin)
    as (rpc' & s' & Es & Hout & Hcl & Hrel).
  eexists rpc', s', _. do 4 (split; [eassumption|]). intros Hcin.
  exact (json_call_ends conn x x' y y' params group version svc method md reqID service opts sz ttl now' now'' st err u
    Hx Hmar Hju (ca_utf8 _ _ _ _ _ _ _ _ Hcall) Hy Hres Hsvc Hmd Hcr Hrlen Hst Ht Hi64 Hn Hcin).
Qed.

End Call.

(** ** A concrete call *)

#[local] Existing Instance RawValues.
#[local] Existing Instance RawJson.
#[local] Existing Instance AsciiTable.
#[local] Existing Instance NoText.

Definition user_service : ServiceURL := mkURL (lit "jsonrpc") (lit "10.0.0.1:8080") (lit "/com.User") [] [] [] [] ∅ 0 [].

Definition user_options : CallOptions := mkCallOptions Second 1 Second false.

Definition user_body : bytes := request_text (lit "Get") user_params 3 ++ [10].

Definition user_fields : Header := json_fields ∅ Second.

Lemma user_good : good_service user_service.
Proof.
  split; [|split; [|done]].
  - split; [done|by apply check_value_ok].
  - right. eexists. split; [reflexivity|]. refine (bool_decide_eq_true_1 _ _). vm_compute. reflexivity.
Qed.

Definition user_socket : httpTransportSocket :=
  initHTTPTransportSocket (connection [text_of (lit "10.0.0.1:8080") (lit "/com.User") user_fields user_body]).

Definition user_served : outcome unit * conn (K := httpTransportSocket) (A := nat) :=
  Serve.handlePkg (SK := HttpSocket 0 0) NewCodec ∅ (mkConn users user_socket 0%nat).

Definition user_conn : net_conn := connection [nc_out (hs_conn (cn_socket user_served.2))].

Lemma user_called_http : called (table_of users) (request_arrives (lit "/com.User") user_fields user_body) (lit "Get") user_params 0%nat [] (Some user_params) 1%nat.
Proof.
  split; [|by apply utf8_ascii|by intros [? _]]. eexists _, _, _, _, _. split; [vm_compute; reflexivity|]. split; [vm_compute; reflexivity|].
  by repeat split.
Qed.

Lemma plain_none : plain_header ∅.
Proof. intros k v Hk. by rewrite lookup_empty in Hk. Qed.

Lemma json_over_http_witness :
  exists st' hc',
    Client.call (CC := JsonClientCodec) (TC := HttpClient 0 0) (NewCodec []) CODECTYPE_JSONRPC 100 101
      (inr (initHTTPTransportClient (lit "10.0.0.1:8080") user_conn (dial_options [WithTimeout Second; WithPath (lit "/com.User")])))
      None (Some ∅) 3 user_service (NewRequest CODECTYPE_JSONRPC [] [] (lit "com.User") (lit "Get") (Some user_params) false) user_options
      (mkState (newPool 0 60) ∅, Some [])
    = (Ret tt, (st', Some user_params))
    /\ at_rest 0 60 st' /\ cs_conns st' !! 0%nat = Some hc' /\ nc_closed (hc_conn hc') = 1%nat.
Proof.
  destruct (json_over_http (VS := RawValues) 0 0 0 0 eq_refl ∅ users user_socket 0%nat user_conn (Some user_params) (Some user_params) (Some []) (Some user_params) user_params
    [] [] (lit "com.User") (lit "Get") ∅ 3 user_service user_options 0 60 100 101 (mkState (newPool 0 60) ∅)
    [] (Some user_params) 1%nat user_params) as (rpc' & s' & answer & Es & Hso & _ & _ & H).
  - reflexivity.
  - reflexivity.
  - reflexivity.
  - exact user_params_structured.
  - by apply utf8_ascii.
  - done.
  - exact user_called_http.
  - reflexivity.
  - reflexivity.
  - apply user_params_structured.
  - reflexivity.
  - intros _. vm_compute. reflexivity.
  - exact user_good.
  - exact plain_none.
  - by repeat split.
  - by split.
  - vm_compute. reflexivity.
  - vm_compute. reflexivity.
  - apply new_client_at_rest.
  - lia.
  - unfold is_i64. lia.
  - lia.
  - vm_compute. reflexivity.
  - destruct H as (st' & hc' & E & Hst & Hl & _ & Hcl).
    + change (user_served = (Ret tt, mkConn rpc' s' 1%nat)) in Es. unfold user_conn. rewrite Es. cbn [snd cn_socket connection nc_in concat]. by rewrite app_nil_r, Hso.
    + exists st', hc'. split; [exact E|]. split; [exact Hst|]. by split.
Defined.
