(* ===== verification/Listen.v ===== *)
(** * Listeners

    Theorems about the listeners of [Transport]: how an address with a range of
    ports is bound, how many connections are served at a time, and how long
    [Accept] sleeps after errors. *)
From S2P Require Import Prelude.
From S2P Require Import Registry Url Common Transport.

(** ** Ports *)

Section Range.
Context {W L : Type} (fn : bytes -> ST W L) (host : bytes).

(** [n] ports from [port] on cannot be bound; the last error. *)
Inductive refused : Z -> nat -> W -> option goerr -> W -> Prop :=
| refused_none port w : refused port 0 w None w
| refused_more port n w err w1 last w2 :
    fn (port_addr [host] port) w = (Fail err, w1) -> refused (port + 1) n w1 last w2 ->
    refused port (S n) w (Some (default err last)) w2.

Lemma bind_range_refused n : forall port w last w1 m,
  refused port n w last w1 -> bind_range fn [host] (n + S m) port w = bind_range fn [host] (S m) (port + Z.of_nat n) w1.
Proof.
  induction n as [|n IH]; intros port w last w1 m H; inversion H; subst; clear H.
  - cbn [Nat.add]. by rewrite Z.add_0_r.
  - cbn [Nat.add]. cbn [bind_range]. match goal with E : fn _ _ = _ |- _ => rewrite E end.
    replace (n + S m =? 0)%nat with false by (symmetry; apply Nat.eqb_neq; lia).
    replace (port + Z.of_nat (S n)) with (port + 1 + Z.of_nat n) by lia. by eapply IH.
Qed.

Lemma bind_range_all n : forall port w last w1,
  refused port (S n) w (Some last) w1 -> bind_range fn [host] (S n) port w = (Fail (Traced last), w1).
Proof.
  induction n as [|n IH]; intros port w last w1 H; inversion H as [|? ? ? err wa la wb E Hr]; subst; clear H; cbn [bind_range]; rewrite E.
  - inversion Hr; subst. cbn. done.
  - cbn [Nat.eqb]. destruct la as [e|]; [|inversion Hr]. cbn [default]. by apply (IH (port + 1)).
Qed.

Lemma listen_bind min max : 
  58 ∉ host -> 0 <= min < 2 ^ 63 -> 0 <= max < 2 ^ 63 ->
  listen fn (host ++ 58 :: Itoa min ++ 45 :: Itoa max) = bind_range fn [host] (Z.to_nat (max - min + 1)) min.
Proof.
  intros Hh Hmin Hmax.
  assert (Hd : forall n c, 0 <= n < 2 ^ 63 -> is_digit c = false -> c ∉ Itoa n).
  { intros n c Hn Hc Hin. pose proof (Itoa_digits n (proj1 Hn)) as H. rewrite forallb_forall in H. by rewrite (H c (proj1 (list_elem_of_In _ _) Hin)) in Hc. }
  assert (Hports : 58 ∉ Itoa min ++ 45 :: Itoa max).
  { rewrite elem_of_app, elem_of_cons. intros [H|[H|H]]; [by apply Hd in H|done|by apply Hd in H]. }
  unfold listen. rewrite Split_app, (Split_no_sep 58) by done. cbn [length Nat.ltb Nat.leb Nat.sub take].
  change (last [host; Itoa min ++ 45 :: Itoa max]) with (Some (Itoa min ++ 45 :: Itoa max)). cbn [default from_option id].
  rewrite Split_app, Split_no_sep by (by apply Hd). by rewrite !Atoi_Itoa.
Qed.

End Range.

(** An address with a range of ports is bound at the first port of the range
    that can be, under the host in brackets; if none can, the last error is
    returned; and an empty range is an error without an attempt. *)
Lemma listen_first_port {W L} (fn : bytes -> ST W L) host min max w :
  58 ∉ host -> 0 <= min < 2 ^ 63 -> 0 <= max < 2 ^ 63 ->
  let addr := host ++ 58 :: Itoa min ++ 45 :: Itoa max in
  (forall k last w1 ln w2, min + Z.of_nat k <= max -> refused fn host min k w last w1 ->
     fn (port_addr [host] (min + Z.of_nat k)) w1 = (Ret ln, w2) -> listen fn addr w = (Ret ln, w2))
  /\ (forall last w1, min <= max -> refused fn host min (Z.to_nat (max - min + 1)) w (Some last) w1 ->
     listen fn addr w = (Fail (Traced last), w1))
  /\ (max < min -> listen fn addr w = (Fail (Errorf "unable to bind to %s"), w)).
Proof.
  intros Hh Hmin Hmax addr. unfold addr. rewrite listen_bind by done. split_and!.
  - intros k last w1 ln w2 Hk Hr E. replace (Z.to_nat (max - min + 1)) with (k + S (Z.to_nat (max - min - Z.of_nat k)))%nat by lia.
    rewrite (bind_range_refused fn host k min w last w1 _ Hr). cbn [bind_range]. by rewrite E.
  - intros last w1 Hle. replace (Z.to_nat (max - min + 1)) with (S (Z.to_nat (max - min))) by lia. apply bind_range_all.
  - intros Hlt. by replace (Z.to_nat (max - min + 1)) with 0%nat by lia.
Qed.

(** ** [Accept] *)

(** What holds of a listener at all times. *)
Record accept_inv (releases : bool) (l : listener) : Prop := {
  ai_sem : l_sem l = (if releases then l_serving l else l_accepted l) + (match l_pc l with AtAccept => 1 | _ => 0 end);
  ai_served : 0 <= l_serving l <= l_accepted l;
  ai_bound : l_sem l <= DefaultMAXConnNum;
  ai_delay : l_delay l = 0 \/ 5 * 10 ^ 6 <= l_delay l <= DefaultMaxSleepTime;
  ai_sleeps : l_pc l = AtSleep -> l_delay l <> 0
}.

Lemma next_delay_range d : d = 0 \/ 5 * 10 ^ 6 <= d <= DefaultMaxSleepTime ->
  5 * 10 ^ 6 <= next_delay d <= DefaultMaxSleepTime /\ (d < next_delay d \/ next_delay d = DefaultMaxSleepTime).
Proof.
  unfold next_delay, DefaultMaxSleepTime. intros Hd. destruct (Z.eqb_spec d 0) as [->|Hne].
  - change (10 ^ 9 <? 5 * 10 ^ 6) with false. cbv iota. lia.
  - destruct Hd as [?|Hd]; [done|]. rewrite i64_id by (unfold is_i64; lia). destruct (10 ^ 9 <? 2 * d) eqn:E; zify_bool; lia.
Qed.

Lemma accept_step_inv releases l l' : accept_step releases l l' -> accept_inv releases l -> accept_inv releases l'.
Proof.
  unfold DefaultMAXConnNum.
  destruct 1; intros [Hs Hv Hb Hd Hz]; cbn in *; split; cbn; try (destruct releases; lia); try done; try lia.
  - right. by apply next_delay_range.
  - intros _. pose proof (next_delay_range d Hd). lia.
Qed.

Lemma accept_reachable_inv releases l : rtc (accept_step releases) newListener l -> accept_inv releases l.
Proof.
  intros H. assert (H0 : accept_inv releases newListener).
  { split; cbn; unfold DefaultMAXConnNum; try (by destruct releases); try lia; try done. }
  induction H; [done|]. eauto using accept_step_inv.
Qed.

(** C37. The semaphore of an HTTP listener counts the connections that are served,
    and the one that is waited for: there are never more than the limit, and a
    listener that waits for the semaphore goes on as soon as there are less.
    After errors it sleeps at least 5 milliseconds and at most a second, each time
    longer until it is a second, and no success makes it shorter again. *)
Theorem http_accept_bounded l :
  rtc http_accept newListener l ->
  l_serving l <= DefaultMAXConnNum
  /\ (l_delay l = 0 \/ 5 * 10 ^ 6 <= l_delay l <= DefaultMaxSleepTime)
  /\ (l_pc l = AtAcquire -> l_serving l < DefaultMAXConnNum -> exists l', http_accept l l' /\ l_pc l' = AtAccept)
  /\ forall l', http_accept l l' -> l_delay l <= l_delay l'
       /\ (l_pc l = AtAccept -> l_pc l' = AtSleep -> l_delay l < l_delay l' \/ l_delay l' = DefaultMaxSleepTime).
Proof.
  intros H. destruct (accept_reachable_inv true l H) as [Hs Hv Hb Hd Hz]. split_and!.
  - destruct (l_pc l); lia.
  - done.
  - intros Hpc Hlt. destruct l as [pc sem d n a]. cbn in *. subst pc. eexists. split; [apply step_acquire; lia|done].
  - intros l' Hl'. pose proof (next_delay_range (l_delay l) Hd) as Hn. destruct Hl'; cbn in *; (split; [lia|]);
      intros; try congruence; lia.
Qed.

(** C38. A TCP listener does not get its semaphore back: it accepts no more
    connections, in all its life, than the limit, and after that many it waits
    forever, even if none of them is served any more; and it comes to that. *)
Theorem tcp_accept_exhausted l :
  rtc tcp_accept newListener l ->
  l_accepted l <= DefaultMAXConnNum
  /\ (l_accepted l = DefaultMAXConnNum -> l_pc l = AtAcquire ->
      forall l', rtc tcp_accept l l' -> l_accepted l' = DefaultMAXConnNum /\ l_pc l' = AtAcquire)
  /\ exists l0, rtc tcp_accept newListener l0 /\ l_accepted l0 = DefaultMAXConnNum /\ l_pc l0 = AtAcquire /\ l_serving l0 = 0.
Proof.
  intros H. destruct (accept_reachable_inv false l H) as [Hs Hv Hb Hd Hz]. split_and!.
  - destruct (l_pc l); lia.
  - intros Ha Hpc. clear H Hv Hb Hd Hz. intros l' Hl'. revert Hs Ha Hpc. induction Hl' as [l|l l1 l2 Hst _ IH]; [done|].
    intros Hs Ha Hpc. destruct Hst; cbn in *; try done; try lia; by apply IH.
  - assert (Hn : forall k, Z.of_nat k <= DefaultMAXConnNum -> rtc tcp_accept newListener (mkListener AtAcquire (Z.of_nat k) 0 0 (Z.of_nat k))).
    { induction k as [|k IH]; intros Hk; [apply rtc_refl|]. eapply rtc_r; [eapply rtc_r; [eapply rtc_r; [apply IH; lia|]|]|].
      - apply step_acquire. lia.
      - apply step_accept.
      - rewrite Nat2Z.inj_succ, <- Z.add_1_r. exact (step_close false AtAcquire (Z.of_nat k + 1) 0 (0 + 1) (Z.of_nat k + 1) ltac:(lia)). }
    exists (mkListener AtAcquire DefaultMAXConnNum 0 0 DefaultMAXConnNum). split; [|done].
    specialize (Hn (Z.to_nat DefaultMAXConnNum)). rewrite Z2Nat.id in Hn by (unfold DefaultMAXConnNum; lia). by apply Hn.
Qed.

(** ** Witnesses *)

(** Two errors, and a connection. *)
Definition after_errors : listener := mkListener AtAcquire 1 10000000 1 1.

Lemma after_errors_reachable : rtc http_accept newListener after_errors.
Proof.
  unfold newListener, after_errors. do 2 (eapply rtc_l; [apply step_acquire; unfold DefaultMAXConnNum; lia|];
    eapply rtc_l; [apply step_temporary|]; eapply rtc_l; [apply step_wake|]).
  eapply rtc_l; [apply step_acquire; unfold DefaultMAXConnNum; cbn; lia|]. eapply rtc_l; [apply step_accept|]. apply rtc_refl.
Qed.

Lemma http_accept_bounded_witness : exists l', http_accept after_errors l' /\ l_pc l' = AtAccept.
Proof.
  destruct (http_accept_bounded after_errors after_errors_reachable) as (_ & _ & H & _). apply H; [reflexivity|].
  unfold DefaultMAXConnNum. cbn. lia.
Defined.

Lemma tcp_accept_exhausted_witness :
  exists l0, rtc tcp_accept newListener l0 /\ l_accepted l0 = DefaultMAXConnNum /\ l_serving l0 = 0.
Proof.
  destruct (tcp_accept_exhausted newListener (rtc_refl _ _)) as (_ & _ & l0 & H & Ha & _ & Hs). exists l0. split; [exact H|]. split; [exact Ha|exact Hs].
Defined.
