(* ===== verification/ServerOptions.v ===== *)
(** * The options of a server

    The functions of [server/options.go], with [GetLocalIP] of [common/net.go] for the
    addresses that a server is given. *)
From S2P Require Import Prelude.
From S2P Require Import Utf8 Registry Server Serve Net.

Section Options.
Context `{VS : Values} {C : Type}.
Abbreviation Options := (Serve.Options (C := C)).

Definition opt_Codec (codecs : gmap bytes (NewCodec (C := C))) (o : Options) : Options :=
  mkOptions codecs (o_Registry o) (o_Transport o) (o_ConfList o) (o_ServiceConfList o).

(** [r] and [t] tell whether the interfaces are not nil. *)
Definition opt_Registry (r : bool) (o : Options) : Options :=
  mkOptions (o_Codecs o) r (o_Transport o) (o_ConfList o) (o_ServiceConfList o).
Definition opt_Transport (t : bool) (o : Options) : Options :=
  mkOptions (o_Codecs o) (o_Registry o) t (o_ConfList o) (o_ServiceConfList o).

(** An error of [GetLocalIP] is dropped, and the address is the empty one then. *)
Definition local_conf (interfaces : result (list interface_addr)) (c : ServerConfig) : ServerConfig :=
  mkServerConfig (cf_Protocol c) (match GetLocalIP (cf_IP c) interfaces with inr ip => ip | inl _ => [] end) (cf_Port c).

(** The elements of the caller's slice are changed in place: it holds the same list
    afterwards. *)
Definition opt_ConfList (interfaces : result (list interface_addr)) (confList : list ServerConfig) (o : Options) : Options :=
  mkOptions (o_Codecs o) (o_Registry o) (o_Transport o) (map (local_conf interfaces) confList) (o_ServiceConfList o).

Definition opt_ServiceConfList (confList : list ServiceConfig) (o : Options) : Options :=
  mkOptions (o_Codecs o) (o_Registry o) (o_Transport o) (o_ConfList o) confList.

(** What [GetLocalIP] finds is not asked for again. *)
Lemma first_private_kept addrs ip interfaces : first_private addrs = Some ip -> GetLocalIP ip interfaces = inr ip.
Proof.
  intros E. assert (Hp : isPrivateIP ip = true).
  { induction addrs as [|a addrs IH]; [done|]. cbn [first_private] in E. repeat case_match; simplify_eq; auto; by apply negb_false_iff. }
  unfold GetLocalIP. rewrite !bool_decide_eq_false_2 by (intros ->; vm_compute in Hp; discriminate).
  by destruct ip.
Qed.

(** The slice may be given again: its addresses have been replaced, unless none was
    found. *)
Lemma local_conf_again interfaces interfaces' c :
  cf_IP (local_conf interfaces c) <> [] -> local_conf interfaces' (local_conf interfaces c) = local_conf interfaces c.
Proof.
  destruct c as [proto ip port]. unfold local_conf. cbn [cf_Protocol cf_IP cf_Port]. intros Hne. f_equal.
  destruct (GetLocalIP ip interfaces) as [e|ip'] eqn:E; [done|]. cut (GetLocalIP ip' interfaces' = inr ip'); [by intros ->|].
  unfold GetLocalIP in E. destruct (_ && _) eqn:Eg; [injection E as <-; unfold GetLocalIP; by rewrite Eg|].
  destruct interfaces as [e|addrs]; [done|]. destruct (first_private addrs) as [s|] eqn:Ef; [injection E as <-|done]. by eapply first_private_kept.
Qed.

(** A server is made of its options: it has one table of services for each address, and
    nothing else yet; without a registry or a transport [NewServer] panics. *)
Lemma newServer_configured {A L} codecs r t interfaces confs services :
  newServer (A := A) (L := L)
    [opt_Codec codecs; opt_Registry r; opt_Transport t; opt_ConfList interfaces confs; opt_ServiceConfList services]
  = if r && t then
      Ret (mkServer (map (fun _ => initServer) confs) (map (fun _ => None) confs) [] false
             (mkOptions codecs true true (map (local_conf interfaces) confs) services) ∅)
    else Panic.
Proof. unfold newServer, newOptions. cbn. destruct r, t; try done. cbn. by rewrite !map_map. Qed.

(** Where the interfaces have no private address, a server whose address is left to be
    found has none: it announces and listens at a port alone. *)
Lemma no_private_address addrs c :
  cf_IP c ∈ [[]; lit "0.0.0.0"; lit "[::]"] -> first_private addrs = None -> cf_IP (local_conf (inr addrs) c) = [].
Proof.
  intros Hc Hn. unfold local_conf, GetLocalIP. cbn [cf_IP].
  repeat (apply elem_of_cons in Hc as [->|Hc]; [cbn; by rewrite Hn|]). by apply not_elem_of_nil in Hc.
Qed.

End Options.
