(* ===== verification/ClientOptions.v ===== *)
(** * Clients

    [client/options.go], [client/client.go] and the rest of [client/rpc_client.go]:
    how a client is configured and closed, what becomes of a package without
    metadata, and what a call leaves in the options of its transport. *)
From S2P Require Import Prelude.
From S2P Require Import Registry Url Common Selector Pool Rpc Client.
From S2P Require Import Server ServerSafe Serve ServeSafe Http HttpText Net Transport TransportSafe.

(** ** Options *)

Inductive transport_kind := HTTP | TCP.
Record transport := mkTransport { tr_kind : transport_kind; tr_opts : Transport.Options }.

Definition newHTTPTransport (opts : list (Transport.Options -> Transport.Options)) : transport := mkTransport HTTP (transport_options opts).
Definition newTCPTransport (opts : list (Transport.Options -> Transport.Options)) : transport := mkTransport TCP (transport_options opts).

Section Options.
Context {C : Type} (jsonrpc_NewCodec hessian_NewCodec : C).

Record dubbogoClientConfig := mkClientConfig { cfg_newCodec : C; cfg_transport : transport_kind }.

Definition dubbogoClientConfigMap : gmap Z dubbogoClientConfig :=
  {[ CODECTYPE_JSONRPC := mkClientConfig jsonrpc_NewCodec HTTP; CODECTYPE_DUBBO := mkClientConfig hessian_NewCodec TCP ]}.

(** [o_Registry] and [o_Selector] tell whether the interfaces are not nil; so do
    [o_newCodec] and [o_Transport]. *)
Record Options := mkOptions {
  o_CodecType : Z;
  o_newCodec : option C;
  o_Registry : bool;
  o_Selector : bool;
  o_Transport : option transport;
  o_PoolSize : Z;
  o_PoolTTL : Z;
  o_CallOptions : CallOptions
}.

Definition default_options : Options :=
  mkOptions 0 None false false None DefaultPoolSize DefaultPoolTTL (mkCallOptions DefaultDialTimeout DefaultRetries DefaultRequestTimeout false).

Definition new_transport (k : transport_kind) : transport := match k with HTTP => newHTTPTransport [] | TCP => newTCPTransport [] end.

Definition newOptions (options : list (Options -> Options)) : outcome Options :=
  let opts := fold_left (fun o f => f o) options default_options in
  if negb (o_Registry opts) then Panic
  else if negb (o_Selector opts) then Panic
  else if (length (CodecType_String (o_CodecType opts)) =? 0)%nat then Panic
  else
    match dubbogoClientConfigMap !! o_CodecType opts with
    | Some cfg =>
        Ret (mkOptions (o_CodecType opts) (Some (cfg_newCodec cfg)) (o_Registry opts) (o_Selector opts)
               (Some (new_transport (cfg_transport cfg))) (o_PoolSize opts) (o_PoolTTL opts) (o_CallOptions opts))
    | None => Panic
    end.

(** *** The options *)

Definition opt_CodecType (t : Z) (o : Options) : Options :=
  mkOptions t (o_newCodec o) (o_Registry o) (o_Selector o) (o_Transport o) (o_PoolSize o) (o_PoolTTL o) (o_CallOptions o).
Definition opt_PoolSize (d : Z) (o : Options) : Options :=
  mkOptions (o_CodecType o) (o_newCodec o) (o_Registry o) (o_Selector o) (o_Transport o) d (o_PoolTTL o) (o_CallOptions o).
Definition opt_PoolTTL (d : Z) (o : Options) : Options :=
  mkOptions (o_CodecType o) (o_newCodec o) (o_Registry o) (o_Selector o) (o_Transport o) (o_PoolSize o) d (o_CallOptions o).
Definition opt_Registry (r : bool) (o : Options) : Options :=
  mkOptions (o_CodecType o) (o_newCodec o) r (o_Selector o) (o_Transport o) (o_PoolSize o) (o_PoolTTL o) (o_CallOptions o).
Definition opt_Selector (s : bool) (o : Options) : Options :=
  mkOptions (o_CodecType o) (o_newCodec o) (o_Registry o) s (o_Transport o) (o_PoolSize o) (o_PoolTTL o) (o_CallOptions o).
Definition opt_Transport (t : option transport) (o : Options) : Options :=
  mkOptions (o_CodecType o) (o_newCodec o) (o_Registry o) (o_Selector o) t (o_PoolSize o) (o_PoolTTL o) (o_CallOptions o).

Definition WithDialTimeout (d : Z) (o : CallOptions) : CallOptions := mkCallOptions d (Retries o) (RequestTimeout o) (opt_Next o).
Definition WithRetries (i : Z) (o : CallOptions) : CallOptions := mkCallOptions (DialTimeout o) i (RequestTimeout o) (opt_Next o).
Definition WithRequestTimeout (d : Z) (o : CallOptions) : CallOptions := mkCallOptions (DialTimeout o) (Retries o) d (opt_Next o).

Definition on_call_options (f : CallOptions -> CallOptions) (o : Options) : Options :=
  mkOptions (o_CodecType o) (o_newCodec o) (o_Registry o) (o_Selector o) (o_Transport o) (o_PoolSize o) (o_PoolTTL o) (f (o_CallOptions o)).
Definition opt_Retries (i : Z) : Options -> Options := on_call_options (WithRetries i).
Definition opt_RequestTimeout (d : Z) : Options -> Options := on_call_options (WithRequestTimeout d).
Definition opt_DialTimeout (d : Z) : Options -> Options := on_call_options (WithDialTimeout d).

(** ** The client *)

(** [cl_done] is whether the channel [done] is closed; [cl_closings] what [Close] has
    closed: the selector and the registry. *)
Inductive closing := CloseSelector | CloseRegistry.

Record rpcClient := mkRpcClient {
  cl_ID : Z;
  cl_opts : Options;
  cl_pool : pool;
  cl_done : bool;
  cl_once : bool;
  cl_closings : list closing
}.

(** The identity is made of the time's second and nanosecond and the goroutine's
    number. *)
Definition client_ID (second nanosecond goid : Z) : Z := i64 (u32 (i64 (i64 (second * nanosecond) * goid))).

Definition newRPCClient (second nanosecond goid : Z) (opt : list (Options -> Options)) : outcome rpcClient :=
  match newOptions opt with
  | Ret opts => Ret (mkRpcClient (client_ID second nanosecond goid) opts (newPool (o_PoolSize opts) (o_PoolTTL opts)) false false [])
  | Fail e => Fail e
  | Panic => Panic
  | NoFuel => NoFuel
  end.

(** [next]: [select] is the selector's answer, which [Close] has made nil. *)
Definition next {N} (opts_next : option N) (select : result N) (c : rpcClient) : outcome N :=
  match opts_next with
  | Some n => Ret n
  | None =>
      if negb (o_Selector (cl_opts c)) then Panic
      else match select with inr n => Ret n | inl e => Fail e end
  end.

(** [Close]: the channel is closed before the [once] is asked. *)
Definition rpcClient_Close : ST rpcClient unit := fun c =>
  if cl_done c then (Panic, c)
  else if cl_once c then (Ret tt, mkRpcClient (cl_ID c) (cl_opts c) (cl_pool c) true true (cl_closings c))
  else
    let o := cl_opts c in
    (Ret tt, mkRpcClient (cl_ID c) (opt_Registry false (opt_Selector false o)) (cl_pool c) true true
       (cl_closings c ++ (if o_Selector o then [CloseSelector] else []) ++ (if o_Registry o then [CloseRegistry] else []))).

(** [Call] takes the next number for its request. *)
Definition request_ID : ST rpcClient Z := fun c =>
  let id := i64 (cl_ID c + 1) in (Ret id, mkRpcClient id (cl_opts c) (cl_pool c) (cl_done c) (cl_once c) (cl_closings c)).

End Options.

(** ** What a call sends beside its body *)

(** The transport's options, which all calls share: the provider's address is
    appended, and the time limit is this call's. *)
Definition set_transport_options (location : bytes) (reqTimeout : Z) (o : Transport.Options) : Transport.Options :=
  Transport.mkOptions (Addrs o ++ [location]) reqTimeout.

(** ** Theorems *)

(** A client is made exactly if it is given a registry, a selector and one of
    the two codec types; the codec and the transport are those of the type,
    whatever transport an option asks for: JSON-RPC over HTTP, dubbo over TCP. *)
Lemma newOptions_by_codec {C} (json hessian : C) opts :
  let o := fold_left (fun o f => f o) opts default_options in
  newOptions json hessian opts =
    if o_Registry o && o_Selector o then
      if o_CodecType o =? CODECTYPE_JSONRPC then
        Ret (mkOptions (o_CodecType o) (Some json) true true (Some (mkTransport HTTP (Transport.mkOptions [] 0))) (o_PoolSize o) (o_PoolTTL o) (o_CallOptions o))
      else if o_CodecType o =? CODECTYPE_DUBBO then
        Ret (mkOptions (o_CodecType o) (Some hessian) true true (Some (mkTransport TCP (Transport.mkOptions [] 0))) (o_PoolSize o) (o_PoolTTL o) (o_CallOptions o))
      else Panic
    else Panic.
Proof.
  intros o. unfold newOptions. fold o. destruct (o_Registry o), (o_Selector o); try done. cbn [negb andb].
  destruct (Z.eqb_spec (o_CodecType o) CODECTYPE_JSONRPC) as [->|Hj]; [reflexivity|].
  destruct (Z.eqb_spec (o_CodecType o) CODECTYPE_DUBBO) as [->|Hd]; [reflexivity|].
  unfold CodecType_String. destruct ((_ <? _) && (_ <? _)) eqn:E; [|done]. exfalso. zify_bool.
  unfold CODECTYPE_BEGIN, CODECTYPE_JSONRPC, CODECTYPE_DUBBO, CODECTYPE_UNKNOWN in *. lia.
Qed.

(** A client that is closed has closed its selector and its registry, and cannot
    select; closing it again panics. *)
Lemma Close_twice {C} (c : rpcClient (C := C)) :
  cl_done c = false -> cl_once c = false -> o_Selector (cl_opts c) = true -> o_Registry (cl_opts c) = true ->
  exists c', rpcClient_Close c = (Ret tt, c') /\ cl_closings c' = cl_closings c ++ [CloseSelector; CloseRegistry]
    /\ (forall N (select : result N), next None select c' = Panic) /\ rpcClient_Close c' = (Panic, c').
Proof. intros Hd Ho Hs Hr. unfold rpcClient_Close at 1. rewrite Hd, Ho, Hs, Hr. eexists. split; [reflexivity|]. by repeat split. Qed.

Section Call.
Context `{VS : Values} `{UT : UnicodeTable} `{ET : ErrorText} `{MR : MapRange} {A : Type} {C : Type} `{SC : ServerCodec C value}.
Context (jsonrpc_NewCodec : NewCodec (C := C)) (now timeout : Z).

Lemma empty_plain : plain_header ∅.
Proof. intros k v Hk. by rewrite lookup_empty in Hk. Qed.

Definition refusal_text : bytes := lit "Unsupported Content-Type: ".

(** C33. A call over HTTP whose context has no map of metadata is not served: only
    that map makes the client name the content type, and without it the
    server refuses the package, whatever the codec has written, calls nothing, and
    closes the connection; the client finds a text in the place of a response. *)
Theorem no_metadata_unserved codecs rpc s a hc body T contentType :
  codecs !! [] = None -> idle hc -> good_peer (hc_addr hc) (d_Path (hc_dialOpts hc)) ∅ -> Z.of_nat (length body) < 2 ^ 63 ->
  hs_reader s = true -> hs_once s = false -> hs_reqQ s = None -> ready (hs_conn s) ->
  exists hc1 text, hc_Send now timeout (package_header CODECTYPE_JSONRPC None T contentType, body) hc = (Ret tt, hc1)
    /\ nc_out (hc_conn hc1) = nc_out (hc_conn hc) ++ text
    /\ (concat (nc_in (hs_conn s)) = text ->
        exists s' answer,
          Serve.handlePkg (A := A) (SK := HttpSocket now timeout) jsonrpc_NewCodec codecs (mkConn rpc s a) = (Ret tt, mkConn rpc s' a)
          /\ nc_out (hs_conn s') = nc_out (hs_conn s) ++ answer /\ nc_closed (hs_conn s') = 1%nat
          /\ forall c, ready c -> concat (nc_in c) = answer ->
             exists h hc2, hc_Recv now timeout (hc_set_conn c hc1) = (Ret (h, refusal_text), hc2)).
Proof.
  intros Hcod Hi Hg Hb Hrd Ho Hq Hc. change (package_header CODECTYPE_JSONRPC None T contentType) with (Some ∅ : option Header).
  destruct (client_sends now timeout hc ∅ body Hi Hg) as (c1 & E1 & Hm1).
  eexists _, _. split; [exact E1|]. split; [apply (mv_out _ _ _ _ Hm1)|]. intros Hin. rewrite <- (app_nil_r (text_of _ _ _ _)) in Hin.
  set (path := d_Path (hc_dialOpts hc)) in *.
  destruct (socket_receives now timeout s (hc_addr hc) path ∅ body [] Hrd (proj1 Hc) Hg Hb Hin) as (c2 & E2 & Hm2). rewrite Hq in E2. cbn [default] in E2.
  assert (Hrh : plain_header {[content_type := lit "text/plain"]}) by exact ping_plain.
  match type of E2 with _ = (_, ?s1) => destruct (socket_sends now timeout s1 _ _ refusal_text (moved_ready _ _ _ _ Hm2 Hc) eq_refl Hrh) as (c3 & E3 & Hm3) end.
  assert (Hct : at_key (request_arrives path ∅ body) content_type = []).
  { unfold at_key, request_arrives. rewrite !lookup_insert_ne, left_id_L by (done || apply _). unfold own_fields. case_bool_decide; reflexivity. }
  match type of E3 with _ = (_, ?s2) =>
    pose proof (unsupported_type (SK := HttpSocket now timeout) jsonrpc_NewCodec codecs rpc s (request_arrives path ∅ body) body _ (Ret tt) s2 a E2) as E4 end.
  rewrite Hct, app_nil_r in E4. specialize (E4 E3 Hcod ltac:(done) ltac:(done)).
  eexists _, (answer_of (received (singles ∅) body) {[content_type := lit "text/plain"]} refusal_text). split; [exact E4|].
  cbn [sock_Close HttpSocket]. unfold hs_Close. cbn [hs_once hs_reader hs_conn hs_reqQ hs_released]. rewrite Ho. cbn [negb].
  cbn [hs_conn rq_Header] in Hm3. pose proof (moved_ready _ _ _ _ Hm3 (moved_ready _ _ _ _ Hm2 Hc)) as [Hc3 _].
  unfold net_Close. cbn [snd fst hs_conn nc_out nc_closed]. rewrite Hc3, (mv_out _ _ _ _ Hm3), (mv_out _ _ _ _ Hm2).
  split; [done|]. split; [done|]. intros c Hcr Hcin. rewrite <- (app_nil_r (answer_of _ _ _)) in Hcin. destruct Hi as (Hr & Hbl & Hop & Hl & Hst & _).
  destruct (client_receives now timeout (hc_set_conn c (mkHttpClient (hc_addr hc) c1 (hc_dialOpts hc) (Some (hc_request (Some ∅, body) hc)) [] true false))
    (hc_request (Some ∅, body) hc) (received (singles ∅) body) {[content_type := lit "text/plain"]} refusal_text []) as (c4 & E5 & _);
    [done|done|done|done|done|apply Hcr|by apply answer_header, empty_plain|cbn; lia|exact Hcin|].
  by eexists _, _.
Qed.

End Call.

(** ** Witnesses *)

#[local] Existing Instances Values0 UnicodeTable0 ErrorText0 ServerCodec0.

Definition bare_text : bytes := text_of (lit "127.0.0.1:80") (lit "/ping") ∅ (lit "hi").

Lemma no_metadata_unserved_witness :
  exists s' h hc2,
    Serve.handlePkg (SK := HttpSocket 0 0) NewCodec0 ∅ (mkConn server0 (initHTTPTransportSocket (connection [bare_text])) 0%nat)
      = (Ret tt, mkConn server0 s' 0%nat)
    /\ hc_Recv 0 0 (hc_set_conn (connection [nc_out (hs_conn s')]) (hc_Send 0 0 (Some ∅, lit "hi") ping_client).2) = (Ret (h, refusal_text), hc2).
Proof.
  destruct (no_metadata_unserved NewCodec0 0 0 ∅ server0 (initHTTPTransportSocket (connection [bare_text])) 0%nat ping_client (lit "hi") 5
    (lit "application/json")) as (hc1 & text & E1 & Hout & H).
  - reflexivity.
  - by repeat split.
  - destruct ping_peer as [Hh Hp _]. split; [exact Hh|exact Hp|exact empty_plain].
  - cbn. lia.
  - reflexivity.
  - reflexivity.
  - reflexivity.
  - by split.
  - change (package_header CODECTYPE_JSONRPC None 5 (lit "application/json")) with (Some ∅ : option Header) in E1.
    destruct H as (s' & answer & E2 & Ho & _ & Hback).
    + cbn [app] in Hout. change (nc_out (hc_conn hc1) = text) in Hout. rewrite <- Hout.
      assert (Eh : hc1 = (hc_Send 0 0 (Some ∅, lit "hi") ping_client).2) by (by rewrite E1). rewrite Eh. vm_compute. reflexivity.
    + destruct (Hback (connection [nc_out (hs_conn s')])) as (h & hc2 & E3).
      { by split. } { cbn [nc_in connection concat]. rewrite app_nil_r. exact Ho. }
      exists s', h, hc2. split; [exact E2|]. by rewrite E1.
Defined.
