(* ===== verification/Gc.v ===== *)
(** * The client's collector

    The goroutine [gc] of [client/rpc_client.go] and its channel: the calls that end
    send their streams, [gc] takes them and closes them, and with them their
    connections, until [Close] closes the channel [done].  It runs beside the calls
    and the pool of [Pool]; a stream is shown by its connection. *)
From S2P Require Import Prelude Pool.

Definition CLEAN_CHANNEL_SIZE : nat := 64.

(** [gc_held] are the connections of the calls that go on, [gc_pending] those of calls
    that are over but for their sending, [gc_ch] is what is in [gcCh]; [gc_running] is
    whether [gc] has not returned.  What was sent and taken is remembered. *)
Record gcstate := mkGc {
  gc_pool : pool;
  gc_held : list nat;
  gc_pending : list nat;
  gc_ch : list nat;
  gc_done : bool;
  gc_running : bool;
  gc_sent : list nat;
  gc_taken : list nat
}.

Definition new_gc (sz ttl : Z) : gcstate := mkGc (newPool sz ttl) [] [] [] false true [] [].

(** What [gc] does in a turn of its loop. *)
Inductive gc_turn : gcstate -> gcstate -> Prop :=
| gc_take i p held pending ch done sent taken o p' :
    poolConn_Close i p = (o, p') ->
    gc_turn (mkGc p held pending (i :: ch) done true sent taken) (mkGc p' held pending ch done true sent (taken ++ [i]))
| gc_exit p held pending ch sent taken :
    gc_turn (mkGc p held pending ch true true sent taken) (mkGc p held pending ch true false sent taken).

(** The calls, [gc], and [Close].  A call gets a connection or fails; when it is over,
    it releases the connection if its request is a stream, and then sends. *)
Inductive gc_step : gcstate -> gcstate -> Prop :=
| call_get protocol addr now now' dial p held pending ch done running sent taken i p' :
    getConn protocol addr now now' dial p = (Ret i, p') -> 0 < now -> 0 < now' ->
    gc_step (mkGc p held pending ch done running sent taken) (mkGc p' (i :: held) pending ch done running sent taken)
| call_fails protocol addr now now' dial p held pending ch done running sent taken e p' :
    getConn protocol addr now now' dial p = (Fail e, p') -> 0 < now -> 0 < now' ->
    gc_step (mkGc p held pending ch done running sent taken) (mkGc p' held pending ch done running sent taken)
| call_ends (stream : bool) protocol addr i err p held1 held2 pending ch done running sent taken o p' :
    (if stream then release protocol addr i err else ret tt) p = (o, p') ->
    gc_step (mkGc p (held1 ++ i :: held2) pending ch done running sent taken)
      (mkGc p' (held1 ++ held2) (pending ++ [i]) ch done running sent taken)
| call_sends i p held pending1 pending2 ch done running sent taken :
    (length ch < CLEAN_CHANNEL_SIZE)%nat ->
    gc_step (mkGc p held (pending1 ++ i :: pending2) ch done running sent taken)
      (mkGc p held (pending1 ++ pending2) (ch ++ [i]) done running (sent ++ [i]) taken)
| gc_turns s s' : gc_turn s s' -> gc_step s s'
| close_done p held pending ch running sent taken :
    gc_step (mkGc p held pending ch false running sent taken) (mkGc p held pending ch true running sent taken).

Definition gc_reachable (sz ttl : Z) (s : gcstate) : Prop := rtc gc_step (new_gc sz ttl) s.

Lemma gc_invariant sz ttl (P : gcstate -> Prop) :
  P (new_gc sz ttl) -> (forall s s', gc_step s s' -> P s -> P s') -> forall s, gc_reachable sz ttl s -> P s.
Proof. intros H0 Hstep. apply rtc_ind_r; [exact H0|]. intros s s' _ Hs. by apply Hstep. Qed.

(** ** The pool beside the collector *)

Section Reachable.
Context (sz ttl : Z).

(** The pool does not see the channel: its connections are held by the calls, and
    may be by those that let go of them without a release. *)
Definition pool_of (s : gcstate) (h : list nat) : Prop :=
  reachable sz ttl (gc_pool s, h) /\ exists rest, h ≡ₚ gc_held s ++ rest.

Lemma step_refines s s' h : gc_step s s' -> pool_of s h -> exists h', pool_of s' h'.
Proof.
  intros Hs [Hr [rest Hh]]. inversion Hs; subst; cbn [gc_pool gc_held] in *.
  - exists (i :: h). split; [eapply reach_step; [done|by eapply step_get]|]. exists rest. by rewrite Hh.
  - exists h. split; [eapply reach_step; [done|by eapply step_get_fails]|]. by exists rest.
  - destruct stream.
    + assert (Hin : i ∈ h) by (rewrite Hh; rewrite !elem_of_app, elem_of_cons; auto).
      apply list_elem_of_split in Hin as (h1 & h2 & ->). exists (h1 ++ h2). split; [eapply reach_step; [done|by eapply step_release]|].
      exists rest. cbn [gc_held]. rewrite <- app_assoc. apply (Permutation_app_inv h1 h2 held1 (held2 ++ rest) i). rewrite Hh. by rewrite <- app_assoc.
    + unfold ret in *. simplify_eq. exists h. split; [done|]. exists (i :: rest). rewrite Hh. cbn [gc_held].
      rewrite <- !app_assoc. cbn [app]. apply Permutation_app_head. apply Permutation_middle.
  - exists h. split; [done|]. by exists rest.
  - match goal with H : gc_turn _ _ |- _ => inversion H; subst; cbn [gc_pool gc_held] in * end.
    + exists h. split; [eapply reach_step; [done|by eapply step_gc]|]. by exists rest.
    + exists h. split; [done|]. by exists rest.
  - exists h. split; [done|]. by exists rest.
Qed.

(** What a client does with its pool and its collector is a run of the pool. *)
Lemma gc_refines_pool s : gc_reachable sz ttl s -> exists h, reachable sz ttl (gc_pool s, h) /\ gc_held s ⊆+ h.
Proof.
  intros Hs. assert (H : exists h, pool_of s h).
  { revert s Hs. apply gc_invariant.
    - exists []. split; [apply reach_new|]. by exists [].
    - intros s s' Hs [h Hh]. by eapply step_refines. }
  destruct H as (h & Hr & rest & Hh). exists h. split; [done|]. rewrite Hh. by apply submseteq_inserts_r.
Qed.

End Reachable.

(** ** The channel *)

(** The channel is never over its size and hands over in order; [gc] leaves only when
    the client is closed. *)
Record channel_ok (s : gcstate) : Prop := {
  ch_size : (length (gc_ch s) <= CLEAN_CHANNEL_SIZE)%nat;
  ch_order : gc_sent s = gc_taken s ++ gc_ch s;
  ch_exit : gc_running s = false -> gc_done s = true
}.

Lemma step_channel s s' : gc_step s s' -> channel_ok s -> channel_ok s'.
Proof.
  intros Hs [Hl Ho He]. inversion Hs; subst; try (by split).
  - cbn [gc_ch gc_sent gc_taken] in *. split; cbn [gc_ch gc_sent gc_taken]; [rewrite length_app; cbn; lia|by rewrite Ho, app_assoc|done].
  - match goal with H : gc_turn _ _ |- _ => inversion H; subst end; [|by split].
    split; cbn [gc_ch gc_sent gc_taken] in *; [cbn in Hl; lia|by rewrite Ho, <- app_assoc|done].
Qed.

Section Channel.
Context (sz ttl : Z).

Lemma reachable_channel s : gc_reachable sz ttl s -> channel_ok s.
Proof.
  revert s. apply gc_invariant; [|by apply step_channel]. split; cbn; [unfold CLEAN_CHANNEL_SIZE; lia|done|done].
Qed.

(** *** The connections of the streams are the pool's *)

Lemma getConn_ptr protocol addr now now' dial p o p' :
  getConn protocol addr now now' dial p = (o, p') -> (next_ptr p <= next_ptr p')%nat.
Proof.
  unfold getConn, bind. pose proof (getConn_loop_ptr (pool_key protocol addr) now (reverse (conns_of (pool_key protocol addr) p)) p) as Hn.
  cbv zeta. destruct (getConn_loop _ _ _ p) as [[[i|]|e| |] p1]; cbn [snd] in Hn; try (intros [= _ <-]; lia).
  destruct dial as [e|]; intros [= _ <-]; cbn; lia.
Qed.

Lemma Close_ptr i p : next_ptr (poolConn_Close i p).2 = next_ptr p.
Proof. unfold poolConn_Close. destruct (store p !! i) as [c|]; [|done]. by destruct (once c). Qed.

Lemma release_ptr protocol addr i err p : next_ptr (release protocol addr i err p).2 = next_ptr p.
Proof.
  unfold release. destruct (store p !! i) as [c|]; [|done]. destruct (created c =? 0); [done|]. destruct err as [e|].
  - pose proof (Close_ptr i p) as H. unfold or_zero. by destruct (poolConn_Close i p) as [[] p'].
  - cbv zeta. by destruct (_ <=? _).
Qed.

Definition known (s : gcstate) : Prop := Forall (fun i => (i < next_ptr (gc_pool s))%nat) (gc_held s ++ gc_pending s ++ gc_ch s).

(** All that is kept on the way. *)
Record gc_ok (s : gcstate) : Prop := {
  go_pool : exists h, pool_of sz ttl s h;
  go_known : known s;
  go_channel : channel_ok s
}.

Ltac parts := intros ?; cbn [gc_held gc_pending gc_ch]; rewrite ?elem_of_app, ?elem_of_cons, ?elem_of_app, ?elem_of_nil; tauto.

Lemma known_mono s s' : known s -> (next_ptr (gc_pool s) <= next_ptr (gc_pool s'))%nat ->
  gc_held s' ++ gc_pending s' ++ gc_ch s' ⊆ gc_held s ++ gc_pending s ++ gc_ch s -> known s'.
Proof. unfold known. rewrite !Forall_forall. intros H Hn Hs i Hi. specialize (H i (Hs i Hi)). cbn in *. lia. Qed.

Lemma step_known s s' h : gc_step s s' -> pool_of sz ttl s h -> known s -> known s'.
Proof.
  intros Hs [Hr _] Hk. inversion Hs; subst; cbn [gc_pool] in *.
  - pose proof (getConn_ok sz ttl protocol addr now now' dial p h (pool_reachable_ok _ _ _ Hr) ltac:(done)) as Hg.
    match goal with H : getConn _ _ _ _ _ _ = _ |- _ => rewrite H in Hg; pose proof (getConn_ptr _ _ _ _ _ _ _ _ H) as Hp end.
    destruct Hg as (Hok & _ & _). unfold known in *. cbn [gc_held gc_pending gc_ch gc_pool app] in *. apply Forall_cons. split.
    + apply (proj2 (po_held _ _ _ _ Hok)). by left.
    + eapply Forall_impl; [exact Hk|]. cbn. intros; lia.
  - match goal with H : getConn _ _ _ _ _ _ = _ |- _ => pose proof (getConn_ptr _ _ _ _ _ _ _ _ H) end.
    eapply known_mono; [exact Hk|done|]. parts.
  - assert (next_ptr p' = next_ptr p) as Hp.
    { destruct stream; [|unfold ret in *; by simplify_eq]. pose proof (release_ptr protocol addr i err p) as E.
      match goal with H : release _ _ _ _ _ = _ |- _ => by rewrite H in E end. }
    eapply known_mono; [exact Hk|cbn; lia|]. parts.
  - eapply known_mono; [exact Hk|done|]. parts.
  - match goal with H : gc_turn _ _ |- _ => inversion H; subst end.
    + match goal with H : poolConn_Close ?i ?p = _ |- _ => pose proof (Close_ptr i p) as E; rewrite H in E end.
      eapply known_mono; [exact Hk|cbn in *; lia|]. parts.
    + eapply known_mono; [exact Hk|done|]. parts.
  - eapply known_mono; [exact Hk|done|]. parts.
Qed.

Lemma reachable_gc_ok s : gc_reachable sz ttl s -> gc_ok s.
Proof.
  intros Hs. assert (H : (exists h, pool_of sz ttl s h) /\ known s).
  { revert s Hs. apply gc_invariant.
    - split; [|by apply Forall_nil]. exists []. split; [apply reach_new|]. by exists [].
    - intros s s' Hs [[h Hh] Hk]. split; [by eapply step_refines|by eapply step_known]. }
  destruct H. split; [done|done|by apply reachable_channel].
Qed.

(** *** [gc] on its own *)

Lemma turns_drain ch h : forall p held pending done sent taken,
  pool_ok sz ttl p h -> Forall (fun i => (i < next_ptr p)%nat) ch ->
  exists p', rtc gc_turn (mkGc p held pending ch done true sent taken) (mkGc p' held pending [] done true sent (taken ++ ch))
    /\ Forall (closed_conn p') ch /\ forall i, closed_conn p i -> closed_conn p' i.
Proof.
  induction ch as [|i ch IH]; intros p held pending done sent taken Hok Hch.
  - exists p. rewrite app_nil_r. split_and!; [reflexivity|by apply Forall_nil|done].
  - apply Forall_cons in Hch as [Hi Hch]. apply (po_alloc _ _ _ _ Hok) in Hi as [c Hc].
    destruct (Close_frames i c p Hc (po_once _ _ _ _ Hok i c Hc)) as [(Hn & _ & Hf) Hcl].
    pose proof (poolConn_Close_ok sz ttl i p h Hok) as Hok1.
    destruct (poolConn_Close i p) as [o p1] eqn:E. cbn [snd] in *.
    destruct (IH p1 held pending done sent (taken ++ [i]) Hok1) as (p' & H & Hall & Hkeep).
    { eapply Forall_impl; [exact Hch|]. cbn. by rewrite Hn. }
    exists p'. rewrite <- app_assoc in H. split_and!; [eapply rtc_l; [by eapply gc_take|exact H]| |auto].
    apply Forall_cons. auto.
Qed.

(** C26. As long as the client is not closed, [gc] alone, with no other goroutine's help,
    comes to have closed the connection of every stream that was sent to it, in the
    order of the sending, and the channel is empty, so that no call waits for it. *)
Theorem gc_drains s : gc_reachable sz ttl s -> gc_done s = false ->
  exists s', rtc gc_turn s s' /\ gc_ch s' = [] /\ gc_taken s' = gc_sent s /\ gc_running s' = true
    /\ Forall (closed_conn (gc_pool s')) (gc_ch s).
Proof.
  intros Hs Hd. destruct (reachable_gc_ok s Hs) as [[h [Hr _]] Hk [_ Ho He]].
  destruct s as [p held pending ch done running sent taken]. cbn in *. destruct running; [|by rewrite He in Hd].
  unfold known in Hk. rewrite !Forall_app in Hk. destruct Hk as (_ & _ & Hk).
  destruct (turns_drain ch h p held pending done sent taken (pool_reachable_ok _ _ _ Hr) Hk) as (p' & H & Hall & _).
  eexists. split; [exact H|]. cbn. by rewrite Ho.
Qed.

(** *** After [gc] has left *)

Lemma step_after s s' : gc_step s s' -> gc_running s = false ->
  gc_running s' = false /\ gc_taken s' = gc_taken s
  /\ (length (gc_ch s) = CLEAN_CHANNEL_SIZE -> gc_ch s' = gc_ch s /\ gc_pending s ⊆ gc_pending s').
Proof.
  intros Hs Hr. inversion Hs; subst; cbn [gc_running gc_taken gc_ch gc_pending] in *; try done.
  - split_and!; [done|done|]. intros _. split; [done|]. parts.
  - split_and!; [done|done|]. intros. lia.
  - match goal with H : gc_turn _ _ |- _ => inversion H; subst; cbn in *; done end.
Qed.

(** C27. Once [gc] has seen that the client is closed and has left, no stream is closed
    any more, neither those that wait in the channel nor those of the calls that
    still go on; 64 calls at most can end, and all others wait for ever. *)
Theorem closed_client_stuck s s' : gc_reachable sz ttl s -> gc_running s = false -> rtc gc_step s s' ->
  gc_taken s' = gc_taken s /\ (length (gc_sent s') <= length (gc_taken s) + CLEAN_CHANNEL_SIZE)%nat
  /\ (length (gc_ch s) = CLEAN_CHANNEL_SIZE -> gc_ch s' = gc_ch s /\ gc_pending s ⊆ gc_pending s').
Proof.
  intros Hs Hr Hss. assert (Hs' : gc_reachable sz ttl s') by (unfold gc_reachable in *; by etransitivity).
  destruct (go_channel _ (reachable_gc_ok s' Hs')) as [Hl Ho _].
  assert (H : gc_running s' = false /\ gc_taken s' = gc_taken s
    /\ (length (gc_ch s) = CLEAN_CHANNEL_SIZE -> gc_ch s' = gc_ch s /\ gc_pending s ⊆ gc_pending s')).
  { clear Hs Hs' Hl Ho. induction Hss as [s|s s1 s' H1 _ IH]; [by split_and!|].
    destruct (step_after s s1 H1 Hr) as (Hr1 & Ht1 & Hp1). destruct (IH Hr1) as (Hr2 & Ht2 & Hp2). split_and!; [done|congruence|].
    intros Hf. destruct (Hp1 Hf) as [Hc1 Hs1]. rewrite Hc1 in Hp2. destruct (Hp2 Hf) as [Hc2 Hs2]. split; [done|]. by etransitivity. }
  destruct H as (_ & Ht & Hp). split_and!; [done| |done]. rewrite Ho, length_app, Ht. lia.
Qed.

End Channel.

(** ** Witnesses *)

(** A call with the connection [0] that has sent its stream. *)
Definition one_pool : pool := mkPool 1 60 ∅ {[0%nat := mkConn false 0 101]} 1 [].
Definition one_sent : gcstate := mkGc one_pool [] [] [0%nat] false true [0%nat] [].

Lemma one_sent_reachable : gc_reachable 1 60 one_sent.
Proof.
  eapply rtc_l; [eapply (call_get (lit "dubbo") (lit "a") 100 101 None); [vm_compute; reflexivity|lia|lia]|].
  eapply rtc_l; [eapply (call_ends false [] [] 0%nat None _ [] []); reflexivity|].
  eapply rtc_l; [eapply (call_sends 0%nat _ _ [] []); cbn; unfold CLEAN_CHANNEL_SIZE; lia|]. reflexivity.
Qed.

Lemma gc_drains_witness : exists s', rtc gc_turn one_sent s' /\ gc_taken s' = [0%nat] /\ closed_conn (gc_pool s') 0.
Proof.
  destruct (gc_drains 1 60 one_sent one_sent_reachable eq_refl) as (s' & H & _ & Ht & _ & Hc).
  exists s'. split; [exact H|]. split; [exact Ht|]. by inversion Hc.
Defined.

(** The client is closed, and [gc] leaves before it takes the stream. *)
Definition one_left : gcstate := mkGc one_pool [] [] [0%nat] true false [0%nat] [].

Lemma one_left_reachable : gc_reachable 1 60 one_left.
Proof.
  eapply rtc_r; [eapply rtc_r; [exact one_sent_reachable|apply close_done]|]. apply gc_turns, gc_exit.
Qed.

Lemma closed_client_stuck_witness :
  created <$> store (gc_pool one_left) !! 0%nat = Some 101 /\ forall s', rtc gc_step one_left s' -> gc_taken s' = [].
Proof.
  split; [reflexivity|]. intros s' Hs.
  destruct (closed_client_stuck 1 60 one_left s' one_left_reachable eq_refl Hs) as (H & _). exact H.
Defined.
