(* ===== verification/Calls.v ===== *)
(** * The whole client

    [Call] of [client/rpc_client.go] with all that it uses: the client's options and
    the number of its request, the selector's cache and its [Next], the loop of
    attempts, and in each of them the pool, the stream, the codec and the transport. *)
From S2P Require Import Prelude.
From S2P Require Import HessianRequest Registry Url Common Selector Cache Pool Rpc RpcFrame Client ClientOptions.

(** [wh_counter] is the state of the [Next] in use, [wh_rsp] the caller's variable. *)
Record whole (C V T : Type) := mkWhole {
  wh_client : rpcClient (C := C);
  wh_conns : gmap nat T;
  wh_selector : cacheSelector;
  wh_counter : counter;
  wh_rsp : V
}.
Arguments mkWhole {C V T}.
Arguments wh_client {C V T}.
Arguments wh_conns {C V T}.
Arguments wh_selector {C V T}.
Arguments wh_counter {C V T}.
Arguments wh_rsp {C V T}.

Definition set_pool {C} (p : pool) (c : rpcClient (C := C)) : rpcClient :=
  mkRpcClient (cl_ID c) (cl_opts c) p (cl_done c) (cl_once c) (cl_closings c).

Section Whole.
Context {C V T : Type} `{CC : Codec C V} `{TC : TransportClient T} `{R : Runtime}.
Abbreviation W := (whole C V T).

(** What one attempt finds: the times that the pool sees, and what [Dial] answers. *)
Record attempt_env := mkEnv {
  en_now : Z;
  en_now' : Z;
  en_dial : goerr + T
}.

(** The calls' part of the client. *)
Definition calls_of (w : W) : cstate T := mkState (cl_pool (wh_client w)) (wh_conns w).

Definition on_calls (m : ST (cstate T * V) unit) : ST W unit := fun w =>
  let '(o, (s, rsp)) := m (calls_of w, wh_rsp w) in
  (o, mkWhole (set_pool (cs_pool s) (wh_client w)) (cs_conns s) (wh_selector w) (wh_counter w) rsp).

Definition set_selector (s : cacheSelector) (w : W) : W := mkWhole (wh_client w) (wh_conns w) s (wh_counter w) (wh_rsp w).
Definition set_counter (n : counter) (w : W) : W := mkWhole (wh_client w) (wh_conns w) (wh_selector w) n (wh_rsp w).
Definition set_rpcClient (c : rpcClient (C := C)) (w : W) : W := mkWhole c (wh_conns w) (wh_selector w) (wh_counter w) (wh_rsp w).

(** The selector's [Next], which reads its slice when it is called. *)
Definition selector_next (f : ModeFunc) (services : slice) (rand : Z) (reqID : Z) : ST W ServiceURL := fun w =>
  let '(o, n) := call_next f services rand reqID (wh_selector w) (wh_counter w) in (o, set_counter n w).

(** The options of the call: those of the client, as the caller's options change
    them, and the time that is left to the context's deadline, if it has one. *)
Definition call_options (deadline : option Z) (opts : list (CallOptions -> CallOptions)) (o : CallOptions) : CallOptions :=
  let o := fold_left (fun o f => f o) opts o in
  match deadline with None => o | Some d => WithRequestTimeout d o end.

(** [since], [now] and [reg] are what the cache sees of the time and the registry;
    [rand] is the random number of an attempt's [Next], [custom] the caller's own
    [Next], if it is given. *)
Definition rpcClient_Call (since now : Z) (reg : goerr + list ServiceURL) (rand : Z) (custom : option (Z -> ST W ServiceURL))
    (env : ServiceURL -> attempt_env) (md : option Header) (deadline : option Z) (over : bool) (done : nat -> bool)
    (request : rpcRequest V) (opts : list (CallOptions -> CallOptions)) : ST W unit := fun w =>
  let '(id, c) := request_ID (wh_client w) in
  let w := set_rpcClient c w in
  match id with
  | Ret reqID =>
      let callOpts := call_options deadline opts (o_CallOptions (cl_opts c)) in
      let one_call service :=
        match o_newCodec (cl_opts c) with
        | None => panic
        | Some newCodec =>
            let e := env service in
            on_calls (call newCodec (o_CodecType (cl_opts c)) (en_now e) (en_now' e) (en_dial e) None md reqID service request callOpts)
        end in
      match custom with
      | Some next => Call (next reqID) one_call None over done (Retries callOpts) w
      | None =>
          if negb (o_Selector (cl_opts c)) then (Panic, w)
          else
            match Select (IfConfig (rpcRequest_ServiceConfig request)) since now reg (wh_selector w) with
            | (Ret (f, services), s) =>
                Call (selector_next f services rand reqID) one_call None over done (Retries callOpts) (set_counter 0 (set_selector s w))
            | (Fail e, s) => Call (fail e) one_call (Some e) over done (Retries callOpts) (set_selector s w)
            | (Panic, s) => (Panic, set_selector s w)
            | (NoFuel, s) => (NoFuel, set_selector s w)
            end
      end
  | Fail e => (Fail e, w)
  | Panic => (Panic, w)
  | NoFuel => (NoFuel, w)
  end.

(** ** A first attempt that succeeds *)

Lemma attempt_succeeds (next : ST W ServiceURL) one_call u w w1 w2 :
  next w = (Ret u, w1) -> one_call u w1 = (Ret tt, w2) -> attempt next one_call w = (Ret tt, w2).
Proof. intros E1 E2. unfold attempt, bind, trace, on_err. by rewrite E1, E2. Qed.

Lemma attempt_fails (next : ST W ServiceURL) one_call u w w1 w2 e :
  next w = (Ret u, w1) -> one_call u w1 = (Fail e, w2) -> attempt next one_call w = (Fail (Traced e), w2).
Proof. intros E1 E2. unfold attempt, bind, trace, on_err. by rewrite E1, E2. Qed.

Lemma Call_first (next : ST W ServiceURL) one_call retries w w' :
  0 < retries -> attempt next one_call w = (Ret tt, w') ->
  Call next one_call None false (fun _ => false) retries w = (Ret tt, w').
Proof.
  intros Hr E. unfold Call. rewrite (proj2 (Z.ltb_ge _ _)) by lia. destruct (Z.to_nat retries) as [|n] eqn:En; [lia|].
  cbn [retry_loop]. unfold on_err. by rewrite E.
Qed.

(** A single attempt that fails. *)
Lemma Call_once_fails (next : ST W ServiceURL) one_call w w' e :
  attempt next one_call w = (Fail e, w') -> error_empty e = false ->
  Call next one_call None false (fun _ => false) 1 w = (Fail (Traced e), w').
Proof. intros E Hne. unfold Call. change (1 <? 0) with false. change (Z.to_nat 1) with 1%nat. cbn [retry_loop]. unfold on_err. by rewrite E, Hne. Qed.

(** Of one provider, the [Next] gives that one. *)
Lemma one_provider_next mode context c conf since now url rand ID :
  steps (NewSelector mode context) c -> providers (Key conf) (abs c) = [] \/ in_time (Key conf) since c = false ->
  0 <= rand -> 0 <= ID -> rand + ID < 2 ^ 63 - 1 ->
  exists f s c' n, Select (IfConfig conf) since now (inr [url]) c = (Ret (f, s), c') /\ call_next f s rand ID c' 0 = (Ret url, n).
Proof.
  intros Hs Hmiss Hr HI Hb.
  pose proof (Select_next mode context c conf since now (inr [url]) rand ID Hs) as H. cbv zeta in H.
  rewrite spec_get_miss in H by done.
  assert (Hreg : forall ss, inr (A := goerr) [url] = inr ss -> NoDup (PrimitiveURL <$> ss)) by (intros ss [= <-]; apply NoDup_singleton).
  specialize (H Hreg Hr HI Hb). destruct (Select _ _ _ _ c) as [[[f s]|e| |] c']; try done.
  - destruct H as (l & u & i & [= <-] & E & Hu). apply list_elem_of_singleton in Hu as ->. by exists f, s, c', i.
  - by destruct H as [[_ [e' He']]|[_ He']].
Qed.

(** A call of the only provider, by the course of its first attempt. *)
Lemma Call_only_provider mode context since now url rand md request opts newCodec env w :
  let '(id, c) := request_ID (wh_client w) in
  let reqID := i64 (cl_ID (wh_client w) + 1) in
  let conf := rpcRequest_ServiceConfig request in
  let o := cl_opts (wh_client w) in
  let callOpts := call_options None opts (o_CallOptions o) in
  let e := env url in
  steps (NewSelector mode context) (wh_selector w) -> providers (Key conf) (abs (wh_selector w)) = [] \/ in_time (Key conf) since (wh_selector w) = false ->
  0 <= rand -> 0 <= reqID -> rand + reqID < 2 ^ 63 - 1 ->
  o_Selector o = true -> o_newCodec o = Some newCodec ->
  forall r st rsp,
  call newCodec (o_CodecType o) (en_now e) (en_now' e) (en_dial e) None md reqID url request callOpts (calls_of w, wh_rsp w) = (r, (st, rsp)) ->
  exists w', calls_of w' = st /\ wh_rsp w' = rsp
    /\ (r = Ret tt -> 0 < Retries callOpts ->
        rpcClient_Call since now (inr [url]) rand None env md None false (fun _ => false) request opts w = (Ret tt, w'))
    /\ (forall e, r = Fail e -> error_empty e = false -> Retries callOpts = 1 ->
        rpcClient_Call since now (inr [url]) rand None env md None false (fun _ => false) request opts w = (Fail (Traced (Traced e)), w')).
Proof.
  unfold request_ID. cbv zeta. intros Hs Hmiss Hr HI Hb Hsel Hnc r st rsp Ec.
  set (reqID := i64 (cl_ID (wh_client w) + 1)) in *.
  destruct (one_provider_next mode context (wh_selector w) (rpcRequest_ServiceConfig request) since now url rand reqID Hs Hmiss Hr HI Hb)
    as (f & s & c' & n & Es & En).
  set (cl := mkRpcClient reqID (cl_opts (wh_client w)) (cl_pool (wh_client w)) (cl_done (wh_client w)) (cl_once (wh_client w)) (cl_closings (wh_client w))).
  set (callOpts := call_options None opts (o_CallOptions (cl_opts (wh_client w)))) in *.
  set (w1 := set_counter n (set_counter 0 (set_selector c' (set_rpcClient cl w)))).
  exists (mkWhole (set_pool (cs_pool st) cl) (cs_conns st) c' n rsp). split; [by destruct st|]. split; [done|].
  assert (Hone : forall one_call : ServiceURL -> ST W unit, one_call = (fun service => match o_newCodec (cl_opts cl) with
      | None => panic
      | Some newCodec => on_calls (call newCodec (o_CodecType (cl_opts cl)) (en_now (env service)) (en_now' (env service))
          (en_dial (env service)) None md reqID service request callOpts) end) ->
    one_call url w1 = (r, mkWhole (set_pool (cs_pool st) cl) (cs_conns st) c' n rsp)).
  { intros one_call ->. cbn [cl_opts cl]. rewrite Hnc. unfold on_calls. change (calls_of w1) with (calls_of w). change (wh_rsp w1) with (wh_rsp w).
    by rewrite Ec. }
  assert (Hnext : selector_next f s rand reqID (set_counter 0 (set_selector c' (set_rpcClient cl w))) = (Ret url, w1)).
  { unfold selector_next. cbn [wh_selector wh_counter set_counter set_selector]. by rewrite En. }
  split.
  - intros -> Hret. unfold rpcClient_Call, request_ID. cbv zeta. fold reqID. fold cl. cbn [cl_opts cl]. rewrite Hsel. cbn [negb wh_selector set_rpcClient].
    rewrite Es. apply Call_first; [exact Hret|]. eapply attempt_succeeds; [exact Hnext|]. exact (Hone _ eq_refl).
  - intros e -> Hne Hret. unfold rpcClient_Call, request_ID. cbv zeta. fold reqID. fold cl. cbn [cl_opts cl]. rewrite Hsel. cbn [negb wh_selector set_rpcClient].
    rewrite Es. fold callOpts. rewrite Hret. apply Call_once_fails; [|done]. eapply attempt_fails; [exact Hnext|]. exact (Hone _ eq_refl).
Qed.

End Whole.
