(* ===== verification/Deployed.v ===== *)
(** * From a server's handler to the caller's variable

    All parts together, for JSON-RPC: a handler that a server handles is found by a
    consumer in the zookeeper registry, chosen by the selector of its client, and
    called over HTTP by the client's [Call]. *)
From S2P Require Import Prelude.
From S2P Require Import Utf8 Registry Url Common Zookeeper ZkRegistry ZkAgree Selector Cache Pool Rpc Client.
From S2P Require Import Server ServerSafe Serve ServeSafe Publish Json JsonText JsonCodec JsonCall JsonClient.
From S2P Require Import Http HttpText Net Transport TransportSafe HttpCall ClientOptions Calls.

Section Deployed.
Context {W Conn Wch : Type} `{ZT : ZkTree W Conn Wch} `{PR : Process} `{R : MapRange} `{GR : Runtime}.
Context `{VS : Values} `{JV : !JsonValues} `{UT : UnicodeTable} `{ET : ErrorText} {A : Type}.
Context {L : Type} `{TR : ServerTransport (provider (Conn := Conn) * W) L} `{HA : HostAddresses}.
Context (snow stimeout cnow ctimeout : Z) (nil_is_nil : is_nil nil_value = true).
#[local] Instance server_socket : Socket httpTransportSocket := HttpSocket snow stimeout.
#[local] Instance client_transport : TransportClient httpTransportClient := HttpClient cnow ctimeout.
Abbreviation server := (Serve.server (A := A) (C := jsonCodec) (L := L)).
Abbreviation handlePkg := (Serve.handlePkg (A := A) (K := httpTransportSocket) NewCodec).
Abbreviation whole := (Calls.whole jsonCodec value httpTransportClient).

(** Of the services in the server's configuration just [sc] is the handler's, and of
    the addresses just [c]'s is for the service's protocol. *)
Record handles (h : Handler A) (s : server) pre c post spre sc spost rpc methods rpc' : Prop := {
  ha_confs : o_ConfList (srv_opts s) = pre ++ c :: post;
  ha_services : o_ServiceConfList (srv_opts s) = spre ++ sc :: spost;
  ha_for : for_handler h sc;
  ha_service : Forall (fun sc => ~ for_handler h sc) (spre ++ spost);
  ha_protocol : cf_Protocol c = sc_Protocol sc;
  ha_conf : Forall (fun c => cf_Protocol c <> sc_Protocol sc) (pre ++ post);
  ha_rpc : srv_rpc s !! length pre = Some rpc;
  ha_register : register h rpc = (Ret methods, rpc');
  ha_registry : Serve.o_Registry (srv_opts s) = true;
  ha_names : NoDup (m_Name <$> h_methods h);
  ha_commas : Forall (fun m => comma ∉ m_Name m) (h_methods h)
}.

(** The registries of the provider and the consumer are connected, nobody has
    registered the service with zookeeper, and the consumer asks for it. *)
Record announces (r : zookeeperRegistry Conn) w z c conf ip port r2 z2 c2 : Prop := {
  an_connected : connected r w z c;
  an_conf : conf_ok conf ip port;
  an_registry : registry_ok r;
  an_way : way_open w (providers_of conf);
  an_first n : tree w !! (providers_of conf ++ [n]) = None;
  an_services : exists m, services r = Some m /\ m !! ProviderServiceConfig_String conf = None;
  an_consumer : connected r2 w z2 c2;
  an_lookup : lookup_service r2 (Key (ps_config conf)) = Some (IfConfig (ps_config conf))
}.

(** A JSON-RPC client between two calls, whose cache knows nothing of the service
    any more. *)
Record ready_client (cl : whole) (sc : ServiceConfig) (since rand sz ttl now now' : Z) : Prop := {
  rd_cache : exists mode context, steps (NewSelector mode context) (wh_selector cl);
  rd_unknown : providers (Key sc) (abs (wh_selector cl)) = [] \/ in_time (Key sc) since (wh_selector cl) = false;
  rd_codec : o_newCodec (cl_opts (wh_client cl)) = Some (NewCodec []) /\ o_CodecType (cl_opts (wh_client cl)) = CODECTYPE_JSONRPC;
  rd_selector : o_Selector (cl_opts (wh_client cl)) = true;
  rd_numbers : 0 <= rand /\ 0 <= i64 (cl_ID (wh_client cl) + 1) /\ rand + i64 (cl_ID (wh_client cl) + 1) < 2 ^ 63 - 1;
  rd_rest : at_rest sz ttl (calls_of cl);
  rd_time : ttl < now /\ is_i64 now /\ 0 < now'
}.

(** What a method of the handler does with the parameters of a request. *)
Record method_runs (h : Handler A) (hd : Header) (method params : bytes) (a : A) (err : bytes) (reply : value) (a' : A) : Prop := {
  mr_runs : exists m mt f v e,
    m ∈ h_methods h /\ m_Name m = method /\ prepareMethod m = Some mt /\ stream mt = false /\ m_Func m = FUnary f
    /\ is_nil (zero_of (elem_type (ArgType mt))) = false /\ read_params params (zero_of (elem_type (ArgType mt))) = Ret v
    /\ call_ok (call_args mt v) (m_In m) = true
    /\ f (mkContext (strip_header hd) (deadline hd)) v (zero_of (elem_type (default (ArgType mt) (ReplyType mt)))) a = (Ret (e, reply), a')
    /\ default [] e = err;
  mr_utf8 : utf8_text err;
  mr_unbraced : unbraced err
}.

Lemma prepared_method (m : method A) mt : prepareMethod m = Some mt -> mt_method mt = m /\ uncount mt = mt.
Proof.
  unfold prepareMethod. intros E. repeat case_match; try discriminate; simplify_eq; split; try done;
  match goal with H : Some ?x = Some _ |- _ => injection H as <- | _ => idtac end; done.
Qed.

(** A registered handler's methods are those that a request calls. *)
Lemma registered_called (h : Handler A) rpc methods rpc' hd method params a err reply a' :
  register h rpc = (Ret methods, rpc') -> NoDup (m_Name <$> h_methods h) -> Forall (fun m => comma ∉ m_Name m) (h_methods h) ->
  at_key hd (lit "Path") = h_Service h -> method_runs h hd method params a err reply a' ->
  called (table_of rpc') hd method params a err reply a'.
Proof.
  intros Hr Hnd Hc Hpath [(m & mt & f & v & e & Hm & <- & Hp & Hst & Hf & Hz & Hv & Hok & Ef & He) Hu Hb].
  destruct (register_requires h rpc methods rpc' Hr) as (Hex & Hs & Hsuit).
  destruct (register_methods h rpc (mkURL [] [] [] [] [] [] [] ∅ 0 []) Hex Hs Hnd Hc Hsuit) as (methods' & table & Er & Hlook & _).
  rewrite Hr in Er. injection Er as <- ->. destruct (prepared_method m mt Hp) as [Hmt Hun].
  split; [|done|done]. exists (uncount <$> table), mt, f, v, e. split_and!; try done.
  - unfold table_of. rewrite lookup_fmap, Hpath. cbn [serviceMap set_services]. by rewrite lookup_insert_eq.
  - by rewrite lookup_fmap, Hlook, Hp, <- Hun by done.
  - by rewrite Hmt.
  - by rewrite Hmt.
Qed.

(** The text of an error at the caller is not empty, which would be none. *)
Lemma error_sent err : err <> [] -> error_empty (Traced (Text (error_of_response err))) = false.
Proof.
  intros Hne. unfold error_of_response. rewrite bool_decide_eq_false_2 by done.
  destruct (newError_parts err) as (c & _ & _ & ->). reflexivity.
Qed.

(** A client's request is for the service that a JSON-RPC provider has. *)
Lemma service_of_request {V} sc method (x : V) :
  sc_Protocol sc = lit "jsonrpc" ->
  rpcRequest_ServiceConfig (NewRequest CODECTYPE_JSONRPC (sc_Group sc) (sc_Version sc) (sc_Service sc) method x false) = sc.
Proof. destruct sc as [p sv g v]. cbn [sc_Protocol]. by intros ->. Qed.

(** The paths that a provider registers. *)
Lemma service_path_good conf ip port suffix :
  conf_ok conf ip port -> Forall is_byte suffix ->
  let path := 47 :: sc_Service (ps_config conf) ++ suffix in good_path path /\ drop 1 path <> [].
Proof.
  intros Hc Hs path. split; [right; eexists; split; [reflexivity|]|].
  - apply Forall_app. split; [apply (conf_bytes _ _ _ Hc)|done].
  - intros [Hn _]%app_eq_nil. by destruct (conf_service _ _ _ Hc) as [? _].
Qed.

(** The call of one client, whose [Next] is the selector's. *)
Definition client_call (since now rand : Z) url (now' now'' : Z) conn md request opts : Calls.whole jsonCodec value httpTransportClient -> outcome unit * whole :=
  rpcClient_Call since now (inr [url]) rand None
    (fun service => mkEnv now' now'' (inr (initHTTPTransportClient (Location service) conn
       (dial_options [WithTimeout (DialTimeout opts); WithPath (Path service)]))))
    (Some md) None false (fun _ => false) request [].

(** A call of a service at a URL, by the whole client, from the bytes of the answer. *)
Lemma found_call_ends conn x x' y' params group version svc method md url sz ttl since now rand now' now'' err u (cl : whole) :
  let opts := o_CallOptions (cl_opts (wh_client cl)) in
  let reqID := i64 (cl_ID (wh_client cl) + 1) in
  let T := request_timeout url (RequestTimeout opts) in
  let body := request_text method params (Z.land reqID MAX_JSONRPC_ID) ++ [10] in
  let resp := response_text (Itoa (Z.land reqID MAX_JSONRPC_ID)) (Some u) (error_part err) ++ [10] in
  let request := NewRequest CODECTYPE_JSONRPC group version svc method x false in
  checked_param x = Ret (Some x') -> marshal x' = inr params -> json_text u -> utf8_text err ->
  is_nil (wh_rsp cl) = false -> (err = [] -> read_result u (wh_rsp cl) = Ret y') ->
  good_service url -> plain_header md -> ready conn -> Z.of_nat (length resp) < 2 ^ 63 ->
  ready_client cl (rpcRequest_ServiceConfig request) since rand sz ttl now' now'' -> Retries opts = 1 ->
  concat (nc_in conn) = answer_of (received (singles (json_fields md T)) body) {[content_type := json_type]} resp ->
  exists cl', at_rest sz ttl (calls_of cl') /\ wh_rsp cl' = match err with [] => y' | _ => wh_rsp cl end
    /\ client_call since now rand url now' now'' conn md request opts cl
       = (match err with [] => Ret tt | _ => Fail (Traced (Traced (Traced (Text (error_of_response err))))) end, cl').
Proof.
  intros opts reqID T body resp request Hx Hmar Hju He Hy Hres Hsvc Hmd Hcr Hrlen
    [(mode & context & Hsteps) Hunk [Hnc Hct] Hsel (Hr & HI & Hb) Hrest (Ht & Hi64 & Hn)] Hret Hcin.
  destruct (json_call_ends cnow ctimeout nil_is_nil conn x x' (wh_rsp cl) y' params group version svc method md reqID url
    opts sz ttl now' now'' (calls_of cl) err u Hx Hmar Hju He Hy Hres Hsvc Hmd Hcr Hrlen Hrest Ht Hi64 Hn Hcin) as (st' & hc' & Ec & Hrest' & _).
  pose proof (Call_only_provider mode context since now url rand (Some md) request [] (NewCodec [])
    (fun service => mkEnv now' now'' (inr (initHTTPTransportClient (Location service) conn (dial_options [WithTimeout (DialTimeout opts); WithPath (Path service)])))) cl) as Hone.
  unfold request_ID in Hone. cbv zeta in Hone. rewrite Hct in Hone.
  destruct (Hone Hsteps Hunk Hr HI Hb Hsel Hnc _ _ _ Ec) as (cl' & Hst & Hrsp & Hok & Herr).
  exists cl'. split; [by rewrite Hst|]. split; [exact Hrsp|]. destruct err as [|b err].
  - apply Hok; [done|]. change (0 < Retries opts). lia.
  - by apply (Herr (Traced (Text (error_of_response (b :: err))))), Hret; [|apply error_sent].
Qed.


End Deployed.

(** ** A deployment *)

#[local] Existing Instances RawValues RawJson AsciiTable NoText HostAddresses0.

#[local] Instance ServerTransport2 : ServerTransport (provider (Conn := nat) * Zookeeper.server) bytes :=
  {| t_Listen := fun addr w => (Ret addr, w); l_Close := fun _ w => w |}.

Definition user_config : ServiceConfig := mkConfig (lit "jsonrpc") (lit "com.User") (lit "g") (lit "2").
Definition user_handler : Handler nat := mkHandler (lit "User") (lit "com.User") (lit "2") [Get].
Definition user_address : ServerConfig := mkServerConfig (lit "jsonrpc") (lit "h") 1.
Definition user_conf : ProviderServiceConfig := mkProvider user_config (lit "h:1") (lit "Get").
Definition user_server : Serve.server (A := nat) (C := jsonCodec) (L := bytes) :=
  mkServer [initServer] [None] [] false (Serve.mkOptions ∅ true true [user_address] [user_config]) ∅.
Definition user_consumer : zookeeperRegistry nat := registry1 {[ Key user_config := IfConfig user_config ]}.

Definition user_client : whole jsonCodec value httpTransportClient :=
  mkWhole (mkRpcClient 2 (mkOptions CODECTYPE_JSONRPC (Some (NewCodec [])) true true None 0 60 user_options) (newPool 0 60) false false [])
    ∅ (NewSelector None None) 0 (Some []).

(** The registry after [Handle], the URL that the consumer finds, and the bytes. *)
Definition handled : outcome unit * (Serve.server (A := nat) (C := jsonCodec) (L := bytes) * (provider * Zookeeper.server)) :=
  Handle user_handler (user_server, (mkProviderRegistry (registry1 ∅) ∅, server1)).
Definition user_found : ServiceURL :=
  match (GetServices (IfConfig user_config) (user_consumer, handled.2.2.2)).1 with Ret (url :: _) => url | _ => user_service end.
Definition user_fields2 : Header := json_fields ∅ (request_timeout user_found Second).
Definition user_socket2 : httpTransportSocket :=
  initHTTPTransportSocket (connection [text_of (lit "h:1") (lit "/com.User") user_fields2 user_body]).
Definition user_served2 : outcome unit * conn (K := httpTransportSocket) (A := nat) :=
  Serve.handlePkg (SK := HttpSocket 0 0) NewCodec ∅ (mkConn (register user_handler initServer).2 user_socket2 0%nat).
Definition user_conn2 : net_conn := connection [nc_out (hs_conn (cn_socket user_served2.2))].

Lemma user_handles :
  handles user_handler user_server [] user_address [] [] user_config [] initServer (lit "Get") (register user_handler initServer).2.
Proof.
  split; try reflexivity; try by constructor.
  - apply NoDup_singleton.
  - constructor; [|constructor]. apply (bool_decide_unpack _). vm_compute. exact I.
Qed.

Lemma user_announces : announces (registry1 ∅) server1 client1 0%nat user_conf (lit "h") (lit "1") user_consumer client1 0%nat.
Proof.
  split.
  - apply registry1_connected.
  - split; first [vm_compute; reflexivity|literal].
  - apply registry1_ok.
  - apply server1_open.
  - intros n. by apply server1_new.
  - exists ∅. split; [reflexivity|apply lookup_empty].
  - apply registry1_connected.
  - apply lookup_singleton_eq.
Qed.

Lemma user_ready : ready_client user_client user_config 0 0 0 60 100 101.
Proof.
  split.
  - by exists None, None.
  - by left.
  - by split.
  - reflexivity.
  - by split_and!.
  - apply new_client_at_rest.
  - by split_and!.
Qed.

Lemma user_runs :
  method_runs user_handler (request_arrives (lit "/com.User") user_fields2 user_body) (lit "Get") user_params 0%nat [] (Some user_params) 1%nat.
Proof.
  split; [|by apply utf8_ascii|by intros [? _]]. eexists Get, _, _, _, _. split; [by apply list_elem_of_singleton|].
  split; [reflexivity|]. split; [vm_compute; reflexivity|]. by repeat split.
Qed.

