(* ===== verification/Refused.v ===== *)
(** * Services that are registered again

    What becomes of the callers of a service that its provider registers for the second
    time, at another address or after a reconnection to zookeeper: the path in the
    second URL is none that the server knows. *)
From S2P Require Import Prelude.
From S2P Require Import Utf8 Registry Url Common Zookeeper ZkRegistry ZkAgree ZkRestart Selector Cache Pool Rpc Client.
From S2P Require Import Server ServerSafe Serve ServeSafe Json JsonText JsonCodec JsonCall JsonClient.
From S2P Require Import Http HttpText Net Transport TransportSafe HttpCall ClientOptions Calls Deployed.

Lemma utf8_app s t : utf8_text s -> utf8_text t -> utf8_text (s ++ t).
Proof.
  intros (rs & -> & Hr) (rt & -> & Ht). exists (rs ++ rt). split; [|by apply Forall_app].
  unfold encode_runes. by rewrite map_app, concat_app.
Qed.

(** An empty object, which the server puts beside its errors. *)
Lemma json_empty : json_text (lit "{}").
Proof.
  split; [by eexists _, _|]. intros [|fuel] c rest Hf _; [cbn in Hf; lia|reflexivity].
Qed.

Section Refused.
Context `{VS : Values} `{JV : !JsonValues} `{ET : ErrorText} `{UT : UnicodeTable} `{MR : MapRange} {A : Type}.
Context (snow stimeout : Z).
#[local] Instance server_socket2 : Socket httpTransportSocket := HttpSocket snow stimeout.
Abbreviation serve_pkg := (Serve.serve_pkg (A := A) (K := httpTransportSocket) NewCodec).

Definition cannot_find (service : bytes) : bytes := lit "rpc: can't find service " ++ service.

Lemma cannot_find_text service : utf8_text service -> utf8_text (cannot_find service) /\ unbraced (cannot_find service).
Proof.
  intros Hs. split; [|by intros [? _]]. apply utf8_app; [|exact Hs]. by apply utf8_ascii.
Qed.

(** A JSON-RPC request for a service that the server does not have. *)
Lemma json_refused codecs (rpc : rpcServer A) hd service method params id (a : A) sk sk' u :
  at_key hd (lit "Path") = service -> codecs !! json_type = None -> json_header hd -> utf8_text method -> method <> [] -> structured params -> 0 <= id < 2 ^ 63 ->
  service <> [] -> serviceMap rpc !! service = None -> utf8_text service ->
  is_nil invalidRequest = false -> marshal invalidRequest = inr u ->
  sock_Send ({[content_type := json_type]}, response_text (Itoa id) (Some u) (error_part (cannot_find service)) ++ [10]) sk = (Ret tt, sk') ->
  exists rpc', serve_pkg codecs (hd, request_text method params id ++ [10]) (mkConn rpc sk a) = (Ret false, mkConn rpc' sk' a)
    /\ table_of rpc' = table_of rpc.
Proof.
  intros <- Hcod [Hct Hpost Hpath] Hm Hmne Hp Hid Hne Hnone Hutf Hnil Hu Hsend.
  set (service := at_key hd (lit "Path")) in *. destruct (cannot_find_text service Hutf) as [He Hb].
  destruct (header_request method params id hd Hm Hp Hid Hpost) as (j & Eh & Hj).
  destruct (write_response j method params id service ∅ invalidRequest u (cannot_find service) Hj Hid Hnil Hu He Hb) as (j' & m' & Ew & Hw & Hh).
  eapply (serve_pkg_refused NewCodec codecs hd _ NewCodec j _ (Text (cannot_find service)) (Ret nil_value) j j' m').
  - rewrite Hct. by apply newCodec_json.
  - exact Eh.
  - unfold find_method. cbn [q_Service q_Method cm_Target cm_Method]. fold service. rewrite !bool_decide_eq_false_2 by done. cbn [orb].
    by rewrite Hnone.
  - cbn [sc_ReadBody JsonServerCodec]. unfold ReadBody. destruct Hj as [-> _]. reflexivity.
  - done.
  - exact Ew.
  - rewrite Hh, Hct, Hw. exact Hsend.
Qed.

(** The server's part over HTTP: nothing is called, and the error's text is the last
    answer. *)
Lemma refused_serves codecs rpc s (a : A) host path hd method params id u :
  let body := request_text method params id ++ [10] in
  let service := drop 1 path in
  codecs !! json_type = None -> structured params -> utf8_text method -> method <> [] -> 0 <= id < 2 ^ 63 ->
  hd !! content_type = Some json_type -> service <> [] -> good_peer host path hd ->
  serviceMap rpc !! service = None -> utf8_text service -> is_nil invalidRequest = false -> marshal invalidRequest = inr u ->
  new_socket s -> Z.of_nat (length body) < 2 ^ 63 -> concat (nc_in (hs_conn s)) = text_of host path hd body ->
  http_serves snow stimeout codecs rpc s a a (answer_of (received (singles hd) body) {[content_type := json_type]}
    (response_text (Itoa id) (Some u) (error_part (cannot_find service)) ++ [10])).
Proof.
  intros body service Hcod Hp Hm Hmne Hid Hct Hne Hg Hnone Hutf Hnil Hu (Hrd & Ho & Hq & Hc) Hlen Hin.
  assert (Hpath : at_key (request_arrives path hd body) (lit "Path") = service).
  { unfold at_key, request_arrives. by rewrite lookup_insert_ne, lookup_insert_eq. }
  rewrite <- (app_nil_r (text_of _ _ _ _)) in Hin.
  destruct (socket_receives snow stimeout s host path hd body [] Hrd (proj1 Hc) Hg Hlen Hin) as (c1 & E1 & Hm1).
  rewrite Hq in E1. cbn [default] in E1. pose proof (moved_ready _ _ _ _ Hm1 Hc) as Hc1.
  destruct (socket_sends snow stimeout (mkHttpSocket c1 (Some (mkRequest (lit "POST") (arrived path) (received (singles hd) body)))
    true (hs_once s) (hs_released s)) _ {[content_type := json_type]}
    (response_text (Itoa id) (Some u) (error_part (cannot_find service)) ++ [10]) Hc1 eq_refl json_type_plain) as (c2 & E2 & Hm2).
  destruct (json_refused codecs rpc (request_arrives path hd body) service method params id a _ _ u Hpath Hcod (arrives_json path hd body Hct Hne)
    Hm Hmne Hp Hid Hne Hnone Hutf Hnil Hu E2) as (rpc' & Es & _).
  eexists rpc', _. split; [by eapply (handlePkg_last NewCodec); [exact E1|exact Es]|].
  destruct (hs_closes (mkHttpSocket c2 (Some (mkRequest (lit "POST") (arrived path)
    (singles {[content_type := json_type]} ∪ received (singles hd) body))) true (hs_once s) (hs_released s))) as (Hco & Hcc & Hcr);
    [exact Ho|done|exact (moved_ready _ _ _ _ Hm2 Hc1)|].
  split; [|by split]. etransitivity; [exact Hco|]. cbn [hs_conn]. rewrite (mv_out _ _ _ _ Hm2). cbn [hs_conn]. by rewrite (mv_out _ _ _ _ Hm1).
Qed.

End Refused.

Section Again.
Context {W Conn Wch : Type} `{ZT : ZkTree W Conn Wch} `{PR : Process} `{R : MapRange} `{GR : Runtime}.
Context `{VS : Values} `{JV : !JsonValues} `{UT : UnicodeTable} `{ET : ErrorText} {A : Type}.
Context (snow stimeout cnow ctimeout : Z) (nil_is_nil : is_nil nil_value = true).


End Again.

(** ** The deployment of [Deployed] after zookeeper has lost the provider's node *)

#[local] Existing Instances RawValues RawJson AsciiTable NoText HostAddresses0.

Definition counted : gmap bytes Z := {[lit "com.User" := 1]}.
Definition registered : outcome unit * (provider * Zookeeper.server) :=
  provider_Register (IfProvider user_conf) (mkProviderRegistry (registry1 ∅) counted, server1).
Definition again_found : ServiceURL :=
  match (GetServices (IfConfig user_config) (user_consumer, registered.2.2)).1 with Ret (url :: _) => url | _ => user_service end.
Definition again_socket : httpTransportSocket :=
  initHTTPTransportSocket (connection [text_of (lit "h:1") (lit "/com.User1") (json_fields ∅ (request_timeout again_found Second)) user_body]).
Definition again_served : outcome unit * conn (K := httpTransportSocket) (A := nat) :=
  Serve.handlePkg (SK := HttpSocket 0 0) NewCodec ∅ (mkConn (register user_handler initServer).2 again_socket 0%nat).
Definition again_conn : net_conn := connection [nc_out (hs_conn (cn_socket again_served.2))].

